(* ===== verification/_CoqProject ===== *)
-Q . S2P
Prelude.v
CText.v
Gid.v
Verbs.v
Mock.v
HugePage.v
ExchDest.v
QpProtocol.v
RdmaContext.v
RdmaOps.v
SessionRing.v
RwExchange.v
RdmaConnect.v
Session.v
SessionBulk.v
MemoryManager.v
SynMsg.v
Infiniband.v
ConnectedSocket.v
SocketRead.v
ResourceManager.v
Adapter.v
RdmaStack.v
TxLifetime.v
Workers.v
Accessors.v
SessionLife.v
Stream.v
Drivers.v
Transfer.v
Copiers.v
