(* ===== verification/Prelude.v ===== *)
(** * workd: messaging over RDMA, in two stacks

    The repository holds two programs. debug/ is a C and C++ program that joins
    two hosts by one reliable queue pair each, connected over TCP, and moves
    memory between them: a connection ([rdma_context]), a session on it
    ([rdma_session]), a portal that accepts sessions, and driver programs. rdma/ is
    a transport for Ceph's asynchronous messenger that was grown out of it: the
    [Infiniband] adapter object with its pools of registered chunks, sockets over
    queue pairs that are connected by datagrams, workers and a stack. This
    development models both, function by function, and proves what they do.

    ** How the code is read

    - Calls to libibverbs, to sockets and to the allocator are calls to code
      outside the repository. Verbs names each of them ([call]) with the type of
      its answer; the class [Env] is any behaviour that answers them from a world
      state. A function of the program is a computation [M (St W) A] over that
      world, over the trace of the calls made with their answers, and over the
      [size_t] cells the huge page allocator keeps; C++ functions that change an
      object take it and return it. Outcomes ([outcome], below) are a return, a
      failed assert, undefined behaviour, or a loop whose fuel ran out; none is
      identified with another.
    - What the theorems need of the libraries is a class of its own, and named:
      [Verbs.HostEnv] (ranges of the types of the interface),
      [SessionBulk.Adapter] (a send queue that completes what was posted),
      [SocketRead.CqAdapter] (a completion queue that hands out what is pending, and
      memory that only the fabric changes; when the channel has an event is not part
      of it, theorems about waiting say it: [SocketRead.event_within]), [Drivers.ReadEnv] (read(2) answers at most what it was asked for). Theorems
      without such a class hold in every environment. Mock is a scripted
      environment, in which the witnesses run the definitions.
    - Integers are [Z], at their width: [u8] ... [u64], [i32], [i64] are applied
      where the code converts or wraps. Memory is a list of bytes whose accesses
      are checked ([buf_read], [buf_write]); an access out of bounds is undefined
      behaviour. Uninitialised memory is an argument of the definition, so that
      theorems hold whatever it contained. Objects of rdma/ that several owners
      share (chunks, devices) live in a store and are named by their handle.
    - Format strings are interpreted, not assumed: CText has [sprintf] and
      [sscanf] for the conversions in use, and the strings in the model are the
      strings in the code.

    ** The files

    Shared.
    - Prelude: integers, the monad, total, partial and safe correctness of a
      computation ([returns], [if_returns], [safe]), buffers, automation.
    - CText: formatted text. Gid: GIDs on the wire, for hosts of either byte
      order (debug/pingpong.c, and the same functions in rdma/Infiniband.cc).
    - Verbs: the boundary, resources held by a trace ([leaves_held]). Mock.
    - QpProtocol: the abstract specification both stacks are proved against, the
      state machine of a reliable queue pair with the attributes each transition
      requires ([qp_run]).

    debug/.
    - HugePage: huge_page.c. ExchDest: the connection message. RdmaContext:
      [init_rdma_context], [rdma_connect_ctx], [rdma_close_ctx], memory regions.
      RdmaOps: posting and [rdma_query_cq]. RdmaConnect: the TCP exchange and
      [create_context], all of rdma_socket.c.
    - SessionRing: [rdma_session::read] over the ring of receive slots.
      RwExchange: the text of the window list. Session: the other methods of
      rdma_session.cpp and rdma_portal.cpp. SessionBulk: the bulk transfer
      against an adapter. SessionLife: the resources of a session from [reg_mem]
      to [close], and what becomes of its constructors.
    - Drivers: the loops of the test programs (pattern, check, image, collect).
      Transfer: client and server of xx.cpp. Copiers: cpyread.cpp, regread.cpp and
      migration.cpp, over the two functions they call that no file defines.

    rdma/.
    - MemoryManager: chunks and clusters (Infiniband.h). SynMsg: [IBSYNMsg],
      [send_udp_msg], [recv_udp_msg] (Infiniband.cc). Infiniband: completion
      channels and queues, queue pairs, the shared receive queue. Adapter: the
      constructor of [Infiniband], which joins these.
    - ResourceManager: ResourceManager.h.
    - ConnectedSocket ([activate], [send]) and SocketRead ([read]):
      RDMAConnectedSocketImpl.cc.
    - RdmaStack: listening sockets, workers, the stack (RDMAServerSocketImpl.cc,
      RDMAStack.cc, RDMAStack.h).
    - TxLifetime: sends and completions of the transmit side in any order, as a
      transition system over the operations of the two files before.
    - Workers: the threads of a stack. [spawn_workers] and [join_workers], the
      interleaving of the threads' operations on the one adapter they share, and,
      below whole operations, the interleaving of the statements of [get_buffers].
    - Accessors: getters, empty hooks and destructors of these classes.
    - Stream: a whole connection. One socket's [send] and completions, the wire,
      the arrivals in the other's posted chunks and its [read] are the steps of one
      system, which is proved to refine an abstract byte stream.

    ** What is proved

    - Connections. Two ends that went through [create_context]
      ([RdmaConnect.connected_pair]) or through [connect] and [accept]
      ([RdmaStack.rdma_handshake]) hold each other's data and their queue pairs
      are addressed to each other in RTS. Each end's calls are a run of
      QpProtocol's machine ([RdmaContext.qp_reaches_rts],
      [ConnectedSocket.activate_reaches_rts]). The messages survive the text
      ([ExchDest.info_roundtrip], [SynMsg.syn_roundtrip],
      and [RwExchange.rw_exchange_roundtrip], which also says by how much the
      program's buffers are too short for it); [SynMsg.send_udp_msg_spec] bounds the
      attempts of a send.
    - Data, end to end. [Stream.connection_is_stream]: whatever the order of the
      operations of both ends, as long as every read asks for more than has arrived,
      the bytes accepted are the bytes read, then those that have arrived, then
      those on the wire. [Transfer.xx_transfer]: given a session that is ready, the
      client of xx.cpp sends its pattern block by block, never writes to a buffer
      that is being sent, and the server's check accepts it.
    - Data, each operation. [SessionBulk.bulk_transfer]: the whole buffer is written, in order,
      to the windows in turn, and everything is released.
      [ConnectedSocket.send_posts]: one chain with the fewest chunks holding
      exactly the caller's bytes. [SocketRead.read_delivers]: the bytes of the
      messages, cut at the length asked for; [SocketRead.read_stale]: what a later
      read makes of a chunk that was kept. [SessionRing.read_body_stream]:
      the ring walk equals the concatenation of the slots.
      [RdmaOps.rdma_query_cq_spec], [Session.post_recv_slots],
      [Session.query_sr_slots], [Infiniband.post_channel_cluster_posts].
      [Drivers.pattern_verified]: the test program tests equality.
    - Resources. [RdmaContext.init_rdma_context_resources] and
      [RdmaContext.context_lifecycle] account for every object on every path,
      [HugePage.huge_pages_lifecycle] for the blocks,
      [SessionLife.session_lifecycle] for the buffers of a session;
      [Adapter.new_infiniband_ready], [MemoryManager.cluster_add],
      [MemoryManager.get_buffers_spec] and [MemoryManager.chunk_write_read] for
      the chunks; [TxLifetime.tx_reachable_pool],
      [Workers.workers_share_pool] (for any number of threads, from the adapter
      [Workers.new_adapter_at_rest] constructs) and
      [RdmaStack.handle_tx_event_returns] for their way through the transmit
      side; [Infiniband.cq_events_acked] for the events to acknowledge.
    - Errors and limits. The theorems of kind error and bounds state what the
      code does where it does not do what it means to: a buffer one byte short, on
      the path of every constructor ([SessionLife.init_never_completes]; also
      [ExchDest.info_overflow], [Copiers.regread_overruns]), a read that never
      delivers ([Session.read_never_delivers], and so
      [Drivers.server_never_receives] and [Copiers.copy_loop_one_block]), a wait that
      spins without an event ([SocketRead.read_spins]), sending from the receive pool
      ([Adapter.tx_buffers_are_posted]), a channel destroyed twice
      ([Infiniband.create_comp_channel_error]), workers that are given the same
      chunks ([Workers.get_buffers_unlocked]), and so on.

    ** Fuel

    Loops that the code bounds recurse on that bound. Loops that wait for the
    outside (the polls of [rdma_query_cq], [drain], [tx_drain], the retries of
    [accept], the reads of [collect], the wait for an event) take fuel, and the
    theorems about them say how much is enough: more than the number of attempts
    that find no event, more than the number of empty polls, more than the number
    of pending completions plus the two rounds around the re-arming, more than the
    size of the pool; [SocketRead.drain_poll_error] shows that for a failing queue
    no fuel is. [Cluster::add] takes one step for a chunk.

    ** Not modelled

    - Logging, progress output and timing (gettimeofday and the figures printed
      from it), the diagnostics that print a GID with inet_ntop, [perror].
    - The parsing of the command line of the drivers: their arguments are arguments
      of the definitions. cpyread.cpp, regread.cpp and migration.cpp call
      [send_blocking] and [roce_name], which no file defines: both are parameters
      of Copiers. [rdma_session::post_bufs], [QueuePair::to_reset],
      [QueuePair::to_dead] and [RDMAConnectedSocketImpl::poll_cq] are declared
      and not defined.
    - Ceph's side of the interface: [NetworkStack], the event loop that calls the
      operations of a worker (a thread is the list of them), bufferlists beyond the
      sequence of their pieces, entity addresses beyond the value handed to the
      socket calls. [get_str_vec] and [strict_strtol] are arguments of
      [RdmaStack.parse_cores].
    - What C leaves undefined is an outcome of its own ([Undef]), except for the
      32-bit count that [query_sr] gives to a ["%ld"]: what that fetches is an
      argument of [Session.query_sr].
    - The memory model of C++ below whole operations: TxLifetime, Workers and Stream
      have every order of whole operations, and [Workers.get_buffers_unlocked] says
      what happens to the pool where the program does not guarantee that they are
      whole, with single accesses still taken to be atomic.
    - Prototypes, [typedef]s, and the constructor of [QueuePair] for a mock class
      that the repository does not have. *)
From Stdlib Require Import String Ascii.
From Stdlib Require Export ZArith Lia.
From stdpp Require Export base list numbers option.

Open Scope Z_scope.

(** ** Scope of the development's notations *)

Declare Scope c_scope.
Delimit Scope c_scope with c.
Open Scope c_scope.

(** ** Machine integers

    A C integer is a [Z]; the conversions and the wrap-around of the unsigned
    types are written out where the code performs them. *)

Definition u8 (x : Z) : Z := x mod 2 ^ 8.
Definition u16 (x : Z) : Z := x mod 2 ^ 16.
Definition u32 (x : Z) : Z := x mod 2 ^ 32.
Definition u64 (x : Z) : Z := x mod 2 ^ 64.

(** Conversion to a two's complement [int]. *)
Definition i32 (x : Z) : Z :=
  let y := x mod 2 ^ 32 in if y <? 2 ^ 31 then y else y - 2 ^ 32.

(** Conversion to a two's complement [long]/[ssize_t]. *)
Definition i64 (x : Z) : Z :=
  let y := x mod 2 ^ 64 in if y <? 2 ^ 63 then y else y - 2 ^ 64.

(** ** Outcomes of a C computation

    [Ret] is a normal return, [AssertFail] an [assert] that aborts the process,
    [Undef] undefined behaviour (an access out of bounds, a NULL dereference,
    an uninitialised read), [OutOfFuel] a loop that has not ended yet. *)

Inductive outcome (A : Type) : Type :=
  | Ret (a : A)
  | AssertFail
  | Undef
  | OutOfFuel.
Arguments Ret {_} _.
Arguments AssertFail {_}.
Arguments Undef {_}.
Arguments OutOfFuel {_}.

(** Stateful computations: the state is threaded explicitly and survives an
    abnormal outcome, so that a theorem can speak of what was done before. *)
Definition M (S A : Type) : Type := S -> outcome A * S.

Definition ret {S A} (a : A) : M S A := fun s => (Ret a, s).

Definition bind {S A B} (m : M S A) (k : A -> M S B) : M S B := fun s =>
  match m s with
  | (Ret a, s') => k a s'
  | (AssertFail, s') => (AssertFail, s')
  | (Undef, s') => (Undef, s')
  | (OutOfFuel, s') => (OutOfFuel, s')
  end.

Definition undef {S A} : M S A := fun s => (Undef, s).
Definition assert_fail {S A} : M S A := fun s => (AssertFail, s).
Definition out_of_fuel {S A} : M S A := fun s => (OutOfFuel, s).
Definition get {S} : M S S := fun s => (Ret s, s).
Definition put {S} (s : S) : M S unit := fun _ => (Ret tt, s).
Definition modify {S} (f : S -> S) : M S unit := fun s => (Ret tt, f s).

(** A pointer that must be valid: [None] (NULL, out of bounds) is undefined. *)
Definition deref {S A} (o : option A) : M S A :=
  match o with Some a => ret a | None => undef end.

(** [assert(b)]. *)
Definition c_assert {S} (b : bool) : M S unit := if b then ret tt else assert_fail.

Notation "'let*' x ':=' c 'in' k" := (bind c (fun x => k))
  (at level 10, x pattern, c at level 100, k at level 200, format "'let*'  x  ':='  c  'in' '//' k") : c_scope.
Notation "c ;;; k" := (bind c (fun _ => k))
  (at level 199, right associativity, format "c  ;;; '//' k") : c_scope.

Lemma bind_ret {S A B} (a : A) (k : A -> M S B) s : bind (ret a) k s = k a s.
Proof. reflexivity. Qed.

Lemma bind_bind {S A B C} (m : M S A) (f : A -> M S B) (g : B -> M S C) s :
  bind (bind m f) g s = bind m (fun a => bind (f a) g) s.
Proof. unfold bind. destruct (m s) as [[] ?]; reflexivity. Qed.

(** Inversion of a computation that returned: the workhorse of the proofs that
    start from "the call returned [b]". *)
Lemma bind_Ret_inv {S A B} (m : M S A) (k : A -> M S B) s b s' :
  bind m k s = (Ret b, s') ->
  exists a s1, m s = (Ret a, s1) /\ k a s1 = (Ret b, s').
Proof.
  unfold bind. destruct (m s) as [[] s1] eqn:E; intros H; try discriminate H.
  eauto.
Qed.

Lemma ret_Ret_inv {S A} (a b : A) (s s' : S) :
  ret a s = (Ret b, s') -> a = b /\ s = s'.
Proof. unfold ret. intros [= -> ->]. auto. Qed.

(** ** Total correctness

    [returns m s Q]: run from [s], [m] returns normally, with a result and a
    final state that satisfy [Q]. *)

Definition returns {S A} (m : M S A) (s : S) (Q : A -> S -> Prop) : Prop :=
  match m s with (Ret a, s') => Q a s' | _ => False end.

Section Returns.
Context {S A B : Type}.
Implicit Types (s : S).

Lemma returns_ret (a : A) s (Q : A -> S -> Prop) : Q a s -> returns (ret a) s Q.
Proof. exact id. Qed.

Lemma returns_bind (m : M S A) (k : A -> M S B) s (Q : B -> S -> Prop) :
  returns m s (fun a s' => returns (k a) s' Q) -> returns (bind m k) s Q.
Proof. unfold returns, bind. destruct (m s) as [[] ?]; auto. Qed.

Lemma returns_conseq (m : M S A) s (P Q : A -> S -> Prop) :
  returns m s P -> (forall a s', P a s' -> Q a s') -> returns m s Q.
Proof. unfold returns. destruct (m s) as [[] ?]; auto. Qed.

Lemma returns_deref (o : option A) a s (Q : A -> S -> Prop) :
  o = Some a -> Q a s -> returns (deref o) s Q.
Proof. intros ->. exact id. Qed.

Lemma returns_inv (m : M S A) s (Q : A -> S -> Prop) :
  returns m s Q -> exists a s', m s = (Ret a, s') /\ Q a s'.
Proof. unfold returns. destruct (m s) as [[] ?]; [eauto|tauto..]. Qed.

Lemma returns_intro (m : M S A) s a s' (Q : A -> S -> Prop) :
  m s = (Ret a, s') -> Q a s' -> returns m s Q.
Proof. unfold returns. intros ->. exact id. Qed.

(** Partial correctness: if [m] returns normally from [s], [Q] holds. *)
Definition if_returns (m : M S A) s (Q : A -> S -> Prop) : Prop :=
  match m s with (Ret a, s') => Q a s' | _ => True end.

Lemma if_returns_ret (a : A) s (Q : A -> S -> Prop) : Q a s -> if_returns (ret a) s Q.
Proof. exact id. Qed.

Lemma if_returns_conseq (m : M S A) s (P Q : A -> S -> Prop) :
  if_returns m s P -> (forall a s', P a s' -> Q a s') -> if_returns m s Q.
Proof. unfold if_returns. destruct (m s) as [[] ?]; auto. Qed.

Lemma if_returns_deref (o : option A) s (Q : A -> S -> Prop) :
  (forall a, o = Some a -> Q a s) -> if_returns (deref o) s Q.
Proof. intros HQ. destruct o; [apply HQ; reflexivity|exact I]. Qed.

Lemma if_returns_undef s (Q : A -> S -> Prop) : if_returns undef s Q.
Proof. exact I. Qed.

Lemma if_returns_elim (m : M S A) s (Q : A -> S -> Prop) a s' :
  if_returns m s Q -> m s = (Ret a, s') -> Q a s'.
Proof. unfold if_returns. intros HQ E. rewrite E in HQ. exact HQ. Qed.

Lemma if_returns_and (m : M S A) s (P Q : A -> S -> Prop) :
  if_returns m s P -> if_returns m s Q -> if_returns m s (fun a s' => P a s' /\ Q a s').
Proof. unfold if_returns. destruct (m s) as [[] ?]; auto. Qed.

Lemma returns_if_returns (m : M S A) s (Q : A -> S -> Prop) : returns m s Q -> if_returns m s Q.
Proof. unfold returns, if_returns. destruct (m s) as [[] ?]; auto. Qed.

(** Safety: [m] returns with [Q] or stops at an [assert]; no undefined behaviour,
    and the fuel is enough. *)
Definition safe (m : M S A) s (Q : A -> S -> Prop) : Prop :=
  match m s with (Ret a, s') => Q a s' | (AssertFail, _) => True | _ => False end.

Lemma safe_ret (a : A) s (Q : A -> S -> Prop) : Q a s -> safe (ret a) s Q.
Proof. exact id. Qed.

Lemma safe_conseq (m : M S A) s (P Q : A -> S -> Prop) :
  safe m s P -> (forall a s', P a s' -> Q a s') -> safe m s Q.
Proof. unfold safe. destruct (m s) as [[] ?]; auto. Qed.

Lemma safe_assert_fail s (Q : A -> S -> Prop) : safe assert_fail s Q.
Proof. exact I. Qed.

Lemma returns_safe (m : M S A) s (Q : A -> S -> Prop) : returns m s Q -> safe m s Q.
Proof. unfold returns, safe. destruct (m s) as [[] ?]; auto. Qed.

Lemma safe_elim (m : M S A) s (Q : A -> S -> Prop) a s' :
  safe m s Q -> m s = (Ret a, s') -> Q a s'.
Proof. unfold safe. intros HQ E. rewrite E in HQ. exact HQ. Qed.
End Returns.

Lemma if_returns_bind {S A B} (m : M S A) (k : A -> M S B) s (Q : B -> S -> Prop) :
  if_returns m s (fun a s' => if_returns (k a) s' Q) -> if_returns (bind m k) s Q.
Proof. unfold if_returns, bind. destruct (m s) as [[] ?]; auto. Qed.

(** A prefix whose outcome does not matter. *)
Lemma if_returns_any {S A B} (m : M S A) (k : A -> M S B) s (Q : B -> S -> Prop) :
  (forall a s', if_returns (k a) s' Q) -> if_returns (bind m k) s Q.
Proof. intros Hk. unfold if_returns, bind. destruct (m s) as [[a| | |] s']; auto. apply Hk. Qed.

Lemma safe_bind {S A B} (m : M S A) (k : A -> M S B) s (Q : B -> S -> Prop) :
  safe m s (fun a s' => safe (k a) s' Q) -> safe (bind m k) s Q.
Proof. unfold safe, bind. destruct (m s) as [[] ?]; auto. Qed.

Lemma safe_c_assert {S} b (s : S) (Q : unit -> S -> Prop) :
  (b = true -> Q tt s) -> safe (c_assert b) s Q.
Proof. destruct b; [intros HQ; exact (HQ eq_refl)|intros _; exact I]. Qed.

Lemma if_returns_c_assert {S} b (s : S) (Q : unit -> S -> Prop) :
  (b = true -> Q tt s) -> if_returns (c_assert b) s Q.
Proof. destruct b; [intros HQ; exact (HQ eq_refl)|intros _; exact I]. Qed.

Lemma if_returns_assert_fail {S A} (s : S) (Q : A -> S -> Prop) : if_returns assert_fail s Q.
Proof. exact I. Qed.

(** ** Strings and buffers

    A byte or [char] is a [Z] in [0, 256); a buffer is the list of its bytes.
    Reads and writes check the bounds and answer [None] outside of them. *)

Definition zlen {A} (l : list A) : Z := Z.of_nat (length l).

Definition slice {A} (off len : Z) (b : list A) : list A :=
  take (Z.to_nat len) (drop (Z.to_nat off) b).

Definition in_bounds {A} (off len : Z) (b : list A) : bool :=
  (0 <=? off) && (0 <=? len) && (off + len <=? zlen b).

Definition buf_read (off len : Z) (b : list Z) : option (list Z) :=
  if in_bounds off len b then Some (slice off len b) else None.

Definition buf_write (off : Z) (data b : list Z) : option (list Z) :=
  if in_bounds off (zlen data) b
  then Some (take (Z.to_nat off) b ++ data ++ drop (Z.to_nat (off + zlen data)) b)
  else None.

Definition is_byte (x : Z) : Prop := 0 <= x < 256.

(** The characters of a string literal, without the terminating NUL. *)
Definition chars (s : string) : list Z :=
  map (fun a => Z.of_N (Ascii.N_of_ascii a)) (list_ascii_of_string s).

Section Buffers.
Context {A : Type}.
Implicit Types b l d : list A.

Lemma zlen_nonneg l : 0 <= zlen l.
Proof. unfold zlen. lia. Qed.

Lemma zlen_app l1 l2 : zlen (l1 ++ l2) = zlen l1 + zlen l2.
Proof. unfold zlen. rewrite length_app. lia. Qed.

Lemma zlen_nil : zlen (@nil A) = 0.
Proof. reflexivity. Qed.

Lemma zlen_cons (x : A) l : zlen (x :: l) = 1 + zlen l.
Proof. unfold zlen. cbn [length]. lia. Qed.

Lemma zlen_take n l : 0 <= n <= zlen l -> zlen (take (Z.to_nat n) l) = n.
Proof. unfold zlen. rewrite length_take. lia. Qed.

Lemma zlen_slice off len b :
  0 <= off -> 0 <= len -> off + len <= zlen b -> zlen (slice off len b) = len.
Proof. unfold slice, zlen. rewrite length_take, length_drop. lia. Qed.

Lemma in_bounds_spec off len b :
  in_bounds off len b = true <-> 0 <= off /\ 0 <= len /\ off + len <= zlen b.
Proof. unfold in_bounds. rewrite !andb_true_iff, !Z.leb_le. tauto. Qed.

Lemma slice_0 off b : slice off 0 b = [].
Proof. reflexivity. Qed.

Lemma slice_full b n : n = zlen b -> slice 0 n b = b.
Proof.
  intros ->. unfold slice, zlen. rewrite Nat2Z.id. apply firstn_all.
Qed.

(** Two adjacent slices join. *)
Lemma slice_app off n m b :
  0 <= off -> 0 <= n -> 0 <= m ->
  slice off n b ++ slice (off + n) m b = slice off (n + m) b.
Proof.
  intros. unfold slice.
  rewrite (Z2Nat.inj_add off n), (Z2Nat.inj_add n m) by lia.
  rewrite <- drop_drop, take_take_drop. reflexivity.
Qed.

(** A prefix of a slice. *)
Lemma take_slice off n m b :
  0 <= n <= m -> take (Z.to_nat n) (slice off m b) = slice off n b.
Proof. intros. unfold slice. rewrite take_take. f_equal. lia. Qed.

Lemma slice_slice off n o m b :
  0 <= off -> 0 <= o -> 0 <= m -> o + m <= n ->
  slice o m (slice off n b) = slice (off + o) m b.
Proof.
  intros. unfold slice. rewrite skipn_firstn_comm, take_take, drop_drop.
  f_equal; [lia|]. f_equal. lia.
Qed.
End Buffers.

Lemma buf_read_Some off len b d :
  buf_read off len b = Some d <->
  (0 <= off /\ 0 <= len /\ off + len <= zlen b) /\ d = slice off len b.
Proof.
  unfold buf_read. destruct (in_bounds off len b) eqn:E.
  - apply in_bounds_spec in E. split; [intros [= <-]|intros [_ ->]]; auto.
  - split; [discriminate|]. intros [H _].
    apply in_bounds_spec in H. congruence.
Qed.

Lemma buf_read_in off len b :
  0 <= off -> 0 <= len -> off + len <= zlen b -> buf_read off len b = Some (slice off len b).
Proof. intros. apply buf_read_Some. auto. Qed.

Lemma buf_write_Some off d b b' :
  buf_write off d b = Some b' <->
  (0 <= off /\ off + zlen d <= zlen b) /\
  b' = take (Z.to_nat off) b ++ d ++ drop (Z.to_nat (off + zlen d)) b.
Proof.
  unfold buf_write. pose proof (zlen_nonneg d).
  destruct (in_bounds off (zlen d) b) eqn:E.
  - apply in_bounds_spec in E. split; [intros [= <-]|intros [_ ->]]; auto.
    split; [lia|reflexivity].
  - split; [discriminate|]. intros [H' _].
    assert (in_bounds off (zlen d) b = true) by (apply in_bounds_spec; lia).
    congruence.
Qed.

Lemma buf_write_zlen off d b b' : buf_write off d b = Some b' -> zlen b' = zlen b.
Proof.
  intros [? ->]%buf_write_Some. unfold zlen in *.
  rewrite !length_app, length_take, length_drop. lia.
Qed.

(** Appending at the cursor of an output buffer: the prefix already written is
    kept and extended. *)
Lemma buf_write_prefix off d b b' :
  buf_write off d b = Some b' ->
  take (Z.to_nat (off + zlen d)) b' = take (Z.to_nat off) b ++ d.
Proof.
  intros [? ->]%buf_write_Some. rewrite app_assoc.
  rewrite firstn_app.
  replace (Z.to_nat (off + zlen d) - _)%nat with 0%nat
    by (rewrite length_app, length_take; unfold zlen in *; lia).
  rewrite firstn_O, app_nil_r. apply firstn_all2.
  rewrite length_app, length_take. unfold zlen in *. lia.
Qed.

(** Overwriting the middle of a buffer. *)
Lemma buf_write_app pre d old post :
  zlen d = zlen old ->
  buf_write (zlen pre) d (pre ++ old ++ post) = Some (pre ++ d ++ post).
Proof.
  intros Hd. apply buf_write_Some. rewrite !zlen_app.
  pose proof (zlen_nonneg pre). pose proof (zlen_nonneg post). split; [lia|].
  replace (Z.to_nat (zlen pre + zlen d)) with (length (pre ++ old))
    by (rewrite length_app; unfold zlen in *; lia).
  unfold zlen. rewrite Nat2Z.id, take_app_length.
  rewrite (app_assoc pre old post), drop_app_length. reflexivity.
Qed.

(** Overwriting all of a buffer. *)
Lemma buf_write_full d b : zlen d = zlen b -> buf_write 0 d b = Some d.
Proof.
  intros Hd. pose proof (buf_write_app [] d b [] Hd) as Hw. cbn [app] in Hw.
  rewrite !app_nil_r in Hw. exact Hw.
Qed.

(** Splitting a list of at least [n] elements. *)
Lemma split_at {A} n (l : list A) :
  (n <= length l)%nat -> exists a b, l = a ++ b /\ length a = n.
Proof.
  intros. exists (take n l), (drop n l). rewrite take_drop, length_take. split; [reflexivity|lia].
Qed.

(** Appending at the cursor: [out] has been written over the front of [b0]. *)
Lemma buf_write_cursor out d b0 :
  zlen out + zlen d <= zlen b0 ->
  buf_write (zlen out) d (out ++ drop (length out) b0)
  = Some ((out ++ d) ++ drop (length (out ++ d)) b0).
Proof.
  intros H. destruct (split_at (length d) (drop (length out) b0)) as (old & post & E & Hold).
  { rewrite length_drop. unfold zlen in H. lia. }
  rewrite E, buf_write_app by (unfold zlen; lia). f_equal.
  rewrite <- app_assoc. do 2 f_equal. rewrite length_app, <- drop_drop, E, <- Hold.
  symmetry. apply drop_app_length.
Qed.

(** ** Automation *)

Create HintDb cint.
Create Rewrite HintDb zlen.

Lemma u32_range x : 0 <= u32 x < 2 ^ 32.
Proof. unfold u32. apply Z.mod_pos_bound. lia. Qed.
Lemma u64_range x : 0 <= u64 x < 2 ^ 64.
Proof. unfold u64. apply Z.mod_pos_bound. lia. Qed.
Lemma u16_range x : 0 <= u16 x < 2 ^ 16.
Proof. unfold u16. apply Z.mod_pos_bound. lia. Qed.
Lemma u8_range x : 0 <= u8 x < 2 ^ 8.
Proof. unfold u8. apply Z.mod_pos_bound. lia. Qed.

Lemma u8_small x : 0 <= x < 2 ^ 8 -> u8 x = x.
Proof. unfold u8. intros. apply Z.mod_small. lia. Qed.
Lemma u16_small x : 0 <= x < 2 ^ 16 -> u16 x = x.
Proof. unfold u16. intros. apply Z.mod_small. lia. Qed.
Lemma u32_small x : 0 <= x < 2 ^ 32 -> u32 x = x.
Proof. unfold u32. intros. apply Z.mod_small. lia. Qed.
Lemma u64_small x : 0 <= x < 2 ^ 64 -> u64 x = x.
Proof. unfold u64. intros. apply Z.mod_small. lia. Qed.
Lemma i32_small x : 0 <= x < 2 ^ 31 -> i32 x = x.
Proof.
  unfold i32. intros. rewrite Z.mod_small by lia.
  destruct (Z.ltb_spec x (2 ^ 31)); lia.
Qed.

#[export] Hint Resolve u8_range u16_range u32_range u64_range : cint.
#[export] Hint Rewrite @zlen_app @zlen_nil @zlen_cons : zlen.

(** Boolean tests of the code turned into the facts they decide. *)
Ltac bool_to_prop :=
  repeat match goal with
  | H : (_ =? _) = true |- _ => apply Z.eqb_eq in H
  | H : (_ =? _) = false |- _ => apply Z.eqb_neq in H
  | H : (_ <? _) = true |- _ => apply Z.ltb_lt in H
  | H : (_ <? _) = false |- _ => apply Z.ltb_ge in H
  | H : (_ <=? _) = true |- _ => apply Z.leb_le in H
  | H : (_ <=? _) = false |- _ => apply Z.leb_gt in H
  | H : _ && _ = true |- _ => apply andb_true_iff in H; destruct H
  | H : _ || _ = false |- _ => apply orb_false_iff in H; destruct H
  | H : _ || _ = true |- _ => apply orb_true_iff in H; destruct H as [H|H]
  | H : _ && _ = false |- _ => apply andb_false_iff in H; destruct H as [H|H]
  | H : negb _ = true |- _ => apply negb_true_iff in H
  | H : negb _ = false |- _ => apply negb_false_iff in H
  end.

(** Case analysis on the conditions of the [if]s in the goal or a hypothesis,
    with the arithmetic fact of each. *)
Ltac case_if :=
  match goal with
  | |- context [if ?b then _ else _] => destruct b eqn:?
  | H : context [if ?b then _ else _] |- _ => destruct b eqn:?
  end; bool_to_prop.

(** Invert a computation that returned, one [bind] at a time. *)
Ltac inv_ret :=
  repeat match goal with
  | H : bind _ _ _ = (Ret _, _) |- _ =>
      let a := fresh "a" in let s := fresh "s" in
      let H1 := fresh "Hm" in let H2 := fresh "Hk" in
      apply bind_Ret_inv in H; destruct H as (a & s & H1 & H2)
  | H : ret _ _ = (Ret _, _) |- _ =>
      apply ret_Ret_inv in H; destruct H as [? ?]; subst
  | H : undef _ = (Ret _, _) |- _ => discriminate H
  | H : assert_fail _ = (Ret _, _) |- _ => discriminate H
  | H : out_of_fuel _ = (Ret _, _) |- _ => discriminate H
  end.
