(* ===== verification/CText.v ===== *)
(** The formatted input/output of the C library that the program's wire formats
    are made of: [sprintf] and [sscanf] with the conversions the sources use
    ([%x], [%u]/[%lu], [%d]/[%ld], [%s], field width, zero padding), given by an
    interpreter of the format string itself, and the print/scan round trips the
    protocol files build on. *)
From Stdlib Require Import String Ascii.
From S2P Require Import Prelude.
Open Scope Z_scope.

(** ** Format strings *)

Inductive conv := CvX | CvU | CvD | CvS.

Inductive dir :=
  | DChar (c : Z)
  | DConv (zero : bool) (width : option Z) (long : bool) (cv : conv).

Inductive pmode := PText | PSpec (zero : bool) (width : option Z) (long : bool).

Definition is_dec (c : Z) : bool := (48 <=? c) && (c <=? 57).

Definition conv_of (c : Z) : option conv :=
  if c =? 120 then Some CvX          (* 'x' *)
  else if c =? 117 then Some CvU     (* 'u' *)
  else if c =? 100 then Some CvD     (* 'd' *)
  else if c =? 115 then Some CvS     (* 's' *)
  else None.

Fixpoint parse_fmt (m : pmode) (s : list Z) : option (list dir) :=
  match s with
  | [] => match m with PText => Some [] | PSpec _ _ _ => None end
  | c :: s' =>
      match m with
      | PText =>
          if c =? 37                     (* '%' *)
          then parse_fmt (PSpec false None false) s'
          else cons (DChar c) <$> parse_fmt PText s'
      | PSpec z w l =>
          match w with
          | None =>
              if (c =? 48) && negb l then
                if z then None else parse_fmt (PSpec true None l) s'
              else if is_dec c && negb l then parse_fmt (PSpec z (Some (c - 48)) l) s'
              else if c =? 108 then parse_fmt (PSpec z None true) s'
              else cv ← conv_of c; cons (DConv z None l cv) <$> parse_fmt PText s'
          | Some n =>
              if is_dec c && negb l then
                parse_fmt (PSpec z (Some (10 * n + (c - 48))) l) s'
              else if c =? 108 then parse_fmt (PSpec z w true) s'
              else cv ← conv_of c; cons (DConv z w l cv) <$> parse_fmt PText s'
          end
      end
  end.

Definition format (f : string) : option (list dir) := parse_fmt PText (chars f).

(** ** sprintf *)

Inductive arg := AInt (n : Z) | AStr (s : list Z).

Definition digit_char (d : Z) : Z := if d <? 10 then 48 + d else 87 + d.

(** Digits of [n], most significant first; 64 digits hold any [unsigned long]
    in any base. *)
Fixpoint digits (fuel : nat) (base n : Z) : list Z :=
  match fuel with
  | O => []
  | S f =>
      if n <? base then [digit_char n]
      else digits f base (n / base) ++ [digit_char (n mod base)]
  end.

Definition print_uint (base n : Z) : list Z := digits 64 base n.

Definition pad (zero : bool) (width : option Z) (t : list Z) : list Z :=
  let w := match width with Some w => w | None => 0 end in
  replicate (Z.to_nat (w - zlen t)) (if zero then 48 else 32) ++ t.

Definition print_dir (d : dir) (args : list arg) : option (list Z * list arg) :=
  match d with
  | DChar c => Some ([c], args)
  | DConv z w l cv =>
      match args with
      | [] => None
      | a :: rest =>
          t ← match cv, a with
              | CvX, AInt n => Some (pad z w (print_uint 16 (if l then u64 n else u32 n)))
              | CvU, AInt n => Some (pad z w (print_uint 10 (if l then u64 n else u32 n)))
              | CvD, AInt n =>
                  let v := if l then i64 n else i32 n in
                  Some (pad z w (if v <? 0 then 45 :: print_uint 10 (- v) else print_uint 10 v))
              | CvS, AStr s => Some (pad z w s)
              | _, _ => None
              end;
          Some (t, rest)
      end
  end.

Fixpoint print_dirs (ds : list dir) (args : list arg) : option (list Z) :=
  match ds with
  | [] => Some []
  | d :: ds' => '(t, rest) ← print_dir d args; app t <$> print_dirs ds' rest
  end.

(** The text [sprintf] produces, without its terminating NUL. *)
Definition sprintf_text (f : string) (args : list arg) : option (list Z) :=
  ds ← format f; print_dirs ds args.

(** [sprintf(b + off, f, ...)]: the text and a NUL are stored in the buffer. *)
Definition sprintf (b : list Z) (off : Z) (f : string) (args : list arg) : option (list Z) :=
  t ← sprintf_text f args; buf_write off (t ++ [0]) b.

(** ** sscanf *)

Inductive sval := VNum (n : Z) | VStr (s : list Z).

Definition is_space (c : Z) : bool := (c =? 32) || ((9 <=? c) && (c <=? 13)).

Fixpoint skip_ws (s : list Z) : list Z :=
  match s with c :: s' => if is_space c then skip_ws s' else s | [] => [] end.

Definition digit_val (c : Z) : Z :=
  if (48 <=? c) && (c <=? 57) then c - 48
  else if (97 <=? c) && (c <=? 102) then c - 87
  else if (65 <=? c) && (c <=? 70) then c - 55
  else 255.

Definition is_digit (base c : Z) : bool := digit_val c <? base.

(** Value, number of digits and rest of the longest digit prefix, within the
    field's budget. *)
Fixpoint scan_digits (base : Z) (budget : nat) (acc : Z) (s : list Z) : Z * nat * list Z :=
  match budget, s with
  | S b, c :: s' =>
      if is_digit base c then
        let '(v, n, r) := scan_digits base b (acc * base + digit_val c) s' in (v, S n, r)
      else (acc, O, s)
  | _, _ => (acc, O, s)
  end.

Definition scan_sign (budget : nat) (s : list Z) : bool * nat * list Z :=
  match budget, s with
  | S b, c :: s' =>
      if c =? 45 then (true, b, s') else if c =? 43 then (false, b, s')
      else (false, budget, s)
  | _, _ => (false, budget, s)
  end.

(** The optional [0x] of a hexadecimal field. *)
Definition scan_prefix (base : Z) (budget : nat) (s : list Z) : nat * list Z :=
  match budget, s with
  | S (S b), c :: x :: s' =>
      if (base =? 16) && (c =? 48) && ((x =? 120) || (x =? 88)) then (b, s')
      else (budget, s)
  | _, _ => (budget, s)
  end.

(** [strtoul]: saturates at [ULONG_MAX]; a minus sign negates the result. *)
Definition scan_num (base : Z) (width : option Z) (s : list Z) : option (Z * list Z) :=
  let s0 := skip_ws s in
  let budget := match width with Some w => Z.to_nat w | None => length s0 end in
  let '(neg, b1, s1) := scan_sign budget s0 in
  let '(b2, s2) := scan_prefix base b1 s1 in
  let '(v, n, r) := scan_digits base b2 0 s2 in
  match n with
  | O => None
  | S _ =>
      let x := Z.min v (2 ^ 64 - 1) in
      Some (if neg && (v <? 2 ^ 64) then u64 (- x) else x, r)
  end.

Fixpoint take_word (budget : nat) (s : list Z) : list Z * list Z :=
  match budget, s with
  | S b, c :: s' =>
      if is_space c then ([], s)
      else let '(t, r) := take_word b s' in (c :: t, r)
  | _, _ => ([], s)
  end.

Definition scan_str (width : option Z) (s : list Z) : option (list Z * list Z) :=
  let s0 := skip_ws s in
  let budget := match width with Some w => Z.to_nat w | None => length s0 end in
  match take_word budget s0 with
  | ([], _) => None
  | (t, r) => Some (t, r)
  end.

(** The values stored, in order, up to the first directive that fails. *)
Fixpoint scan_dirs (ds : list dir) (s : list Z) : list sval :=
  match ds with
  | [] => []
  | DChar c :: ds' =>
      match s with
      | c' :: s' => if c' =? c then scan_dirs ds' s' else []
      | [] => []
      end
  | DConv _ w l CvX :: ds' =>
      match scan_num 16 w s with
      | Some (v, r) => VNum (if l then v else u32 v) :: scan_dirs ds' r
      | None => []
      end
  | DConv _ w l CvU :: ds' =>
      match scan_num 10 w s with
      | Some (v, r) => VNum (if l then v else u32 v) :: scan_dirs ds' r
      | None => []
      end
  | DConv _ _ _ CvD :: _ => []
  | DConv _ w _ CvS :: ds' =>
      match scan_str w s with
      | Some (t, r) => VStr t :: scan_dirs ds' r
      | None => []
      end
  end.

(** The C string a buffer holds: its bytes before the first NUL; without a NUL
    the read runs off the buffer. *)
Fixpoint c_string (b : list Z) : option (list Z) :=
  match b with
  | [] => None
  | c :: b' => if c =? 0 then Some [] else cons c <$> c_string b'
  end.

(** [sscanf(b, f, ...)]; [None]: the buffer holds no terminated string. *)
Definition sscanf (b : list Z) (f : string) : option (list sval) :=
  s ← c_string b; ds ← format f; Some (scan_dirs ds s).

(** ** Round trips *)

Create HintDb ctext.
Create Rewrite HintDb ctext_rw.

Definition all_digits (base : Z) (t : list Z) : Prop :=
  Forall (fun c => is_digit base c = true) t.

(** What may follow a number so that the scanner stops at its end. *)
Definition stops (base : Z) (r : list Z) : Prop :=
  match r with [] => True | c :: _ => is_digit base c = false /\ c <> 120 /\ c <> 88 end.

Definition num_value (base : Z) (t : list Z) : Z :=
  fold_left (fun a c => a * base + digit_val c) t 0.

Lemma digit_val_char d : 0 <= d < 16 -> digit_val (digit_char d) = d.
Proof.
  intros. unfold digit_char, digit_val.
  repeat case_if; lia.
Qed.

Lemma is_digit_char base d : base <= 16 -> 0 <= d < base -> is_digit base (digit_char d) = true.
Proof. intros. unfold is_digit. rewrite digit_val_char by lia. apply Z.ltb_lt. lia. Qed.

(** A digit is none of the characters the scanner treats specially. *)
Lemma is_digit_plain base c :
  base <= 16 -> is_digit base c = true ->
  is_space c = false /\ c <> 45 /\ c <> 43 /\ c <> 120 /\ c <> 88 /\ c <> 0 /\ c <> 58.
Proof.
  unfold is_digit, digit_val, is_space. intros Hb H.
  repeat split; try (intros ->; cbn in H; bool_to_prop; lia).
  destruct (Z.eqb_spec c 32) as [->|]; [cbn in H; bool_to_prop; lia|].
  destruct ((9 <=? c) && (c <=? 13)) eqn:E; [|reflexivity].
  bool_to_prop. exfalso. revert H. repeat case_if; intros; bool_to_prop; lia.
Qed.

Section Digits.
Variable base : Z.
Hypothesis Hbase : 2 <= base <= 16.

Lemma digits_all fuel n : 0 <= n -> all_digits base (digits fuel base n).
Proof.
  revert n. induction fuel as [|f IH]; intros n Hn; cbn [digits]; [constructor|].
  case_if.
  - repeat constructor. apply is_digit_char; lia.
  - apply Forall_app. split; [apply IH, Z.div_pos; lia|].
    repeat constructor. apply is_digit_char; [lia|]. apply Z.mod_pos_bound. lia.
Qed.

Lemma digits_value fuel n :
  0 <= n < base ^ Z.of_nat fuel -> num_value base (digits fuel base n) = n.
Proof.
  revert n. induction fuel as [|f IH]; intros n Hn.
  - cbn in *. lia.
  - cbn [digits]. case_if.
    + cbn. apply digit_val_char. lia.
    + unfold num_value in *. rewrite fold_left_app. rewrite IH.
      * cbn. rewrite digit_val_char
          by (pose proof (Z.mod_pos_bound n base); lia).
        pose proof (Z.div_mod n base). lia.
      * rewrite Nat2Z.inj_succ, Z.pow_succ_r in Hn by lia. split.
        -- apply Z.div_pos; lia.
        -- apply Z.div_lt_upper_bound; lia.
Qed.

Lemma digits_length fuel n k :
  0 <= n < base ^ Z.of_nat (S k) -> (length (digits fuel base n) <= S k)%nat.
Proof.
  revert n k. induction fuel as [|f IH]; intros n k Hn; cbn [digits]; [cbn; lia|].
  case_if; [cbn; lia|]. rewrite length_app. cbn [length].
  destruct k as [|k].
  - rewrite Z.pow_1_r in Hn. lia.
  - enough (length (digits f base (n / base)) <= S k)%nat by lia.
    apply IH. rewrite (Nat2Z.inj_succ (S k)), Z.pow_succ_r in Hn by lia. split.
    + apply Z.div_pos; lia.
    + apply Z.div_lt_upper_bound; lia.
Qed.

Lemma digits_nonempty fuel n : digits (S fuel) base n <> [].
Proof. cbn. case_if; [discriminate|]. intros [_ H]%app_eq_nil. discriminate. Qed.

Lemma scan_digits_spec t r budget acc :
  all_digits base t -> (length t <= budget)%nat ->
  (budget = length t \/ stops base r) ->
  scan_digits base budget acc (t ++ r)
  = (fold_left (fun a c => a * base + digit_val c) t acc, length t, r).
Proof.
  intros Ht. revert budget acc. induction Ht as [|c t Hc Ht IH]; intros budget acc Hl Hs.
  - destruct budget as [|b]; [reflexivity|]. destruct Hs as [|Hs]; [discriminate|].
    destruct r as [|c r]; [reflexivity|]. cbn in Hs. cbn.
    destruct Hs as [-> _]. reflexivity.
  - destruct budget as [|b]; [cbn in Hl; lia|]. cbn [scan_digits app]. rewrite Hc.
    rewrite IH; [reflexivity|cbn in Hl; lia|]. destruct Hs as [Hs|Hs]; [left|right; exact Hs].
    cbn in Hs. lia.
Qed.

(** Scanning a digit string up to its end reads its value. *)
Lemma scan_num_digits t r width :
  all_digits base t -> t <> [] -> num_value base t < 2 ^ 64 ->
  match width with
  | None => stops base r
  | Some w => w = zlen t \/ (zlen t <= w /\ stops base r)
  end ->
  scan_num base width (t ++ r) = Some (num_value base t, r).
Proof.
  intros Ht Hne Hv Hw. destruct t as [|c t]; [contradiction|].
  inversion Ht as [|? ? Hc Ht']; subst.
  destruct (is_digit_plain base c) as (Hsp & Hm & Hp & _); [lia|exact Hc|].
  set (budget := match width with Some w => Z.to_nat w | None => length ((c :: t) ++ r) end).
  assert (Hbud : (length (c :: t) <= budget)%nat /\ (budget = length (c :: t) \/ stops base r)).
  { unfold budget, zlen in *. destruct width as [w|].
    - destruct Hw as [->|[? ?]]; [rewrite Nat2Z.id; auto|]. split; [lia|auto].
    - rewrite length_app. split; [lia|auto]. }
  assert (Hsign : scan_sign budget ((c :: t) ++ r) = (false, budget, (c :: t) ++ r)).
  { destruct budget as [|b]; [destruct Hbud as [Hbud _]; cbn in Hbud; lia|]. cbn.
    destruct (Z.eqb_spec c 45); [lia|]. destruct (Z.eqb_spec c 43); [lia|]. reflexivity. }
  assert (Hpre : scan_prefix base budget ((c :: t) ++ r) = (budget, (c :: t) ++ r)).
  { destruct budget as [|[|b]]; try reflexivity. cbn [app scan_prefix].
    destruct (t ++ r) as [|x q] eqn:E; [reflexivity|].
    replace ((x =? 120) || (x =? 88)) with false; [rewrite andb_false_r; reflexivity|].
    symmetry. apply orb_false_iff. rewrite !Z.eqb_neq. destruct t as [|x' t'].
    - destruct Hbud as [_ [Hb|Hb]]; [discriminate|]. cbn in E. subst r. cbn in Hb. tauto.
    - injection E as -> _. inversion Ht' as [|? ? Hx]; subst.
      destruct (is_digit_plain base x) as (_ & _ & _ & ? & ? & _); [lia|exact Hx|]. auto. }
  unfold scan_num. replace (skip_ws ((c :: t) ++ r)) with ((c :: t) ++ r)
    by (cbn; rewrite Hsp; reflexivity).
  fold budget. rewrite Hsign, Hpre.
  rewrite scan_digits_spec by tauto. cbn [length andb].
  fold (num_value base (c :: t)). rewrite Z.min_l by lia. reflexivity.
Qed.

Lemma pad_all_digits w t : all_digits base t -> all_digits base (pad true w t).
Proof.
  intros. unfold pad. apply Forall_app. split; [|assumption].
  apply Forall_replicate. unfold is_digit. cbn. apply Z.ltb_lt. lia.
Qed.

Lemma pad_value w t : num_value base (pad true w t) = num_value base t.
Proof.
  unfold pad, num_value. rewrite fold_left_app. f_equal.
  induction (Z.to_nat _) as [|k IH]; [reflexivity|].
  cbn. exact IH.
Qed.
End Digits.

Lemma pad_zlen z w t : zlen (pad z (Some w) t) = Z.max w (zlen t).
Proof.
  unfold pad, zlen. rewrite length_app, length_replicate. lia.
Qed.

Lemma print_uint_zlen base n k :
  2 <= base <= 16 -> 0 <= n < base ^ k -> 1 <= k -> zlen (print_uint base n) <= k.
Proof.
  intros Hb Hn Hk. unfold print_uint, zlen.
  pose proof (digits_length base Hb 64 n (Z.to_nat (k - 1))) as H.
  replace (Z.of_nat (S (Z.to_nat (k - 1)))) with k in H by lia. specialize (H Hn). lia.
Qed.

Lemma digits_length_ge base fuel k n :
  2 <= base -> (k < fuel)%nat -> base ^ Z.of_nat k <= n ->
  (k < length (digits fuel base n))%nat.
Proof.
  intros Hb. revert k n. induction fuel as [|f IH]; intros k n Hk Hn; [lia|]. cbn [digits].
  destruct k as [|k].
  - case_if; [cbn; lia|]. rewrite length_app. cbn. lia.
  - rewrite Nat2Z.inj_succ, Z.pow_succ_r in Hn by lia.
    assert (0 < base ^ Z.of_nat k) by (apply Z.pow_pos_nonneg; lia).
    case_if; [nia|]. rewrite length_app. cbn [length].
    enough (k < length (digits f base (n / base)))%nat by lia.
    apply IH; [lia|]. apply Z.div_le_lower_bound; lia.
Qed.

Lemma print_uint_zlen_ge base n k :
  2 <= base -> 0 <= k < 64 -> base ^ k <= n -> k < zlen (print_uint base n).
Proof.
  intros Hb Hk Hn. unfold print_uint, zlen.
  pose proof (digits_length_ge base 64 (Z.to_nat k) n Hb) as H.
  rewrite Z2Nat.id in H by lia. specialize (H ltac:(lia) Hn). lia.
Qed.

Lemma print_uint_value base n :
  2 <= base <= 16 -> 0 <= n < 2 ^ 64 -> num_value base (print_uint base n) = n.
Proof.
  intros Hb Hn. apply digits_value; [exact Hb|]. split; [lia|].
  eapply Z.lt_le_trans; [apply Hn|].
  transitivity (base ^ 64); [apply Z.pow_le_mono_l; lia|]. reflexivity.
Qed.

(** The field round trip: a zero padded number followed by something the
    scanner stops at is scanned back, and the rest is left. *)
Lemma scan_print_num base w n r width :
  2 <= base <= 16 -> 0 <= n < 2 ^ 64 ->
  match width with
  | None => stops base r
  | Some k => k = zlen (pad true w (print_uint base n)) \/
              (zlen (pad true w (print_uint base n)) <= k /\ stops base r)
  end ->
  scan_num base width (pad true w (print_uint base n) ++ r) = Some (n, r).
Proof.
  intros Hb Hn Hw. rewrite scan_num_digits; try assumption.
  - rewrite pad_value, print_uint_value by assumption. reflexivity.
  - apply pad_all_digits, digits_all; [assumption..|lia].
  - unfold pad. intros [_ H]%app_eq_nil. revert H. apply digits_nonempty.
  - rewrite pad_value, print_uint_value by assumption. lia.
Qed.

Lemma c_string_app t r : Forall (fun c => c <> 0) t -> c_string (t ++ 0 :: r) = Some t.
Proof.
  induction 1 as [|c t Hc _ IH]; [reflexivity|]. cbn.
  destruct (Z.eqb_spec c 0); [contradiction|]. rewrite IH. reflexivity.
Qed.

Lemma all_digits_nonzero base t : base <= 16 -> all_digits base t -> Forall (fun c => c <> 0) t.
Proof.
  intros Hb. apply Forall_impl. intros c Hc.
  destruct (is_digit_plain base c Hb Hc) as (_ & _ & _ & _ & _ & ? & _). assumption.
Qed.

Lemma all_digits_word base t r b :
  base <= 16 -> all_digits base t -> b = length t -> take_word b (t ++ r) = (t, r).
Proof.
  intros Hb Ht ->. induction Ht as [|c t Hc _ IH]; [destruct r; reflexivity|].
  cbn. destruct (is_digit_plain base c Hb Hc) as (-> & _). rewrite IH. reflexivity.
Qed.

(** Scanning [%s] at the end of the input takes a whole word of digits. *)
Lemma scan_str_digits base t :
  base <= 16 -> all_digits base t -> t <> [] -> scan_str None t = Some (t, []).
Proof.
  intros Hb Ht Hne. unfold scan_str. destruct t as [|c t]; [contradiction|].
  inversion Ht as [|? ? Hc Ht']; subst.
  destruct (is_digit_plain base c Hb Hc) as (Hsp & _). cbn [skip_ws]. rewrite Hsp.
  pose proof (all_digits_word base (c :: t) [] (length (c :: t)) Hb Ht eq_refl) as H.
  rewrite app_nil_r in H. rewrite H. reflexivity.
Qed.

#[export] Hint Rewrite pad_zlen : ctext_rw.
#[export] Hint Resolve pad_all_digits digits_all all_digits_nonzero : ctext.
