(* ===== verification/Gid.v ===== *)
(** GIDs on the wire: [wire_gid_to_gid]/[gid_to_wire_gid] of debug/pingpong.c and
    of rdma/Infiniband.cc (the two files have the same two bodies), the byte
    order functions they call, and [pp_mtu_to_enum]/[link_layer_str]. *)
From Stdlib Require Import String.
From S2P Require Import Prelude CText.
Open Scope Z_scope.

(** ** Byte order of the host *)

Inductive endian := LittleEndian | BigEndian.

Definition be32 (b0 b1 b2 b3 : Z) : Z := ((b0 * 256 + b1) * 256 + b2) * 256 + b3.

(** [*(uint32_t * )p] for the four bytes at [p]. *)
Definition load32 (e : endian) (b : list Z) : option Z :=
  match b with
  | [b0; b1; b2; b3] =>
      Some (match e with LittleEndian => be32 b3 b2 b1 b0 | BigEndian => be32 b0 b1 b2 b3 end)
  | _ => None
  end.

Definition byte_at (v k : Z) : Z := Z.land (Z.shiftr v (8 * k)) 255.

(** The four bytes stored by [*(uint32_t * )p = v]. *)
Definition store32 (e : endian) (v : Z) : list Z :=
  let bytes := [byte_at v 3; byte_at v 2; byte_at v 1; byte_at v 0] in
  match e with LittleEndian => rev bytes | BigEndian => bytes end.

Definition bswap32 (v : Z) : Z :=
  be32 (byte_at v 0) (byte_at v 1) (byte_at v 2) (byte_at v 3).

Definition htonl (e : endian) (v : Z) : Z :=
  match e with LittleEndian => bswap32 (u32 v) | BigEndian => u32 v end.

Definition ntohl (e : endian) (v : Z) : Z := htonl e v.

(** ** The codecs *)

(** [gid_to_wire_gid]: the loop from iteration [i], [n] iterations left. *)
Fixpoint gid_to_wire_loop (e : endian) (raw : list Z) (n : nat) (i : Z) (wgid : list Z)
  : option (list Z) :=
  match n with
  | O => Some wgid
  | S n' =>
      w ← buf_read (i * 4) 4 raw;
      v ← load32 e w;
      wgid' ← sprintf wgid (i * 8) "%08x" [AInt (htonl e v)];
      gid_to_wire_loop e raw n' (i + 1) wgid'
  end.

Definition gid_to_wire_gid (e : endian) (raw wgid : list Z) : option (list Z) :=
  gid_to_wire_loop e raw 4 0 wgid.

(** [wire_gid_to_gid]: [v32] keeps its value when [sscanf] converts nothing. *)
Fixpoint wire_to_gid_loop (e : endian) (wgid : list Z) (n : nat) (i v32 : Z) (raw : list Z)
  : option (list Z) :=
  match n with
  | O => Some raw
  | S n' =>
      t ← buf_read (i * 8) 8 wgid;
      let tmp := t ++ [0] in
      vs ← sscanf tmp "%x";
      let v32' := match vs with VNum v :: _ => v | _ => v32 end in
      raw' ← buf_write (i * 4) (store32 e (ntohl e v32')) raw;
      wire_to_gid_loop e wgid n' (i + 1) v32' raw'
  end.

(** [junk] is the indeterminate initial value of the local [v32]. *)
Definition wire_gid_to_gid (e : endian) (junk : Z) (wgid raw : list Z) : option (list Z) :=
  wire_to_gid_loop e wgid 4 0 junk raw.

(** ** Small lookup functions of the library *)

Inductive ibv_mtu := IBV_MTU_256 | IBV_MTU_512 | IBV_MTU_1024 | IBV_MTU_2048 | IBV_MTU_4096.

Definition pp_mtu_to_enum (mtu : Z) : ibv_mtu :=
  if mtu =? 256 then IBV_MTU_256
  else if mtu =? 512 then IBV_MTU_512
  else if mtu =? 1024 then IBV_MTU_1024
  else if mtu =? 2048 then IBV_MTU_2048
  else if mtu =? 4096 then IBV_MTU_4096
  else IBV_MTU_1024.

Inductive link_layer :=
  | IBV_LINK_LAYER_UNSPECIFIED
  | IBV_LINK_LAYER_INFINIBAND
  | IBV_LINK_LAYER_ETHERNET
  | link_layer_other (n : Z).

Definition link_layer_str (l : link_layer) : string :=
  match l with
  | IBV_LINK_LAYER_UNSPECIFIED | IBV_LINK_LAYER_INFINIBAND => "IB"
  | IBV_LINK_LAYER_ETHERNET => "Ethernet"
  | link_layer_other _ => "Unknown"
  end.

(** ** Specification: a GID on the wire is its sixteen bytes in hexadecimal, in
    memory order, whatever the host. *)

Definition hex2 (b : Z) : list Z := [digit_char (b / 16); digit_char (b mod 16)].

Definition gid_hex (raw : list Z) : list Z := concat (map hex2 raw).

Definition wf_gid (raw : list Z) : Prop := length raw = 16%nat /\ Forall is_byte raw.

(** Fixed-width hexadecimal, the reference for a zero padded [%x]. *)
Fixpoint hexn (k : nat) (n : Z) : list Z :=
  match k with O => [] | S k' => hexn k' (n / 16) ++ [digit_char (n mod 16)] end.

Lemma hexn_length k n : length (hexn k n) = k.
Proof. revert n. induction k; intros; cbn; [reflexivity|]. rewrite length_app, IHk. cbn. lia. Qed.

Lemma hexn_0 k : hexn k 0 = replicate k 48.
Proof.
  induction k as [|k IH]; [reflexivity|]. cbn [hexn]. change (0 / 16) with 0. rewrite IH.
  change [digit_char (0 mod 16)] with (replicate 1 48). rewrite <- replicate_add.
  f_equal. lia.
Qed.

Lemma pad_hexn_aux fuel k n :
  0 <= n < 16 ^ Z.of_nat k -> (k <= fuel)%nat -> (1 <= k)%nat ->
  pad true (Some (Z.of_nat k)) (digits fuel 16 n) = hexn k n.
Proof.
  revert k n. induction fuel as [|f IH]; intros k n Hn Hk H1; [lia|].
  destruct k as [|k]; [lia|]. cbn [digits hexn].
  rewrite Nat2Z.inj_succ, Z.pow_succ_r in Hn by lia.
  destruct (Z.ltb_spec n 16) as [Hlt|Hge].
  - rewrite Z.div_small, Z.mod_small by lia. rewrite hexn_0. unfold pad.
    f_equal. f_equal. unfold zlen. cbn [length]. lia.
  - assert (Hq : 0 <= n / 16 < 16 ^ Z.of_nat k).
    { split; [apply Z.div_pos; lia|apply Z.div_lt_upper_bound; lia]. }
    destruct k as [|k].
    { change (16 ^ Z.of_nat 0) with 1 in Hn. lia. }
    rewrite <- (IH (S k) (n / 16)) by (try exact Hq; lia).
    unfold pad. rewrite <- app_assoc. f_equal. f_equal.
    rewrite zlen_app, zlen_cons, zlen_nil. lia.
Qed.

Lemma pad_hexn k n :
  0 <= n < 16 ^ Z.of_nat k -> (1 <= k <= 64)%nat ->
  pad true (Some (Z.of_nat k)) (print_uint 16 n) = hexn k n.
Proof. intros. apply pad_hexn_aux; [assumption|lia|lia]. Qed.

Lemma hexn_byte k n b :
  is_byte b -> hexn (S (S k)) (n * 256 + b) = hexn k n ++ hex2 b.
Proof.
  intros [Hb0 Hb]. cbn [hexn]. unfold hex2.
  assert (E1 : (n * 256 + b) mod 16 = b mod 16).
  { replace (n * 256 + b) with (b + (n * 16) * 16) by lia. apply Z.mod_add. lia. }
  assert (E2 : (n * 256 + b) / 16 = n * 16 + b / 16).
  { replace (n * 256 + b) with ((n * 16) * 16 + b) by lia. apply Z.div_add_l. lia. }
  assert (Hq : 0 <= b / 16 < 16).
  { split; [apply Z.div_pos; lia|apply Z.div_lt_upper_bound; lia]. }
  rewrite E1, E2. rewrite Z.div_add_l, (Z.div_small (b / 16)), Z.add_0_r by lia.
  rewrite (Z.add_comm (n * 16)), Z.mod_add, (Z.mod_small (b / 16)) by lia.
  rewrite <- app_assoc. reflexivity.
Qed.

Lemma be32_range a b c d :
  is_byte a -> is_byte b -> is_byte c -> is_byte d -> 0 <= be32 a b c d < 2 ^ 32.
Proof. unfold is_byte, be32. lia. Qed.

Lemma hexn_be32 a b c d :
  is_byte a -> is_byte b -> is_byte c -> is_byte d ->
  hexn 8 (be32 a b c d) = gid_hex [a; b; c; d].
Proof.
  intros. unfold be32. rewrite !hexn_byte by assumption.
  rewrite <- (Z.add_0_l a), <- (Z.mul_0_l 256), hexn_byte, Z.mul_0_l, Z.add_0_l by assumption.
  unfold gid_hex. cbn [map concat hexn app]. reflexivity.
Qed.

Lemma byte_at_spec v k : 0 <= k -> byte_at v k = (v / 2 ^ (8 * k)) mod 256.
Proof.
  intros. unfold byte_at. rewrite Z.shiftr_div_pow2 by lia.
  change 255 with (Z.ones 8). rewrite Z.land_ones by lia. reflexivity.
Qed.

(** The four bytes of a big endian number. *)
Lemma byte_at_be32 a b c d :
  is_byte a -> is_byte b -> is_byte c -> is_byte d ->
  byte_at (be32 a b c d) 3 = a /\ byte_at (be32 a b c d) 2 = b /\
  byte_at (be32 a b c d) 1 = c /\ byte_at (be32 a b c d) 0 = d.
Proof.
  unfold is_byte, be32. intros Ha Hb Hc Hd. rewrite !byte_at_spec by lia.
  change (2 ^ (8 * 3)) with 16777216. change (2 ^ (8 * 2)) with 65536.
  change (2 ^ (8 * 1)) with 256. change (2 ^ (8 * 0)) with 1.
  Z.div_mod_to_equations. lia.
Qed.

Lemma bswap32_be32 a b c d :
  is_byte a -> is_byte b -> is_byte c -> is_byte d ->
  bswap32 (be32 a b c d) = be32 d c b a.
Proof.
  intros Ha Hb Hc Hd. unfold bswap32.
  destruct (byte_at_be32 a b c d) as (-> & -> & -> & ->); auto.
Qed.

(** [htonl] after a native load is the big endian value of the four bytes: this
    is where the host's byte order cancels out. *)
Lemma htonl_load32 e a b c d :
  is_byte a -> is_byte b -> is_byte c -> is_byte d ->
  htonl e <$> load32 e [a; b; c; d] = Some (be32 a b c d).
Proof.
  intros. destruct e; cbn [load32 fmap option_fmap option_map htonl];
    rewrite u32_small by (apply be32_range; assumption); [|reflexivity].
  rewrite bswap32_be32 by assumption. reflexivity.
Qed.

Lemma store32_ntohl e a b c d :
  is_byte a -> is_byte b -> is_byte c -> is_byte d ->
  store32 e (ntohl e (be32 a b c d)) = [a; b; c; d].
Proof.
  intros Ha Hb Hc Hd. unfold ntohl, store32.
  destruct e; cbn [htonl]; rewrite u32_small by (apply be32_range; assumption).
  - rewrite bswap32_be32 by assumption.
    destruct (byte_at_be32 d c b a) as (-> & -> & -> & ->); auto.
  - destruct (byte_at_be32 a b c d) as (-> & -> & -> & ->); auto.
Qed.

(** ** Printing *)

Lemma sprintf_08x v :
  0 <= v < 2 ^ 32 -> sprintf_text "%08x" [AInt v] = Some (hexn 8 v).
Proof.
  intros. unfold sprintf_text.
  change (format "%08x") with (Some [DConv true (Some 8) false CvX]).
  cbn -[pad print_uint hexn u32]. rewrite app_nil_r, u32_small by assumption.
  f_equal. apply (pad_hexn 8); [assumption|lia].
Qed.

Lemma gid_hex_app l1 l2 : gid_hex (l1 ++ l2) = gid_hex l1 ++ gid_hex l2.
Proof. unfold gid_hex. rewrite map_app, concat_app. reflexivity. Qed.

Lemma gid_hex_zlen l : zlen (gid_hex l) = 2 * zlen l.
Proof.
  induction l as [|x l IH]; [reflexivity|].
  change (gid_hex (x :: l)) with (hex2 x ++ gid_hex l).
  rewrite zlen_app, IH, (zlen_cons x). change (zlen (hex2 x)) with 2. lia.
Qed.

(** A word of the GID, read at an offset where it lies. *)
Lemma gid_word pre w post :
  zlen w = 4 -> buf_read (zlen pre) 4 (pre ++ w ++ post) = Some w.
Proof.
  intros Hw. apply buf_read_Some. rewrite !zlen_app.
  pose proof (zlen_nonneg pre). pose proof (zlen_nonneg post). split; [lia|].
  unfold slice, zlen. rewrite Nat2Z.id, drop_app_length.
  replace (Z.to_nat 4) with (length w) by (unfold zlen in Hw; lia).
  symmetry. apply take_app_length.
Qed.

Lemma four_bytes (w : list Z) :
  length w = 4%nat -> Forall is_byte w ->
  exists a b c d, w = [a; b; c; d] /\ is_byte a /\ is_byte b /\ is_byte c /\ is_byte d.
Proof.
  intros Hl Hw. destruct w as [|a [|b [|c [|d [|]]]]]; try discriminate.
  exists a, b, c, d. do 4 (inversion Hw as [|? ? ? Hw']; subst; clear Hw; rename Hw' into Hw). auto.
Qed.

Lemma gid_to_wire_loop_spec e n done todo tl :
  length todo = (4 * n)%nat -> Forall is_byte todo ->
  zlen done mod 4 = 0 -> zlen tl = 8 * Z.of_nat n + 1 ->
  gid_to_wire_loop e (done ++ todo) n (zlen done / 4) (gid_hex done ++ tl)
  = Some (gid_hex (done ++ todo) ++ (match n with O => tl | S _ => [0] end)).
Proof.
  revert done todo tl. induction n as [|n IH]; intros done todo tl Ht Hb Hm Htl.
  - destruct todo; [|discriminate]. rewrite app_nil_r. reflexivity.
  - destruct (split_at 4 todo) as (w & todo' & -> & Hw); [lia|].
    apply Forall_app in Hb as [Hbw Hb']. rewrite length_app in Ht.
    destruct (four_bytes w Hw Hbw) as (a & b & c & d & -> & ? & ? & ? & ?).
    assert (Hd4 : zlen done / 4 * 4 = zlen done) by (Z.div_mod_to_equations; lia).
    cbn [gid_to_wire_loop]. rewrite Hd4, gid_word by reflexivity. cbn [mbind option_bind].
    pose proof (htonl_load32 e a b c d) as Hl.
    destruct (load32 e [a; b; c; d]) as [v|] eqn:Ev; [|discriminate Ev].
    specialize (Hl ltac:(assumption) ltac:(assumption) ltac:(assumption) ltac:(assumption)).
    injection Hl as Hl. cbn [mbind option_bind]. unfold sprintf. rewrite Hl.
    rewrite sprintf_08x by (apply be32_range; assumption).
    rewrite hexn_be32 by assumption. cbn [mbind option_bind].
    destruct (split_at 9 tl) as (old & tl' & -> & Hold); [unfold zlen in Htl; lia|].
    replace (zlen done / 4 * 8) with (zlen (gid_hex done)) by (rewrite gid_hex_zlen; lia).
    rewrite buf_write_app by (rewrite zlen_app, gid_hex_zlen; unfold zlen; rewrite Hold; reflexivity).
    cbn [mbind option_bind].
    rewrite <- (app_assoc (gid_hex [a; b; c; d])).
    change (done ++ [a; b; c; d] ++ todo') with (done ++ ([a; b; c; d] ++ todo')).
    rewrite !app_assoc, <- gid_hex_app.
    assert (Hz : zlen (done ++ [a; b; c; d]) = zlen done + 4) by (rewrite zlen_app; reflexivity).
    replace (zlen done / 4 + 1) with (zlen (done ++ [a; b; c; d]) / 4)
      by (rewrite Hz; Z.div_mod_to_equations; lia).
    rewrite <- !(app_assoc _ _ tl'). cbn [app].
    rewrite IH.
    + destruct n; [|reflexivity]. rewrite zlen_app in Htl.
      destruct tl'; [reflexivity|]. unfold zlen in Htl. cbn [length] in Htl. lia.
    + cbn in Ht. lia.
    + exact Hb'.
    + rewrite Hz. Z.div_mod_to_equations. lia.
    + rewrite zlen_app in Htl. rewrite zlen_cons. unfold zlen in *. lia.
Qed.

(** The wire text of a GID: sixteen bytes in hexadecimal and a NUL. *)
Lemma gid_to_wire_gid_hex e raw wgid :
  wf_gid raw -> zlen wgid = 33 ->
  gid_to_wire_gid e raw wgid = Some (gid_hex raw ++ [0]).
Proof.
  intros [Hl Hb] Hw. apply (gid_to_wire_loop_spec e 4 [] raw wgid); try assumption; reflexivity.
Qed.

(** ** Scanning *)

Lemma gid_hex_digits l : Forall is_byte l -> all_digits 16 (gid_hex l).
Proof.
  induction 1 as [|b l [? ?] _ IH]; [constructor|].
  change (gid_hex (b :: l)) with (hex2 b ++ gid_hex l). apply Forall_app. split; [|exact IH].
  repeat constructor; apply is_digit_char; try lia.
  - split; [apply Z.div_pos; lia|apply Z.div_lt_upper_bound; lia].
  - apply Z.mod_pos_bound. lia.
Qed.

Lemma sscanf_gid_word a b c d :
  is_byte a -> is_byte b -> is_byte c -> is_byte d ->
  sscanf (gid_hex [a; b; c; d] ++ [0]) "%x" = Some [VNum (be32 a b c d)].
Proof.
  intros Ha Hb Hc Hd. pose proof (be32_range a b c d Ha Hb Hc Hd) as Hr. unfold sscanf.
  assert (Hg : Forall is_byte [a; b; c; d]) by auto.
  rewrite c_string_app by (eapply (all_digits_nonzero 16); [lia|apply gid_hex_digits, Hg]).
  change (format "%x") with (Some [DConv false None false CvX]).
  cbn [mbind option_bind scan_dirs].
  rewrite <- (hexn_be32 a b c d), <- (pad_hexn 8) by (assumption || lia).
  rewrite <- (app_nil_r (pad _ _ _)), (scan_print_num 16 (Some 8)) by (cbn; lia || exact I).
  rewrite u32_small by exact Hr. reflexivity.
Qed.

Lemma wire_to_gid_loop_spec e n wpre gid tl junk out tail :
  length gid = (4 * n)%nat -> Forall is_byte gid ->
  zlen wpre = 2 * zlen out -> zlen out mod 4 = 0 -> zlen tail = 4 * Z.of_nat n ->
  wire_to_gid_loop e (wpre ++ gid_hex gid ++ tl) n (zlen out / 4) junk (out ++ tail)
  = Some (out ++ gid).
Proof.
  revert wpre gid junk out tail.
  induction n as [|n IH]; intros wpre gid junk out tail Hl Hb Hw Hm Ht.
  - destruct gid; [|discriminate].
    destruct tail; [reflexivity|]. unfold zlen in Ht. cbn [length] in Ht. lia.
  - destruct (split_at 4 gid) as (w & gid' & -> & Hw4); [lia|].
    apply Forall_app in Hb as [Hbw Hb']. rewrite length_app in Hl.
    destruct (four_bytes w Hw4 Hbw) as (a & b & c & d & -> & ? & ? & ? & ?).
    assert (Hd4 : zlen out / 4 * 4 = zlen out) by (Z.div_mod_to_equations; lia).
    cbn [wire_to_gid_loop]. rewrite gid_hex_app.
    replace (buf_read (zlen out / 4 * 8) 8 _) with (Some (gid_hex [a; b; c; d])).
    2:{ symmetry. apply buf_read_Some. rewrite !zlen_app, !gid_hex_zlen.
        pose proof (zlen_nonneg wpre). pose proof (zlen_nonneg gid'). pose proof (zlen_nonneg tl).
        split; [change (zlen [a; b; c; d]) with 4; lia|]. unfold slice.
        replace (zlen out / 4 * 8) with (zlen wpre) by lia.
        unfold zlen at 1. rewrite Nat2Z.id, drop_app_length, <- app_assoc. reflexivity. }
    cbn [mbind option_bind]. rewrite sscanf_gid_word by assumption. cbn [mbind option_bind].
    rewrite store32_ntohl, Hd4 by assumption.
    destruct (split_at 4 tail) as (old & tail' & -> & Hold); [unfold zlen in Ht; lia|].
    rewrite buf_write_app by (unfold zlen; rewrite Hold; reflexivity). cbn [mbind option_bind].
    assert (Hz : zlen (out ++ [a; b; c; d]) = zlen out + 4) by (rewrite zlen_app; reflexivity).
    replace (zlen out / 4 + 1) with (zlen (out ++ [a; b; c; d]) / 4)
      by (rewrite Hz; Z.div_mod_to_equations; lia).
    rewrite (app_assoc out [a; b; c; d] tail').
    replace (wpre ++ (gid_hex [a; b; c; d] ++ gid_hex gid') ++ tl)
      with ((wpre ++ gid_hex [a; b; c; d]) ++ gid_hex gid' ++ tl)
      by (rewrite <- !app_assoc; reflexivity).
    rewrite (IH (wpre ++ gid_hex [a; b; c; d]) gid').
    + rewrite <- app_assoc. reflexivity.
    + cbn in Hl. lia.
    + exact Hb'.
    + rewrite zlen_app, gid_hex_zlen, Hz, Hw. change (zlen [a; b; c; d]) with 4. lia.
    + rewrite Hz. Z.div_mod_to_equations. lia.
    + rewrite zlen_app in Ht. unfold zlen in *. lia.
Qed.

Lemma wire_gid_to_gid_hex e junk gid tl raw :
  wf_gid gid -> zlen raw = 16 ->
  wire_gid_to_gid e junk (gid_hex gid ++ tl) raw = Some gid.
Proof.
  intros [Hl Hb] Hr.
  apply (wire_to_gid_loop_spec e 4 [] gid tl junk [] raw); try assumption; reflexivity.
Qed.
