(* ===== verification/Verbs.v ===== *)
(** The boundary of the program: the libibverbs, socket and allocator calls it
    makes. The library code is not part of the repository, so the result of
    every call is a parameter ([Env]): a world state answers each call. The
    program's state records the calls made and their results ([trace], newest
    first), so theorems quantify over every behaviour of the libraries and
    speak of the calls. *)
From Stdlib Require Import String.
From S2P Require Import Prelude Gid.
From stdpp Require Import gmap.
Open Scope Z_scope.

(** ** Data of <infiniband/verbs.h> the sources use *)

Inductive ibv_qp_state := IBV_QPS_RESET | IBV_QPS_INIT | IBV_QPS_RTR | IBV_QPS_RTS | IBV_QPS_ERR.

(** Bits of the [ibv_modify_qp] mask; a mask is the list of the bits or-ed. *)
Inductive qp_attr_bit :=
  | IBV_QP_STATE | IBV_QP_ACCESS_FLAGS | IBV_QP_PKEY_INDEX | IBV_QP_PORT | IBV_QP_QKEY
  | IBV_QP_AV | IBV_QP_PATH_MTU | IBV_QP_DEST_QPN | IBV_QP_RQ_PSN
  | IBV_QP_MAX_DEST_RD_ATOMIC | IBV_QP_MIN_RNR_TIMER
  | IBV_QP_TIMEOUT | IBV_QP_RETRY_CNT | IBV_QP_RNR_RETRY | IBV_QP_SQ_PSN
  | IBV_QP_MAX_QP_RD_ATOMIC.

Inductive access_flag :=
  IBV_ACCESS_LOCAL_WRITE | IBV_ACCESS_REMOTE_WRITE | IBV_ACCESS_REMOTE_READ.

Inductive ibv_qp_type := IBV_QPT_RC | IBV_QPT_UC | IBV_QPT_UD | IBV_QPT_RAW_PACKET.

Inductive ibv_wr_opcode := IBV_WR_RDMA_WRITE | IBV_WR_SEND | IBV_WR_RDMA_READ.

Inductive ibv_wc_status := IBV_WC_SUCCESS | wc_error (code : Z).

Inductive ibv_port_state := IBV_PORT_ACTIVE | port_other (n : Z).

#[export] Instance qp_state_eq_dec : EqDecision ibv_qp_state.
Proof. solve_decision. Defined.
#[export] Instance qp_attr_bit_eq_dec : EqDecision qp_attr_bit.
Proof. solve_decision. Defined.
#[export] Instance qp_type_eq_dec : EqDecision ibv_qp_type.
Proof. solve_decision. Defined.
#[export] Instance opcode_eq_dec : EqDecision ibv_wr_opcode.
Proof. solve_decision. Defined.
#[export] Instance wc_status_eq_dec : EqDecision ibv_wc_status.
Proof. solve_decision. Defined.
#[export] Instance port_state_eq_dec : EqDecision ibv_port_state.
Proof. solve_decision. Defined.
#[export] Instance link_layer_eq_dec : EqDecision link_layer.
Proof. solve_decision. Defined.

Record ibv_port_attr := { state : ibv_port_state; port_lid : Z; layer : link_layer }.

Record ibv_mr := { mr_handle : Z; mr_addr : Z; lkey : Z; rkey : Z }.

Record ibv_qp := { qp_handle : Z; qp_num : Z }.

Record ibv_sge := { sge_addr : Z; sge_length : Z; sge_lkey : Z }.

Record ibv_send_wr := {
  sw_id : Z; sw_sg_list : list ibv_sge; sw_opcode : ibv_wr_opcode;
  sw_signaled : bool; sw_remote_addr : Z; sw_rkey : Z }.

Record ibv_recv_wr := { rw_id : Z; rw_sg_list : list ibv_sge }.

Record ibv_wc := { wc_wr_id : Z; wc_status : ibv_wc_status; wc_byte_len : Z }.

(** Address handle attributes; the [grh] fields are flattened. *)
Record ibv_ah_attr := {
  is_global : Z; dlid : Z; sl : Z; src_path_bits : Z; ah_port_num : Z;
  hop_limit : Z; dgid : list Z; sgid_index : Z }.

Record ibv_qp_attr := {
  qp_state : ibv_qp_state; path_mtu : ibv_mtu; dest_qp_num : Z; rq_psn : Z; sq_psn : Z;
  max_rd_atomic : Z; max_dest_rd_atomic : Z; min_rnr_timer : Z;
  timeout : Z; retry_cnt : Z; rnr_retry : Z;
  pkey_index : Z; port_num : Z; qkey : Z; qp_access_flags : list access_flag;
  ah_attr : ibv_ah_attr }.

Definition zero_gid : list Z := replicate 16 0.

Definition zero_ah_attr : ibv_ah_attr :=
  {| is_global := 0; dlid := 0; sl := 0; src_path_bits := 0; ah_port_num := 0;
     hop_limit := 0; dgid := zero_gid; sgid_index := 0 |}.

Record ibv_qp_init_attr := {
  qi_send_cq : Z; qi_recv_cq : Z; qi_srq : Z;
  max_send_wr : Z; max_recv_wr : Z; max_send_sge : Z; max_recv_sge : Z;
  max_inline_data : Z; qi_qp_type : ibv_qp_type; sq_sig_all : Z }.

Record ibv_device_attr := {
  phys_port_cnt : Z; max_srq_wr : Z; da_max_cqe : Z; max_qp_wr : Z }.

(** ** The calls *)

(** Size argument of an allocation: a number of bytes, or [sizeof] of a type
    whose layout depends on <infiniband/verbs.h>. *)
Inductive csize := Bytes (n : Z) | Sizeof (type : string).

Inductive call : Type :=
  (* memory: allocation, and the contents of the buffers shared with the adapter *)
  | asprintf_int (n : Z) | calloc (n : Z) (size : csize) | malloc (size : csize) | memalign (alignment size : Z) | free (p : Z)
  | mem_load (addr len : Z) | mem_store (addr : Z) (data : list Z)
  | mmap (len : Z) | munmap (p len : Z)
  (* devices, ports *)
  | ibv_get_device_list | ibv_free_device_list (l : Z)
  | ibv_get_device_name (d : Z) | ibv_open_device (d : Z) | ibv_close_device (c : Z)
  | ibv_query_port (c port : Z) | ibv_query_gid (c port index : Z)
  (* objects *)
  | ibv_create_comp_channel (c : Z) | ibv_destroy_comp_channel (ch : Z)
  | ibv_alloc_pd (c : Z) | ibv_dealloc_pd (pd : Z)
  | ibv_create_cq (c cqe channel : Z) | ibv_destroy_cq (cq : Z)
  | ibv_create_srq (pd max_wr max_sge : Z) | ibv_query_device (c : Z)
  | ibv_create_qp (pd : Z) (a : ibv_qp_init_attr) | ibv_destroy_qp (qp : Z)
  | ibv_modify_qp (qp : Z) (a : ibv_qp_attr) (mask : list qp_attr_bit)
  | ibv_query_qp (qp : Z)
  | ibv_reg_mr (pd addr len : Z) (access : list access_flag) | ibv_dereg_mr (mr : Z)
  (* data path *)
  | ibv_req_notify_cq (cq : Z) (solicited_only : bool)
  | ibv_get_cq_event (channel : Z) | ibv_ack_cq_events (cq n : Z)
  | ibv_poll_cq (cq n : Z)
  | ibv_post_send (qp : Z) (wrs : list ibv_send_wr)
  | ibv_post_recv (qp : Z) (wr : ibv_recv_wr) | ibv_post_srq_recv (srq : Z) (wr : ibv_recv_wr)
  (* sockets and the operating system *)
  | sys_getaddrinfo (host : option (list Z)) (port : Z) | sys_freeaddrinfo | sys_socket (addr : Z)
  | sys_socket_dgram (addr : option Z) | sys_connect (fd addr : Z)
  | sys_setsockopt_reuse (fd : Z) | sys_bind (fd addr : Z)
  | sys_listen (fd backlog : Z) | sys_accept (fd : Z) | sys_getpeername (fd : Z)
  | sys_write (fd : Z) (data : list Z) | sys_read (fd len : Z) | sys_close (fd : Z)
  | sys_sendto (fd : Z) (data : list Z) (peer : Z) | sys_recvfrom (fd len : Z)
  | sys_fcntl_getfl (fd : Z) | sys_fcntl_setfl_nonblock (fd flags : Z)
  | center_create_file_event (fd : Z)
  | sys_page_size | sys_lrand48 | sys_rand | sys_errno.

Definition ret_of (c : call) : Type :=
  match c with
  | free _ | mem_store _ _ | ibv_free_device_list _ | ibv_ack_cq_events _ _ | sys_freeaddrinfo => unit
  | mem_load _ _ => list Z
  | ibv_get_device_list => option (Z * list Z)
  | ibv_get_device_name _ => list Z
  | ibv_query_port _ _ => Z * ibv_port_attr
  | ibv_query_gid _ _ _ => Z * list Z
  | ibv_query_device _ => Z * ibv_device_attr
  | ibv_create_qp _ _ => option ibv_qp
  | ibv_query_qp _ => Z * ibv_qp_attr * ibv_qp_state
  | ibv_reg_mr _ _ _ _ => option ibv_mr
  | ibv_poll_cq _ _ => Z * list ibv_wc
  | sys_getaddrinfo _ _ => Z * list Z
  | asprintf_int _ => Z * Z
  | sys_getpeername _ => list Z
  | ibv_get_cq_event _ => Z * Z
  | sys_read _ _ => Z * list Z
  | sys_recvfrom _ _ => Z * list Z * Z
  | _ => Z
  end.

(** The behaviour of the libraries and of the hardware. *)
Class Env (W : Type) : Type := ext : forall c : call, W -> ret_of c * W.

Inductive event : Type := Ev (c : call) (r : ret_of c).

Definition ev_call (ev : event) : call := match ev with Ev c _ => c end.

(** The ranges the types of the interface give to the answers of some calls:
    16 bit LIDs, 32 bit queue pair numbers and keys, 16 byte GIDs, and addresses
    of user space memory, below 2^47. *)
Definition in_range (c : call) : ret_of c -> Prop :=
  match c return ret_of c -> Prop with
  | ibv_query_port _ _ => fun r => 0 <= port_lid (snd r) < 2 ^ 16
  | ibv_query_gid _ _ _ => fun r => wf_gid (snd r)
  | ibv_create_qp _ _ => fun o => match o with Some q => 0 <= qp_num q < 2 ^ 32 | None => True end
  | ibv_reg_mr _ _ _ _ => fun o => match o with Some m => 0 <= rkey m < 2 ^ 32 | None => True end
  | memalign _ _ => fun p => 0 <= p < 2 ^ 47
  | _ => fun _ => True
  end.

Class HostEnv {W} (E : Env W) : Prop := host_in_range : forall c w, in_range c (fst (ext c w)).

(** Program state: the world, the calls made (newest first), and the [size_t]
    cells the program stores at raw addresses. *)
Record St (W : Type) : Type := mkSt { world : W; trace : list event; cells : gmap Z Z }.
Arguments mkSt {_} _ _ _.
Arguments world {_} _.
Arguments trace {_} _.
Arguments cells {_} _.

Definition sys {W} `{Env W} (c : call) : M (St W) (ret_of c) := fun s =>
  let '(r, w) := ext c (world s) in
  (Ret r, mkSt w (Ev c r :: trace s) (cells s)).

(** ** Resources: what a trace has acquired and not yet released *)

Inductive rkind :=
  RHeap | RMap | RDevList | RDevice | RChannel | RPd | RCq | RSrq | RQp | RMr | RSocket.

#[export] Instance rkind_eq_dec : EqDecision rkind.
Proof. solve_decision. Defined.

Definition resource (k : rkind) (p : Z) : option (rkind * Z) := Some (k, p).

Definition nonnull (k : rkind) (p : Z) : option (rkind * Z) :=
  if p =? 0 then None else resource k p.

(** The resource a call returned. *)
Definition acquires (ev : event) : option (rkind * Z) :=
  match ev with Ev c r =>
    (match c return ret_of c -> option (rkind * Z) with
     | calloc _ _ | malloc _ | memalign _ _ => nonnull RHeap
     | mmap _ => fun p => if p =? -1 then None else resource RMap p
     | ibv_get_device_list => fun o => '(p, _) ← o; resource RDevList p
     | ibv_open_device _ => nonnull RDevice
     | ibv_create_comp_channel _ => nonnull RChannel
     | ibv_alloc_pd _ => nonnull RPd
     | ibv_create_cq _ _ _ => nonnull RCq
     | ibv_create_srq _ _ _ => nonnull RSrq
     | ibv_create_qp _ _ => fun o => q ← o; resource RQp (qp_handle q)
     | ibv_reg_mr _ _ _ _ => fun o => m ← o; resource RMr (mr_handle m)
     | asprintf_int _ => fun o => if fst o <? 0 then None else resource RHeap (snd o)
     | sys_socket _ | sys_socket_dgram _ | sys_accept _ => fun fd => if fd <? 0 then None else resource RSocket fd
     | _ => fun _ => None
     end) r
  end.

(** The resource a call was asked to release. *)
Definition releases (ev : event) : option (rkind * Z) :=
  match ev with Ev c _ =>
    match c with
    | free p => nonnull RHeap p
    | munmap p _ => Some (RMap, p)
    | ibv_free_device_list l => Some (RDevList, l)
    | ibv_close_device p => Some (RDevice, p)
    | ibv_destroy_comp_channel p => Some (RChannel, p)
    | ibv_dealloc_pd p => Some (RPd, p)
    | ibv_destroy_cq p => Some (RCq, p)
    | ibv_destroy_qp p => Some (RQp, p)
    | ibv_dereg_mr p => Some (RMr, p)
    | sys_close fd => Some (RSocket, fd)
    | _ => None
    end
  end.

Definition counts (x : rkind * Z) (o : option (rkind * Z)) : Z :=
  if decide (o = Some x) then 1 else 0.

(** Acquisitions of [x] minus releases of [x] in the trace. *)
Fixpoint balance (tr : list event) (x : rkind * Z) : Z :=
  match tr with
  | [] => 0
  | ev :: tr' => balance tr' x + counts x (acquires ev) - counts x (releases ev)
  end.

(** How many times [x] is listed. *)
Fixpoint occurrences (x : rkind * Z) (l : list (rkind * Z)) : Z :=
  match l with [] => 0 | y :: l' => occurrences x l' + counts x (Some y) end.

(** [tr] is [tr0] followed by calls that leave exactly the resources [l] held. *)
Definition leaves_held (tr0 tr : list event) (l : list (rkind * Z)) : Prop :=
  forall x, balance tr x = balance tr0 x + occurrences x l.

(** ** Running the model *)

Lemma sys_run {W} `{Env W} c (s : St W) :
  sys c s = (Ret (fst (ext c (world s))),
             mkSt (snd (ext c (world s)))
                  (Ev c (fst (ext c (world s))) :: trace s) (cells s)).
Proof. unfold sys. destruct (ext c (world s)). reflexivity. Qed.

Lemma counts_None x : counts x None = 0.
Proof. unfold counts. destruct (decide (None = Some x)); [discriminate|reflexivity]. Qed.

Lemma counts_same x : counts x (Some x) = 1.
Proof. unfold counts. rewrite decide_True by reflexivity. reflexivity. Qed.

Lemma nonnull_Some k p : p <> 0 -> nonnull k p = Some (k, p).
Proof. unfold nonnull. destruct (Z.eqb_spec p 0); [contradiction|reflexivity]. Qed.

Lemma if_eqb_neq {A} (x y : Z) (a b : A) : x <> y -> (if x =? y then a else b) = b.
Proof. destruct (Z.eqb_spec x y); [contradiction|reflexivity]. Qed.

Lemma if_ltb_ge {A} (x y : Z) (a b : A) : y <= x -> (if x <? y then a else b) = b.
Proof. destruct (Z.ltb_spec x y); [lia|reflexivity]. Qed.

Create Rewrite HintDb held.
#[export] Hint Rewrite @if_eqb_neq @if_ltb_ge using (assumption || lia) : held.
#[export] Hint Rewrite counts_None counts_same : held.
#[export] Hint Rewrite nonnull_Some using (assumption || lia) : held.

(** Resource accounting along a concrete trace. *)
Ltac solve_held :=
  let x := fresh "x" in
  intros x; cbn [balance acquires releases occurrences mbind option_bind trace app];
  autorewrite with held; unfold nonnull, resource;
  repeat (case_if; try (exfalso; lia)); autorewrite with held; lia.

Lemma sys_Ret_inv {W} `{Env W} c (s s' : St W) r :
  sys c s = (Ret r, s') ->
  exists w', ext c (world s) = (r, w') /\ s' = mkSt w' (Ev c r :: trace s) (cells s).
Proof.
  unfold sys. destruct (ext c (world s)) as [r' w']. intros [= -> <-]. eauto.
Qed.

Lemma returns_sys {W} `{Env W} c (s : St W) (Q : ret_of c -> St W -> Prop) :
  (forall r w, ext c (world s) = (r, w) -> Q r (mkSt w (Ev c r :: trace s) (cells s))) ->
  returns (sys c) s Q.
Proof. intros HQ. unfold returns, sys. destruct (ext c (world s)) as [r w] eqn:E. auto. Qed.

Lemma if_returns_sys {W} `{Env W} c (s : St W) (Q : ret_of c -> St W -> Prop) :
  (forall r w, ext c (world s) = (r, w) -> Q r (mkSt w (Ev c r :: trace s) (cells s))) ->
  if_returns (sys c) s Q.
Proof. intros HQ. apply returns_if_returns, returns_sys, HQ. Qed.

Lemma safe_sys {W} `{Env W} c (s : St W) (Q : ret_of c -> St W -> Prop) :
  (forall r w, ext c (world s) = (r, w) -> Q r (mkSt w (Ev c r :: trace s) (cells s))) ->
  safe (sys c) s Q.
Proof. intros HQ. apply returns_safe, returns_sys, HQ. Qed.

Lemma if_returns_sys_host {W} (E : Env W) `{!HostEnv E} c (s : St W) (Q : ret_of c -> St W -> Prop) :
  (forall r w, in_range c r -> Q r (mkSt w (Ev c r :: trace s) (cells s))) ->
  if_returns (sys c) s Q.
Proof.
  intros HQ. apply if_returns_sys. intros r w Er. apply HQ.
  replace r with (fst (ext c (world s))) by (rewrite Er; reflexivity). apply host_in_range.
Qed.

(** Symbolic execution: every external call answers an arbitrary value, every
    condition is decided both ways. *)
Ltac exec1 :=
  lazymatch goal with
  | |- returns (bind _ _) _ _ => apply returns_bind
  | |- returns (sys ?c) ?s _ =>
      refine (returns_sys c s _ _); let r := fresh "r" in let w := fresh "w" in
      intros r w _; cbn [ret_of] in r; cbn [world trace cells]
  | |- returns (ret _) _ _ => apply returns_ret
  | |- returns (match ?x with _ => _ end) _ _ => destruct x eqn:?; bool_to_prop
  | |- safe (bind _ _) _ _ => apply safe_bind
  | |- safe (sys ?c) ?s _ =>
      refine (safe_sys c s _ _); let r := fresh "r" in let w := fresh "w" in
      intros r w _; cbn [ret_of] in r; cbn [world trace cells]
  | |- safe (ret _) _ _ => apply safe_ret
  | |- safe assert_fail _ _ => apply safe_assert_fail
  | |- safe (c_assert _) _ _ => apply safe_c_assert; intros ?; bool_to_prop
  | |- safe (match ?x with _ => _ end) _ _ => destruct x eqn:?; bool_to_prop
  | |- if_returns (bind _ _) _ _ => apply if_returns_bind
  | |- if_returns (sys ?c) ?s _ =>
      refine (if_returns_sys c s _ _); let r := fresh "r" in let w := fresh "w" in
      intros r w _; cbn [ret_of] in r; cbn [world trace cells]
  | |- if_returns (ret _) _ _ => apply if_returns_ret
  | |- if_returns undef _ _ => apply if_returns_undef
  | |- if_returns assert_fail _ _ => apply if_returns_assert_fail
  | |- if_returns (c_assert _) _ _ => apply if_returns_c_assert; intros ?; bool_to_prop
  | |- if_returns (deref _) _ _ =>
      apply if_returns_deref; let a := fresh "a" in intros a ?
  | |- if_returns (match ?x with _ => _ end) _ _ => destruct x eqn:?; bool_to_prop
  end.
Ltac exec := repeat (exec1; cbn beta iota).

(** The same, keeping the range of every answer. *)
Ltac host_exec1 :=
  lazymatch goal with
  | |- if_returns (sys _) _ _ =>
      refine (if_returns_sys_host _ _ _ _ _); let r := fresh "r" in let w := fresh "w" in
      let Hr := fresh "Hr" in
      intros r w Hr; cbn [ret_of in_range] in r, Hr; cbn [world trace cells]
  | |- _ => exec1
  end.
Ltac host_exec := repeat (host_exec1; cbn beta iota).

(** The events [l] has in front of the trace of a state. *)
Ltac list_front l :=
  lazymatch l with
  | ?x :: ?l' => let r := list_front l' in constr:(x :: r)
  | trace _ => constr:(@nil event)
  end.
