(* ===== verification/Mock.v ===== *)
(** A concrete environment: a small scripted model of the libraries, in which
    every call succeeds unless the script says otherwise. The examples and the
    witnesses of the theorems run the program in it. *)
From S2P Require Import Prelude Gid Verbs.
From stdpp Require Import gmap.
Open Scope Z_scope.

(** Handles are numbered by the call count, so they are distinct and not NULL. *)
Definition fresh (n : nat) : Z := 4096 * (Z.of_nat n + 1).

Definition active_port : ibv_port_attr :=
  {| state := IBV_PORT_ACTIVE; port_lid := 7; layer := IBV_LINK_LAYER_INFINIBAND |}.

Definition mock_gid : list Z := [254; 128; 0; 0; 0; 0; 0; 0; 0; 2; 201; 3; 0; 160; 255; 1].

(** The attributes of a queue pair that has just been created. *)
Definition zero_qp_attr : ibv_qp_attr :=
  {| qp_state := IBV_QPS_RESET; path_mtu := IBV_MTU_256; dest_qp_num := 0; rq_psn := 0; sq_psn := 0;
     max_rd_atomic := 0; max_dest_rd_atomic := 0; min_rnr_timer := 0; timeout := 0; retry_cnt := 0;
     rnr_retry := 0; pkey_index := 0; port_num := 0; qkey := 0; qp_access_flags := [];
     ah_attr := zero_ah_attr |}.

(** The successful answer of each call, the [n]th of the run. *)
Definition success (c : call) (n : nat) : ret_of c :=
  match c return ret_of c with
  | mem_load _ len => replicate (Z.to_nat len) 0
  | free _ | mem_store _ _ | ibv_free_device_list _ | ibv_ack_cq_events _ _ | sys_freeaddrinfo => tt
  | calloc _ _ | malloc _ | memalign _ _ | mmap _ => fresh n
  | ibv_get_device_list => Some (fresh n, [fresh n + 1])
  | ibv_get_device_name _ => [109; 108; 120; 52]
  | ibv_open_device _ | ibv_create_comp_channel _ | ibv_alloc_pd _ | ibv_create_cq _ _ _
  | ibv_create_srq _ _ _ => fresh n
  | ibv_query_device _ =>
      (0, {| phys_port_cnt := 2; max_srq_wr := 16; da_max_cqe := 128; max_qp_wr := 64 |})
  | ibv_query_port _ _ => (0, active_port)
  | ibv_query_gid _ _ _ => (0, mock_gid)
  | ibv_query_qp _ => (0, zero_qp_attr, IBV_QPS_RESET)
  | ibv_create_qp _ _ => Some {| qp_handle := fresh n; qp_num := 64 + Z.of_nat n |}
  | ibv_reg_mr _ a _ _ =>
      Some {| mr_handle := fresh n; mr_addr := a; lkey := Z.of_nat n; rkey := 256 + Z.of_nat n |}
  | ibv_poll_cq _ _ => (0, [])
  | sys_getaddrinfo _ _ => (0, [1])
  | asprintf_int _ => (5, fresh n)
  | sys_socket _ | sys_socket_dgram _ | sys_accept _ => 3 + Z.of_nat n
  | sys_getpeername _ => [49; 46; 50; 46; 51; 46; 52]
  | ibv_get_cq_event _ => (0, 0)
  | sys_write _ d | sys_sendto _ d _ => zlen d
  | sys_read _ len => (len, replicate (Z.to_nat len) 0)
  | sys_recvfrom _ len => (len, replicate (Z.to_nat len) 0, 1)
  | sys_page_size => 4096
  | sys_lrand48 | sys_rand => Z.of_nat n
  | _ => 0
  end.

(** The environment whose [n]th call is answered by the script, or succeeds. *)
Definition scripted (f : forall c : call, nat -> option (ret_of c)) : Env nat :=
  fun c n => (default (success c n) (f c n), S n).

Definition all_succeed : Env nat := scripted (fun _ _ => None).

Definition start : St nat := mkSt 0%nat [] ∅.
