(* ===== verification/HugePage.v ===== *)
(** debug/huge_page.c: the huge page allocator. The block's real size is stored
    in front of the memory handed out; [free_huge_pages] reads it back to tell
    an [mmap]ed block from a [malloc]ed one. *)
From stdpp Require Import gmap.
From S2P Require Import Prelude Verbs Mock.
Open Scope Z_scope.

Definition HUGE_PAGE_SIZE : Z := 2 * 1024 * 1024.

(** [size_t] arithmetic, each operation modulo 2^64. *)
Definition ALIGN_TO_PAGE_SIZE (x : Z) : Z :=
  u64 (u64 (u64 (x + HUGE_PAGE_SIZE) - 1) / HUGE_PAGE_SIZE * HUGE_PAGE_SIZE).

Definition MAP_FAILED : Z := -1.

Section HugePage.
Context {W : Type} `{Env W}.

(** [*((size_t * )p) = v]. *)
Definition store_cell (p v : Z) : M (St W) unit :=
  modify (fun s => mkSt (world s) (trace s) (<[p := v]> (cells s))).

Definition malloc_huge_pages (size : Z) : M (St W) Z :=
  let real_size := ALIGN_TO_PAGE_SIZE (u64 (size + HUGE_PAGE_SIZE)) in
  let* ptr := sys (mmap real_size) in
  if ptr =? MAP_FAILED then
    let* ptr := sys (malloc (Bytes real_size)) in
    if ptr =? 0 then ret 0
    else store_cell ptr 0 ;;; ret (ptr + HUGE_PAGE_SIZE)
  else store_cell ptr real_size ;;; ret (ptr + HUGE_PAGE_SIZE).

Definition free_huge_pages (ptr : Z) : M (St W) unit :=
  if ptr =? 0 then ret tt
  else
    let real_ptr := ptr - HUGE_PAGE_SIZE in
    let* s := get in
    let* real_size := deref (cells s !! real_ptr) in
    c_assert (real_size mod HUGE_PAGE_SIZE =? 0) ;;;
    if negb (real_size =? 0) then sys (munmap real_ptr real_size) ;;; ret tt
    else sys (free real_ptr).

(** ** Size computation *)

Lemma align_spec x :
  0 <= x -> x + HUGE_PAGE_SIZE <= 2 ^ 64 ->
  x <= ALIGN_TO_PAGE_SIZE x < x + HUGE_PAGE_SIZE /\
  ALIGN_TO_PAGE_SIZE x mod HUGE_PAGE_SIZE = 0.
Proof.
  unfold ALIGN_TO_PAGE_SIZE, u64. change HUGE_PAGE_SIZE with 2097152. intros H0 H1.
  assert (E : ((x + 2097152) mod 2 ^ 64 - 1) mod 2 ^ 64 = x + 2097152 - 1 \/
              x + 2097152 = 2 ^ 64).
  { destruct (Z.eq_dec (x + 2097152) (2 ^ 64)); [auto|left].
    rewrite (Z.mod_small (x + 2097152)) by lia. apply Z.mod_small. lia. }
  destruct E as [->|E].
  - rewrite (Z.mod_small (_ * _)) by (Z.div_mod_to_equations; lia).
    rewrite Z.mod_mul by lia. Z.div_mod_to_equations. lia.
  - replace x with (2 ^ 64 - 2097152) by lia. vm_compute. repeat split; discriminate.
Qed.

(** Whatever the size, the real size is a multiple of the page size. *)
Lemma align_multiple x : ALIGN_TO_PAGE_SIZE x mod HUGE_PAGE_SIZE = 0.
Proof.
  unfold ALIGN_TO_PAGE_SIZE. set (q := u64 (u64 (x + HUGE_PAGE_SIZE) - 1) / HUGE_PAGE_SIZE).
  unfold u64. replace (2 ^ 64) with (8796093022208 * HUGE_PAGE_SIZE) by reflexivity.
  rewrite Z.mul_mod_distr_r by (unfold HUGE_PAGE_SIZE; lia). apply Z.mod_mul.
  unfold HUGE_PAGE_SIZE. lia.
Qed.

(** ** Allocation *)

(** What a successful allocation did: one block acquired, its base one huge
    page before the pointer, its length recorded (0 for a malloced block). *)
Lemma malloc_huge_pages_run size s p s1 :
  malloc_huge_pages size s = (Ret p, s1) -> p <> 0 ->
  let base := p - HUGE_PAGE_SIZE in
  let real := ALIGN_TO_PAGE_SIZE (u64 (size + HUGE_PAGE_SIZE)) in
  (trace s1 = Ev (mmap real) base :: trace s /\ base <> MAP_FAILED /\
   cells s1 = <[base := real]> (cells s)) \/
  (trace s1 = Ev (malloc (Bytes real)) base :: Ev (mmap real) MAP_FAILED :: trace s /\ base <> 0 /\
   cells s1 = <[base := 0]> (cells s)).
Proof.
  intros Hrun Hp base real. unfold malloc_huge_pages in Hrun. fold real in Hrun.
  apply bind_Ret_inv in Hrun as (q & s0 & Hq & Hrun).
  apply sys_Ret_inv in Hq as (w0 & _ & ->). case_if.
  - apply bind_Ret_inv in Hrun as (q' & s0 & Hq & Hrun).
    apply sys_Ret_inv in Hq as (w1 & _ & ->). case_if.
    + apply ret_Ret_inv in Hrun. lia.
    + injection Hrun as <- <-. right. subst base q. cbn.
      replace (q' + _ - _) with q' by lia. auto.
  - injection Hrun as <- <-. left. subst base. cbn.
    replace (q + _ - _) with q by lia. auto.
Qed.

(** Release of a block whose metadata cell is readable. *)
Lemma free_huge_pages_run p s r :
  p <> 0 -> cells s !! (p - HUGE_PAGE_SIZE) = Some r -> r mod HUGE_PAGE_SIZE = 0 ->
  exists ev w,
    free_huge_pages p s = (Ret tt, mkSt w (ev :: trace s) (cells s)) /\
    (if r =? 0 then ev = Ev (free (p - HUGE_PAGE_SIZE)) tt
     else exists q, ev = Ev (munmap (p - HUGE_PAGE_SIZE) r) q).
Proof.
  intros Hp Hc Hm. unfold free_huge_pages, get, bind at 1. cbn beta iota.
  destruct (Z.eqb_spec p 0); [contradiction|].
  rewrite Hc. cbn [deref]. rewrite bind_ret, Hm. cbn [Z.eqb c_assert]. rewrite bind_ret.
  destruct (r =? 0); cbn [negb].
  - unfold sys. destruct (ext _ _) as [[] w]. eauto.
  - unfold bind. rewrite sys_run. cbn. eauto.
Qed.

(** ** Properties *)

(** C28 Life cycle of a huge page block: an allocation that returns a pointer
    holds exactly one block of memory (mapped or malloced) that contains the
    requested bytes after the metadata page; a later [free_huge_pages] of that
    pointer, in any state that kept the metadata cell, returns normally (the
    size assertion holds) with one release call, of the same block, and an
    [munmap] gets the length the [mmap] was made with. *)
Theorem huge_pages_lifecycle size s p s1 s2 :
  0 <= size -> size + 2 * HUGE_PAGE_SIZE <= 2 ^ 64 ->
  malloc_huge_pages size s = (Ret p, s1) -> p <> 0 ->
  let base := p - HUGE_PAGE_SIZE in
  cells s2 !! base = cells s1 !! base ->
  exists real_size k release w,
    size + HUGE_PAGE_SIZE <= real_size < size + 2 * HUGE_PAGE_SIZE /\
    real_size mod HUGE_PAGE_SIZE = 0 /\
    leaves_held (trace s) (trace s1) [(k, base)] /\
    free_huge_pages p s2 = (Ret tt, mkSt w (release :: trace s2) (cells s2)) /\
    releases release = Some (k, base) /\
    match k with
    | RMap => hd_error (trace s1) = Some (Ev (mmap real_size) base) /\
              exists r, release = Ev (munmap base real_size) r
    | _ => hd_error (trace s1) = Some (Ev (malloc (Bytes real_size)) base)
    end.
Proof.
  intros H0 Hmax Hrun Hp base Hcell.
  assert (Hu : u64 (size + HUGE_PAGE_SIZE) = size + HUGE_PAGE_SIZE)
    by (apply u64_small; unfold HUGE_PAGE_SIZE in *; lia).
  apply malloc_huge_pages_run in Hrun; [|exact Hp]. cbv zeta in Hrun. fold base in Hrun.
  rewrite Hu in Hrun. set (real := ALIGN_TO_PAGE_SIZE (size + HUGE_PAGE_SIZE)) in *.
  destruct (align_spec (size + HUGE_PAGE_SIZE)) as [Hreal Hmod];
    [unfold HUGE_PAGE_SIZE in *; lia..|fold real in Hreal, Hmod].
  assert (Hr : size + HUGE_PAGE_SIZE <= real < size + 2 * HUGE_PAGE_SIZE)
    by (unfold HUGE_PAGE_SIZE in *; lia).
  exists real. destruct Hrun as [(Htr & Hb & Hc)|(Htr & Hb & Hc)];
    rewrite Hc, lookup_insert_eq in Hcell;
    (destruct (free_huge_pages_run p s2 _ Hp Hcell) as (ev & w & Hf & Hev);
      [assumption || reflexivity|]); rewrite Htr.
  - destruct (Z.eqb_spec real 0); [unfold HUGE_PAGE_SIZE in *; lia|].
    destruct Hev as [q ->]. exists RMap. do 2 eexists.
    refine (conj Hr (conj Hmod (conj _ (conj Hf (conj eq_refl _))))); [|eauto].
    unfold MAP_FAILED in Hb. solve_held.
  - rewrite Hev in Hf. exists RHeap. do 2 eexists.
    refine (conj Hr (conj Hmod (conj _ (conj Hf (conj _ eq_refl))))).
    + solve_held.
    + cbn. fold base. apply nonnull_Some, Hb.
Qed.
End HugePage.

(** A hundred bytes in the scripted environment: mapped, then unmapped. *)
Example huge_pages_lifecycle_witness :
  exists p s1 release w,
    malloc_huge_pages (H := all_succeed) 100 start = (Ret p, s1) /\ p <> 0 /\
    free_huge_pages (H := all_succeed) p s1 = (Ret tt, mkSt w (release :: trace s1) (cells s1)).
Proof.
  eexists _, _.
  edestruct (huge_pages_lifecycle (H := all_succeed) 100 start) as (r & k & release & w & Hr);
    [lia|vm_compute; discriminate|reflexivity|discriminate|reflexivity|].
  exists release, w. split; [reflexivity|]. split; [discriminate|]. apply Hr.
Defined.
