(* ===== verification/ExchDest.v ===== *)
(** The text message two peers exchange to connect their queue pairs:
    [struct info_con] of debug/rdma_socket.h and the [sprintf]/[sscanf] pairs of
    [rdma_client_exch_dest] and [rdma_server_exch_dest] (debug/rdma_socket.c). *)
From Stdlib Require Import String.
From S2P Require Import Prelude CText Gid.
Open Scope Z_scope.

Record info_con := {
  lid : Z; qpn : Z; psn : Z; rkey : Z; addr : Z; gid : list Z }.

(** [sizeof msg]. *)
Definition msg_size : Z :=
  zlen (chars "00000000:00000000:00000000:0000000000000000:00000000:00000000000000000000000000000000") + 1.

(** [char gid[33]]. *)
Definition gid_buf_size : Z := 33.

(** [gid_to_wire_gid(&my_info->gid, gid); sprintf(msg, "...", my_info->lid, ...)]
    on the locals [msg] and [gid_buf]; answers the new [gid_buf] and [msg].
    [None]: a buffer overflows. *)
Definition print_info (e : endian) (my_info : info_con) (gid_buf msg : list Z)
  : option (list Z * list Z) :=
  gid_buf ← gid_to_wire_gid e (gid my_info) gid_buf;
  g ← c_string gid_buf;
  msg ← sprintf msg 0 "%08x:%08x:%08x:%016lu:%08x:%s"
    [AInt (lid my_info); AInt (qpn my_info); AInt (psn my_info);
     AInt (addr my_info); AInt (rkey my_info); AStr g];
  Some (gid_buf, msg).

(** The stores of [sscanf(msg, ..., &remote_info->lid, ..., gid)]: the fields
    converted, in order; the others keep what the memory held. *)
Definition store_info (vs : list sval) (i : info_con) : info_con :=
  let num k d := match vs !! k with Some (VNum v) => v | _ => d end in
  {| lid := num 0%nat (lid i); qpn := num 1%nat (qpn i); psn := num 2%nat (psn i);
     addr := num 3%nat (addr i); rkey := num 4%nat (rkey i); gid := gid i |}.

Definition store_gid (vs : list sval) (gid_buf : list Z) : option (list Z) :=
  match vs !! 5%nat with
  | Some (VStr t) => buf_write 0 (t ++ [0]) gid_buf
  | _ => Some gid_buf
  end.

(** [sscanf(msg, "%x:%x:%x:%lu:%x:%s", ...); wire_gid_to_gid(gid, &remote_info->gid)]
    into the freshly allocated [remote_info], whose memory held [junk]. *)
Definition scan_info (e : endian) (v32 : Z) (msg gid_buf : list Z) (junk : info_con)
  : option info_con :=
  vs ← sscanf msg "%x:%x:%x:%lu:%x:%s";
  gid_buf ← store_gid vs gid_buf;
  let i := store_info vs junk in
  g ← wire_gid_to_gid e v32 gid_buf (gid i);
  Some {| lid := lid i; qpn := qpn i; psn := psn i; rkey := rkey i; addr := addr i; gid := g |}.

(** ** Well-formed connection data *)

Definition wf_info (i : info_con) : Prop :=
  0 <= lid i < 2 ^ 32 /\ 0 <= qpn i < 2 ^ 32 /\ 0 <= psn i < 2 ^ 32 /\
  0 <= rkey i < 2 ^ 32 /\ 0 <= addr i < 2 ^ 64 /\ wf_gid (gid i).

(** The text of a message. *)
Definition hex8 (n : Z) : list Z := pad true (Some 8) (print_uint 16 n).
Definition dec16 (n : Z) : list Z := pad true (Some 16) (print_uint 10 n).
Definition colon : Z := 58.

Definition info_text (i : info_con) : list Z :=
  hex8 (lid i) ++ colon :: hex8 (qpn i) ++ colon :: hex8 (psn i) ++ colon ::
  dec16 (addr i) ++ colon :: hex8 (rkey i) ++ colon :: gid_hex (gid i).

Lemma hex8_zlen n : 0 <= n < 2 ^ 32 -> zlen (hex8 n) = 8.
Proof.
  intros. unfold hex8. rewrite pad_zlen.
  pose proof (print_uint_zlen 16 n 8). lia.
Qed.

Lemma dec16_zlen_ge n : 16 <= zlen (dec16 n).
Proof. unfold dec16. rewrite pad_zlen. lia. Qed.

Lemma dec16_zlen n : 0 <= n < 10 ^ 16 -> zlen (dec16 n) = 16.
Proof.
  intros. unfold dec16. rewrite pad_zlen.
  pose proof (print_uint_zlen 10 n 16). lia.
Qed.

Lemma colon_stops base r : base <= 16 -> stops base (colon :: r).
Proof.
  intros. cbn. split; [|unfold colon; lia].
  unfold is_digit. apply Z.ltb_ge. vm_compute digit_val. lia.
Qed.

Lemma hex8_digits n : 0 <= n -> all_digits 16 (hex8 n).
Proof. intros. apply pad_all_digits, digits_all; lia. Qed.

Lemma dec16_digits n : 0 <= n -> all_digits 10 (dec16 n).
Proof. intros. apply pad_all_digits, digits_all; lia. Qed.

Lemma info_text_nonzero i : wf_info i -> Forall (fun c => c <> 0) (info_text i).
Proof.
  intros (? & ? & ? & ? & ? & ? & Hg). unfold info_text.
  repeat (rewrite Forall_app || rewrite Forall_cons_iff).
  repeat split; try discriminate;
    solve [eapply (all_digits_nonzero 16); [lia|apply hex8_digits; lia]
          |eapply (all_digits_nonzero 10); [lia|apply dec16_digits; lia]
          |eapply (all_digits_nonzero 16); [lia|apply gid_hex_digits, Hg]].
Qed.

Lemma gid_hex_nonzero g : wf_gid g -> Forall (fun c => c <> 0) (gid_hex g).
Proof. intros [_ Hg]. eapply (all_digits_nonzero 16); [lia|apply gid_hex_digits, Hg]. Qed.

Lemma pad_no_width z t : pad z None t = t.
Proof.
  unfold pad. replace (Z.to_nat (0 - zlen t)) with 0%nat by (pose proof (zlen_nonneg t); lia).
  reflexivity.
Qed.

Lemma info_text_zlen i : wf_info i -> zlen (info_text i) = 69 + zlen (dec16 (addr i)).
Proof.
  intros (? & ? & ? & ? & ? & [Hl _]). unfold info_text. autorewrite with zlen.
  rewrite !hex8_zlen, gid_hex_zlen by assumption. unfold zlen. rewrite Hl. lia.
Qed.

(** What [print_info] writes: the message text, where it fits the buffer. *)
Lemma print_info_text e i gid_buf msg :
  wf_info i -> zlen gid_buf = gid_buf_size ->
  print_info e i gid_buf msg
  = (m ← buf_write 0 (info_text i ++ [0]) msg; Some (gid_hex (gid i) ++ [0], m)).
Proof.
  intros Hi Hg. destruct (Hi) as (? & ? & ? & ? & ? & Hwf). unfold print_info.
  rewrite gid_to_wire_gid_hex by assumption. cbn [mbind option_bind].
  rewrite c_string_app by (apply gid_hex_nonzero, Hwf). cbn [mbind option_bind].
  unfold sprintf, sprintf_text.
  change (format _) with
    (Some [DConv true (Some 8) false CvX; DChar colon; DConv true (Some 8) false CvX; DChar colon;
           DConv true (Some 8) false CvX; DChar colon; DConv true (Some 16) true CvU; DChar colon;
           DConv true (Some 8) false CvX; DChar colon; DConv false None false CvS]).
  cbn -[pad print_uint u32 u64 colon buf_write gid_hex].
  rewrite !u32_small, u64_small by assumption.
  unfold info_text, hex8, dec16. rewrite app_nil_r, pad_no_width. reflexivity.
Qed.

(** Scanning one field of the message: the number and the separator after it. *)
Lemma scan_hex8 n r :
  0 <= n < 2 ^ 32 -> scan_num 16 None (hex8 n ++ colon :: r) = Some (n, colon :: r).
Proof.
  intros. apply (scan_print_num 16 (Some 8)); [lia|lia|]. apply (colon_stops 16). lia.
Qed.

Lemma scan_dec16 n r :
  0 <= n < 2 ^ 64 -> scan_num 10 None (dec16 n ++ colon :: r) = Some (n, colon :: r).
Proof.
  intros. apply (scan_print_num 10 (Some 16)); [lia|lia|]. apply (colon_stops 10). lia.
Qed.

Lemma scan_dirs_hex z l n r ds :
  0 <= n < 2 ^ 32 ->
  scan_dirs (DConv z None l CvX :: DChar colon :: ds) (hex8 n ++ colon :: r)
  = VNum n :: scan_dirs ds r.
Proof.
  intros Hn. cbn [scan_dirs]. rewrite scan_hex8 by assumption. rewrite Z.eqb_refl.
  destruct l; [reflexivity|]. rewrite u32_small by assumption. reflexivity.
Qed.

Lemma scan_dirs_dec z n r ds :
  0 <= n < 2 ^ 64 ->
  scan_dirs (DConv z None true CvU :: DChar colon :: ds) (dec16 n ++ colon :: r)
  = VNum n :: scan_dirs ds r.
Proof.
  intros Hn. cbn [scan_dirs]. rewrite scan_dec16 by assumption. rewrite Z.eqb_refl. reflexivity.
Qed.

Lemma sscanf_info i rest :
  wf_info i ->
  sscanf (info_text i ++ 0 :: rest) "%x:%x:%x:%lu:%x:%s"
  = Some [VNum (lid i); VNum (qpn i); VNum (psn i); VNum (addr i); VNum (rkey i);
          VStr (gid_hex (gid i))].
Proof.
  intros Hi. destruct (Hi) as (? & ? & ? & ? & ? & [Hl Hb]). unfold sscanf.
  rewrite c_string_app by (apply info_text_nonzero, Hi). cbn [mbind option_bind].
  change (format _) with
    (Some [DConv false None false CvX; DChar colon; DConv false None false CvX; DChar colon;
           DConv false None false CvX; DChar colon; DConv false None true CvU; DChar colon;
           DConv false None false CvX; DChar colon; DConv false None false CvS]).
  cbn [mbind option_bind]. unfold info_text.
  rewrite !scan_dirs_hex, scan_dirs_dec, scan_dirs_hex by assumption.
  cbn [scan_dirs]. rewrite (scan_str_digits 16); [reflexivity|lia|apply gid_hex_digits, Hb|].
  intros E%(f_equal (@length Z)). pose proof (gid_hex_zlen (gid i)) as Hz.
  unfold zlen in Hz. rewrite E, Hl in Hz. discriminate Hz.
Qed.

(** Both halves of the exchange on well-formed connection data. *)
Lemma print_info_exact e i gid_buf msg :
  wf_info i -> addr i < 10 ^ 16 -> zlen gid_buf = gid_buf_size -> zlen msg = msg_size ->
  exists gid_buf', print_info e i gid_buf msg = Some (gid_buf', info_text i ++ [0]) /\
    zlen gid_buf' = gid_buf_size.
Proof.
  intros Hi Ha H1 Hm. destruct (Hi) as (? & ? & ? & ? & ? & Hg).
  assert (Hz : zlen (info_text i ++ [0]) = zlen msg).
  { rewrite zlen_app, info_text_zlen, dec16_zlen, Hm by (assumption || lia). reflexivity. }
  rewrite print_info_text by assumption.
  rewrite <- (app_nil_r msg), (buf_write_app [] _ msg []), app_nil_r by exact Hz.
  eexists. split; [reflexivity|]. rewrite zlen_app, gid_hex_zlen.
  unfold zlen. rewrite (proj1 Hg). reflexivity.
Qed.

Lemma info_wire_zlen i :
  wf_info i -> addr i < 10 ^ 16 -> zlen (info_text i ++ [0]) = msg_size.
Proof.
  intros Hi Ha. destruct (Hi) as (? & ? & ? & ? & ? & Hg).
  rewrite zlen_app, info_text_zlen, dec16_zlen by (assumption || lia). reflexivity.
Qed.

Lemma scan_info_exact e v32 i gid_buf junk :
  wf_info i -> zlen gid_buf = gid_buf_size -> zlen (gid junk) = 16 ->
  scan_info e v32 (info_text i ++ [0]) gid_buf junk = Some i.
Proof.
  intros Hi H2 Hj. destruct (Hi) as (? & ? & ? & ? & ? & Hg).
  unfold scan_info. rewrite sscanf_info by assumption. cbn [mbind option_bind].
  unfold store_gid. cbn [lookup list_lookup].
  destruct (split_at 33 gid_buf) as (old & tl & -> & Hold);
    [unfold zlen, gid_buf_size in H2; lia|].
  rewrite (buf_write_app [] _ old tl).
  2:{ rewrite zlen_app, gid_hex_zlen. unfold zlen. rewrite Hold, (proj1 Hg). reflexivity. }
  cbn [mbind option_bind app]. rewrite <- app_assoc, wire_gid_to_gid_hex by assumption.
  destruct i. reflexivity.
Qed.

(** ** Properties *)

(** C12 The connection message round-trips between any two hosts: the message
    one peer prints, whatever its byte order, fills the 86 byte buffer exactly
    and is scanned by the other peer, whatever its byte order and whatever the
    fresh memory held, back to the same [info_con], provided the buffer address
    has at most sixteen decimal digits. *)
Theorem info_roundtrip e1 e2 i gid_buf1 gid_buf2 msg v32 junk :
  wf_info i -> addr i < 10 ^ 16 ->
  zlen gid_buf1 = gid_buf_size -> zlen gid_buf2 = gid_buf_size -> zlen msg = msg_size ->
  zlen (gid junk) = 16 ->
  exists wire,
    snd <$> print_info e1 i gid_buf1 msg = Some wire /\ zlen wire = msg_size /\
    scan_info e2 v32 wire gid_buf2 junk = Some i.
Proof.
  intros Hi Ha H1 H2 Hm Hj. exists (info_text i ++ [0]).
  destruct (print_info_exact e1 i gid_buf1 msg Hi Ha H1 Hm) as (g & -> & _).
  split; [reflexivity|]. split; [apply info_wire_zlen; assumption|].
  apply scan_info_exact; assumption.
Qed.

(** The bound of the previous property is sharp: with an address of more than
    sixteen digits (a [%016lu] is a minimum width) the [sprintf] into the 86 byte
    [msg] writes past its end. *)
Theorem info_overflow e i gid_buf msg :
  wf_info i -> 10 ^ 16 <= addr i ->
  zlen gid_buf = gid_buf_size -> zlen msg = msg_size ->
  print_info e i gid_buf msg = None.
Proof.
  intros Hi Ha Hg Hm. rewrite print_info_text by assumption.
  destruct (buf_write 0 (info_text i ++ [0]) msg) as [b|] eqn:E; [|reflexivity].
  apply buf_write_Some in E as [[_ Hlen] _].
  rewrite zlen_app, info_text_zlen, Hm in Hlen by assumption.
  enough (17 <= zlen (dec16 (addr i))).
  { change (zlen [0]) with 1 in Hlen. change msg_size with 86 in Hlen. lia. }
  unfold dec16. rewrite pad_zlen.
  enough (17 <= zlen (print_uint 10 (addr i))) by lia.
  pose proof (print_uint_zlen_ge 10 (addr i) 16) as Hge. destruct Hi as (_ & _ & _ & _ & ? & _).
  lia.
Qed.

(** ** Witnesses *)

Definition sample_info : info_con :=
  {| lid := 7; qpn := 74; psn := 11259375; rkey := 305419896; addr := 140737353900032;
     gid := [254; 128; 0; 0; 0; 0; 0; 0; 0; 2; 201; 3; 0; 160; 255; 1] |}.

Definition blank_info : info_con :=
  {| lid := 0; qpn := 0; psn := 0; rkey := 0; addr := 0; gid := replicate 16 0 |}.

Lemma sample_info_wf a :
  0 <= a < 2 ^ 64 ->
  wf_info {| lid := 7; qpn := 74; psn := 11259375; rkey := 305419896; addr := a;
             gid := gid sample_info |}.
Proof.
  intros. repeat split; cbn; try lia. repeat (constructor; [unfold is_byte; lia|]). constructor.
Qed.

Example info_roundtrip_witness :
  exists wire,
    snd <$> print_info LittleEndian sample_info (replicate 33 0) (replicate 86 0) = Some wire /\
    zlen wire = msg_size /\
    scan_info BigEndian 0 wire (replicate 33 0) blank_info = Some sample_info.
Proof.
  apply (info_roundtrip LittleEndian BigEndian sample_info); try reflexivity.
  apply (sample_info_wf 140737353900032). lia.
Defined.

Definition far_info : info_con :=
  {| lid := 7; qpn := 74; psn := 11259375; rkey := 305419896; addr := 18446744073709551615;
     gid := gid sample_info |}.

Example info_overflow_witness :
  print_info LittleEndian far_info (replicate 33 0) (replicate 86 0) = None.
Proof.
  apply (info_overflow LittleEndian far_info); try reflexivity.
  - apply sample_info_wf. lia.
  - cbn [addr far_info]. lia.
Defined.
