(* ===== verification/QpProtocol.v ===== *)
(** The contract of a reliable-connection queue pair, against which both stacks
    (debug/rdma_socket.c and rdma/) bring their queue pairs up: an attribute
    block given to [ibv_modify_qp] sets the registers its mask selects, and each
    transition of RESET -> INIT -> RTR -> RTS requires its set of mask bits, as
    the ibv_modify_qp manual states them. [accepted] reads off a trace the
    modifications the adapter accepted. *)
From S2P Require Import Prelude Gid Verbs.
Open Scope Z_scope.

Record qp_regs := {
  q_state : ibv_qp_state; q_port : Z; q_pkey : Z; q_access : list access_flag;
  q_av : ibv_ah_attr; q_mtu : ibv_mtu; q_dest_qpn : Z; q_rq_psn : Z; q_sq_psn : Z;
  q_dest_rd_atomic : Z; q_rd_atomic : Z; q_rnr_timer : Z;
  q_timeout : Z; q_retry : Z; q_rnr_retry : Z; q_qkey : Z }.

Definition reset_regs : qp_regs :=
  {| q_state := IBV_QPS_RESET; q_port := 0; q_pkey := 0; q_access := []; q_av := zero_ah_attr;
     q_mtu := IBV_MTU_256; q_dest_qpn := 0; q_rq_psn := 0; q_sq_psn := 0;
     q_dest_rd_atomic := 0; q_rd_atomic := 0; q_rnr_timer := 0; q_timeout := 0;
     q_retry := 0; q_rnr_retry := 0; q_qkey := 0 |}.

Definition has (b : qp_attr_bit) (mask : list qp_attr_bit) : bool := bool_decide (b ∈ mask).

Definition apply_modify (r : qp_regs) (a : ibv_qp_attr) (m : list qp_attr_bit) : qp_regs :=
  {| q_state := if has IBV_QP_STATE m then qp_state a else q_state r;
     q_port := if has IBV_QP_PORT m then port_num a else q_port r;
     q_pkey := if has IBV_QP_PKEY_INDEX m then pkey_index a else q_pkey r;
     q_access := if has IBV_QP_ACCESS_FLAGS m then qp_access_flags a else q_access r;
     q_av := if has IBV_QP_AV m then ah_attr a else q_av r;
     q_mtu := if has IBV_QP_PATH_MTU m then path_mtu a else q_mtu r;
     q_dest_qpn := if has IBV_QP_DEST_QPN m then dest_qp_num a else q_dest_qpn r;
     q_rq_psn := if has IBV_QP_RQ_PSN m then rq_psn a else q_rq_psn r;
     q_sq_psn := if has IBV_QP_SQ_PSN m then sq_psn a else q_sq_psn r;
     q_dest_rd_atomic :=
       if has IBV_QP_MAX_DEST_RD_ATOMIC m then max_dest_rd_atomic a else q_dest_rd_atomic r;
     q_rd_atomic := if has IBV_QP_MAX_QP_RD_ATOMIC m then max_rd_atomic a else q_rd_atomic r;
     q_rnr_timer := if has IBV_QP_MIN_RNR_TIMER m then min_rnr_timer a else q_rnr_timer r;
     q_timeout := if has IBV_QP_TIMEOUT m then timeout a else q_timeout r;
     q_retry := if has IBV_QP_RETRY_CNT m then retry_cnt a else q_retry r;
     q_rnr_retry := if has IBV_QP_RNR_RETRY m then rnr_retry a else q_rnr_retry r;
     q_qkey := if has IBV_QP_QKEY m then qkey a else q_qkey r |}.

(** Mask bits a transition of an RC queue pair requires; [None]: no such
    transition. *)
Definition required (from to : ibv_qp_state) : option (list qp_attr_bit) :=
  match from, to with
  | IBV_QPS_RESET, IBV_QPS_INIT =>
      Some [IBV_QP_STATE; IBV_QP_PKEY_INDEX; IBV_QP_PORT; IBV_QP_ACCESS_FLAGS]
  | IBV_QPS_INIT, IBV_QPS_RTR =>
      Some [IBV_QP_STATE; IBV_QP_AV; IBV_QP_PATH_MTU; IBV_QP_DEST_QPN; IBV_QP_RQ_PSN;
            IBV_QP_MAX_DEST_RD_ATOMIC; IBV_QP_MIN_RNR_TIMER]
  | IBV_QPS_RTR, IBV_QPS_RTS =>
      Some [IBV_QP_STATE; IBV_QP_SQ_PSN; IBV_QP_MAX_QP_RD_ATOMIC; IBV_QP_RETRY_CNT;
            IBV_QP_RNR_RETRY; IBV_QP_TIMEOUT]
  | _, IBV_QPS_RESET | _, IBV_QPS_ERR => Some [IBV_QP_STATE]
  | _, _ => None
  end.

Definition allowed (from : ibv_qp_state) (a : ibv_qp_attr) (m : list qp_attr_bit) : bool :=
  match required from (qp_state a) with
  | Some bits => forallb (fun b => has b m) bits
  | None => false
  end.

(** The queue pair as a transition system. *)
Inductive qp_step : qp_regs -> ibv_qp_attr * list qp_attr_bit -> qp_regs -> Prop :=
  | qp_step_modify r a m :
      allowed (q_state r) a m = true -> qp_step r (a, m) (apply_modify r a m).

Inductive qp_run : qp_regs -> list (ibv_qp_attr * list qp_attr_bit) -> qp_regs -> Prop :=
  | qp_run_nil r : qp_run r [] r
  | qp_run_cons r1 l r2 ls r3 : qp_step r1 l r2 -> qp_run r2 ls r3 -> qp_run r1 (l :: ls) r3.

(** The modifications of queue pair [h] the adapter accepted, oldest first. *)
Fixpoint accepted (h : Z) (tr : list event) : list (ibv_qp_attr * list qp_attr_bit) :=
  match tr with
  | [] => []
  | Ev c r :: tr' =>
      accepted h tr' ++
      (match c return ret_of c -> list (ibv_qp_attr * list qp_attr_bit) with
       | ibv_modify_qp q a m => fun rc => if (q =? h) && (rc =? 0) then [(a, m)] else []
       | _ => fun _ => []
       end) r
  end.

(** The executable run of the registers, and its agreement with the relation. *)
Fixpoint run_regs (r : qp_regs) (ls : list (ibv_qp_attr * list qp_attr_bit)) : option qp_regs :=
  match ls with
  | [] => Some r
  | (a, m) :: ls' => if allowed (q_state r) a m then run_regs (apply_modify r a m) ls' else None
  end.

Lemma run_regs_spec r ls r' : run_regs r ls = Some r' <-> qp_run r ls r'.
Proof.
  split.
  - revert r. induction ls as [|[a m] ls IH]; intros r; cbn.
    + intros [= ->]. constructor.
    + destruct (allowed (q_state r) a m) eqn:E; [|discriminate].
      intros Hr. econstructor; [constructor; exact E|]. apply IH, Hr.
  - induction 1 as [r|r1 l r2 ls r3 Hstep _ IH]; [reflexivity|].
    inversion Hstep as [? a m Ha]; subst. cbn. rewrite Ha. exact IH.
Qed.

Lemma qp_run_app r ls1 r' ls2 r'' :
  qp_run r ls1 r' -> qp_run r' ls2 r'' -> qp_run r (ls1 ++ ls2) r''.
Proof. induction 1; cbn; [auto|]. econstructor; eauto. Qed.

(** A queue pair never reaches RTS without having been given the peer. *)
Lemma qp_run_state_reset r ls r' :
  qp_run r ls r' -> q_state r = IBV_QPS_RESET -> q_state r' = IBV_QPS_RTS ->
  exists a m, In (a, m) ls /\ qp_state a = IBV_QPS_RTR /\ In IBV_QP_DEST_QPN m.
Proof.
  intros Hrun. remember (q_state r') as st eqn:Est. intros H0 ->.
  enough (forall r ls r', qp_run r ls r' -> q_state r' = IBV_QPS_RTS ->
            q_state r <> IBV_QPS_RTS -> q_state r <> IBV_QPS_RTR ->
            exists a m, In (a, m) ls /\ qp_state a = IBV_QPS_RTR /\ In IBV_QP_DEST_QPN m) as G
    by (eapply G; [exact Hrun|auto|congruence..]).
  clear. induction 1 as [r|r1 l r2 ls r3 Hstep Hrun IH]; intros E3 N1 N2; [contradiction|].
  inversion Hstep as [? a m Ha]; subst.
  unfold allowed in Ha. destruct (required (q_state r1) (qp_state a)) as [bits|] eqn:Er; [|discriminate].
  rewrite forallb_forall in Ha.
  assert (Hst : In IBV_QP_STATE bits).
  { destruct (q_state r1), (qp_state a); cbn in Er; inversion Er; subst; cbn; auto. }
  assert (Hq : q_state (apply_modify r1 a m) = qp_state a).
  { cbn. rewrite (Ha _ Hst). reflexivity. }
  destruct (decide (qp_state a = IBV_QPS_RTR)) as [E|E].
  - exists a, m. split; [left; reflexivity|]. split; [exact E|].
    rewrite E in Er. assert (Hb : In IBV_QP_DEST_QPN bits).
    { destruct (q_state r1); cbn in Er; inversion Er; subst; cbn; auto 10. }
    apply Ha in Hb. unfold has in Hb. apply bool_decide_eq_true in Hb.
    apply list_elem_of_In, Hb.
  - destruct (IH E3) as (a' & m' & Hin & ?).
    + rewrite Hq. intros E'. rewrite E' in Er. destruct (q_state r1); cbn in Er; congruence.
    + rewrite Hq. exact E.
    + exists a', m'. split; [right; exact Hin|assumption].
Qed.
