(* ===== verification/RdmaContext.v ===== *)
(** debug/rdma_socket.c, the life of an [rdma_context]: [init_rdma_context] with
    its goto clean-up chain, [rdma_connect_ctx] (the queue pair's way to RTS),
    [rdma_close_ctx], and the memory regions [rdma_reg_mr]/[rdma_dereg_mr]. *)
From Stdlib Require Import String.
From S2P Require Import Prelude Gid Verbs Mock QpProtocol ExchDest.
Open Scope Z_scope.

Record rdma_mem := { rm_self : Z; mr : ibv_mr; buf : Z; size : Z }.

Record rdma_context := {
  ctx_self : Z;                        (* the pointer calloc returned *)
  context : Z; channel : Z; pd : Z; recv_cq : Z; send_cq : Z;
  qp : option ibv_qp;
  remote_info : option info_con;
  id : Z; pending : Z; page_size : Z; ib_port : Z;
  portinfo : ibv_port_attr;
  rw : option rdma_mem;
  fd : Z;
  peer_host : option (list Z) }.

Definition zero_port_attr : ibv_port_attr :=
  {| state := port_other 0; port_lid := 0; layer := IBV_LINK_LAYER_UNSPECIFIED |}.

(** A freshly [calloc]ed context. *)
Definition zero_context (p : Z) : rdma_context :=
  {| ctx_self := p; context := 0; channel := 0; pd := 0; recv_cq := 0; send_cq := 0;
     qp := None; remote_info := None; id := 0; pending := 0; page_size := 0; ib_port := 0;
     portinfo := zero_port_attr; rw := None; fd := 0; peer_host := None |}.

Definition set_objects (c : rdma_context) (cx ch p rq sq : Z) (q : option ibv_qp)
    (port : Z) (info : ibv_port_attr) : rdma_context :=
  {| ctx_self := ctx_self c; context := cx; channel := ch; pd := p; recv_cq := rq;
     send_cq := sq; qp := q; remote_info := remote_info c; id := id c; pending := pending c;
     page_size := page_size c; ib_port := port; portinfo := info; rw := rw c; fd := fd c;
     peer_host := peer_host c |}.

Definition is_active (a : ibv_port_attr) : bool := bool_decide (state a = IBV_PORT_ACTIVE).

(** The block is zeroed first. Zero is no value of the type of [path_mtu]; the mask
    does not select the field, and [IBV_MTU_1024] stands for it. *)
Definition init_qp_attr (port : Z) : ibv_qp_attr :=
  {| qp_state := IBV_QPS_INIT; path_mtu := IBV_MTU_1024; dest_qp_num := 0; rq_psn := 0;
     sq_psn := 0; max_rd_atomic := 0; max_dest_rd_atomic := 0; min_rnr_timer := 0;
     timeout := 0; retry_cnt := 0; rnr_retry := 0; pkey_index := 0; port_num := u8 port;
     qkey := 0; qp_access_flags := [IBV_ACCESS_REMOTE_WRITE; IBV_ACCESS_REMOTE_READ];
     ah_attr := zero_ah_attr |}.

(** The attributes of [rdma_connect_ctx]'s first call. *)
Definition rtr_attr (port : Z) (mtu : ibv_mtu) (sl : Z) (dest : info_con) (sgid_idx : Z)
  : ibv_qp_attr :=
  let global := existsb (fun b => negb (b =? 0)) (drop 8 (gid dest)) in
  {| qp_state := IBV_QPS_RTR; path_mtu := mtu; dest_qp_num := qpn dest; rq_psn := psn dest;
     sq_psn := 0; max_rd_atomic := 0; max_dest_rd_atomic := 1; min_rnr_timer := 12;
     timeout := 0; retry_cnt := 0; rnr_retry := 0; pkey_index := 0; port_num := 0;
     qkey := 0; qp_access_flags := [];
     ah_attr :=
       {| is_global := if global then 1 else 0;
          dlid := u16 (lid dest); sl := u8 sl; src_path_bits := 0; ah_port_num := u8 port;
          hop_limit := if global then 1 else 0;
          dgid := if global then gid dest else zero_gid;
          sgid_index := if global then u8 sgid_idx else 0 |} |}.

(** The same attribute block updated for the second call. *)
Definition rts_attr (a : ibv_qp_attr) (my_psn : Z) : ibv_qp_attr :=
  {| qp_state := IBV_QPS_RTS; path_mtu := path_mtu a; dest_qp_num := dest_qp_num a;
     rq_psn := rq_psn a; sq_psn := u32 my_psn; max_rd_atomic := 1;
     max_dest_rd_atomic := max_dest_rd_atomic a; min_rnr_timer := min_rnr_timer a;
     timeout := 14; retry_cnt := 7; rnr_retry := 7; pkey_index := pkey_index a;
     port_num := port_num a; qkey := qkey a; qp_access_flags := qp_access_flags a;
     ah_attr := ah_attr a |}.

Definition init_mask : list qp_attr_bit :=
  [IBV_QP_STATE; IBV_QP_PKEY_INDEX; IBV_QP_PORT; IBV_QP_ACCESS_FLAGS].
Definition rtr_mask : list qp_attr_bit :=
  [IBV_QP_STATE; IBV_QP_AV; IBV_QP_PATH_MTU; IBV_QP_DEST_QPN; IBV_QP_RQ_PSN;
   IBV_QP_MAX_DEST_RD_ATOMIC; IBV_QP_MIN_RNR_TIMER].
Definition rts_mask : list qp_attr_bit :=
  [IBV_QP_STATE; IBV_QP_TIMEOUT; IBV_QP_RETRY_CNT; IBV_QP_RNR_RETRY; IBV_QP_SQ_PSN;
   IBV_QP_MAX_QP_RD_ATOMIC].

Section RdmaContext.
Context {W : Type} `{Env W}.

(** The labels of [init_rdma_context], each falling through to the next. *)
Definition clean_ctx (p : Z) : M (St W) (option rdma_context) :=
  sys (free p) ;;; ret None.
Definition clean_device (p cx : Z) : M (St W) (option rdma_context) :=
  sys (ibv_close_device cx) ;;; clean_ctx p.
Definition clean_comp_channel (p cx ch : Z) : M (St W) (option rdma_context) :=
  (if negb (ch =? 0) then sys (ibv_destroy_comp_channel ch) ;;; ret tt else ret tt) ;;;
  clean_device p cx.
Definition clean_pd (p cx ch pd : Z) : M (St W) (option rdma_context) :=
  sys (ibv_dealloc_pd pd) ;;; clean_comp_channel p cx ch.
Definition clean_cq (p cx ch pd rq sq : Z) : M (St W) (option rdma_context) :=
  sys (ibv_destroy_cq sq) ;;; sys (ibv_destroy_cq rq) ;;; clean_pd p cx ch pd.
Definition clean_qp (p cx ch pd rq sq : Z) (q : ibv_qp) : M (St W) (option rdma_context) :=
  sys (ibv_destroy_qp (qp_handle q)) ;;; clean_cq p cx ch pd rq sq.

(** debug/pingpong.c, the port queries of the example code the program was built
    from: the LID of a port, 0 when the query fails. *)
Definition pp_get_local_lid (context port : Z) : M (St W) Z :=
  let* (rc, attr) := sys (ibv_query_port context port) in
  if negb (rc =? 0) then ret 0 else ret (port_lid attr).

Definition pp_get_port_info (context port : Z) : M (St W) (Z * ibv_port_attr) :=
  sys (ibv_query_port context port).

(** The port probe: port 1, or port 2 when port 1 is not active. [inl] is the
    early [return NULL]. *)
Definition probe_port (cx : Z) : M (St W) (option (Z * ibv_port_attr)) :=
  let* (rc, info) := sys (ibv_query_port cx 1) in
  if negb (rc =? 0) then ret None
  else if is_active info then ret (Some (1, info))
  else
    let* (rc, info) := sys (ibv_query_port cx 2) in
    if negb (rc =? 0) then ret None
    else if is_active info then ret (Some (2, info))
    else ret None.

Definition init_rdma_context (ib_dev rx_depth port use_event is_server : Z)
  : M (St W) (option rdma_context) :=
  let* p := sys (calloc 1 (Sizeof "rdma_context")) in
  if p =? 0 then ret None else
  let* cx := sys (ibv_open_device ib_dev) in
  if cx =? 0 then sys (ibv_get_device_name ib_dev) ;;; clean_ctx p else
  let* probe := probe_port cx in
  match probe with
  | None => ret None
  | Some (port, info) =>
      let* ch := if negb (use_event =? 0) then sys (ibv_create_comp_channel cx) else ret 0 in
      if negb (use_event =? 0) && (ch =? 0) then clean_device p cx else
      let* pd := sys (ibv_alloc_pd cx) in
      if pd =? 0 then clean_comp_channel p cx ch else
      let* rq := sys (ibv_create_cq cx (i32 (rx_depth + 1)) ch) in
      let* sq := sys (ibv_create_cq cx (i32 (rx_depth + 1)) 0) in
      if (rq =? 0) || (sq =? 0) then clean_pd p cx ch pd else
      let* oq := sys (ibv_create_qp pd
        {| qi_send_cq := sq; qi_recv_cq := rq; qi_srq := 0; max_send_wr := 10000;
           max_recv_wr := u32 rx_depth; max_send_sge := 1; max_recv_sge := 1;
           max_inline_data := 0; qi_qp_type := IBV_QPT_RC; sq_sig_all := 0 |}) in
      match oq with
      | None => clean_cq p cx ch pd rq sq
      | Some q =>
          let* rc := sys (ibv_modify_qp (qp_handle q) (init_qp_attr port) init_mask) in
          if negb (rc =? 0) then clean_qp p cx ch pd rq sq q
          else ret (Some (set_objects (zero_context p) cx ch pd rq sq (Some q) port info))
      end
  end.

Definition rdma_connect_ctx (ctx : rdma_context) (port my_psn : Z) (mtu : ibv_mtu) (sl : Z)
    (dest : info_con) (sgid_idx : Z) : M (St W) Z :=
  let attr := rtr_attr port mtu sl dest sgid_idx in
  let* q := deref (qp ctx) in
  let* rc := sys (ibv_modify_qp (qp_handle q) attr rtr_mask) in
  if negb (rc =? 0) then ret 1
  else
    let* rc := sys (ibv_modify_qp (qp_handle q) (rts_attr attr my_psn) rts_mask) in
    if negb (rc =? 0) then ret 1 else ret 0.

Definition rdma_close_ctx (ctx : rdma_context) : M (St W) Z :=
  let* q := deref (qp ctx) in
  let* rc := sys (ibv_destroy_qp (qp_handle q)) in
  if negb (rc =? 0) then ret 1 else
  let* rc := sys (ibv_destroy_cq (send_cq ctx)) in
  if negb (rc =? 0) then ret 1 else
  let* rc := sys (ibv_destroy_cq (recv_cq ctx)) in
  if negb (rc =? 0) then ret 1 else
  let* rc := sys (ibv_dealloc_pd (pd ctx)) in
  if negb (rc =? 0) then ret 1 else
  let* rc := if negb (channel ctx =? 0)
             then sys (ibv_destroy_comp_channel (channel ctx)) else ret 0 in
  if negb (rc =? 0) then ret 1 else
  let* rc := sys (ibv_close_device (context ctx)) in
  if negb (rc =? 0) then ret 1 else
  sys (free (ctx_self ctx)) ;;; ret 0.

Definition rdma_reg_mr (ctx : rdma_context) (buf size : Z) : M (St W) (option rdma_mem) :=
  let* m := sys (ibv_reg_mr (pd ctx) buf size
    [IBV_ACCESS_LOCAL_WRITE; IBV_ACCESS_REMOTE_WRITE; IBV_ACCESS_REMOTE_READ]) in
  match m with
  | None => ret None
  | Some m =>
      let* rm := sys (calloc 1 (Sizeof "rdma_mem")) in
      if rm =? 0 then undef                   (* rm->mr = mr through NULL *)
      else ret (Some {| rm_self := rm; mr := m; buf := buf; size := size |})
  end.

Definition rdma_dereg_mr (mem : option rdma_mem) : M (St W) Z :=
  let* mem := deref mem in
  let* rc := sys (ibv_dereg_mr (mr_handle (mr mem))) in
  if negb (rc =? 0) then ret (-1)
  else sys (free (rm_self mem)) ;;; ret 0.

(** ** What a context holds *)

Definition ctx_resources (c : rdma_context) : list (rkind * Z) :=
  [(RHeap, ctx_self c); (RDevice, context c); (RPd, pd c); (RCq, recv_cq c);
   (RCq, send_cq c)] ++
  (match qp c with Some q => [(RQp, qp_handle q)] | None => [] end) ++
  (if channel c =? 0 then [] else [(RChannel, channel c)]).

Definition wf_context (c : rdma_context) : Prop :=
  ctx_self c <> 0 /\ context c <> 0 /\ pd c <> 0 /\ recv_cq c <> 0 /\ send_cq c <> 0 /\
  is_Some (qp c).

(** The objects in the order [rdma_close_ctx] gives them back. *)
Definition close_order (c : rdma_context) (q : ibv_qp) : list call :=
  [ibv_destroy_qp (qp_handle q); ibv_destroy_cq (send_cq c); ibv_destroy_cq (recv_cq c);
   ibv_dealloc_pd (pd c)] ++
  (if channel c =? 0 then [] else [ibv_destroy_comp_channel (channel c)]) ++
  [ibv_close_device (context c); free (ctx_self c)].

Definition mem_resources (m : rdma_mem) : list (rkind * Z) :=
  [(RMr, mr_handle (mr m)); (RHeap, rm_self m)].

(** The calls of the last labels: nothing is created after them. *)
Definition is_cleanup (ev : event) : Prop :=
  match ev_call ev with
  | ibv_dealloc_pd _ | ibv_destroy_comp_channel _ | ibv_close_device _ | free _ => True
  | _ => False
  end.

(** The trace ends with the creation of both completion queues, of which one
    failed and the other is [cq], and with calls that clean up. *)
Definition one_cq_missing (tr : list event) (cq : Z) : Prop :=
  exists cleanup cx n ch sq rq tr',
    tr = cleanup ++ Ev (ibv_create_cq cx n 0) sq :: Ev (ibv_create_cq cx n ch) rq :: tr' /\
    (rq = 0 /\ sq = cq \/ sq = 0 /\ rq = cq) /\ Forall is_cleanup cleanup.

(** What is left behind when [init_rdma_context] returns NULL. *)
Definition failed_init (s s' : St W) : Prop :=
  leaves_held (trace s) (trace s') [] \/
  (exists p cx prt r, p <> 0 /\ cx <> 0 /\
     leaves_held (trace s) (trace s') [(RHeap, p); (RDevice, cx)] /\
     hd_error (trace s') = Some (Ev (ibv_query_port cx prt) r) /\
     (fst r <> 0 \/ state (snd r) <> IBV_PORT_ACTIVE)) \/
  (exists cq, cq <> 0 /\ leaves_held (trace s) (trace s') [(RCq, cq)] /\ one_cq_missing (trace s') cq).

(** The modification of the new queue pair, as the adapter accepted it. *)
Definition init_accepted (c : rdma_context) (h : Z) : list (ibv_qp_attr * list qp_attr_bit) :=
  match qp c with
  | Some q => if qp_handle q =? h then [(init_qp_attr (ib_port c), init_mask)] else []
  | None => []
  end.

Lemma inactive_state a : is_active a = false -> state a <> IBV_PORT_ACTIVE.
Proof. apply bool_decide_eq_false. Qed.

(** The two kinds of leaf where something stays held. *)
Local Ltac port_leak :=
  match goal with
  | |- exists p cx prt r, _ /\ _ /\ leaves_held _ (trace (mkSt _ (Ev (ibv_query_port ?c ?n) ?x :: ?tl) _)) _ /\ _ =>
      match tl with context [Ev (calloc _ _) ?p] =>
        exists p, c, n, x; split; [assumption|]; split; [assumption|]; split; [solve_held|];
        split; [reflexivity|]; cbn; auto using inactive_state
      end
  end.
Local Ltac built :=
  unfold ctx_resources;
  cbn [ctx_self context pd recv_cq send_cq qp channel set_objects zero_context app];
  repeat case_if; try (exfalso; lia); solve_held.
Local Ltac modified :=
  intros h; unfold init_accepted; cbn [qp ib_port set_objects zero_context accepted trace];
  rewrite ?app_nil_r; subst; rewrite Z.eqb_refl, andb_true_r; reflexivity.
Local Ltac cq_cases :=
  match goal with
  | |- context [Ev (ibv_create_cq _ _ 0) ?b :: Ev (ibv_create_cq _ _ _) ?a :: _] =>
      destruct (Z.eq_dec a 0), (Z.eq_dec b 0)
  end.
Local Ltac before_cqs l :=
  lazymatch l with
  | Ev (ibv_create_cq _ _ 0) _ :: Ev (ibv_create_cq _ _ _) _ :: _ => constr:(@nil event)
  | ?x :: ?l' => let r := before_cqs l' in constr:(x :: r)
  end.
Local Ltac cq_missing :=
  cbn [trace]; unfold one_cq_missing;
  match goal with |- exists _ _ _ _ _ _ _, ?l = _ /\ _ => let d := before_cqs l in exists d end;
  do 6 eexists; split; [cbn [app]; reflexivity|];
  split; [auto|repeat (constructor; [exact I|]); constructor].
Local Ltac cq_leak :=
  match goal with
  | |- context [Ev (ibv_create_cq _ _ 0) ?b :: Ev (ibv_create_cq _ _ _) ?a :: _] =>
      first [exists a; split; [lia|]; split; [solve_held|cq_missing]
            |exists b; split; [lia|]; split; [solve_held|cq_missing]]
  end.

(** A leaf of [rdma_close_ctx]: [l] lists the calls made. *)
Local Ltac closed_prefix l :=
  cbn [trace];
  let d := list_front l in
  exists d; split; [reflexivity|]; split;
  [intros x; intros; try discriminate; destruct_and?; cbn [app];
   repeat case_if; try (exfalso; lia); revert x; solve_held
  |cbn [map rev app ev_call]; repeat case_if; try (exfalso; lia); cbn [app];
   (split; [eexists; cbn [app]; reflexivity|split; [split; intros; congruence|auto]])].

(** Every path of [init_rdma_context]. *)
Lemma init_rdma_context_run ib_dev rx_depth port use_event is_server s :
  returns (init_rdma_context ib_dev rx_depth port use_event is_server) s (fun r s' =>
    match r with
    | Some c => wf_context c /\ leaves_held (trace s) (trace s') (ctx_resources c) /\
                (forall h, accepted h (trace s') = accepted h (trace s) ++ init_accepted c h)
    | None => failed_init s s'
    end).
Proof.
  unfold init_rdma_context, probe_port, clean_qp, clean_cq, clean_pd, clean_comp_channel,
    clean_device, clean_ctx, failed_init.
  exec; try cq_cases; try (exfalso; lia); try (left; solve_held).
  all: first [split; [unfold wf_context; cbn; eauto 10|split; [built|modified]]|right].
  all: first [left; port_leak | right; cq_leak].
Qed.

(** What [rdma_connect_ctx] does to the queue pair, on each path. *)
Lemma rdma_connect_ctx_run ctx q port my_psn mtu sl dest sgid_idx s :
  qp ctx = Some q ->
  let h := qp_handle q in
  let rtr := rtr_attr port mtu sl dest sgid_idx in
  returns (rdma_connect_ctx ctx port my_psn mtu sl dest sgid_idx) s (fun rc s' =>
    (rc = 1 /\ (accepted h (trace s') = accepted h (trace s) \/
                accepted h (trace s') = accepted h (trace s) ++ [(rtr, rtr_mask)])) \/
    (rc = 0 /\ accepted h (trace s') =
       accepted h (trace s) ++ [(rtr, rtr_mask); (rts_attr rtr my_psn, rts_mask)])).
Proof.
  intros Hq h rtr. unfold rdma_connect_ctx. apply returns_bind. rewrite Hq. apply returns_ret.
  fold h rtr. exec; cbn [accepted trace]; fold h; rewrite Z.eqb_refl; cbn [andb];
    repeat case_if; try (exfalso; lia); rewrite ?app_nil_r, <- ?app_assoc; cbn [app]; auto.
Qed.

(** Every path of [rdma_close_ctx]. *)
Lemma rdma_close_ctx_run c q s :
  qp c = Some q ->
  returns (rdma_close_ctx c) s (fun rc s' =>
    exists done, trace s' = done ++ trace s /\
      (forall x, rc = 0 -> wf_context c ->
         balance (trace s') x = balance (trace s) x - occurrences x (ctx_resources c)) /\
      map ev_call (rev done) `prefix_of` close_order c q /\
      (rc = 0 <-> map ev_call (rev done) = close_order c q) /\ (rc = 0 \/ rc = 1)).
Proof.
  intros Hq. unfold rdma_close_ctx. apply returns_bind. rewrite Hq. apply returns_ret.
  exec; unfold close_order, wf_context, ctx_resources; rewrite Hq.
  all: cbn [trace]; match goal with |- exists done, ?l = _ /\ _ => closed_prefix l end.
Qed.

(** ** Properties *)

(** C18 [init_rdma_context] and resources, over every behaviour of the library:
    it always returns; a context it returns is fully built and the calls made
    hold exactly the context's own objects; when it returns NULL everything
    acquired has been released, except on two paths. One ends at the query of a
    port, which failed or found the port not active: the context and the device
    stay open. On the other, exactly one of the two completion queues could not be
    created, no queue pair was asked for, and what follows only cleans up: the
    other queue stays held. *)
Theorem init_rdma_context_resources ib_dev rx_depth port use_event is_server s :
  returns (init_rdma_context ib_dev rx_depth port use_event is_server) s (fun r s' =>
    match r with
    | Some c => wf_context c /\ leaves_held (trace s) (trace s') (ctx_resources c)
    | None => failed_init s s'
    end).
Proof.
  eapply returns_conseq; [apply init_rdma_context_run|].
  intros [c|] s'; [intros (? & ? & ?); auto|auto].
Qed.

(** [rdma_close_ctx] releases the queue pair, the send queue, the receive
    queue, the protection domain, the channel (when there is one), the device
    and the memory, in this order; it returns 0 exactly when all the calls were
    made, and 1 when it stopped at the first call that failed, leaving the
    memory of the context allocated. *)
Theorem rdma_close_ctx_releases c q s :
  qp c = Some q ->
  returns (rdma_close_ctx c) s (fun rc s' =>
    exists done, trace s' = done ++ trace s /\
      (forall x, rc = 0 -> wf_context c ->
         balance (trace s') x = balance (trace s) x - occurrences x (ctx_resources c)) /\
      map ev_call (rev done) `prefix_of` close_order c q /\
      (rc = 0 <-> map ev_call (rev done) = close_order c q) /\ (rc = 0 \/ rc = 1)).
Proof. apply rdma_close_ctx_run. Qed.

(** C15 A context's life is leak free: whatever happened in between, closing
    (with result 0) a context [init_rdma_context] built gives back exactly the
    objects the initialisation acquired, each once. *)
Theorem context_lifecycle ib_dev rx_depth port use_event is_server s c s1 s2 s3 :
  init_rdma_context ib_dev rx_depth port use_event is_server s = (Ret (Some c), s1) ->
  rdma_close_ctx c s2 = (Ret 0, s3) ->
  forall x, balance (trace s1) x - balance (trace s) x
            = balance (trace s2) x - balance (trace s3) x.
Proof.
  intros Hi Hc x.
  pose proof (init_rdma_context_run ib_dev rx_depth port use_event is_server s) as Hrun.
  unfold returns in Hrun. rewrite Hi in Hrun. destruct Hrun as (Hwf & Hheld & _).
  destruct (Hwf) as (_ & _ & _ & _ & _ & [q Hq]).
  pose proof (rdma_close_ctx_run c q s2 Hq) as Hclose.
  unfold returns in Hclose. rewrite Hc in Hclose. destruct Hclose as (d & _ & Hbal & _).
  rewrite (Hbal x eq_refl Hwf), (Hheld x). lia.
Qed.

(** C10 The queue pair of a context follows the reliable-connection protocol:
    the modifications the adapter accepted, from creation on, are a legal run
    of the queue pair state machine with every mandatory attribute in the
    mask; when [rdma_connect_ctx] returns 0 the run ends in RTS with the peer's
    queue pair number and packet sequence number, the local sequence number,
    the path MTU and the port installed and remote reads and writes enabled;
    when it returns 1 the queue pair is still in INIT or RTR. *)
Theorem qp_reaches_rts ib_dev rx_depth iport use_event is_server s c q s1 s2 rc s3
    my_psn mtu sl dest sgid_idx :
  init_rdma_context ib_dev rx_depth iport use_event is_server s = (Ret (Some c), s1) ->
  qp c = Some q ->
  let h := qp_handle q in
  accepted h (trace s) = [] ->
  accepted h (trace s2) = accepted h (trace s1) ->
  rdma_connect_ctx c (ib_port c) my_psn mtu sl dest sgid_idx s2 = (Ret rc, s3) ->
  exists regs, qp_run reset_regs (accepted h (trace s3)) regs /\
    (rc = 0 \/ rc = 1) /\
    (rc = 1 -> q_state regs = IBV_QPS_INIT \/ q_state regs = IBV_QPS_RTR) /\
    (rc = 0 ->
      q_state regs = IBV_QPS_RTS /\ q_dest_qpn regs = qpn dest /\ q_rq_psn regs = psn dest /\
      q_sq_psn regs = u32 my_psn /\ q_mtu regs = mtu /\ q_port regs = u8 (ib_port c) /\
      dlid (q_av regs) = u16 (lid dest) /\
      q_access regs = [IBV_ACCESS_REMOTE_WRITE; IBV_ACCESS_REMOTE_READ]).
Proof.
  intros Hi Hq h H0 H2 Hc.
  pose proof (init_rdma_context_run ib_dev rx_depth iport use_event is_server s) as Hrun.
  unfold returns in Hrun. rewrite Hi in Hrun. destruct Hrun as (_ & _ & Hacc).
  specialize (Hacc h). unfold init_accepted in Hacc. rewrite Hq in Hacc. fold h in Hacc.
  rewrite Z.eqb_refl, H0 in Hacc. cbn [app] in Hacc.
  pose proof (rdma_connect_ctx_run c q (ib_port c) my_psn mtu sl dest sgid_idx s2 Hq) as Hconn.
  unfold returns in Hconn. rewrite Hc in Hconn. fold h in Hconn.
  rewrite H2, Hacc in Hconn. cbn [app] in Hconn.
  destruct Hconn as [[-> [E|E]]|[-> E]]; rewrite E; eexists;
    (split; [apply run_regs_spec; reflexivity|]); split; auto; split; intros; try lia;
    cbn; auto 10.
Qed.
End RdmaContext.

(** ** Witnesses: a context built, connected and closed in the scripted
    environment. *)

Definition sample_run : outcome (option rdma_context) * St nat :=
  init_rdma_context (H := all_succeed) 1 16000 1 1 0 start.

Definition sample_context : rdma_context :=
  match fst sample_run with Ret (Some c) => c | _ => zero_context 0 end.

Example rdma_close_ctx_releases_witness :
  exists rc s',
    rdma_close_ctx (H := all_succeed) sample_context (snd sample_run) = (Ret rc, s') /\
    (rc = 0 \/ rc = 1).
Proof.
  edestruct (returns_inv _ _ _ (rdma_close_ctx_releases (H := all_succeed) sample_context
    {| qp_handle := fresh 7; qp_num := 71 |} (snd sample_run) ltac:(vm_compute; reflexivity)))
    as (rc & s' & Hrun & d & _ & _ & _ & _ & Hrc).
  exists rc, s'. split; [exact Hrun|exact Hrc].
Defined.

Example context_lifecycle_witness :
  balance (trace (snd sample_run)) (RQp, fresh 7) - 0 =
  balance (trace (snd sample_run)) (RQp, fresh 7) -
  balance (trace (snd (rdma_close_ctx (H := all_succeed) sample_context (snd sample_run))))
          (RQp, fresh 7).
Proof.
  apply (context_lifecycle (H := all_succeed) 1 16000 1 1 0 start sample_context
           (snd sample_run) (snd sample_run)); vm_compute; reflexivity.
Defined.

Example qp_reaches_rts_witness :
  exists regs,
    qp_run reset_regs
      (accepted (fresh 7) (trace (snd (rdma_connect_ctx (H := all_succeed) sample_context 1 99
         IBV_MTU_1024 0 sample_info (-1) (snd sample_run))))) regs /\
    q_state regs = IBV_QPS_RTS.
Proof.
  edestruct (qp_reaches_rts (H := all_succeed) 1 16000 1 1 0 start sample_context
    {| qp_handle := fresh 7; qp_num := 71 |} (snd sample_run) (snd sample_run) 0
    (snd (rdma_connect_ctx (H := all_succeed) sample_context 1 99
            IBV_MTU_1024 0 sample_info (-1) (snd sample_run)))
    99 IBV_MTU_1024 0 sample_info (-1)) as (regs & Hr & _ & _ & H0);
    [vm_compute; reflexivity..|].
  exists regs. split; [exact Hr|]. apply H0. reflexivity.
Defined.
