(* ===== verification/RdmaOps.v ===== *)
(** debug/rdma_socket.c, the data path of a connected context: posting work
    requests ([rdma_post_send], [rdma_post_recv]) and polling completions
    ([rdma_query_cq]). *)
From S2P Require Import Prelude Verbs Mock ExchDest RdmaContext.
Open Scope Z_scope.

Record rdma_task := {
  mem : option rdma_mem; opcode : ibv_wr_opcode; tsize : Z;
  trkey : Z; remote_addr : Z; tid : Z }.

Section RdmaOps.
Context {W : Type} `{Env W}.

(** The work request [rdma_post_send] builds; [sge.length] is 32 bits wide. *)
Definition send_wr (ctx : rdma_context) (task : rdma_task) : option ibv_send_wr :=
  m ← mem task;
  let list := {| sge_addr := buf m; sge_length := u32 (tsize task); sge_lkey := lkey (mr m) |} in
  if bool_decide (opcode task = IBV_WR_SEND) then
    Some {| sw_id := tid task; sw_sg_list := [list]; sw_opcode := IBV_WR_SEND;
            sw_signaled := true; sw_remote_addr := 0; sw_rkey := 0 |}
  else if (trkey task =? 0) && (remote_addr task =? 0) then
    r ← remote_info ctx;
    Some {| sw_id := tid task; sw_sg_list := [list]; sw_opcode := opcode task;
            sw_signaled := true; sw_remote_addr := ExchDest.addr r; sw_rkey := ExchDest.rkey r |}
  else
    Some {| sw_id := tid task; sw_sg_list := [list]; sw_opcode := opcode task;
            sw_signaled := true; sw_remote_addr := remote_addr task; sw_rkey := trkey task |}.

Definition rdma_post_send (ctx : rdma_context) (task : rdma_task) : M (St W) Z :=
  let* wr := deref (send_wr ctx task) in
  let* q := deref (qp ctx) in
  let* rc := sys (ibv_post_send (qp_handle q) [wr]) in
  if negb (rc =? 0) then ret (-1) else ret 0.

Definition rdma_post_recv (ctx : rdma_context) (task : rdma_task) : M (St W) Z :=
  let* m := deref (mem task) in
  let* q := deref (qp ctx) in
  sys (ibv_post_recv (qp_handle q)
    {| rw_id := tid task;
       rw_sg_list := [{| sge_addr := buf m; sge_length := u32 (size m);
                         sge_lkey := lkey (mr m) |}] |}).

(** The adapter fills the first entries of the caller's array. *)
Definition fill_wc (cs wc : list ibv_wc) : option (list ibv_wc) :=
  if zlen cs <=? zlen wc then Some (cs ++ drop (length cs) wc) else None.

(** [do { ne = ibv_poll_cq(cq, maxCQE, wc); ... } while (!use_event && ne < 1)];
    [inl] is the [return -1] of a failed poll. *)
Fixpoint poll_loop (fuel : nat) (use_event : bool) (cq maxCQE : Z) (wc : list ibv_wc)
  : M (St W) (option Z * list ibv_wc) :=
  match fuel with
  | O => out_of_fuel
  | S f =>
      let* (ne, cs) := sys (ibv_poll_cq cq maxCQE) in
      if ne <? 0 then ret (None, wc)
      else
        let* wc := deref (fill_wc cs wc) in
        if negb use_event && (ne <? 1) then poll_loop f use_event cq maxCQE wc
        else ret (Some ne, wc)
  end.

(** [for (i = 0; i < ne; ++i) if (wc[i].status != IBV_WC_SUCCESS) return -1]. *)
Fixpoint check_wc (wc : list ibv_wc) (n : nat) (i : nat) : option bool :=
  match n with
  | O => Some true
  | S n' =>
      c ← wc !! i;
      if bool_decide (wc_status c = IBV_WC_SUCCESS) then check_wc wc n' (S i) else Some false
  end.

(** The blocking wait of the [use_event] branch: the local [use_event] is 0, so
    the branch is never taken. *)
Definition wait_event (ctx : rdma_context) (cq : Z) : M (St W) bool :=
  let* (rc, ev_cq) := sys (ibv_get_cq_event (channel ctx)) in
  if negb (rc =? 0) then ret false
  else if negb (ev_cq =? cq) then ret false
  else let* rc := sys (ibv_req_notify_cq cq false) in ret (rc =? 0).

(** [rdma_query_cq(ctx, wc, maxCQE, flag)]: the result and the new contents of
    the caller's [wc] array. *)
Definition rdma_query_cq (fuel : nat) (ctx : rdma_context) (wc : list ibv_wc)
    (maxCQE flag : Z) : M (St W) (Z * list ibv_wc) :=
  let use_event := false in
  if (flag =? 1) || (flag =? 2) then
    let cq := if flag =? 1 then send_cq ctx else recv_cq ctx in
    let* ok := if use_event : bool then wait_event ctx cq else ret true in
    if negb ok then ret (-1, wc) else
    let* (one, wc) := poll_loop fuel use_event cq maxCQE wc in
    match one with
    | None => ret (-1, wc)
    | Some ne =>
        let* ok := deref (check_wc wc (Z.to_nat ne) 0) in
        if ok : bool then ret (ne, wc) else ret (-1, wc)
    end
  else ret (-1, wc).

(** ** Specification of a poll sequence *)

(** [k] polls in a row that answer no completion, from world [w] to [w']. *)
Inductive empty_polls (cq n : Z) : nat -> W -> W -> Prop :=
  | empty_polls_O w : empty_polls cq n O w w
  | empty_polls_S k w w1 w2 :
      ext (ibv_poll_cq cq n) w = ((0, []), w1) -> empty_polls cq n k w1 w2 ->
      empty_polls cq n (S k) w w2.

Definition all_success (cs : list ibv_wc) : bool :=
  forallb (fun c => bool_decide (wc_status c = IBV_WC_SUCCESS)) cs.

(** Result of a query whose first non-empty poll answered [ne] and [cs]. *)
Definition query_result (ne : Z) (cs : list ibv_wc) : Z :=
  if ne <? 0 then -1 else if all_success cs then ne else -1.

Definition flag_cq (ctx : rdma_context) (flag : Z) : Z :=
  if flag =? 1 then send_cq ctx else recv_cq ctx.

(** What the trace gains: the empty polls and the last one. *)
Fixpoint poll_events (cq n : Z) (k : nat) (tl : list event) : list event :=
  match k with
  | O => tl
  | S k' => poll_events cq n k' (Ev (ibv_poll_cq cq n) (0, []) :: tl)
  end.

Lemma check_wc_spec cs rest n i :
  (i + n = length cs)%nat -> check_wc (cs ++ rest) n i = Some (all_success (drop i cs)).
Proof.
  revert i. induction n as [|n IH]; intros i Hi; cbn [check_wc].
  - rewrite drop_ge by lia. reflexivity.
  - destruct (lookup_lt_is_Some_2 cs i) as [c Hc]; [lia|].
    rewrite lookup_app_l, Hc by lia. cbn [mbind option_bind].
    rewrite (drop_S _ c) by exact Hc. cbn [all_success forallb].
    destruct (bool_decide (wc_status c = IBV_WC_SUCCESS)); [|reflexivity].
    apply IH. lia.
Qed.

Lemma fill_wc_nil wc : fill_wc [] wc = Some wc.
Proof.
  unfold fill_wc. pose proof (zlen_nonneg wc). rewrite zlen_nil.
  destruct (Z.leb_spec 0 (zlen wc)); [reflexivity|lia].
Qed.

(** One round of the polling loop. *)
Lemma poll_loop_round f cq n wc s ne cs w :
  ext (ibv_poll_cq cq n) (world s) = ((ne, cs), w) ->
  poll_loop (S f) false cq n wc s =
  (if ne <? 0 then ret (None, wc)
   else let* wc := deref (fill_wc cs wc) in
        if ne <? 1 then poll_loop f false cq n wc else ret (Some ne, wc))
  (mkSt w (Ev (ibv_poll_cq cq n) (ne, cs) :: trace s) (cells s)).
Proof. intros E. cbn [poll_loop]. unfold bind at 1. rewrite sys_run, E. reflexivity. Qed.

Lemma poll_loop_empty k fuel cq n wc w w1 s :
  empty_polls cq n k w w1 -> world s = w ->
  poll_loop (k + fuel) false cq n wc s =
  poll_loop fuel false cq n wc (mkSt w1 (poll_events cq n k (trace s)) (cells s)).
Proof.
  intros He. revert s. induction He as [w|k w w1 w2 E _ IH]; intros s Hs.
  - subst w. destruct s. reflexivity.
  - rewrite Nat.add_succ_l, (poll_loop_round _ _ _ _ _ _ _ w1) by (rewrite Hs; exact E).
    cbn [Z.ltb Z.compare]. rewrite fill_wc_nil. cbn [deref]. rewrite bind_ret.
    rewrite IH by reflexivity. reflexivity.
Qed.

(** A query of one of the two queues. *)
Lemma rdma_query_cq_run k fuel ctx wc maxCQE flag s w1 w2 ne cs :
  flag = 1 \/ flag = 2 ->
  empty_polls (flag_cq ctx flag) maxCQE k (world s) w1 ->
  ext (ibv_poll_cq (flag_cq ctx flag) maxCQE) w1 = ((ne, cs), w2) ->
  ne <> 0 -> (0 < ne -> zlen cs = ne /\ ne <= zlen wc) -> (k < fuel)%nat ->
  rdma_query_cq fuel ctx wc maxCQE flag s =
  (Ret (query_result ne cs, if ne <? 0 then wc else cs ++ drop (length cs) wc),
   mkSt w2 (Ev (ibv_poll_cq (flag_cq ctx flag) maxCQE) (ne, cs)
              :: poll_events (flag_cq ctx flag) maxCQE k (trace s)) (cells s)).
Proof.
  intros Hf He E Hne Hlen Hk.
  unfold rdma_query_cq. replace ((flag =? 1) || (flag =? 2)) with true
    by (destruct Hf as [-> | ->]; reflexivity).
  fold (flag_cq ctx flag). rewrite bind_ret. cbn [negb]. unfold bind at 1.
  replace fuel with (k + S (fuel - k - 1))%nat by lia.
  rewrite (poll_loop_empty k _ _ _ _ _ _ s He eq_refl), (poll_loop_round _ _ _ _ _ ne cs w2) by exact E.
  unfold query_result. destruct (Z.ltb_spec ne 0) as [Hneg|Hpos]; [reflexivity|].
  destruct Hlen as [Hl1 Hl2]; [lia|]. unfold fill_wc.
  destruct (Z.leb_spec (zlen cs) (zlen wc)); [|lia]. cbn [deref]. rewrite bind_ret.
  destruct (Z.ltb_spec ne 1); [lia|]. unfold ret at 1.
  rewrite (check_wc_spec cs _ (Z.to_nat ne) 0) by (unfold zlen in Hl1; lia).
  rewrite drop_0. cbn [deref]. rewrite bind_ret. destruct (all_success cs); reflexivity.
Qed.

(** ** Properties *)

(** C19 [rdma_query_cq] spins until the queue answers and then reports exactly
    that answer: after [k] empty polls, with any fuel above [k], it has polled
    [k+1] times the queue the flag names, has stored the completions at the front
    of the caller's array, and returns their number when all of them succeeded,
    -1 when the poll failed or one completion did. *)
Theorem rdma_query_cq_spec k fuel ctx wc maxCQE flag s w1 w2 ne cs :
  flag = 1 \/ flag = 2 ->
  empty_polls (flag_cq ctx flag) maxCQE k (world s) w1 ->
  ext (ibv_poll_cq (flag_cq ctx flag) maxCQE) w1 = ((ne, cs), w2) ->
  ne <> 0 -> (0 < ne -> zlen cs = ne /\ ne <= zlen wc) -> (k < fuel)%nat ->
  rdma_query_cq fuel ctx wc maxCQE flag s =
  (Ret (query_result ne cs, if ne <? 0 then wc else cs ++ drop (length cs) wc),
   mkSt w2 (Ev (ibv_poll_cq (flag_cq ctx flag) maxCQE) (ne, cs)
              :: poll_events (flag_cq ctx flag) maxCQE k (trace s)) (cells s)).
Proof. apply rdma_query_cq_run. Qed.

(** A flag other than 1 and 2 is an error without any effect: -1, no poll, the
    array untouched. *)
Theorem rdma_query_cq_bad_flag fuel ctx wc maxCQE flag s :
  flag <> 1 -> flag <> 2 -> rdma_query_cq fuel ctx wc maxCQE flag s = (Ret (-1, wc), s).
Proof.
  intros H1 H2. unfold rdma_query_cq.
  rewrite (proj2 (Z.eqb_neq _ _) H1), (proj2 (Z.eqb_neq _ _) H2). reflexivity.
Qed.
End RdmaOps.

(** ** Witnesses: the send queue of the sample context answers two empty polls,
    then one completion. *)

Definition sample_wc : ibv_wc := {| wc_wr_id := 65; wc_status := IBV_WC_SUCCESS; wc_byte_len := 10 |}.

(** The [n]th call on is the poll that finds a completion. *)
Definition poll_at (n : nat) : Env nat :=
  scripted (fun c k => match c return option (ret_of c) with
                       | ibv_poll_cq _ _ => if (k <? n)%nat then None else Some (1, [sample_wc])
                       | _ => None
                       end).

Definition sample_wc_array : list ibv_wc :=
  replicate 4 {| wc_wr_id := 0; wc_status := wc_error 1; wc_byte_len := 0 |}.

Example rdma_query_cq_spec_witness :
  fst (rdma_query_cq (H := poll_at 2) 10 sample_context sample_wc_array 4 1 start)
  = Ret (1, sample_wc :: drop 1 sample_wc_array).
Proof.
  rewrite (rdma_query_cq_spec (H := poll_at 2) 2 10 sample_context sample_wc_array 4 1 start
             2%nat 3%nat 1 [sample_wc]).
  - reflexivity.
  - left. reflexivity.
  - do 2 (econstructor; [reflexivity|]). constructor.
  - reflexivity.
  - discriminate.
  - intros _. split; [reflexivity|]. vm_compute. discriminate.
  - lia.
Defined.

Example rdma_query_cq_bad_flag_witness :
  rdma_query_cq (H := all_succeed) 10 sample_context sample_wc_array 4 3 start
  = (Ret (-1, sample_wc_array), start).
Proof. apply (rdma_query_cq_bad_flag (H := all_succeed)); discriminate. Defined.
