(* ===== verification/SessionRing.v ===== *)
(** debug/rdma_session.cpp, [rdma_session::read]: reassembling the messages that
    the adapter has scattered over the ring of receive buffers. A completion
    shorter than [gap] ends a message; full completions are accumulated and
    copied with it, in two pieces when they wrap around the end of the ring. *)
From S2P Require Import Prelude.
Open Scope Z_scope.

(** The receive ring of a session: [recv_nums] buffers of [gap] bytes, the
    addresses in [recv_mem], over the memory [rmem] at address [rbuf]. *)
Record ring := {
  recv_nums : Z; gap : Z; rbuf : Z; rmem : list Z; bufs : list Z (* recv_mem[i]->buf *) }.

(** The locals of [read] and the field [recv_index]. *)
Record reader := {
  dest : list Z; rsize : Z; full : Z; start : Z; recv_index : Z }.

(** [memcpy(dest+size, start, len)]. *)
Definition copy_out (r : ring) (st : reader) (from len : Z) : option reader :=
  d ← buf_read (from - rbuf r) len (rmem r);
  b ← buf_write (rsize st) d (dest st);
  Some {| dest := b; rsize := i32 (rsize st + len); full := full st; start := from;
          recv_index := recv_index st |}.

Definition buf_addr (r : ring) (i : Z) : option Z :=
  if i <? 0 then None else bufs r !! Z.to_nat i.

(** One iteration of the loop over the completions. *)
Definition read_step (r : ring) (st : reader) (byte_len : Z) : option reader :=
  if byte_len <? gap r then
    let len := i32 (full st * gap r + byte_len) in
    st' ←
      (if recv_index st + full st <? recv_nums r then copy_out r st (start st) len
       else
         let tlen := i32 ((recv_nums r - recv_index st) * gap r) in
         st1 ← copy_out r st (start st) tlen;
         a0 ← buf_addr r 0;
         copy_out r st1 a0 (len - tlen));
    let idx := Z.rem (recv_index st + full st + 1) (recv_nums r) in
    a ← buf_addr r idx;
    Some {| dest := dest st'; rsize := rsize st'; full := 0; start := a; recv_index := idx |}
  else
    Some {| dest := dest st; rsize := rsize st; full := full st + 1; start := start st;
            recv_index := recv_index st |}.

Fixpoint read_loop (r : ring) (st : reader) (lens : list Z) : option reader :=
  match lens with
  | [] => Some st
  | l :: ls => st' ← read_step r st l; read_loop r st' ls
  end.

(** The full buffers left after the last short completion. *)
Definition read_tail (r : ring) (st : reader) : option reader :=
  if negb (full st =? 0) then
    if recv_index st + full st <? recv_nums r then
      copy_out r st (start st) (i32 (full st * gap r))
    else
      let front := Z.rem (full st + recv_index st) (recv_nums r) in
      st1 ← copy_out r st (start st) (i32 ((recv_nums r - recv_index st) * gap r));
      if negb (front =? 0) then
        a0 ← buf_addr r 0; copy_out r st1 a0 (i32 (front * gap r))
      else Some st1
  else Some st.

(** The body of [read] after [done = query(maxCQE)]: [lens] are the [byte_len]
    of the completions [wc[0..done-1]]; answers [size], the new contents of
    [dest] and the new [recv_index]. *)
Definition read_body (r : ring) (idx : Z) (lens : list Z) (out : list Z)
  : option (Z * list Z * Z) :=
  a ← buf_addr r idx;
  st ← read_loop r {| dest := out; rsize := 0; full := 0; start := a; recv_index := idx |} lens;
  st ← read_tail r st;
  Some (rsize st, dest st, Z.rem (recv_index st + full st) (recv_nums r)).

(** ** Specification: the bytes received, in order. *)

Definition wf_ring (r : ring) : Prop :=
  0 < recv_nums r /\ 0 < gap r /\ recv_nums r * gap r < 2 ^ 31 /\
  zlen (rmem r) = recv_nums r * gap r /\
  (forall i, 0 <= i < recv_nums r -> buf_addr r i = Some (rbuf r + gap r * i)).

(** Slot [i], counted from the start of the ring and wrapping around it. *)
Definition slot_bytes (r : ring) (i len : Z) : list Z :=
  slice (i mod recv_nums r * gap r) len (rmem r).

Fixpoint stream (r : ring) (i : Z) (lens : list Z) : list Z :=
  match lens with [] => [] | l :: ls => slot_bytes r i l ++ stream r (i + 1) ls end.

Section Ring.
Context (r : ring) (Hwf : wf_ring r).

Lemma slot_mod i l : slot_bytes r (i mod recv_nums r) l = slot_bytes r i l.
Proof. unfold slot_bytes. rewrite Z.mod_mod; [reflexivity|]. destruct Hwf. lia. Qed.

Lemma stream_app i l1 l2 : stream r i (l1 ++ l2) = stream r i l1 ++ stream r (i + zlen l1) l2.
Proof.
  revert i. induction l1 as [|l ls IH]; intros i; cbn [stream app].
  - rewrite zlen_nil, Z.add_0_r. reflexivity.
  - rewrite IH, <- app_assoc, zlen_cons. do 3 f_equal. lia.
Qed.

Lemma stream_mod i l : stream r (i mod recv_nums r) l = stream r i l.
Proof.
  assert (0 < recv_nums r) by (destruct Hwf; lia).
  revert i. induction l as [|x ls IH]; intros i; cbn [stream]; [reflexivity|].
  rewrite slot_mod. f_equal. rewrite <- (IH (i + 1)), <- (IH (i mod recv_nums r + 1)).
  f_equal. rewrite Zplus_mod_idemp_l. reflexivity.
Qed.

Lemma slot_zlen i l : 0 <= l <= gap r -> zlen (slot_bytes r i l) = l.
Proof.
  destruct Hwf as (Hn & Hg & _ & Hz & _). intros. apply zlen_slice; [|lia|].
  - pose proof (Z.mod_pos_bound i (recv_nums r)). nia.
  - rewrite Hz. pose proof (Z.mod_pos_bound i (recv_nums r)). nia.
Qed.

Lemma stream_zlen i lens :
  Forall (fun l => 0 <= l <= gap r) lens -> zlen (stream r i lens) = fold_right Z.add 0 lens.
Proof.
  intros Hl. revert i. induction Hl as [|l ls H _ IH]; intros i; [reflexivity|].
  cbn [stream fold_right]. rewrite zlen_app, slot_zlen, IH by assumption. reflexivity.
Qed.

(** [n] full slots and [l] bytes of the next one, not crossing the end of the
    ring, are one contiguous piece of memory. *)
Lemma stream_contiguous i n l :
  0 <= i -> 0 <= l <= gap r -> i + Z.of_nat n < recv_nums r ->
  stream r i (replicate n (gap r) ++ [l]) = slice (i * gap r) (Z.of_nat n * gap r + l) (rmem r).
Proof.
  destruct Hwf as (Hn & Hg & _ & Hz & _). revert i. induction n as [|n IH]; intros i Hi Hl Hb.
  - cbn. unfold slot_bytes. rewrite Z.mod_small, app_nil_r by lia. reflexivity.
  - cbn [replicate app stream]. rewrite IH by lia. unfold slot_bytes.
    rewrite Z.mod_small by lia. replace ((i + 1) * gap r) with (i * gap r + gap r) by lia.
    rewrite slice_app by nia. f_equal. lia.
Qed.

Lemma stream_contiguous_full i n :
  0 <= i -> i + Z.of_nat n <= recv_nums r ->
  stream r i (replicate n (gap r)) = slice (i * gap r) (Z.of_nat n * gap r) (rmem r).
Proof.
  destruct Hwf as (Hn & Hg & _). destruct n as [|n]; intros Hi Hb; [reflexivity|].
  replace (replicate (S n) (gap r)) with (replicate n (gap r) ++ [gap r])
    by (rewrite <- (replicate_S_end n); reflexivity).
  rewrite stream_contiguous by lia. f_equal. lia.
Qed.

(** ** The program against the specification

    [reading d0 out n idx]: the reader has written [out] over the front of the
    destination [d0]; the next message starts in slot [idx] and [n] full buffers
    of it have been seen. *)
Definition reading (d0 out : list Z) (n : nat) (idx : Z) : reader :=
  {| dest := out ++ drop (length out) d0; rsize := zlen out; full := Z.of_nat n;
     start := rbuf r + gap r * idx; recv_index := idx |}.

Lemma copy_out_at d0 out n idx st0 off len :
  0 <= off -> 0 <= len -> off + len <= zlen (rmem r) ->
  zlen out + len <= zlen d0 -> zlen d0 < 2 ^ 31 ->
  copy_out r {| dest := out ++ drop (length out) d0; rsize := zlen out; full := n;
                start := st0; recv_index := idx |} (rbuf r + off) len
  = Some (let out' := out ++ slice off len (rmem r) in
          {| dest := out' ++ drop (length out') d0; rsize := zlen out'; full := n;
             start := rbuf r + off; recv_index := idx |}).
Proof.
  intros H0 H1 H2 H3 H4. unfold copy_out. cbn [rsize dest full recv_index].
  replace (rbuf r + off - rbuf r) with off by lia.
  assert (Hs : zlen (slice off len (rmem r)) = len) by (apply zlen_slice; lia).
  replace (buf_read off len (rmem r)) with (Some (slice off len (rmem r)))
    by (symmetry; apply buf_read_Some; auto).
  cbn [mbind option_bind]. rewrite buf_write_cursor by lia. cbn [mbind option_bind].
  rewrite i32_small by (pose proof (zlen_nonneg out); lia).
  rewrite zlen_app, Hs. reflexivity.
Qed.

(** Copying [n] full slots and [l] bytes from slot [idx] across the end of the
    ring: the two pieces of the [else] branches. *)
Lemma stream_wrapped idx n lens :
  0 <= idx < recv_nums r -> recv_nums r <= idx + Z.of_nat n ->
  stream r idx (replicate n (gap r) ++ lens) =
  slice (idx * gap r) ((recv_nums r - idx) * gap r) (rmem r) ++
  stream r 0 (replicate (n - Z.to_nat (recv_nums r - idx)) (gap r) ++ lens).
Proof.
  intros Hi Hn. set (k := Z.to_nat (recv_nums r - idx)).
  replace n with (k + (n - k))%nat at 1 by lia.
  rewrite replicate_add, <- app_assoc, stream_app.
  rewrite stream_contiguous_full by lia. replace (Z.of_nat k) with (recv_nums r - idx) by lia.
  f_equal. rewrite <- stream_mod. unfold zlen. rewrite length_replicate.
  replace (idx + Z.of_nat k) with (recv_nums r) by lia. rewrite Z.mod_same by lia. reflexivity.
Qed.

Lemma next_index idx n :
  0 <= idx -> Z.rem (idx + Z.of_nat n + 1) (recv_nums r) = (idx + Z.of_nat n + 1) mod recv_nums r.
Proof. intros. apply Z.rem_mod_nonneg; [lia|]. destruct Hwf. lia. Qed.

Lemma mod_index x : 0 <= x mod recv_nums r < recv_nums r.
Proof. apply Z.mod_pos_bound. destruct Hwf. lia. Qed.

Lemma read_step_full d0 out n idx :
  read_step r (reading d0 out n idx) (gap r) = Some (reading d0 out (S n) idx).
Proof.
  unfold read_step, reading. destruct (Z.ltb_spec (gap r) (gap r)); [lia|].
  cbn [full dest rsize start recv_index]. do 2 f_equal. lia.
Qed.

Lemma read_step_short d0 out n idx l :
  0 <= idx < recv_nums r -> Z.of_nat n < recv_nums r -> 0 <= l < gap r ->
  zlen out + (Z.of_nat n * gap r + l) <= zlen d0 -> zlen d0 < 2 ^ 31 ->
  read_step r (reading d0 out n idx) l
  = Some (reading d0 (out ++ stream r idx (replicate n (gap r) ++ [l])) 0
            ((idx + Z.of_nat n + 1) mod recv_nums r)).
Proof.
  intros Hi Hn Hl Ho Hd. destruct (Hwf) as (HN & Hg & Hmax & Hz & Hb).
  assert (HnN : 0 <= Z.of_nat n * gap r + l < recv_nums r * gap r) by nia.
  unfold read_step. destruct (Z.ltb_spec l (gap r)); [|lia]. cbv zeta. unfold reading.
  cbn [full dest rsize start recv_index]. rewrite (i32_small (Z.of_nat n * gap r + l)) by lia.
  rewrite (next_index idx n) by lia. rewrite Hb by apply mod_index.
  replace (rbuf r + gap r * idx) with (rbuf r + idx * gap r) by lia.
  destruct (Z.ltb_spec (idx + Z.of_nat n) (recv_nums r)) as [Hlt|Hge].
  - rewrite copy_out_at by nia. cbn [mbind option_bind]. rewrite stream_contiguous by lia.
    reflexivity.
  - rewrite i32_small by nia. rewrite copy_out_at by nia. cbn [mbind option_bind].
    rewrite Hb by lia. cbn [mbind option_bind]. rewrite Z.mul_0_r.
    rewrite copy_out_at; [|try lia; try nia..].
    + cbn [mbind option_bind]. rewrite stream_wrapped, stream_contiguous by lia.
      rewrite Z.mul_0_l. rewrite (app_assoc out).
      replace (Z.of_nat (n - _) * gap r + l)
        with (Z.of_nat n * gap r + l - (recv_nums r - idx) * gap r) by nia.
      reflexivity.
    + rewrite zlen_app, zlen_slice by nia. lia.
Qed.

(** The loop: what is written plus what is pending is the stream so far. *)
Lemma read_loop_spec d0 lens :
  forall out n idx,
  0 <= idx < recv_nums r -> Z.of_nat n + zlen lens <= recv_nums r ->
  Forall (fun l => 0 <= l <= gap r) lens ->
  zlen out + Z.of_nat n * gap r + fold_right Z.add 0 lens <= zlen d0 -> zlen d0 < 2 ^ 31 ->
  exists out' n' idx',
    read_loop r (reading d0 out n idx) lens = Some (reading d0 out' n' idx') /\
    out' ++ stream r idx' (replicate n' (gap r)) = out ++ stream r idx (replicate n (gap r) ++ lens) /\
    0 <= idx' < recv_nums r /\ Z.of_nat n' <= recv_nums r /\
    (idx' + Z.of_nat n') mod recv_nums r = (idx + Z.of_nat n + zlen lens) mod recv_nums r.
Proof.
  destruct (Hwf) as (HN & Hg & _). induction lens as [|l ls IH];
    intros out n idx Hi Hn Hl Ho Hd; cbn [read_loop].
  - exists out, n, idx. rewrite zlen_nil in *. rewrite app_nil_r.
    split; [reflexivity|]. split; [reflexivity|]. split; [exact Hi|]. split; [lia|f_equal; change (zlen (@nil Z)) with 0; lia].
  - apply Forall_cons_iff in Hl as [Hl Hls]. rewrite zlen_cons in Hn.
    pose proof (zlen_nonneg ls) as Hls0. cbn [fold_right] in Ho.
    destruct (Z.eq_dec l (gap r)) as [->|Hne].
    + rewrite read_step_full. cbn [mbind option_bind].
      destruct (IH out (S n) idx) as (o & n' & i' & E & Es & Hi' & Hn' & Hm); [lia..|exact Hls|lia|lia|].
      exists o, n', i'. split; [exact E|]. split.
      * rewrite Es. f_equal. rewrite (replicate_S_end n (gap r)), <- app_assoc. reflexivity.
      * rewrite Hm, zlen_cons. split; [exact Hi'|]. split; [exact Hn'|]. f_equal. lia.
    + assert (0 <= fold_right Z.add 0 ls).
      { clear -Hls Hg. induction Hls; cbn; lia. }
      rewrite read_step_short by lia. cbn [mbind option_bind].
      assert (Hz : zlen (stream r idx (replicate n (gap r) ++ [l])) = Z.of_nat n * gap r + l).
      { rewrite stream_zlen.
        - clear. induction n; cbn [replicate app fold_right]; lia.
        - apply Forall_app. split; [apply Forall_replicate; lia|]. repeat constructor; lia. }
      destruct (IH (out ++ stream r idx (replicate n (gap r) ++ [l])) 0%nat
                  ((idx + Z.of_nat n + 1) mod recv_nums r))
        as (o & n' & i' & E & Es & Hi' & Hn' & Hm);
        [apply mod_index|lia|exact Hls|rewrite zlen_app, Hz; lia|lia|].
      exists o, n', i'. split; [exact E|]. split.
      * rewrite Es. cbn [replicate app]. rewrite stream_mod, <- app_assoc. f_equal.
        replace (replicate n (gap r) ++ l :: ls) with ((replicate n (gap r) ++ [l]) ++ ls)
          by (rewrite <- app_assoc; reflexivity).
        rewrite (stream_app idx (_ ++ [l]) ls). f_equal. f_equal. rewrite zlen_app. unfold zlen.
        rewrite length_replicate. cbn [length]. lia.
      * split; [exact Hi'|]. split; [exact Hn'|]. rewrite Hm, zlen_cons.
        rewrite Z.add_0_r, Zplus_mod_idemp_l. f_equal. lia.
Qed.

Lemma read_tail_spec d0 out n idx :
  0 <= idx < recv_nums r -> Z.of_nat n <= recv_nums r ->
  zlen out + Z.of_nat n * gap r <= zlen d0 -> zlen d0 < 2 ^ 31 ->
  exists st, read_tail r (reading d0 out n idx) = Some st /\
    let out' := out ++ stream r idx (replicate n (gap r)) in
    dest st = out' ++ drop (length out') d0 /\ rsize st = zlen out' /\
    full st = Z.of_nat n /\ recv_index st = idx.
Proof.
  intros Hi Hn Ho Hd. destruct (Hwf) as (HN & Hg & Hmax & Hz & Hb).
  assert (HnN : 0 <= Z.of_nat n * gap r <= recv_nums r * gap r) by nia.
  unfold read_tail, reading. cbn [full dest rsize start recv_index].
  destruct (Z.eqb_spec (Z.of_nat n) 0) as [E0|E0]; cbn [negb].
  { replace n with 0%nat by lia. cbn [replicate stream]. rewrite app_nil_r. eexists. split; [reflexivity|].
    cbn. auto. }
  replace (rbuf r + gap r * idx) with (rbuf r + idx * gap r) by lia.
  destruct (Z.ltb_spec (idx + Z.of_nat n) (recv_nums r)) as [Hlt|Hge].
  - rewrite i32_small by lia. rewrite copy_out_at by nia. eexists. split; [reflexivity|].
    rewrite stream_contiguous_full by lia. auto.
  - cbv zeta. rewrite (i32_small ((recv_nums r - idx) * gap r)) by nia.
    rewrite copy_out_at by nia. cbn [mbind option_bind].
    pose proof (stream_wrapped idx n [] Hi Hge) as Hw. rewrite !app_nil_r in Hw. rewrite Hw.
    set (m := (n - Z.to_nat (recv_nums r - idx))%nat).
    rewrite Z.rem_mod_nonneg by lia.
    assert (Hfront : (Z.of_nat n + idx) mod recv_nums r = Z.of_nat m).
    { replace (Z.of_nat n + idx) with (Z.of_nat m + 1 * recv_nums r) by lia.
      rewrite Z.mod_add by lia. apply Z.mod_small. lia. }
    rewrite Hfront. destruct (Z.eqb_spec (Z.of_nat m) 0) as [Em|Em]; cbn [negb].
    + replace m with 0%nat by lia. cbn [replicate stream]. rewrite app_nil_r.
      eexists. split; [reflexivity|]. auto.
    + rewrite Hb by lia. cbn [mbind option_bind]. rewrite Z.mul_0_r, i32_small by nia.
      rewrite copy_out_at; [|try lia; try nia..].
      * eexists. split; [reflexivity|].
        rewrite (stream_contiguous_full 0 m), Z.mul_0_l, (app_assoc out) by lia. auto.
      * rewrite zlen_app, zlen_slice by nia. lia.
Qed.
End Ring.

(** C17 The walk of [rdma_session::read] over the ring is right. This is the part of
    [read] behind its query, lines 242 to 289, on a given list of completions; the
    program never runs it on a list that is not empty, because its query never
    succeeds ([Session.read_never_delivers]). For any completions that the ring can
    hold, each of at most [gap] bytes, and a destination large
    enough, the bytes written are the contents of the completed slots in posting
    order - each slot cut to its byte count, messages that wrap around the end of
    the ring included - the returned size is their total length, the rest of the
    destination is untouched and [recv_index] advances by the number of
    completions, modulo the size of the ring. *)
Theorem read_body_stream r idx lens out :
  wf_ring r -> 0 <= idx < recv_nums r -> zlen lens <= recv_nums r ->
  Forall (fun l => 0 <= l <= gap r) lens ->
  fold_right Z.add 0 lens <= zlen out -> zlen out < 2 ^ 31 ->
  let data := stream r idx lens in
  read_body r idx lens out
  = Some (fold_right Z.add 0 lens, data ++ drop (length data) out,
          (idx + zlen lens) mod recv_nums r).
Proof.
  intros Hwf Hi Hn Hl Ho Hd data. destruct (Hwf) as (HN & Hg & _ & _ & Hb).
  unfold read_body. rewrite Hb by lia. cbn [mbind option_bind].
  destruct (read_loop_spec r Hwf out lens [] 0%nat idx) as (o & n & i & E & Es & Hi' & Hn' & Hm);
    [lia|lia|exact Hl|change (zlen (@nil Z)) with 0; lia|lia|].
  change {| dest := out; rsize := 0; full := 0; start := _; recv_index := idx |}
    with (reading r out [] 0 idx).
  rewrite E. cbn [mbind option_bind]. cbn [replicate app] in Es.
  assert (Hsz : zlen (o ++ stream r i (replicate n (gap r))) = fold_right Z.add 0 lens)
    by (rewrite Es; apply stream_zlen; assumption).
  destruct (read_tail_spec r Hwf out o n i) as (st & Et & Hd' & Hs' & Hf' & Hx'); [lia..| |lia|].
  { rewrite zlen_app, (stream_zlen r Hwf) in Hsz by (apply Forall_replicate; lia).
    replace (fold_right Z.add 0 (replicate n (gap r))) with (Z.of_nat n * gap r) in Hsz; [lia|].
    clear. induction n; cbn [replicate fold_right]; lia. }
  rewrite Et. cbn [mbind option_bind]. rewrite Hd', Hs', Hf', Hx', Hsz, Es.
  rewrite Z.rem_mod_nonneg by lia. rewrite Hm.
  replace (idx + Z.of_nat 0 + zlen lens) with (idx + zlen lens) by lia. reflexivity.
Qed.

(** ** Witness: a ring of four buffers of three bytes; one message of five bytes
    that starts in the last buffer, then one of two bytes. *)

Definition sample_ring : ring :=
  {| recv_nums := 4; gap := 3; rbuf := 1000; rmem := [1; 2; 3; 4; 5; 6; 7; 8; 9; 10; 11; 12];
     bufs := [1000; 1003; 1006; 1009] |}.

Lemma sample_ring_wf : wf_ring sample_ring.
Proof.
  refine (conj _ (conj _ (conj _ (conj eq_refl _)))); try (cbn; lia).
  cbn. intros i Hi. assert (i = 0 \/ i = 1 \/ i = 2 \/ i = 3) as [->|[->|[->| ->]]] by lia; reflexivity.
Qed.

Example read_body_stream_witness :
  read_body sample_ring 3 [3; 2; 2] (replicate 8 0) = Some (7, [10; 11; 12; 1; 2; 4; 5; 0], 2).
Proof.
  apply (read_body_stream sample_ring 3 [3; 2; 2] (replicate 8 0));
    try (vm_compute; intuition congruence).
  - apply sample_ring_wf.
  - repeat constructor; cbn; lia.
Defined.
