(* ===== verification/RwExchange.v ===== *)
(** debug/rdma_session.cpp, the exchange of the remote write windows: [start_rw]
    prints the address and key of each of its regions as 25 character records,
    [start_remote] of the peer scans them back. *)
From Stdlib Require Import String.
From S2P Require Import Prelude CText ExchDest.
Open Scope Z_scope.

(** An entry of the exchange: [mr->addr] and [mr->rkey]. *)
Record window := { w_addr : Z; w_rkey : Z }.

(** [for (i=0,j=0; j<num; ++j, i+=25) sprintf(data+i, "%016lu:%08x", ...)];
    [None]: a [sprintf] runs off the end of [data]. *)
Fixpoint rw_loop (ws : list window) (i : Z) (data : list Z) : option (list Z) :=
  match ws with
  | [] => Some data
  | w :: ws' =>
      data' ← sprintf data i "%016lu:%08x" [AInt (w_addr w); AInt (w_rkey w)];
      rw_loop ws' (i + 25) data'
  end.

(** [char data[num*25]] and the loop; [junk] is the initial stack content. *)
Definition rw_data (junk : list Z) (ws : list window) : option (list Z) :=
  rw_loop ws 0 (take (length ws * 25) junk).

(** The stores of [sscanf(tmp, "%016lu:%08x", &raddrs[i], &rkeys[i])]; elements
    not converted keep what the [malloc]ed arrays held. *)
Definition store_window (vs : list sval) (w : window) : window :=
  let num k d := match vs !! k with Some (VNum v) => v | _ => d end in
  {| w_addr := num 0%nat (w_addr w); w_rkey := num 1%nat (w_rkey w) |}.

(** The loop of [start_remote] from offset [cur]: [fresh] are the elements of
    the two freshly allocated arrays. *)
Fixpoint remote_loop (mem : list Z) (cur : Z) (tmp : list Z) (fresh : list window)
  : option (list window) :=
  match fresh with
  | [] => Some []
  | w :: fresh' =>
      vs ← sscanf (drop (Z.to_nat cur) mem) "%25s";
      tmp' ← (match vs with VStr t :: _ => buf_write 0 (t ++ [0]) tmp | _ => Some tmp end);
      vs' ← sscanf tmp' "%016lu:%08x";
      ws ← remote_loop mem (cur + 25) tmp' fresh';
      Some (store_window vs' w :: ws)
  end.

(** ** The record format *)

Definition entry_text (w : window) : list Z := dec16 (w_addr w) ++ colon :: hex8 (w_rkey w).

Definition wf_window (w : window) : Prop := 0 <= w_addr w < 10 ^ 16 /\ 0 <= w_rkey w < 2 ^ 32.

Definition entries (ws : list window) : list Z := concat (map entry_text ws).

Lemma entry_zlen w : wf_window w -> zlen (entry_text w) = 25.
Proof.
  intros [Ha Hk]. unfold entry_text. autorewrite with zlen.
  rewrite dec16_zlen, hex8_zlen by assumption. reflexivity.
Qed.

Lemma entry_word w : wf_window w -> Forall (fun c => c <> 0 /\ is_space c = false) (entry_text w).
Proof.
  intros [Ha Hk]. unfold entry_text. apply Forall_app. split; [|apply Forall_cons].
  - refine (Forall_impl _ _ (dec16_digits (w_addr w) _)); [|lia]. intros c Hc.
    destruct (is_digit_plain 10 c) as (? & _ & _ & _ & _ & ? & _); [lia|exact Hc|auto].
  - split; [discriminate|reflexivity].
  - refine (Forall_impl _ _ (hex8_digits (w_rkey w) _)); [|lia]. intros c Hc.
    destruct (is_digit_plain 16 c) as (? & _ & _ & _ & _ & ? & _); [lia|exact Hc|auto].
Qed.

Lemma sprintf_entry b off w :
  wf_window w ->
  sprintf b off "%016lu:%08x" [AInt (w_addr w); AInt (w_rkey w)]
  = buf_write off (entry_text w ++ [0]) b.
Proof.
  intros [Ha Hk]. unfold sprintf, sprintf_text.
  change (format _) with
    (Some [DConv true (Some 16) true CvU; DChar colon; DConv true (Some 8) false CvX]).
  cbn -[pad print_uint u32 u64 colon buf_write].
  rewrite u32_small, u64_small, app_nil_r by lia. reflexivity.
Qed.

(** A word of known length in front of anything is what ["%25s"] takes. *)
Lemma take_word_word t r b :
  Forall (fun c => c <> 0 /\ is_space c = false) t -> b = length t -> take_word b (t ++ r) = (t, r).
Proof.
  intros Ht ->. induction Ht as [|c t [_ Hc] _ IH]; [destruct r; reflexivity|].
  cbn. rewrite Hc, IH. reflexivity.
Qed.

Lemma c_string_app_word t r :
  Forall (fun c => c <> 0 /\ is_space c = false) t -> c_string (t ++ r) = app t <$> c_string r.
Proof.
  induction 1 as [|c t [Hc _] _ IH]; cbn; [destruct (c_string r); reflexivity|].
  destruct (Z.eqb_spec c 0); [contradiction|]. rewrite IH. destruct (c_string r); reflexivity.
Qed.

Lemma scan_record w r s :
  wf_window w -> c_string r = Some s ->
  sscanf (entry_text w ++ r) "%25s" = Some [VStr (entry_text w)].
Proof.
  intros Hw Hs. pose proof (entry_word w Hw) as Hword. pose proof (entry_zlen w Hw) as Hz.
  unfold sscanf. rewrite c_string_app_word, Hs by exact Hword. cbn [mbind option_bind fmap option_fmap option_map].
  change (format _) with (Some [DConv false (Some 25) false CvS]).
  cbn [mbind option_bind scan_dirs]. unfold scan_str.
  destruct (entry_text w) as [|c t] eqn:E; [discriminate Hz|].
  inversion Hword as [|? ? [_ Hc]]; subst. cbn [skip_ws app]. rewrite Hc.
  change (c :: t ++ s) with ((c :: t) ++ s).
  rewrite take_word_word by (try exact Hword; unfold zlen in Hz; lia). reflexivity.
Qed.

Lemma scan_entry w tl :
  wf_window w ->
  sscanf (entry_text w ++ 0 :: tl) "%016lu:%08x" = Some [VNum (w_addr w); VNum (w_rkey w)].
Proof.
  intros Hw. destruct (Hw) as [Ha Hk]. unfold sscanf. rewrite c_string_app.
  2:{ refine (Forall_impl _ _ (entry_word w Hw)). tauto. }
  change (format _) with
    (Some [DConv true (Some 16) true CvU; DChar colon; DConv true (Some 8) false CvX]).
  cbn [mbind option_bind scan_dirs]. unfold entry_text, dec16, hex8.
  rewrite (scan_print_num 10 (Some 16)) by (try lia; left; symmetry; apply dec16_zlen; lia).
  rewrite Z.eqb_refl, <- (app_nil_r (pad true (Some 8) _)).
  rewrite (scan_print_num 16 (Some 8)) by (try lia; left; symmetry; apply hex8_zlen; lia).
  rewrite u32_small by lia. reflexivity.
Qed.

(** Where the loop of [start_rw] leaves its buffer, given one spare byte. *)
Lemma rw_loop_spec ws :
  forall done tl, Forall wf_window ws -> zlen tl = 25 * zlen ws + 1 ->
  exists tl', rw_loop ws (zlen done) (done ++ tl) = Some (done ++ entries ws ++ tl') /\
              (ws <> [] -> tl' = [0]) /\ zlen tl' = 1.
Proof.
  induction ws as [|w ws IH]; intros done tl Hws Hz; cbn [rw_loop].
  - exists tl. split; [reflexivity|]. split; [congruence|]. exact Hz.
  - apply Forall_cons_iff in Hws as [Hw Hws]. rewrite zlen_cons in Hz.
    pose proof (zlen_nonneg ws) as Hnn. pose proof (entry_zlen w Hw) as He.
    rewrite sprintf_entry by exact Hw.
    destruct (split_at 26 tl) as (old & post & -> & Hold); [unfold zlen in *; lia|].
    rewrite buf_write_app by (rewrite zlen_app, He; unfold zlen; rewrite Hold; reflexivity).
    cbn [mbind option_bind].
    replace (done ++ (entry_text w ++ [0]) ++ post)
      with ((done ++ entry_text w) ++ (0 :: post)) by (rewrite <- !app_assoc; reflexivity).
    replace (zlen done + 25) with (zlen (done ++ entry_text w)) by (rewrite zlen_app, He; reflexivity).
    assert (Hpost : zlen post = 25 * zlen ws) by (rewrite zlen_app in Hz; unfold zlen in *; lia).
    destruct (IH (done ++ entry_text w) (0 :: post) Hws) as (tl' & E & Hnil & Hl').
    { rewrite zlen_cons. lia. }
    exists tl'. rewrite E. cbn [entries map concat]. rewrite <- !app_assoc.
    split; [reflexivity|]. split; [|exact Hl']. intros _.
    destruct ws as [|w' ws']; [|apply Hnil; discriminate].
    cbn in E. injection E as E. apply app_inv_head in E. destruct post; [congruence|]. unfold zlen in Hpost. cbn in Hpost. lia.
Qed.

Lemma entries_length ws : Forall wf_window ws -> length (entries ws) = (25 * length ws)%nat.
Proof.
  induction 1 as [|w ws Hw _ IH]; [reflexivity|].
  cbn [entries map concat length]. rewrite length_app. fold (entries ws). rewrite IH.
  pose proof (entry_zlen w Hw). unfold zlen in *. lia.
Qed.

Lemma entries_string ws rest z :
  Forall wf_window ws -> c_string rest = Some z -> exists s, c_string (entries ws ++ rest) = Some s.
Proof.
  intros Hws Hr. induction Hws as [|w ws Hw _ IH]; [cbn; eauto|]. destruct IH as [s Es].
  cbn [entries map concat]. rewrite <- app_assoc, c_string_app_word by apply entry_word, Hw.
  fold (entries ws). rewrite Es. cbn. eauto.
Qed.

(** The peer's loop over the records of [ws]. *)
Lemma remote_loop_spec rest z ws : c_string rest = Some z ->
  forall done tmp fresh, Forall wf_window ws -> zlen tmp = 26 -> length fresh = length ws ->
  remote_loop (done ++ entries ws ++ rest) (zlen done) tmp fresh = Some ws.
Proof.
  intros Hr. induction ws as [|w ws IH]; intros done tmp fresh Hws Ht Hf;
    (destruct fresh as [|f fresh]; try discriminate Hf); [reflexivity|].
  apply Forall_cons_iff in Hws as [Hw Hws]. cbn [remote_loop entries map concat].
  fold (entries ws). replace (Z.to_nat (zlen done)) with (length done) by (unfold zlen; lia).
  rewrite drop_app_length, <- app_assoc. destruct (entries_string ws rest z Hws Hr) as [s Hs].
  rewrite (scan_record w _ s Hw Hs). cbn [mbind option_bind]. pose proof (entry_zlen w Hw) as He.
  rewrite buf_write_full by (rewrite zlen_app, He; symmetry; exact Ht). cbn [mbind option_bind].
  rewrite scan_entry by exact Hw. cbn [mbind option_bind].
  replace (zlen done + 25) with (zlen (done ++ entry_text w)) by (rewrite zlen_app, He; reflexivity).
  rewrite (app_assoc done). rewrite IH; [|exact Hws| |injection Hf; auto].
  - destruct w. reflexivity.
  - rewrite zlen_app, He. reflexivity.
Qed.

(** Every record has at least 25 characters. *)
Lemma record_text w :
  exists t, sprintf_text "%016lu:%08x" [AInt (w_addr w); AInt (w_rkey w)] = Some t /\ 25 <= zlen t.
Proof.
  unfold sprintf_text.
  change (format _) with
    (Some [DConv true (Some 16) true CvU; DChar 58; DConv true (Some 8) false CvX]).
  cbn -[pad print_uint u32 u64]. eexists. split; [reflexivity|].
  autorewrite with zlen. rewrite !pad_zlen. lia.
Qed.

Lemma rw_loop_overflow ws : forall i data,
  ws <> [] -> zlen data <= i + 25 * zlen ws -> rw_loop ws i data = None.
Proof.
  induction ws as [|w ws IH]; intros i data Hne Hz; [contradiction|]. cbn [rw_loop]. unfold sprintf.
  destruct (record_text w) as (t & -> & Ht). cbn [mbind option_bind].
  destruct (buf_write i (t ++ [0]) data) as [data'|] eqn:E; [|reflexivity]. cbn [mbind option_bind].
  rewrite zlen_cons in Hz. pose proof (buf_write_zlen _ _ _ _ E) as Hz'.
  apply buf_write_Some in E as [[_ Hb] _]. rewrite zlen_app in Hb. change (zlen [0]) with 1 in Hb.
  destruct ws as [|w' ws']; [change (zlen []) with 0 in Hz; lia|]. apply IH; [discriminate|lia].
Qed.

Lemma rw_data_None ws junk : ws <> [] -> rw_data junk ws = None.
Proof.
  intros Hne. apply rw_loop_overflow; [exact Hne|]. unfold zlen. rewrite length_take. lia.
Qed.

(** A record and its NUL do not fit in 25 bytes. *)
Lemma remote_loop_overflow ws rest z tmp fresh :
  Forall wf_window ws -> ws <> [] -> c_string rest = Some z -> length fresh = length ws ->
  zlen tmp <= 25 -> remote_loop (entries ws ++ rest) 0 tmp fresh = None.
Proof.
  intros Hws Hne Hr Hf Ht. destruct Hws as [|w ws Hw Hws]; [contradiction|].
  destruct fresh as [|f fresh]; [discriminate Hf|]. cbn [remote_loop entries map concat].
  fold (entries ws). rewrite <- app_assoc. destruct (entries_string ws rest z Hws Hr) as [s Hs].
  change (drop (Z.to_nat 0) ?l) with l. rewrite (scan_record w _ s Hw Hs). cbn [mbind option_bind].
  destruct (buf_write 0 (entry_text w ++ [0]) tmp) as [b|] eqn:E; [|reflexivity].
  apply buf_write_Some in E as [[_ E] _]. autorewrite with zlen in E. rewrite (entry_zlen w Hw) in E. lia.
Qed.

(** ** Properties *)

(** C20 The window exchange is one byte short at each end, and only that. For any
    non-empty list of regions (addresses of at most sixteen digits): with the
    [25 * num] bytes of [data] that [start_rw] has, printing the list overruns the
    buffer; with the 25 bytes of [tmp] that [start_remote] has, scanning the first
    record overruns it, whatever follows; but with one more byte in each, which the
    program does not provide, what the loop of [start_rw] prints is read back by the
    loop of [start_remote], from a receive buffer that holds those [25 * num]
    bytes, as the addresses and keys of all the regions, in order. *)
Theorem rw_exchange_roundtrip ws data rest tmp fresh z :
  Forall wf_window ws -> ws <> [] -> c_string rest = Some z -> length fresh = length ws ->
  (zlen data = 25 * zlen ws -> rw_loop ws 0 data = None) /\
  (zlen tmp = 25 -> remote_loop (entries ws ++ rest) 0 tmp fresh = None) /\
  (zlen data = 25 * zlen ws + 1 -> zlen tmp = 26 -> exists data',
     rw_loop ws 0 data = Some data' /\ take (25 * length ws) data' = entries ws /\
     remote_loop (take (25 * length ws) data' ++ rest) 0 tmp fresh = Some ws).
Proof.
  intros Hws Hne Hr Hf. split; [|split].
  - intros Hd. apply rw_loop_overflow; [exact Hne|lia].
  - intros Ht. apply (remote_loop_overflow ws rest z); (assumption || lia).
  - intros Hd Ht. destruct (rw_loop_spec ws [] data Hws Hd) as (tl' & E & _). exists (entries ws ++ tl').
    split; [exact E|]. rewrite <- (entries_length ws Hws), take_app_length. split; [reflexivity|].
    exact (remote_loop_spec rest z ws Hr [] tmp fresh Hws Ht Hf).
Qed.

(** The buffer of [start_rw] is one byte short: whatever the regions, the
    [num * 25] bytes of [data] have no room for the NUL of the last record, so
    the last [sprintf] writes past the end of the array. *)
Theorem rw_data_overflow ws junk :
  ws <> [] -> rw_data junk ws = None.
Proof. apply rw_data_None. Qed.

(** ** Witnesses: two regions, exchanged; and the overflow of their buffer. *)

Definition sample_windows : list window :=
  [{| w_addr := 140737353900032; w_rkey := 4096 |}; {| w_addr := 140737355997184; w_rkey := 4097 |}].

Definition blank_windows : list window := replicate 2 {| w_addr := 0; w_rkey := 0 |}.

Lemma sample_windows_wf : Forall wf_window sample_windows.
Proof. repeat constructor; cbn; lia. Qed.

Example rw_exchange_roundtrip_witness :
  remote_loop (entries sample_windows ++ [0]) 0 (replicate 25 7) blank_windows = None /\
  exists data', rw_loop sample_windows 0 (replicate 51 7) = Some data' /\
    remote_loop (take 50 data' ++ [0]) 0 (replicate 26 7) blank_windows = Some sample_windows.
Proof.
  split.
  - apply (rw_exchange_roundtrip sample_windows (replicate 51 7) [0] (replicate 25 7) blank_windows []
             sample_windows_wf ltac:(discriminate) eq_refl eq_refl). reflexivity.
  - destruct (rw_exchange_roundtrip sample_windows (replicate 51 7) [0] (replicate 26 7) blank_windows []
      sample_windows_wf ltac:(discriminate) eq_refl eq_refl) as (_ & _ & H).
    destruct (H eq_refl eq_refl) as (data' & Hw & _ & Hr). exists data'. split; [exact Hw|exact Hr].
Defined.

Example rw_data_overflow_witness : rw_data (replicate 50 7) sample_windows = None.
Proof.
  apply (rw_data_overflow sample_windows). discriminate.
Defined.
