(* ===== verification/RdmaConnect.v ===== *)
(** debug/rdma_socket.c, bringing a connection up: the two sides of the TCP
    exchange ([rdma_client_exch_dest], [rdma_server_exch_dest]), the listening
    socket ([open_server]), [create_context] with its two entry points
    [rdma_socket] and [rdma_socket_p], and [get_device]. *)
From Stdlib Require Import String.
From S2P Require Import Prelude Gid Verbs Mock QpProtocol ExchDest RdmaContext.
Open Scope Z_scope.

Record init_params := {
  p_port : Z; p_ib_port : Z; p_gidx : Z; p_use_event : Z; p_rx_depth : Z; p_sockfd : Z;
  p_mem_size : Z; p_mtu : ibv_mtu; p_ib_devname : option (list Z); p_sr : Z }.

(** What the memory of the uninitialised locals and of the [malloc]ed
    [remote_info] holds. *)
Record locals := {
  l_msg : list Z; l_gid : list Z; l_v32 : Z; l_info : info_con; l_remote : info_con }.

(** Stores to fields of a context. *)
Definition store_ctx (c : rdma_context) (ps : Z) (ri : option info_con) (w : option rdma_mem)
    (f : Z) (host : option (list Z)) : rdma_context :=
  {| ctx_self := ctx_self c; context := context c; channel := channel c; pd := pd c;
     recv_cq := recv_cq c; send_cq := send_cq c; qp := qp c; remote_info := ri;
     id := id c; pending := pending c; page_size := ps; ib_port := ib_port c;
     portinfo := portinfo c; rw := w; fd := f; peer_host := host |}.

Definition set_page_size (c : rdma_context) (v : Z) : rdma_context :=
  store_ctx c v (remote_info c) (rw c) (fd c) (peer_host c).
Definition set_remote_info (c : rdma_context) (v : info_con) : rdma_context :=
  store_ctx c (page_size c) (Some v) (rw c) (fd c) (peer_host c).
Definition set_rw (c : rdma_context) (v : rdma_mem) : rdma_context :=
  store_ctx c (page_size c) (remote_info c) (Some v) (fd c) (peer_host c).
Definition set_fd (c : rdma_context) (v : Z) : rdma_context :=
  store_ctx c (page_size c) (remote_info c) (rw c) v (peer_host c).
Definition set_peer_host (c : rdma_context) (v : list Z) : rdma_context :=
  store_ctx c (page_size c) (remote_info c) (rw c) (fd c) (Some v).

Section RdmaConnect.
Context {W : Type} `{Env W} (e : endian) (l : locals).

(** [for (t = res; t; t = t->ai_next)] of the client. *)
Fixpoint connect_loop (ts : list Z) (sockfd : Z) : M (St W) Z :=
  match ts with
  | [] => ret sockfd
  | t :: ts' =>
      let* sockfd := sys (sys_socket t) in
      if 0 <=? sockfd then
        let* rc := sys (sys_connect sockfd t) in
        if rc =? 0 then ret sockfd
        else sys (sys_close sockfd) ;;; connect_loop ts' (-1)
      else connect_loop ts' sockfd
  end.

Definition rdma_client_exch_dest (ctx : rdma_context) (servername : option (list Z)) (port : Z)
    (my_info : info_con) : M (St W) (option info_con * rdma_context) :=
  let* (rc, service) := sys (asprintf_int port) in
  if rc <? 0 then ret (None, ctx) else
  let* (n, res) := sys (sys_getaddrinfo servername port) in
  if n <? 0 then sys (free service) ;;; ret (None, ctx) else
  let* sockfd := connect_loop res (-1) in
  sys sys_freeaddrinfo ;;;
  sys (free service) ;;;
  if sockfd <? 0 then ret (None, ctx) else
  let* (gid_buf, msg) := deref (print_info e my_info (l_gid l) (l_msg l)) in
  let* n := sys (sys_write sockfd msg) in
  if negb (n =? msg_size) then ret (None, ctx) else
  let* (n, d) := sys (sys_read sockfd msg_size) in
  let* msg := deref (buf_write 0 d msg) in
  if negb (n =? msg_size) then ret (None, ctx) else
  sys (sys_write sockfd (chars "done" ++ [0])) ;;;
  let* p := sys (malloc (Sizeof "info_con")) in
  if p =? 0 then ret (None, ctx) else
  let* remote_info := deref (scan_info e (l_v32 l) msg gid_buf (l_remote l)) in
  ret (Some remote_info, set_fd ctx sockfd).

Fixpoint bind_loop (ts : list Z) (sockfd : Z) : M (St W) Z :=
  match ts with
  | [] => ret sockfd
  | t :: ts' =>
      let* sockfd := sys (sys_socket t) in
      if 0 <=? sockfd then
        sys (sys_setsockopt_reuse sockfd) ;;;
        let* rc := sys (sys_bind sockfd t) in
        if rc =? 0 then ret sockfd
        else sys (sys_close sockfd) ;;; bind_loop ts' (-1)
      else bind_loop ts' sockfd
  end.

Definition open_server (port : Z) : M (St W) Z :=
  let* (rc, service) := sys (asprintf_int port) in
  if rc <? 0 then ret (-1) else
  let* (n, res) := sys (sys_getaddrinfo None port) in
  if n <? 0 then sys (free service) ;;; ret (-1) else
  let* sockfd := bind_loop res (-1) in
  sys sys_freeaddrinfo ;;;
  sys (free service) ;;;
  if sockfd <? 0 then ret (-1) else ret sockfd.

(** [malloc]ing and copying the peer's address happens before the check of
    [accept]'s result. *)
Definition rdma_server_exch_dest (ctx : rdma_context) (ib_port : Z) (mtu : ibv_mtu) (sl : Z)
    (my_info : info_con) (sgid_idx sockfd : Z) : M (St W) (option info_con * rdma_context) :=
  sys (sys_listen sockfd 1) ;;;
  let* connfd := sys (sys_accept sockfd) in
  let* host := sys (sys_getpeername connfd) in
  let* h := sys (malloc (Bytes (zlen host + 1))) in
  if h =? 0 then undef else                              (* strcpy(NULL, host) *)
  let ctx := set_peer_host ctx host in
  if connfd <? 0 then ret (None, ctx) else
  let* (n, d) := sys (sys_read connfd msg_size) in
  let* msg := deref (buf_write 0 d (l_msg l)) in
  if negb (n =? msg_size) then ret (None, ctx) else
  let* p := sys (malloc (Sizeof "info_con")) in
  if p =? 0 then ret (None, ctx) else
  let* vs := deref (scan_info e (l_v32 l) msg (l_gid l) (l_remote l)) in
  let remote_info := vs in
  let* rc := rdma_connect_ctx ctx ib_port (psn my_info) mtu sl remote_info sgid_idx in
  if negb (rc =? 0) then sys (free p) ;;; ret (None, ctx) else
  let* (_, msg) := deref (print_info e my_info (l_gid l) msg) in
  let* n := sys (sys_write connfd msg) in
  if negb (n =? msg_size) then sys (free p) ;;; ret (None, ctx) else
  sys (sys_read connfd msg_size) ;;;
  ret (Some remote_info, set_fd ctx connfd).

(** [for (i = 0; dev_list[i]; ++i) if (!strcmp(...)) break;]. *)
Fixpoint find_device (devs : list Z) (name : list Z) : M (St W) Z :=
  match devs with
  | [] => ret 0
  | d :: devs' =>
      let* n := sys (ibv_get_device_name d) in
      if bool_decide (n = name) then ret d else find_device devs' name
  end.

Definition psn_of (r : Z) : Z := Z.land r 16777215.

Definition my_info_of (ctx : rdma_context) (q : ibv_qp) (g : list Z) (rw : option rdma_mem)
    (psn : Z) : info_con :=
  {| lid := port_lid (portinfo ctx); qpn := qp_num q; psn := psn;
     rkey := match rw with Some w => Verbs.rkey (mr w) | None => rkey (l_info l) end;
     addr := match rw with Some w => buf w | None => addr (l_info l) end;
     gid := g |}.

(** The read window of [params->mem_size] bytes; [inl]: the early return. *)
Definition alloc_window (ctx : rdma_context) (mem_size : Z)
  : M (St W) (option (option rdma_mem)) :=
  if mem_size =? 0 then ret (Some None) else
  let* tbuf := sys (memalign (page_size ctx) mem_size) in
  if tbuf =? 0 then ret None else
  let* rw := rdma_reg_mr ctx tbuf mem_size in
  match rw with
  | None => sys (free tbuf) ;;; ret None
  | Some w => ret (Some (Some w))
  end.

(** From [init_rdma_context]'s context to the exchange of [my_info]. *)
Definition prepare_info (ctx : rdma_context) (params : init_params)
  : M (St W) (option (rdma_context * info_con)) :=
  let* ps := sys sys_page_size in
  let ctx := set_page_size ctx (i32 ps) in
  let* rc := if negb (p_use_event params =? 0)
             then sys (ibv_req_notify_cq (recv_cq ctx) false) else ret 0 in
  if negb (rc =? 0) then ret None else
  if bool_decide (layer (portinfo ctx) = IBV_LINK_LAYER_INFINIBAND)
     && (port_lid (portinfo ctx) =? 0) then ret None else
  let* (rc, g) := if 0 <=? p_gidx params
                  then sys (ibv_query_gid (context ctx) (ib_port ctx) (p_gidx params))
                  else ret (0, zero_gid) in
  if negb (rc =? 0) then ret None else
  let* q := deref (qp ctx) in
  let* rw := alloc_window ctx (p_mem_size params) in
  match rw with
  | None => ret None
  | Some rw =>
      let ctx := match rw with Some w => set_rw ctx w | None => ctx end in
      let* r := sys sys_lrand48 in
      ret (Some (ctx, my_info_of ctx q g rw (psn_of r)))
  end.

(** The exchange with the peer and the end of [create_context]. *)
Definition exchange (hostname : option (list Z)) (is_server : Z) (params : init_params)
    (dev_list : Z) (ctx : rdma_context) (my_info : info_con) : M (St W) (option rdma_context) :=
  let* (remote, ctx) :=
    if is_server =? 0
    then rdma_client_exch_dest ctx hostname (p_port params) my_info
    else rdma_server_exch_dest ctx (ib_port ctx) (p_mtu params) 0 my_info
           (p_gidx params) (p_sockfd params) in
  match remote with
  | None => ret None
  | Some remote =>
      let ctx := set_remote_info ctx remote in
      let* rc :=
        if is_server =? 0
        then rdma_connect_ctx ctx (ib_port ctx) (psn my_info) (p_mtu params) 0
               remote (p_gidx params)
        else ret 0 in
      if negb (rc =? 0) then ret None else
      sys (ibv_free_device_list dev_list) ;;;
      ret (Some ctx)
  end.

Definition create_context (hostname : option (list Z)) (is_server : Z) (params : init_params)
  : M (St W) (option rdma_context) :=
  let* devs := sys ibv_get_device_list in
  match devs with
  | None => ret None
  | Some (dev_list, devs) =>
      let* ib_dev := match p_ib_devname params with
                     | None => ret (default 0 (devs !! 0%nat))
                     | Some name => find_device devs name
                     end in
      if ib_dev =? 0 then ret None else
      let* octx := init_rdma_context ib_dev (p_rx_depth params) (p_ib_port params)
                     (p_use_event params) is_server in
      match octx with
      | None => ret None
      | Some ctx =>
          let* prep := prepare_info ctx params in
          match prep with
          | None => ret None
          | Some (ctx, my_info) =>
              exchange hostname is_server params dev_list ctx my_info
          end
      end
  end.

(** [rdma_socket]: [uninit] is what the fields it does not set hold. *)
Definition rdma_socket (hostname : option (list Z)) (is_server : Z) (uninit : init_params)
  : M (St W) (option rdma_context) :=
  create_context hostname is_server
    {| p_port := 18185; p_ib_port := 1; p_gidx := -1; p_use_event := 0; p_rx_depth := 16000;
       p_sockfd := p_sockfd uninit; p_mem_size := p_mem_size uninit; p_mtu := IBV_MTU_1024;
       p_ib_devname := None; p_sr := p_sr uninit |}.

(** The defaults [rdma_socket_p] stores into the caller's parameters. *)
Definition default_params (p : init_params) : init_params :=
  {| p_port := if p_port p =? 0 then 18185 else p_port p;
     p_ib_port := if p_ib_port p =? 0 then 1 else p_ib_port p;
     p_gidx := p_gidx p; p_use_event := p_use_event p; p_rx_depth := 16000;
     p_sockfd := p_sockfd p; p_mem_size := p_mem_size p; p_mtu := IBV_MTU_1024;
     p_ib_devname := p_ib_devname p; p_sr := p_sr p |}.

Definition rdma_socket_p (hostname : option (list Z)) (is_server : Z) (params : init_params)
  : M (St W) (option rdma_context * init_params) :=
  let params := default_params params in
  let* ctx := create_context hostname is_server params in
  ret (ctx, params).

(** [get_device]: without a match it runs off its end. *)
Fixpoint get_device_loop (devs : list Z) (name : list Z) : M (St W) (list Z) :=
  match devs with
  | [] => undef
  | d :: devs' =>
      let* ctx := sys (ibv_open_device d) in
      let* (rc, attr) := sys (ibv_query_port ctx 1) in
      if (rc =? 0) && bool_decide (name = chars (link_layer_str (layer attr)))
      then sys (ibv_get_device_name d)
      else get_device_loop devs' name
  end.

Definition get_device (name : list Z) : M (St W) (list Z) :=
  let* devs := sys ibv_get_device_list in
  let* (_, devs) := deref devs in
  get_device_loop devs name.

(** ** The bytes exchanged over the socket *)

Inductive message := Sent (d : list Z) | Received (d : list Z).

(** Complete writes and all reads of a trace, oldest first. *)
Fixpoint io (tr : list event) : list message :=
  match tr with
  | [] => []
  | Ev c r :: tr' =>
      io tr' ++
      (match c return ret_of c -> list message with
       | sys_write _ d => fun n => if n =? zlen d then [Sent d] else []
       | sys_read _ _ => fun nd => [Received (snd nd)]
       | _ => fun _ => []
       end) r
  end.

Definition wire (i : info_con) : list Z := info_text i ++ [0].

Definition wf_locals : Prop :=
  zlen (l_msg l) = msg_size /\ zlen (l_gid l) = gid_buf_size /\ zlen (gid (l_remote l)) = 16 /\
  wf_info (l_info l) /\ addr (l_info l) < 10 ^ 16.

(** [i] describes the end point [c]. *)
Definition announces (c : rdma_context) (i : info_con) : Prop :=
  lid i = port_lid (portinfo c) /\ (forall q, qp c = Some q -> qpn i = qp_num q) /\
  (forall w, rw c = Some w -> addr i = buf w /\ rkey i = Verbs.rkey (mr w)).

(** Nothing was said on the socket and no queue pair was modified. *)
Definition quiet (s s' : St W) : Prop :=
  io (trace s') = io (trace s) /\ forall h, accepted h (trace s') = accepted h (trace s).

(** The contexts differ at most in the fields the exchange stores. *)
Definition same_objects (c c' : rdma_context) : Prop :=
  qp c' = qp c /\ ib_port c' = ib_port c /\ portinfo c' = portinfo c /\ rw c' = rw c.

Lemma same_objects_refl c : same_objects c c.
Proof. repeat split. Qed.

Lemma quiet_trans s1 s2 s3 : quiet s1 s2 -> quiet s2 s3 -> quiet s1 s3.
Proof. intros [E1 F1] [E2 F2]. split; [congruence|]. intros h. rewrite F2. apply F1. Qed.

(** A call that is neither of the kinds recorded. *)
Local Ltac quiet_tac := split; cbn [io accepted trace]; intros; rewrite ?app_nil_r; reflexivity.

Lemma connect_loop_quiet ts fd s : if_returns (connect_loop ts fd) s (fun _ s' => quiet s s').
Proof.
  revert fd s. induction ts as [|t ts IH]; intros fd s; cbn [connect_loop]; exec; try quiet_tac.
  all: eapply if_returns_conseq; [apply IH|]; intros ? s' Hq;
    eapply quiet_trans; [|exact Hq]; quiet_tac.
Qed.

(** A message received in full over a buffer of the right size is understood. *)
Lemma scan_wire peer msg m g i :
  zlen msg = msg_size -> zlen g = gid_buf_size -> zlen (gid (l_remote l)) = 16 ->
  wf_info peer -> addr peer < 10 ^ 16 -> buf_write 0 (wire peer) msg = Some m ->
  scan_info e (l_v32 l) m g (l_remote l) = Some i -> i = peer.
Proof.
  intros Hm Hg Hr Hp Ha Hw Hs.
  rewrite buf_write_full in Hw by (rewrite Hm; apply info_wire_zlen; assumption).
  injection Hw as <-. unfold wire in Hs. rewrite scan_info_exact in Hs by assumption. congruence.
Qed.

(** What the client's exchange sends, learns and stores. *)
Lemma rdma_client_exch_dest_run ctx servername port my_info s :
  wf_locals -> wf_info my_info -> addr my_info < 10 ^ 16 ->
  if_returns (rdma_client_exch_dest ctx servername port my_info) s (fun r s' =>
    forall i, fst r = Some i ->
      same_objects ctx (snd r) /\ (forall h, accepted h (trace s') = accepted h (trace s)) /\
      exists d rest, io (trace s') = io (trace s) ++ Sent (wire my_info) :: Received d :: rest /\
        (forall peer, wf_info peer -> addr peer < 10 ^ 16 -> d = wire peer -> i = peer)).
Proof.
  intros (Hm & Hg & Hr & _) Hi Ha. unfold rdma_client_exch_dest.
  destruct (print_info_exact e my_info (l_gid l) (l_msg l) Hi Ha Hg Hm) as (g & Ep & Hg').
  rewrite Ep. fold (wire my_info).
  assert (Hz : zlen (wire my_info) = msg_size) by (apply info_wire_zlen; assumption).
  exec; try (intros i [=]).
  eapply if_returns_conseq; [apply connect_loop_quiet|]. intros fd s1 [Eio Eacc].
  cbn [deref]. exec; try (intros i [=]; fail).
  intros i [= <-]. split; [repeat split|]. split.
  - intros h. cbn [accepted trace]. rewrite !app_nil_r, Eacc. cbn [accepted trace].
    rewrite !app_nil_r. reflexivity.
  - do 2 eexists. split.
    + cbn [io trace snd]. rewrite Eio, Hz. cbn [io trace]. subst. rewrite Z.eqb_refl, !app_nil_r.
      rewrite <- !app_assoc. cbn [app]. reflexivity.
    + intros peer Hp Hpa ->. eapply (scan_wire peer (wire my_info)); eassumption.
Qed.

(** What the server's exchange receives, answers, and does to the queue pair. *)
Lemma rdma_server_exch_dest_run ctx q ib_port mtu sl my_info sgid_idx sockfd s :
  wf_locals -> wf_info my_info -> addr my_info < 10 ^ 16 -> qp ctx = Some q ->
  if_returns (rdma_server_exch_dest ctx ib_port mtu sl my_info sgid_idx sockfd) s (fun r s' =>
    forall i, fst r = Some i ->
      same_objects ctx (snd r) /\
      (let rtr := rtr_attr ib_port mtu sl i sgid_idx in
       accepted (qp_handle q) (trace s') = accepted (qp_handle q) (trace s) ++
         [(rtr, rtr_mask); (rts_attr rtr (psn my_info), rts_mask)]) /\
      exists d rest, io (trace s') = io (trace s) ++ Received d :: Sent (wire my_info) :: rest /\
        (forall peer, wf_info peer -> addr peer < 10 ^ 16 -> d = wire peer -> i = peer)).
Proof.
  intros (Hm & Hg & Hr & _) Hi Ha Hq. unfold rdma_server_exch_dest.
  unfold rdma_connect_ctx. cbn [qp set_peer_host store_ctx]. rewrite Hq. cbn [deref].
  assert (Hz : zlen (wire my_info) = msg_size) by (apply info_wire_zlen; assumption).
  exec; try (intros i [=]; fail); try lia.
  match goal with Hw : buf_write 0 _ (l_msg l) = Some ?m, Hp : print_info _ _ _ ?m = Some _ |- _ =>
    destruct (print_info_exact e my_info (l_gid l) m Hi Ha Hg) as (g & Ep & Hg');
      [rewrite (buf_write_zlen _ _ _ _ Hw); exact Hm|];
    rewrite Ep in Hp; injection Hp as <- <-
  end.
  fold (wire my_info) in *.
  intros i [= <-]. split; [repeat split|]. split.
  - cbn [accepted trace]. rewrite !app_nil_r. subst. rewrite !Z.eqb_refl. cbn [andb].
    rewrite <- !app_assoc. reflexivity.
  - do 2 eexists. split.
    + cbn [io trace snd]. rewrite Hz. subst. rewrite Z.eqb_refl, !app_nil_r.
      rewrite <- !app_assoc. cbn [app]. reflexivity.
    + intros peer Hp Hpa ->. eapply (scan_wire peer (l_msg l) _ (l_gid l)); eassumption.
Qed.

(** The ranges of what a new context announces, and that building it is quiet. *)
Lemma init_rdma_context_ranges `{!HostEnv H} ib_dev rx_depth port use_event is_server s :
  if_returns (init_rdma_context ib_dev rx_depth port use_event is_server) s (fun r s' =>
    forall c, r = Some c -> io (trace s') = io (trace s) /\ rw c = None /\
      0 <= port_lid (portinfo c) < 2 ^ 16 /\ (forall q, qp c = Some q -> 0 <= qp_num q < 2 ^ 32)).
Proof.
  unfold init_rdma_context, probe_port, clean_qp, clean_cq, clean_pd, clean_comp_channel,
    clean_device, clean_ctx.
  host_exec; intros c [= <-]; cbn [io trace]; rewrite ?app_nil_r;
    (split; [reflexivity|split; [reflexivity|]]); cbn [portinfo set_objects qp in_range snd] in *;
    (split; [assumption|intros ? [= <-]; assumption]).
Qed.

Lemma psn_range r : 0 <= psn_of r < 2 ^ 24.
Proof.
  unfold psn_of. change 16777215 with (Z.ones 24). rewrite Z.land_ones by lia.
  apply Z.mod_pos_bound. lia.
Qed.

Lemma my_info_wf ctx q g w psn :
  wf_locals -> 0 <= qp_num q < 2 ^ 32 -> 0 <= port_lid (portinfo ctx) < 2 ^ 16 -> wf_gid g ->
  0 <= psn < 2 ^ 24 ->
  (forall m, w = Some m -> 0 <= buf m < 2 ^ 47 /\ 0 <= Verbs.rkey (mr m) < 2 ^ 32) ->
  wf_info (my_info_of ctx q g w psn) /\ addr (my_info_of ctx q g w psn) < 10 ^ 16.
Proof.
  intros (_ & _ & _ & Hl & Hla) Hq Hlid Hg Hp Hw. destruct Hl as (? & ? & ? & ? & ? & ?).
  unfold wf_info, my_info_of. cbn [lid qpn ExchDest.psn ExchDest.rkey addr gid].
  destruct w as [m|]; [destruct (Hw m eq_refl)|]; repeat (split; try lia); apply Hg.
Qed.

(** The connection data is in range, describes the context, and is computed
    quietly. *)
Lemma prepare_info_run `{!HostEnv H} ctx q params s :
  wf_locals -> qp ctx = Some q -> 0 <= qp_num q < 2 ^ 32 ->
  0 <= port_lid (portinfo ctx) < 2 ^ 16 -> rw ctx = None ->
  if_returns (prepare_info ctx params) s (fun r s' =>
    forall c i, r = Some (c, i) ->
      quiet s s' /\ (wf_info i /\ addr i < 10 ^ 16) /\ 0 <= psn i < 2 ^ 24 /\ announces c i /\
      qp c = qp ctx /\ ib_port c = ib_port ctx /\ portinfo c = portinfo ctx).
Proof.
  intros Hl Hq Hqn Hlid Hrw. unfold prepare_info, alloc_window, rdma_reg_mr.
  assert (Hz : wf_gid zero_gid).
  { split; [reflexivity|]. apply Forall_replicate. unfold is_byte. lia. }
  cbn [qp set_page_size store_ctx]. rewrite Hq. cbn [deref].
  host_exec; try (intros ? ? [=]; fail); intros ctx2 info [= <- <-].
  all: split; [split; cbn [io accepted trace]; intros; rewrite ?app_nil_r; reflexivity|].
  all: split; [apply my_info_wf; auto using psn_range; try (intros m [= <-]; cbn; auto);
               try (subst; assumption); discriminate|].
  all: split; [apply psn_range|].
  all: split; [|auto]; unfold announces, my_info_of, set_page_size, set_rw, store_ctx;
    cbn [portinfo qp rw lid qpn addr ExchDest.rkey buf mr];
    split; [reflexivity|split; [intros ?; congruence|]]; try (rewrite Hrw; discriminate).
  all: intros w' [= <-]; auto.
Qed.

Lemma find_device_quiet devs name s : if_returns (find_device devs name) s (fun _ s' => quiet s s').
Proof.
  revert s. induction devs as [|d devs IH]; intros s; cbn [find_device]; exec; try quiet_tac.
  eapply if_returns_conseq; [apply IH|]; intros ? s' Hq; eapply quiet_trans; [|exact Hq]; quiet_tac.
Qed.

Fixpoint first_sent (ms : list message) : option (list Z) :=
  match ms with [] => None | Sent d :: _ => Some d | _ :: ms' => first_sent ms' end.

Fixpoint first_received (ms : list message) : option (list Z) :=
  match ms with [] => None | Received d :: _ => Some d | _ :: ms' => first_received ms' end.

(** The queue pair of [c] has been brought up towards the end point [peer]. *)
Definition plumbed (c : rdma_context) (tr : list event) (mine peer : info_con) : Prop :=
  exists q regs, qp c = Some q /\ qp_run reset_regs (accepted (qp_handle q) tr) regs /\
    q_state regs = IBV_QPS_RTS /\ q_dest_qpn regs = qpn peer /\ q_rq_psn regs = psn peer /\
    q_sq_psn regs = psn mine /\ dlid (q_av regs) = u16 (lid peer) /\
    q_access regs = [IBV_ACCESS_REMOTE_WRITE; IBV_ACCESS_REMOTE_READ].

(** The life of a queue pair that [create_context] brings up. *)
Lemma plumbed_intro c q port mtu sl mine peer gidx tr :
  qp c = Some q -> 0 <= psn mine < 2 ^ 24 ->
  accepted (qp_handle q) tr =
    (let rtr := rtr_attr port mtu sl peer gidx in
     [(init_qp_attr port, init_mask); (rtr, rtr_mask); (rts_attr rtr (psn mine), rts_mask)]) ->
  plumbed c tr mine peer.
Proof.
  intros Hq Hp E. exists q. eexists. split; [exact Hq|]. rewrite E.
  split; [apply run_regs_spec; reflexivity|].
  cbn. rewrite u32_small by lia. auto 10.
Qed.

(** What one successful [create_context] has said, heard and set up. *)
Definition endpoint (c : rdma_context) (tr : list event) : Prop :=
  exists mine peer d,
    wf_info mine /\ addr mine < 10 ^ 16 /\ announces c mine /\ remote_info c = Some peer /\
    plumbed c tr mine peer /\
    first_sent (io tr) = Some (wire mine) /\ first_received (io tr) = Some d /\
    (forall i, wf_info i -> addr i < 10 ^ 16 -> d = wire i -> peer = i).

Lemma endpoint_intro ctx c q port mtu sl gidx mine peer d rest tr :
  same_objects ctx c -> announces ctx mine -> qp ctx = Some q ->
  wf_info mine -> addr mine < 10 ^ 16 -> 0 <= psn mine < 2 ^ 24 ->
  io tr = Sent (wire mine) :: Received d :: rest \/ io tr = Received d :: Sent (wire mine) :: rest ->
  accepted (qp_handle q) tr =
    (let rtr := rtr_attr port mtu sl peer gidx in
     [(init_qp_attr port, init_mask); (rtr, rtr_mask); (rts_attr rtr (psn mine), rts_mask)]) ->
  (forall i, wf_info i -> addr i < 10 ^ 16 -> d = wire i -> peer = i) ->
  endpoint (set_remote_info c peer) tr.
Proof.
  intros (Eq & _ & Ep & Er) (Hlid & Hqn & Hw) Hq Hi Ha Hp Hio Hacc Hd.
  exists mine, peer, d. split; [exact Hi|]. split; [exact Ha|]. split.
  { unfold announces. cbn [portinfo qp rw set_remote_info store_ctx]. rewrite Ep, Eq, Er. auto. }
  split; [reflexivity|]. split; [eapply plumbed_intro; eauto|].
  { cbn [qp set_remote_info store_ctx]. rewrite Eq. exact Hq. }
  destruct Hio as [-> | ->]; auto.
Qed.

Lemma rdma_connect_ctx_io ctx port my_psn mtu sl dest sgid_idx s :
  if_returns (rdma_connect_ctx ctx port my_psn mtu sl dest sgid_idx) s
    (fun _ s' => io (trace s') = io (trace s)).
Proof. unfold rdma_connect_ctx. exec; cbn [io trace]; rewrite ?app_nil_r; reflexivity. Qed.

(** The exchange and the connection, from a context ready for them. *)
Lemma exchange_run hostname is_server params ctx q mine dl s :
  wf_locals -> wf_info mine -> addr mine < 10 ^ 16 -> 0 <= psn mine < 2 ^ 24 ->
  announces ctx mine -> qp ctx = Some q -> io (trace s) = [] ->
  accepted (qp_handle q) (trace s) = [(init_qp_attr (ib_port ctx), init_mask)] ->
  if_returns (exchange hostname is_server params dl ctx mine) s
    (fun r s' => forall c, r = Some c -> endpoint c (trace s')).
Proof.
  intros Hl Hi Ha Hp Hann Hq Hio Hacc. unfold exchange. apply if_returns_bind.
  destruct (is_server =? 0).
  - eapply if_returns_conseq; [apply rdma_client_exch_dest_run; assumption|].
    intros [[peer|] c] s5; [|intros _; exec; discriminate].
    intros Hx. destruct (Hx peer eq_refl) as (Hs & Hacc5 & d & rest & Hio5 & Hpeer).
    cbn [fst snd] in *. destruct (Hs) as (Eq & Eport & _). rewrite Hq in Eq.
    apply if_returns_bind. eapply if_returns_conseq; [apply if_returns_and;
      [eapply returns_if_returns, rdma_connect_ctx_run; exact Eq|apply rdma_connect_ctx_io]|].
    intros rc s6 [[[-> _]|[-> Hacc6]] Hio6]; [exec; discriminate|]. exec; [exfalso; lia|].
    intros c' [= <-]. eapply (endpoint_intro ctx c q (ib_port ctx) (p_mtu params) 0 (p_gidx params) mine peer d); eauto.
    + left. cbn [io trace]. rewrite app_nil_r, Hio6, Hio5, Hio. reflexivity.
    + cbn [accepted trace]. rewrite app_nil_r, Hacc6, Hacc5, Hacc. cbn [app].
      cbn [ib_port set_remote_info store_ctx]. rewrite Eport. reflexivity.
  - eapply if_returns_conseq; [apply rdma_server_exch_dest_run; eassumption|].
    intros [[peer|] c] s5; [|intros _; exec; discriminate].
    intros Hx. destruct (Hx peer eq_refl) as (Hs & Hacc5 & d & rest & Hio5 & Hpeer).
    cbn [fst snd] in *. exec; [exfalso; lia|]. intros c' [= <-]. eapply (endpoint_intro ctx c q (ib_port ctx) (p_mtu params) 0 (p_gidx params) mine peer d); eauto.
    + right. cbn [io trace]. rewrite app_nil_r, Hio5, Hio. reflexivity.
    + cbn [accepted trace]. rewrite app_nil_r, Hacc5, Hacc. reflexivity.
Qed.

Lemma create_context_run `{!HostEnv H} hostname is_server params s :
  wf_locals -> trace s = [] ->
  if_returns (create_context hostname is_server params) s (fun r s' =>
    forall c, r = Some c -> endpoint c (trace s')).
Proof.
  intros Hl H0. unfold create_context. apply if_returns_bind.
  eapply if_returns_conseq with (P := fun _ => quiet s); [exec; quiet_tac|].
  intros [[dl devs]|] s1 Q1; [|exec; discriminate].
  apply if_returns_bind. eapply if_returns_conseq with (P := fun _ => quiet s1);
    [destruct (p_ib_devname params); [apply find_device_quiet|exec; quiet_tac]|].
  intros dev s2 Q2. destruct (dev =? 0); [exec; discriminate|].
  apply if_returns_bind. eapply if_returns_conseq; [apply if_returns_and;
    [apply returns_if_returns, init_rdma_context_run|apply init_rdma_context_ranges]|].
  intros [ctx|] s3; [|intros _; exec; discriminate].
  intros [(Hwf & _ & Hacc) Hrng]. destruct (Hrng ctx eq_refl) as (Hio & Hrw & Hlid & Hqn).
  destruct Hwf as (_ & _ & _ & _ & _ & [q Hq]).
  apply if_returns_bind. eapply if_returns_conseq; [eapply prepare_info_run; eauto|].
  intros [[ctx' mine]|] s4; [|intros _; exec; discriminate].
  intros Hprep. destruct (Hprep _ _ eq_refl) as (Q4 & [Hi Ha] & Hpsn & Hann & Eq & Eport & Einfo).
  assert (Hs4 : io (trace s4) = [] /\ accepted (qp_handle q) (trace s4) =
                  [(init_qp_attr (ib_port ctx'), init_mask)]).
  { pose proof (quiet_trans _ _ _ Q1 Q2) as [Eio Eacc]. destruct Q4 as [E4 F4].
    rewrite E4, Hio, Eio, H0, F4, Hacc, Eacc, H0. unfold init_accepted.
    rewrite Hq, Z.eqb_refl, Eport. split; reflexivity. }
  destruct Hs4 as [Hio4 Hacc4]. rewrite Hq in Eq.
  eapply exchange_run; eauto.
Qed.
End RdmaConnect.

(** ** Properties *)

(** C1 Two hosts that connect end up connected to each other. Run
    [create_context] as the client on one host and as the server on the other,
    whatever their byte orders and whatever the two systems answer (within the
    ranges of the interface); if both return a context and the socket delivered
    each side's message to the other, then each context's [remote_info] is
    exactly the connection data of the other one (LID, queue pair number, packet
    sequence number, window address and key), and the two queue pairs have gone
    through a legal RESET-INIT-RTR-RTS run that leaves each one addressed to the
    other with matching packet sequence numbers and remote access enabled. *)
Theorem connected_pair {Wc Ws} (Ec : Env Wc) (Es : Env Ws) `{!HostEnv Ec} `{!HostEnv Es}
    ec es lc ls host pc ps sc ss cc cs sc' ss' :
  wf_locals lc -> wf_locals ls -> trace sc = [] -> trace ss = [] ->
  create_context (H := Ec) ec lc host 0 pc sc = (Ret (Some cc), sc') ->
  create_context (H := Es) es ls None 1 ps ss = (Ret (Some cs), ss') ->
  first_received (io (trace ss')) = first_sent (io (trace sc')) ->
  first_received (io (trace sc')) = first_sent (io (trace ss')) ->
  exists ic iv,
    announces cc ic /\ announces cs iv /\
    remote_info cc = Some iv /\ remote_info cs = Some ic /\
    plumbed cc (trace sc') ic iv /\ plumbed cs (trace ss') iv ic.
Proof.
  intros Hlc Hls Hc0 Hs0 Hc Hs Hcs Hsc.
  pose proof (if_returns_elim _ _ _ _ _ (create_context_run (H := Ec) ec lc host 0 pc sc Hlc Hc0)
    Hc cc eq_refl) as (ic & pc' & dc & Hwc & Hac & Hanc & Hrc & Hpc & Hsentc & Hrecc & Hgotc).
  pose proof (if_returns_elim _ _ _ _ _ (create_context_run (H := Es) es ls None 1 ps ss Hls Hs0)
    Hs cs eq_refl) as (iv & ps' & ds & Hws & Has & Hans & Hrs & Hps & Hsents & Hrecs & Hgots).
  assert (ps' = ic) by (apply Hgots; [assumption..|congruence]).
  assert (pc' = iv) by (apply Hgotc; [assumption..|congruence]).
  subst. exists ic, iv. auto 10.
Qed.

(** ** Witness: the two hosts in the scripted environment. *)

(** A script for the first 64 calls; later ones fail. *)
Definition first_calls (f : forall c : call, nat -> option (ret_of c)) : Env nat :=
  scripted (fun c n =>
    if (n <? 64)%nat then f c n
    else match c return option (ret_of c) with
         | memalign _ _ => Some 0
         | ibv_create_qp _ _ => Some None
         | ibv_reg_mr _ _ _ _ => Some None
         | _ => None
         end).

(** The peer's message is what the socket reads. *)
Definition hears (d : list Z) : forall c : call, nat -> option (ret_of c) :=
  fun c _ => match c return option (ret_of c) with sys_read _ _ => Some (86, d) | _ => None end.

#[export] Instance first_calls_host d : HostEnv (first_calls (hears d)).
Proof.
  intros c w. unfold first_calls, ext, scripted. cbn [fst].
  destruct (Nat.ltb_spec w 64); destruct c; cbn; try exact I; unfold fresh; try lia.
  all: split; [reflexivity|]; repeat (constructor; [unfold is_byte; lia|]); constructor.
Qed.

Definition sample_locals : locals :=
  {| l_msg := replicate 86 1; l_gid := replicate 33 1; l_v32 := 1; l_info := sample_info;
     l_remote := sample_info |}.

Definition sample_params (mem : Z) : init_params :=
  {| p_port := 0; p_ib_port := 0; p_gidx := 0; p_use_event := 1; p_rx_depth := 0; p_sockfd := 5;
     p_mem_size := mem; p_mtu := IBV_MTU_1024; p_ib_devname := None; p_sr := 0 |}.

Definition client_run (d : list Z) :=
  create_context (H := first_calls (hears d)) LittleEndian sample_locals (Some [49]) 0
    (default_params (sample_params 65536)) start.

Definition server_run (d : list Z) :=
  create_context (H := first_calls (hears d)) BigEndian sample_locals None 1
    (default_params (sample_params 0)) start.

Definition said (r : outcome (option rdma_context) * St nat) : list Z :=
  default [] (first_sent (io (trace (snd r)))).

Definition client_hello : list Z := Eval vm_compute in said (client_run (wire sample_info)).
Definition server_hello : list Z := Eval vm_compute in said (server_run client_hello).

Definition got (r : outcome (option rdma_context) * St nat) : rdma_context :=
  match fst r with Ret (Some c) => c | _ => zero_context 0 end.

Example connected_pair_witness :
  exists ic iv,
    remote_info (got (client_run server_hello)) = Some iv /\
    remote_info (got (server_run client_hello)) = Some ic /\
    announces (got (client_run server_hello)) ic /\ announces (got (server_run client_hello)) iv.
Proof.
  assert (Hl : wf_locals sample_locals).
  { refine (conj eq_refl (conj eq_refl (conj eq_refl (conj _ _)))); [|reflexivity].
    apply (sample_info_wf 140737353900032). lia. }
  destruct (connected_pair (first_calls (hears server_hello)) (first_calls (hears client_hello))
    LittleEndian BigEndian sample_locals sample_locals (Some [49])
    (default_params (sample_params 65536)) (default_params (sample_params 0)) start start
    (got (client_run server_hello)) (got (server_run client_hello))
    (snd (client_run server_hello)) (snd (server_run client_hello)) Hl Hl)
    as (ic & iv & Hc & Hs & Hr1 & Hr2 & _); try (vm_compute; reflexivity).
  exists ic, iv. auto.
Defined.
