(* ===== verification/Session.v ===== *)
(** debug/rdma_session.cpp: the session built on a connected context. Its
    buffers and their registration ([init], [reg_mem]), the exchange of the
    remote windows ([door], [start_rw], [start_remote]), sending ([send],
    [latency], [rdma], [bulk]), receiving ([post_recv], [query], [query_sr],
    [read]) and [close]. *)
From Stdlib Require Import String.
From coqutil Require Import Datatypes.RecordSetters.
From S2P Require Import Prelude CText Gid Verbs Mock HugePage ExchDest.
From S2P Require Import RdmaContext RdmaOps SessionRing RwExchange RdmaConnect.
Open Scope Z_scope.
Import DoubleBraceUpdate.

(** The fields of [class rdma_session]. The arrays [rkeys] and [raddrs] are one
    list of windows; an array holds the entries stored so far. *)
Record session := {
  s_ctx : option rdma_context;
  recv_mem : option (list (option rdma_mem)); send_mem : option rdma_mem;
  rw_mem : option (list (option rdma_mem));
  wc : list ibv_wc; send_wc : list ibv_wc; windows : list window;
  s_rbuf : Z; sbuf : Z; qbuf : Z; qmem : list Z; p_rkeys : Z; p_raddrs : Z;
  rwbuf : Z; rwbuf_size : Z; rdma_index : Z; slices : Z; rdma_gap : Z;
  maxCQE : Z; s_recv_index : Z; s_recv_nums : Z; posted_recv : Z; s_gap : Z;
  rbuf_size : Z; qbuf_size : Z; sbuf_size : Z; flag : Z }.

Definition zero_params : init_params :=
  {| p_port := 0; p_ib_port := 0; p_gidx := 0; p_use_event := 0; p_rx_depth := 0; p_sockfd := 0;
     p_mem_size := 0; p_mtu := IBV_MTU_256; p_ib_devname := None; p_sr := 0 |}.

Section Session.
Context {W : Type} `{Env W} (fuel : nat).

(** [reg_mem(void* buf, size_t size)] and [set_mem]. *)
Definition reg_buf (s : session) (p size : Z) : M (St W) (option rdma_mem) :=
  let* c := deref (s_ctx s) in rdma_reg_mr c p size.

Definition set_mem (s : session) (p size : Z) : M (St W) (option rdma_mem) := reg_buf s p size.

(** The loop over the receive buffers; [inl]: stopped at a failed registration. *)
Fixpoint reg_recv (n : nat) (s : session) (i : Z) (acc : list (option rdma_mem))
  : M (St W) (list (option rdma_mem) + list (option rdma_mem)) :=
  match n with
  | O => ret (inr acc)
  | S n' =>
      let* m := reg_buf s (s_rbuf s + s_gap s * i) (s_gap s) in
      match m with
      | None => ret (inl (acc ++ [None]))
      | Some m => reg_recv n' s (i + 1) (acc ++ [Some m])
      end
  end.

Definition reg_mem (s : session) (size : Z) : M (St W) session :=
  let s := s{{s_recv_index := 0}} in
  let* p := sys (malloc (Bytes (8 * s_recv_nums s))) in
  if p =? 0 then ret (s{{recv_mem := None}}) else
  let s := s{{recv_mem := Some nil}} in
  sys sys_page_size ;;;
  let* rb := malloc_huge_pages (u64 (size * s_recv_nums s)) in
  let s := s{{s_rbuf := rb}} in
  if rb =? 0 then ret s else
  let* r := reg_recv (Z.to_nat (s_recv_nums s)) s 0 [] in
  match r with
  | inl ms => sys (free rb) ;;; ret (s{{recv_mem := Some ms}})
  | inr ms =>
      let s := s{{recv_mem := Some ms}} in
      let* sb := malloc_huge_pages (s_gap s) in
      let s := s{{sbuf := sb}} in
      if sb =? 0 then ret s else
      let* m := reg_buf s sb (s_gap s) in
      let s := s{{send_mem := m}} in
      match m with
      | None => rdma_dereg_mr None ;;; ret s
      | Some _ => ret s
      end
  end.

(** [send] of a task. *)
Definition send_task (s : session) (t : rdma_task) : M (St W) Z :=
  let* c := deref (s_ctx s) in rdma_post_send c t.

(** [send(const char*, size_t)]: the copy into the registered buffer must fit;
    a [size] above [gap] is only reported. *)
Definition send_buf (s : session) (data : list Z) : M (St W) Z :=
  let* m := deref (send_mem s) in
  if RdmaContext.size m <? zlen data then undef else
  sys (mem_store (buf m) data) ;;;
  send_task s {| mem := Some m; opcode := IBV_WR_SEND; tsize := zlen data; trkey := 0;
                 remote_addr := 0; tid := 65 |}.

(** [send(size_t)]. *)
Definition send_size (s : session) (size : Z) : M (St W) Z :=
  if size =? 0 then ret 0 else
  send_task s {| mem := send_mem s; opcode := IBV_WR_SEND; tsize := size; trkey := 0;
                 remote_addr := 0; tid := 222 |}.

Definition query_send (s : session) : M (St W) (Z * session) :=
  let* c := deref (s_ctx s) in
  let* (r, w) := rdma_query_cq fuel c (send_wc s) (maxCQE s) 1 in
  ret (r, s{{send_wc := w}}).

Definition query_recv (s : session) (num fl : Z) : M (St W) (Z * session) :=
  let* c := deref (s_ctx s) in
  let* (r, w) := rdma_query_cq fuel c (wc s) num fl in
  ret (r, s{{wc := w}}).

(** [latency]. *)
Definition latency (s : session) (size : Z) : M (St W) (Z * session) :=
  if s_gap s <? size then ret (-1, s) else
  let* r := send_size s size in
  if negb (r =? 0) then ret (r, s) else
  let* (ack, s) := query_send s in
  if ack =? -1 then ret (-1, s) else ret (0, s).

(** [rdma]: one remote write of a whole region, to the next window. *)
Definition rdma_step (s : session) (m : option rdma_mem) : M (St W) (Z * session) :=
  let* m := deref m in
  let* w := deref (if rdma_index s <? 0 then None else windows s !! Z.to_nat (rdma_index s)) in
  if slices s =? 0 then undef else
  let s' := s{{rdma_index := Z.rem (rdma_index s + 1) (slices s)}} in
  let* r := send_task s' {| mem := Some m; opcode := IBV_WR_RDMA_WRITE;
                            tsize := RdmaContext.size m; trkey := w_rkey w;
                            remote_addr := w_addr w; tid := 233 |} in
  if negb (r =? 0) then ret (-1, s') else ret (0, s').

(** The registration loop of [bulk]: [while (cursor < size)]; [inl]: [return -1]. *)
Fixpoint bulk_reg (n : nat) (s : session) (ptr cursor size : Z)
  : M (St W) (option (list rdma_mem)) :=
  match n with
  | O => out_of_fuel
  | S n' =>
      if cursor <? size then
        let len := if rdma_gap s <=? size - cursor then rdma_gap s else size - cursor in
        let* m := reg_buf s (ptr + cursor) len in
        match m with
        | None => ret None
        | Some m =>
            let* ms := bulk_reg n' s ptr (cursor + len) size in
            ret (match ms with Some ms => Some (m :: ms) | None => None end)
        end
      else ret (Some [])
  end.

(** [for (i = 0; i < num; ++i) { r = rdma(bulk_mems[i]); ... }]. *)
Fixpoint bulk_post (s : session) (ms : list rdma_mem) : M (St W) (bool * session) :=
  match ms with
  | [] => ret (true, s)
  | m :: ms' =>
      let* (r, s) := rdma_step s (Some m) in
      if negb (r =? 0) then ret (false, s) else bulk_post s ms'
  end.

(** [while (ack != num)]. *)
Fixpoint bulk_ack (n : nat) (s : session) (ack num : Z) : M (St W) (bool * session) :=
  match n with
  | O => out_of_fuel
  | S n' =>
      if ack =? num then ret (true, s) else
      let* (tmp, s) := query_send s in
      if tmp =? -1 then ret (false, s) else bulk_ack n' s (ack + tmp) num
  end.

Fixpoint bulk_dereg (ms : list rdma_mem) : M (St W) bool :=
  match ms with
  | [] => ret true
  | m :: ms' =>
      let* r := rdma_dereg_mr (Some m) in
      if negb (r =? 0) then ret false else bulk_dereg ms'
  end.

Definition bulk_num (s : session) (size : Z) : Z :=
  let num := size / rdma_gap s + 1 in
  if size mod rdma_gap s =? 0 then num - 1 else num.

(** [bulk(iptr, size)]; [rdma_gap] is the positive constant [init] stores. *)
Definition bulk (s : session) (iptr size : Z) : M (St W) (Z * session) :=
  let num := bulk_num s size in
  let* p := sys (malloc (Bytes (8 * num))) in
  if (p =? 0) && (0 <? size) then undef else
  let* ms := bulk_reg (S (Z.to_nat num)) s iptr 0 size in
  match ms with
  | None => ret (-1, s)
  | Some ms =>
      let* (ok, s) := bulk_post s ms in
      if negb ok then ret (-1, s) else
      let* (ok, s) := bulk_ack fuel s 0 num in
      if negb ok then ret (-1, s) else
      let* ok := bulk_dereg ms in
      if negb ok then ret (-1, s) else
      sys (free p) ;;; ret (0, s)
  end.

(** [post_recv]: the loop, from [i]; the result is [r] and the final [i]. *)
Fixpoint post_recv_loop (n : nat) (s : session) (i nums : Z) : M (St W) (Z * Z) :=
  match n with
  | O => out_of_fuel
  | S n' =>
      if (i <? 16000) && (i <? nums) then
        let* c := deref (s_ctx s) in
        let* slots := deref (recv_mem s) in
        if s_recv_nums s =? 0 then undef else
        let* m := deref (slots !! Z.to_nat (Z.rem i (s_recv_nums s))) in
        let* r := rdma_post_recv c
          {| mem := m; opcode := IBV_WR_RDMA_WRITE; tsize := 0; trkey := 0; remote_addr := 0;
             tid := 666 |} in
        if negb (r =? 0) then ret (r, i) else post_recv_loop n' s (i + 1) nums
      else ret (0, i)
  end.

Definition post_recv (s : session) (nums : Z) : M (St W) (Z * session) :=
  let* (r, i) := post_recv_loop (S (Z.to_nat nums)) s 0 nums in
  if negb (r =? 0) then ret (r, s)
  else ret (0, s{{posted_recv := i32 (posted_recv s + i)}}).

(** The completions with the identifier of a receive request. *)
Fixpoint count_recv (n : nat) (w : list ibv_wc) : option Z :=
  match n, w with
  | O, _ => Some 0
  | S n', c :: w' => k ← count_recv n' w'; Some (k + if wc_wr_id c =? 666 then 1 else 0)
  | S _, [] => None
  end.

(** [query]: the flag it passes is 3. *)
Definition query (s : session) (num : Z) : M (St W) (Z * session) :=
  let* (r, s) := query_recv s num 3 in
  if 0 <? r then
    let* k := deref (count_recv (Z.to_nat r) (wc s)) in
    ret (r, s{{posted_recv := i32 (posted_recv s - k)}})
  else ret (r, s).

(** The loop of [query_sr]; answers [qbuf]'s contents and [cnt]. It gives the 32-bit
    [byte_len] to a ["%ld"], which fetches a [long]; C does not define what that is:
    [va_long] is what the call fetches for the argument. *)
Fixpoint query_sr_loop (va_long : Z -> Z) (n : nat) (w : list ibv_wc) (cur cnt : Z) (q : list Z)
  : option (list Z * Z) :=
  match n, w with
  | O, _ => Some (q, cnt)
  | S n', c :: w' =>
      if wc_wr_id c =? 666 then
        q' ← sprintf q cur "%ld" [AInt (va_long (wc_byte_len c))];
        query_sr_loop va_long n' w' (cur + 8) (cnt + 1) q'
      else query_sr_loop va_long n' w' cur cnt q
  | S _, [] => None
  end.

Definition query_sr (va_long : Z -> Z) (s : session) : M (St W) (Z * session) :=
  let* q := deref (buf_write 0 (replicate (Z.to_nat (qbuf_size s)) 0) (qmem s)) in
  let* (r, s) := query_recv s (maxCQE s) 2 in
  if 0 <? r then
    let* (q, cnt) := deref (query_sr_loop va_long (Z.to_nat r) (wc s) 0 0 q) in
    ret (cnt, s{{qmem := q}})
  else ret (0, s{{qmem := q}}).

(** [recv_mem[i]->buf], up to the first entry that is NULL. *)
Fixpoint slot_addrs (ms : list (option rdma_mem)) : list Z :=
  match ms with Some m :: ms' => buf m :: slot_addrs ms' | _ => [] end.

(** [read]: the completions, then the copies out of the ring, whose contents the
    adapter has written. The ring is loaded as a whole, before the copies, where
    the code reads of it only what it copies. *)
Definition read (s : session) (dest : list Z) : M (St W) (Z * list Z * session) :=
  let* (done, s) := query s (maxCQE s) in
  let* slots := deref (recv_mem s) in
  let* bytes := sys (mem_load (s_rbuf s) (s_recv_nums s * s_gap s)) in
  let r := {| recv_nums := s_recv_nums s; gap := s_gap s; rbuf := s_rbuf s; rmem := bytes;
              bufs := slot_addrs slots |} in
  let* (size, dest, idx) :=
    deref (read_body r (s_recv_index s) (map wc_byte_len (take (Z.to_nat done) (wc s))) dest) in
  ret (size, dest, s{{s_recv_index := idx}}).

(** [close]. *)
Fixpoint dereg_all (ms : list (option rdma_mem)) : M (St W) bool :=
  match ms with
  | [] => ret true
  | m :: ms' =>
      let* r := rdma_dereg_mr m in
      if negb (r =? 0) then ret false else dereg_all ms'
  end.

(** The first [n] entries of an array that may be NULL. *)
Definition dereg_array (a : option (list (option rdma_mem))) (n : Z) : M (St W) bool :=
  match a with
  | None => ret true
  | Some ms => if zlen ms <? n then dereg_all ms ;;; undef else dereg_all (take (Z.to_nat n) ms)
  end.

Definition dereg_opt (m : option rdma_mem) : M (St W) bool :=
  match m with
  | None => ret true
  | Some m => let* r := rdma_dereg_mr (Some m) in ret (r =? 0)
  end.

Definition close (s : session) : M (St W) Z :=
  let* ok := dereg_array (recv_mem s) (s_recv_nums s) in
  if negb ok then ret (-1) else
  let* ok := dereg_opt (send_mem s) in
  if negb ok then ret 1 else
  let* ok := dereg_array (rw_mem s) (slices s) in
  if negb ok then ret (-1) else
  let* c := deref (s_ctx s) in
  let* ok := dereg_opt (rw c) in
  if negb ok then ret (-1) else
  sys (free (s_rbuf s)) ;;;
  sys (free (sbuf s)) ;;;
  sys (free (qbuf s)) ;;;
  sys (free (p_rkeys s)) ;;;
  sys (free (p_raddrs s)) ;;;
  free_huge_pages (rwbuf s) ;;;
  rdma_close_ctx c.

(** The window regions of [start_rw]: [for (cur = 0; cur < rwbuf_size; cur += slice)]. *)
Fixpoint reg_windows (n : nat) (s : session) (ptr cur slice : Z)
  : M (St W) (list (option rdma_mem)) :=
  match n with
  | O => out_of_fuel
  | S n' =>
      if cur <? rwbuf_size s then
        let* m := reg_buf s (ptr + cur) slice in
        let* ms := reg_windows n' s ptr (i32 (cur + slice)) slice in
        ret (m :: ms)
      else ret []
  end.

Definition window_of (m : option rdma_mem) : option window :=
  m ← m; Some {| w_addr := mr_addr (mr m); w_rkey := Verbs.rkey (mr m) |}.

(** [start_rw]; [junk] is what the stack array [data] holds at first. *)
Definition start_rw (junk : list Z) (s : session) : M (St W) session :=
  let s := s{{rwbuf_size := 1024 * 1024 * 1024}} in
  let slice := 2 * 1024 * 1024 in
  let num := rwbuf_size s / slice in
  let s := s{{slices := num}} in
  let* p := malloc_huge_pages (rwbuf_size s) in
  let s := s{{rwbuf := p}} in
  let* arr := sys (malloc (Bytes (8 * num))) in
  if arr =? 0 then undef else
  let* ms := reg_windows (S (Z.to_nat num)) s p 0 slice in
  let s := s{{rw_mem := Some ms}} in
  let* ws := deref (mapM window_of ms) in
  let* data := deref (rw_data junk ws) in
  send_buf s data ;;;
  let* (_, s) := query_send s in
  ret s.

(** [start_remote(len)]; [tmp] and [fresh] are the initial contents of the stack
    array and of the two allocated arrays. *)
Definition start_remote (tmp : list Z) (fresh : window) (s : session) (len : Z)
  : M (St W) session :=
  let s := s{{s_recv_index := i32 (s_recv_index s + 1)}} in
  let num := len / 25 in
  let* k := sys (malloc (Bytes (4 * num))) in
  let* a := sys (malloc (Bytes (8 * num))) in
  let s := s{{p_rkeys := k; p_raddrs := a}} in
  if ((k =? 0) || (a =? 0)) && (0 <? num) then undef else
  let* bytes := sys (mem_load (s_rbuf s) (s_recv_nums s * s_gap s)) in
  let* ws := deref (remote_loop bytes 0 (take 25 tmp) (replicate (Z.to_nat num) fresh)) in
  ret (s{{windows := ws}}).

Definition door (junk tmp : list Z) (fresh : window) (s : session) : M (St W) session :=
  let wc0 s := match wc s with c :: _ => Some (wc_byte_len c) | [] => None end in
  if flag s =? 1 then
    let* s := start_rw junk s in
    let* (_, s) := query_recv s (maxCQE s) 2 in
    let* len := deref (wc0 s) in
    start_remote tmp fresh s len
  else
    let* (_, s) := query_recv s (maxCQE s) 2 in
    let* len := deref (wc0 s) in
    let* s := start_remote tmp fresh s len in
    start_rw junk s.

(** [new ibv_wc[n]]: exhausted memory throws, which nothing catches. *)
Definition new_wc (n : Z) (junk : ibv_wc) : M (St W) (list ibv_wc) :=
  let* p := sys (malloc (Sizeof "ibv_wc[]")) in
  c_assert (negb (p =? 0)) ;;; ret (replicate (Z.to_nat n) junk).

Definition init (junk tmp : list Z) (fresh : window) (junk_wc : ibv_wc) (s : session)
  : M (St W) session :=
  let s := s{{s_recv_nums := 1024; maxCQE := 1024; s_gap := 32 * 1024; rdma_index := 0;
              rdma_gap := 2 * 1024 * 1024; sbuf_size := 32 * 1024;
              rbuf_size := 1024 * (32 * 1024)}} in
  let* s := reg_mem s (s_gap s) in
  let* (_, s) := post_recv s 16000 in
  let* w := new_wc (maxCQE s) junk_wc in
  let* sw := new_wc (maxCQE s) junk_wc in
  let s := s{{wc := w; send_wc := sw; qbuf_size := 8 * 1024}} in
  let* q := sys (malloc (Bytes (qbuf_size s))) in
  let s := s{{qbuf := q; qmem := if q =? 0 then nil else take (Z.to_nat (qbuf_size s)) junk}} in
  door junk tmp fresh s.

(** The two constructors; [uninit] is the object before its initialisation. *)
Definition new_server_session (junk tmp : list Z) (fresh : window) (junk_wc : ibv_wc)
    (uninit : session) (ictx : option rdma_context) : M (St W) session :=
  init junk tmp fresh junk_wc (uninit{{s_ctx := ictx; flag := 1}}).

Definition new_client_session (e : endian) (l : locals) (junk tmp : list Z) (fresh : window)
    (junk_wc : ibv_wc) (uninit : session) (hostname : list Z) (params : init_params)
  : M (St W) session :=
  let* (c, _) := rdma_socket_p e l (Some hostname) 0 params in
  init junk tmp fresh junk_wc (uninit{{s_ctx := c}}).

(** debug/rdma_portal.cpp, [accept]: the port asked for is not used; NULL
    parameters are replaced by zeroed ones. *)
Definition accept (e : endian) (l : locals) (junk tmp : list Z) (fresh : window)
    (junk_wc : ibv_wc) (uninit : session) (port : Z) (params : option init_params)
  : M (St W) (session * Z) :=
  let* sockfd := open_server 18185 in
  let* params := match params with
                 | Some p => ret p
                 | None =>
                     let* p := sys (calloc 1 (Sizeof "init_params")) in
                     if p =? 0 then undef else ret zero_params
                 end in
  let params := params{{p_sockfd := sockfd}} in
  let* (ctx, _) := rdma_socket_p e l None 1 params in
  let* s := new_server_session junk tmp fresh junk_wc uninit ctx in
  ret (s, sockfd).
End Session.

(** ** What the operations did *)

Section SessionSpec.
Context {W : Type} `{Env W}.

(** The request [post_recv] makes for a slot, and for its [i]th turn. *)
Definition slot_wr (m : rdma_mem) : ibv_recv_wr :=
  {| rw_id := 666;
     rw_sg_list := [{| sge_addr := buf m; sge_length := u32 (RdmaContext.size m);
                       sge_lkey := lkey (mr m) |}] |}.

Definition slot_call (h : Z) (s : session) (slots : list (option rdma_mem)) (i : nat) : option call :=
  m ← slots !! Z.to_nat (Z.of_nat i mod s_recv_nums s);
  m ← m; Some (ibv_post_recv h (slot_wr m)).

Definition slots_ready (s : session) (slots : list (option rdma_mem)) : Prop :=
  recv_mem s = Some slots /\ 0 < s_recv_nums s <= zlen slots /\ Forall is_Some slots.

Lemma slot_ready s slots i :
  slots_ready s slots -> exists m, slots !! Z.to_nat (Z.of_nat i mod s_recv_nums s) = Some (Some m).
Proof.
  intros (_ & Hn & Hs). destruct (lookup_lt_is_Some_2 slots (Z.to_nat (Z.of_nat i mod s_recv_nums s)))
    as [o Ho].
  { pose proof (Z.mod_pos_bound (Z.of_nat i) (s_recv_nums s)). unfold zlen in Hn. lia. }
  destruct (proj1 (Forall_lookup _ _) Hs _ _ Ho) as [m ->]. eauto.
Qed.

Lemma post_recv_loop_run s c q slots nums :
  s_ctx s = Some c -> qp c = Some q -> slots_ready s slots ->
  forall n i st, (Z.to_nat (Z.min nums 16000) - i < n)%nat ->
  (i <= Z.to_nat (Z.min nums 16000))%nat ->
  returns (post_recv_loop n s (Z.of_nat i) nums) st (fun r st' => exists k evs,
    trace st' = rev evs ++ trace st /\
    Forall2 (fun ev j => slot_call (qp_handle q) s slots j = Some (ev_call ev)) evs (seq i k) /\
    (fst r = 0 -> (i + k)%nat = Z.to_nat (Z.min nums 16000) /\ snd r = Z.max 0 (Z.min nums 16000)) /\
    (fst r <> 0 -> (0 < k)%nat /\ (i + k <= Z.to_nat (Z.min nums 16000))%nat)).
Proof.
  intros Hc Hq Hs. destruct (Hs) as (Hrm & Hn & _).
  induction n as [|n IH]; intros i st Hni Hi; [lia|]. cbn [post_recv_loop].
  destruct (Z.ltb_spec (Z.of_nat i) 16000); cbn [andb].
  2:{ apply returns_ret. exists 0%nat, []. split; [reflexivity|]. split; [constructor|].
      cbn [fst snd]. split; lia. }
  destruct (Z.ltb_spec (Z.of_nat i) nums).
  2:{ apply returns_ret. exists 0%nat, []. split; [reflexivity|]. split; [constructor|].
      cbn [fst snd]. split; lia. }
  rewrite Hc, Hrm. apply returns_bind, returns_ret, returns_bind, returns_ret.
  rewrite (proj2 (Z.eqb_neq (s_recv_nums s) 0)) by lia. rewrite Z.rem_mod_nonneg by lia.
  destruct (slot_ready s slots i Hs) as [m Hm]. rewrite Hm. apply returns_bind, returns_ret, returns_bind.
  unfold rdma_post_recv. cbn [mem tid deref]. apply returns_bind, returns_ret. rewrite Hq.
  apply returns_bind, returns_ret, (returns_sys (ibv_post_recv (qp_handle q) (slot_wr m))). intros r w _.
  assert (Hcall : slot_call (qp_handle q) s slots i = Some (ibv_post_recv (qp_handle q) (slot_wr m)))
    by (unfold slot_call; rewrite Hm; reflexivity).
  destruct (Z.eqb_spec r 0) as [->|Hr]; cbn [negb].
  - replace (Z.of_nat i + 1) with (Z.of_nat (S i)) by lia.
    eapply returns_conseq; [apply IH; lia|]. intros r st' (k & evs & Ht & Hev & Hok & Hbad).
    exists (S k), (Ev (ibv_post_recv (qp_handle q) (slot_wr m)) 0 :: evs). split.
    { rewrite Ht. cbn [rev trace]. rewrite <- app_assoc. reflexivity. }
    split; [constructor; [exact Hcall|exact Hev]|]. split; intros Hz; [|apply Hbad in Hz; lia].
    apply Hok in Hz. lia.
  - apply returns_ret. exists 1%nat, [Ev (ibv_post_recv (qp_handle q) (slot_wr m)) r].
    split; [reflexivity|]. split; [repeat constructor; exact Hcall|]. cbn [fst snd]. split; lia.
Qed.

(** ** Properties *)

(** C29 [post_recv(nums)] posts one receive request per turn, for at most 16000
    turns, handing out the buffers of the ring cyclically from the first one on:
    on success exactly [min(nums, 16000)] requests were made and [posted_recv]
    grew by that number; on the first refusal the adapter's code is returned and
    the counter is unchanged. *)
Theorem post_recv_slots s c q slots nums st :
  s_ctx s = Some c -> qp c = Some q -> slots_ready s slots -> 0 <= nums ->
  returns (post_recv s nums) st (fun r st' => exists k evs,
    trace st' = rev evs ++ trace st /\
    Forall2 (fun ev j => slot_call (qp_handle q) s slots j = Some (ev_call ev)) evs (seq 0 k) /\
    (fst r = 0 -> Z.of_nat k = Z.min nums 16000 /\
                  snd r = s{{posted_recv := i32 (posted_recv s + Z.of_nat k)}}) /\
    (fst r <> 0 -> 0 < Z.of_nat k <= Z.min nums 16000 /\ snd r = s)).
Proof.
  intros Hc Hq Hs Hnums. unfold post_recv. apply returns_bind. eapply returns_conseq.
  { apply (post_recv_loop_run s c q slots nums Hc Hq Hs _ 0); lia. }
  intros [r i] st1 (k & evs & Ht & Hev & H1 & H2). cbn [fst snd] in *.
  destruct (Z.eqb_spec r 0) as [->|Hr]; cbn [negb]; apply returns_ret; exists k, evs;
    (split; [exact Ht|]); (split; [exact Hev|]); cbn [fst snd]; (split; intros Hz; [|try lia]).
  - destruct (H1 eq_refl) as [Hk Hki]. split; [lia|]. replace i with (Z.of_nat k) by lia. reflexivity.
  - contradiction.
  - apply H2 in Hz. split; [lia|reflexivity].
Qed.

(** [read] returns 0 at once: [query] passes an invalid flag. *)
Lemma read_run fuel s c slots dest st :
  s_ctx s = Some c -> recv_mem s = Some slots ->
  0 <= s_recv_index s < s_recv_nums s -> s_recv_nums s <= zlen (slot_addrs slots) ->
  returns (read fuel s dest) st (fun r st' =>
    r = (0, dest, s) /\
    map ev_call (trace st') = mem_load (s_rbuf s) (s_recv_nums s * s_gap s) :: map ev_call (trace st)).
Proof.
  intros Hc Hrm Hi Hlen. unfold read, query, query_recv, rdma_query_cq. rewrite Hc.
  change ((3 =? 1) || (3 =? 2)) with false. cbn [deref].
  apply returns_bind, returns_bind, returns_bind, returns_ret, returns_bind, returns_ret, returns_ret.
  change (0 <? -1) with false. apply returns_ret.
  assert (Hw : forall w, wc s = w -> s{{wc := w}} = s) by (intros w <-; destruct s; reflexivity).
  rewrite (Hw _ eq_refl). clear Hw.
  rewrite Hrm. apply returns_bind, returns_ret, returns_bind, returns_sys. intros bytes w _.
  destruct (lookup_lt_is_Some_2 (slot_addrs slots) (Z.to_nat (s_recv_index s))) as [a Ha];
    [unfold zlen in Hlen; lia|].
  unfold read_body, buf_addr. cbn [bufs].
  destruct (Z.ltb_spec (s_recv_index s) 0); [lia|]. rewrite Ha. cbn [mbind option_bind].
  change (Z.to_nat (-1)) with 0%nat. rewrite firstn_O. cbn [map read_loop mbind option_bind]. unfold read_tail.
  cbn [full Z.eqb negb mbind option_bind rsize SessionRing.dest recv_index recv_nums].
  apply returns_bind, returns_ret, returns_ret. rewrite Z.add_0_r, Z.rem_small by lia.
  split; [|reflexivity]. do 2 f_equal. destruct s; reflexivity.
Qed.
(** C32 [read] never delivers anything: [query] passes the flag 3, which
    [rdma_query_cq] rejects, so the count of completions is -1 whatever has
    arrived; the queue is not even polled, the destination is left as it was and
    the returned size is 0. *)
Theorem read_never_delivers fuel s c slots dest st :
  s_ctx s = Some c -> recv_mem s = Some slots ->
  0 <= s_recv_index s < s_recv_nums s -> s_recv_nums s <= zlen (slot_addrs slots) ->
  returns (read fuel s dest) st (fun r st' =>
    r = (0, dest, s) /\
    map ev_call (trace st') = mem_load (s_rbuf s) (s_recv_nums s * s_gap s) :: map ev_call (trace st)).
Proof. apply read_run. Qed.
End SessionSpec.

(** ** The byte counts [query_sr] leaves in [qbuf] *)

Definition recv_lens (w : list ibv_wc) : list Z :=
  map wc_byte_len (filter (fun c => wc_wr_id c = 666) w).

Lemma sprintf_ld q cur v :
  0 <= v < 10 ^ 7 -> sprintf q cur "%ld" [AInt v] = buf_write cur (print_uint 10 v ++ [0]) q.
Proof.
  intros Hv. unfold sprintf, sprintf_text.
  change (format _) with (Some [DConv false None true CvD]). cbn -[print_uint i64 buf_write].
  unfold i64. rewrite Z.mod_small by lia. destruct (Z.ltb_spec v (2 ^ 63)); [|lia].
  destruct (Z.ltb_spec v 0); [lia|]. rewrite app_nil_r, pad_no_width. reflexivity.
Qed.

Lemma query_sr_loop_run va_long w :
  (forall v, 0 <= v < 10 ^ 7 -> va_long v = v) ->
  forall k cnt q, Forall (fun c => 0 <= wc_byte_len c < 10 ^ 7) w ->
  8 * (Z.of_nat k + zlen w) <= zlen q ->
  exists q', query_sr_loop va_long (length w) w (8 * Z.of_nat k) cnt q
             = Some (q', cnt + zlen (recv_lens w)) /\
    zlen q' = zlen q /\ take (8 * k) q' = take (8 * k) q /\
    drop (8 * (k + length (recv_lens w))) q' = drop (8 * (k + length (recv_lens w))) q /\
    forall i v, recv_lens w !! i = Some v -> c_string (drop (8 * (k + i)) q') = Some (print_uint 10 v).
Proof.
  intros Hva. induction w as [|c w IH]; intros k cnt q Hw Hq; cbn [length query_sr_loop].
  - exists q. rewrite Z.add_0_r. split; [reflexivity|]. split; [reflexivity|].
    split; [reflexivity|]. split; [reflexivity|]. intros i v Hi. destruct i; discriminate Hi.
  - apply Forall_cons_iff in Hw as [Hc Hw]. rewrite zlen_cons in Hq. unfold recv_lens. cbn [filter list_filter].
    destruct (Z.eqb_spec (wc_wr_id c) 666) as [E|E].
    + rewrite decide_True by exact E. cbn [map]. fold (recv_lens w).
      rewrite Hva, sprintf_ld by exact Hc. set (t := print_uint 10 (wc_byte_len c) ++ [0]).
      assert (Ht : zlen t <= 8).
      { subst t. rewrite zlen_app. change (zlen [0]) with 1.
        pose proof (print_uint_zlen 10 (wc_byte_len c) 7). lia. }
      pose proof (zlen_nonneg w) as Hw0. pose proof (zlen_nonneg t) as Ht0.
      destruct (buf_write (8 * Z.of_nat k) t q) as [q1|] eqn:Eq.
      2:{ exfalso. assert (Hb : exists b, buf_write (8 * Z.of_nat k) t q = Some b)
            by (eexists; apply buf_write_Some; split; [lia|reflexivity]).
          destruct Hb; congruence. }
      pose proof (buf_write_zlen _ _ _ _ Eq) as Hz1. pose proof Eq as Eq'.
      apply buf_write_Some in Eq as [_ Eq]. cbn [mbind option_bind].
      destruct (IH (S k) (cnt + 1) q1 Hw ltac:(rewrite Hz1; lia)) as (q' & El & Hz & Htake & Hdrop & Hi).
      replace (8 * Z.of_nat k + 8) with (8 * Z.of_nat (S k)) by lia. exists q'. split.
      { rewrite El, zlen_cons, Z.add_assoc. reflexivity. }
      split; [lia|]. split.
      { replace (8 * k)%nat with (Nat.min (8 * k) (8 * S k)) by lia.
        rewrite <- !take_take, Htake, Eq, !take_take.
        replace (Nat.min (8 * k) (8 * S k)) with (8 * k)%nat by lia.
        rewrite take_app_le by (rewrite length_take; unfold zlen in *; lia).
        rewrite take_take. f_equal. lia. }
      split.
      { cbn [length]. change (map wc_byte_len (filter (fun c0 => wc_wr_id c0 = 666) w)) with (recv_lens w).
        replace (k + S (length (recv_lens w)))%nat with (S k + length (recv_lens w))%nat by lia.
        rewrite Hdrop. unfold zlen in *.
        replace (8 * (S k + length (recv_lens w)))%nat with
          (length (take (Z.to_nat (8 * Z.of_nat k)) q ++ t) +
           (8 * (S k + length (recv_lens w)) - length (take (Z.to_nat (8 * Z.of_nat k)) q ++ t)))%nat at 1
          by (rewrite length_app, length_take; lia).
        rewrite <- drop_drop, Eq, app_assoc, drop_app_length, drop_drop. f_equal.
        rewrite length_app, length_take. lia. }
      intros [|i] v Hv.
      * injection Hv as <-. rewrite Nat.add_0_r.
        assert (Hslot : exists r, drop (8 * k) q' = t ++ r).
        { exists (drop (8 * k + length t) q').
          rewrite <- (take_drop (length t) (drop (8 * k) q')), drop_drop. f_equal.
          rewrite <- (take_drop (8 * S k) q'), Htake.
          rewrite drop_app_le, take_app_le by
            (rewrite ?length_drop, ?length_take; unfold zlen in *; lia).
          rewrite skipn_firstn_comm, take_take, Eq.
          replace (Nat.min (length t) (8 * S k - 8 * k)) with (length t) by (unfold zlen in *; lia).
          rewrite drop_app_ge by (rewrite length_take; unfold zlen in *; lia).
          rewrite length_take.
          replace (8 * k - _)%nat with 0%nat by (unfold zlen in *; lia).
          rewrite drop_0. apply take_app_length. }
        destruct Hslot as [r ->]. subst t. rewrite <- app_assoc. apply c_string_app.
        apply (all_digits_nonzero 10); [lia|]. apply digits_all; lia.
      * replace (k + S i)%nat with (S k + i)%nat by lia. apply Hi, Hv.
    + rewrite decide_False by exact E. apply IH; [exact Hw|lia].
Qed.

(** The loop stops before the rest of the array. *)
Lemma query_sr_loop_app va_long w rest : forall cur cnt q,
  query_sr_loop va_long (length w) (w ++ rest) cur cnt q = query_sr_loop va_long (length w) w cur cnt q.
Proof.
  induction w as [|c w IH]; intros cur cnt q; [destruct rest; reflexivity|]. cbn [length app query_sr_loop].
  destruct (wc_wr_id c =? 666); [|apply IH]. destruct (sprintf _ _ _ _); [|reflexivity]. apply IH.
Qed.

Lemma recv_lens_length w : (length (recv_lens w) <= length w)%nat.
Proof. unfold recv_lens. rewrite length_map. apply length_filter. Qed.

(** The texts of [vs] in the first slots of [q], zeros behind them. *)
Definition reported (q : list Z) (n : Z) (vs : list Z) : Prop :=
  (forall i v, vs !! i = Some v -> c_string (drop (8 * i) q) = Some (print_uint 10 v)) /\
  (forall j, (8 * length vs <= j < Z.to_nat n)%nat -> q !! j = Some 0).

Lemma zeroed_qbuf n q :
  0 <= n <= zlen q -> buf_write 0 (replicate (Z.to_nat n) 0) q = Some (replicate (Z.to_nat n) 0 ++ drop (Z.to_nat n) q).
Proof.
  intros Hn. apply buf_write_Some. unfold zlen in *. rewrite length_replicate, Z.add_0_l, Nat2Z.id.
  split; [lia|reflexivity].
Qed.

(** C30 [query_sr] reports what has been received. After [k] empty polls of the
    receive queue it acts on the next answer, [ne] and [cs]. If the poll succeeded
    and so did every completion, it returns the number of completed receive
    requests (identifier 666), and [qbuf] holds their byte counts, in order, as
    decimal strings in its eight byte slots, and zeros behind these, up to
    [qbuf_size]; otherwise it returns 0 and all of [qbuf] is zero. Nothing else of
    the buffer is written. This is for messages of less than ten million bytes, a
    [qbuf] of eight bytes per completion, and a ["%ld"] that fetches the 32-bit
    count it is given, which C leaves undefined. *)
Theorem query_sr_slots {W} `{Env W} fuel va_long s c st k w1 w2 ne cs :
  (forall v, 0 <= v < 10 ^ 7 -> va_long v = v) -> s_ctx s = Some c ->
  0 <= qbuf_size s <= zlen (qmem s) -> 8 * zlen cs <= qbuf_size s ->
  Forall (fun x => 0 <= wc_byte_len x < 10 ^ 7) cs ->
  empty_polls (recv_cq c) (maxCQE s) k (world st) w1 ->
  ext (ibv_poll_cq (recv_cq c) (maxCQE s)) w1 = ((ne, cs), w2) -> ne <> 0 ->
  (0 < ne -> zlen cs = ne /\ ne <= zlen (wc s)) -> (k < fuel)%nat ->
  returns (query_sr fuel va_long s) st (fun r st' =>
    let vs := if (0 <? ne) && all_success cs then recv_lens cs else [] in
    fst r = zlen vs /\ reported (qmem (snd r)) (qbuf_size s) vs /\
    zlen (qmem (snd r)) = zlen (qmem s) /\
    drop (Z.to_nat (qbuf_size s)) (qmem (snd r)) = drop (Z.to_nat (qbuf_size s)) (qmem s)).
Proof.
  intros Hva Hc Hq Hfit Hlen He E Hne Hsz Hk. unfold query_sr. rewrite zeroed_qbuf by exact Hq.
  set (q0 := replicate _ 0 ++ drop _ (qmem s)).
  assert (Hz0 : zlen q0 = zlen (qmem s))
    by (unfold q0, zlen in *; rewrite length_app, length_replicate, length_drop; lia).
  assert (Hd0 : drop (Z.to_nat (qbuf_size s)) q0 = drop (Z.to_nat (qbuf_size s)) (qmem s)).
  { unfold q0. rewrite drop_app_ge by (rewrite length_replicate; lia).
    rewrite length_replicate, Nat.sub_diag. apply drop_0. }
  assert (Hrep0 : reported q0 (qbuf_size s) []).
  { split; [intros i v Hi; discriminate Hi|]. intros j Hj. unfold q0.
    rewrite lookup_app_l by (rewrite length_replicate; lia). apply lookup_replicate. split; [reflexivity|lia]. }
  apply returns_bind, returns_ret, returns_bind. unfold query_recv. rewrite Hc.
  apply returns_bind, returns_ret, returns_bind.
  eapply returns_intro;
    [exact (rdma_query_cq_run k fuel c (wc s) (maxCQE s) 2 st w1 w2 ne cs (or_intror eq_refl) He E Hne Hsz Hk)|].
  apply returns_ret. unfold query_result.
  destruct (Z.ltb_spec ne 0) as [Hneg|Hpos]; [destruct (Z.ltb_spec 0 ne); [lia|]; apply returns_ret; auto|].
  destruct (Z.ltb_spec 0 ne) as [Hp|]; [|lia]. cbn [andb].
  destruct (all_success cs); cbv iota; [|apply returns_ret; auto].
  destruct (Z.ltb_spec 0 ne); [|lia]. destruct (Hsz Hp) as [Hl Hw].
  change (wc (s{{wc := ?x}})) with x.
  replace (Z.to_nat ne) with (length cs) by (unfold zlen in Hl; lia).
  destruct (query_sr_loop_run va_long cs Hva 0 0 q0 Hlen) as (q' & El & Hz & _ & Hdrop & Hi); [lia|].
  change (8 * Z.of_nat 0) with 0 in El.
  rewrite query_sr_loop_app, El.
  apply returns_bind, returns_ret, returns_ret. cbn [fst snd]. pose proof (recv_lens_length cs) as Hrl.
  cbn [Nat.add] in *. split; [reflexivity|]. split; [|split; [change (zlen q' = zlen (qmem s)); lia|]].
  - split; [exact Hi|]. intros j Hj. change (q' !! j = Some 0).
    replace j with (8 * length (recv_lens cs) + (j - 8 * length (recv_lens cs)))%nat by lia.
    rewrite <- lookup_drop, Hdrop, lookup_drop.
    replace (_ + _)%nat with j by lia. apply Hrep0. cbn [length]. lia.
  - change (drop (Z.to_nat (qbuf_size s)) q' = drop (Z.to_nat (qbuf_size s)) (qmem s)). rewrite <- Hd0.
    unfold zlen in Hfit.
    replace (Z.to_nat (qbuf_size s)) with
      (8 * length (recv_lens cs) + (Z.to_nat (qbuf_size s) - 8 * length (recv_lens cs)))%nat by lia.
    rewrite <- !drop_drop, Hdrop. reflexivity.
Qed.

(** ** Witnesses *)

Definition slot (i : Z) : option rdma_mem :=
  Some {| rm_self := 4096 + i; mr := {| mr_handle := 8192 + i; mr_addr := 65536 + 32 * i;
          lkey := i; Verbs.rkey := i |}; buf := 65536 + 32 * i; RdmaContext.size := 32 |}.

Definition ring_session : session :=
  {| s_ctx := Some sample_context; recv_mem := Some [slot 0; slot 1]; send_mem := None;
     rw_mem := None; wc := sample_wc_array; send_wc := sample_wc_array; windows := [];
     s_rbuf := 65536; sbuf := 0; qbuf := 0; qmem := []; p_rkeys := 0; p_raddrs := 0; rwbuf := 0;
     rwbuf_size := 0; rdma_index := 0; slices := 1; rdma_gap := 2097152; maxCQE := 4;
     s_recv_index := 1; s_recv_nums := 2; posted_recv := 0; s_gap := 32; rbuf_size := 64;
     qbuf_size := 0; sbuf_size := 0; flag := 1 |}.

Lemma ring_ready : slots_ready ring_session [slot 0; slot 1].
Proof.
  split; [reflexivity|]. split; [vm_compute; split; [reflexivity|discriminate]|].
  repeat constructor; eexists; reflexivity.
Qed.

Example post_recv_slots_witness :
  exists r st' k, post_recv (H := all_succeed) ring_session 5 Mock.start = (Ret r, st') /\
    length (trace st') = (k + 0)%nat.
Proof.
  edestruct (returns_inv _ _ _ (post_recv_slots (H := all_succeed) ring_session sample_context
    {| qp_handle := fresh 7; qp_num := 71 |} [slot 0; slot 1] 5 Mock.start eq_refl eq_refl ring_ready
    ltac:(lia))) as (r & st' & Hrun & k & evs & Ht & Hev & _).
  exists r, st', k. split; [exact Hrun|]. rewrite Ht, length_app, length_rev.
  apply Forall2_length in Hev. rewrite Hev, length_seq. reflexivity.
Defined.

Example read_never_delivers_witness :
  fst (read (H := all_succeed) 5 ring_session [1; 2; 3] Mock.start) = Ret (0, [1; 2; 3], ring_session).
Proof.
  edestruct (returns_inv _ _ _ (read_never_delivers (H := all_succeed) 5 ring_session sample_context
    [slot 0; slot 1] [1; 2; 3] Mock.start eq_refl eq_refl ltac:(cbn; lia) ltac:(vm_compute; discriminate)))
    as (r & st' & Hrun & -> & _).
  rewrite Hrun. reflexivity.
Defined.

(** The receive queue answers one completion of 4321 bytes. *)
Definition received_4321 : ibv_wc := {| wc_wr_id := 666; wc_status := IBV_WC_SUCCESS; wc_byte_len := 4321 |}.

Definition one_received : Env nat := scripted (fun c _ =>
  match c return option (ret_of c) with
  | ibv_poll_cq _ _ => Some (1, [received_4321])
  | _ => None
  end).

Example query_sr_slots_witness :
  returns (query_sr (H := one_received) 1 (fun v => v) (ring_session{{qmem := replicate 9 7; qbuf_size := 8}})) Mock.start
    (fun r _ => fst r = 1 /\ c_string (qmem (snd r)) = Some [52; 51; 50; 49]).
Proof.
  eapply returns_conseq.
  { eapply (query_sr_slots (H := one_received) 1 (fun v => v) _ sample_context Mock.start 0%nat _ _ 1 [received_4321]);
      [reflexivity|reflexivity|split; [discriminate|vm_compute; discriminate]|vm_compute; discriminate
      |constructor; [cbn; lia|constructor]|constructor|reflexivity|discriminate
      |intros _; split; [reflexivity|vm_compute; discriminate]|lia]. }
  intros r st' (E & [Hi _] & _). split; [exact E|]. exact (Hi 0%nat 4321 eq_refl).
Defined.
