(* ===== verification/SessionBulk.v ===== *)
(** [rdma_session::bulk] against a working adapter: the interface the transfer
    relies on, and what the transfer then does. *)
From Stdlib Require Import String.
From coqutil Require Import Datatypes.RecordSetters.
From S2P Require Import Prelude Verbs Mock ExchDest RdmaContext RdmaOps RwExchange Session.
From stdpp Require Import gmap.
Open Scope Z_scope.
Import DoubleBraceUpdate.

(** ** The interface: a working adapter

    Memory and registrations are granted, a posted request is queued, and a poll
    of the send queue hands out at most what is outstanding, all successful;
    while something is outstanding only [delay] polls in a row can be empty. *)
Class Adapter {W} (E : Env W) (q cq : Z) := {
  outstanding : W -> Z;
  delay : W -> nat;
  max_delay : nat;
  delay_bounded : forall w, (delay w <= max_delay)%nat;
  ad_malloc : forall n w, fst (ext (malloc n) w) <> 0 /\
                          outstanding (snd (ext (malloc n) w)) = outstanding w;
  ad_calloc : forall n sz w, fst (ext (calloc n sz) w) <> 0 /\
                             outstanding (snd (ext (calloc n sz) w)) = outstanding w;
  ad_free : forall p w, outstanding (snd (ext (free p) w)) = outstanding w;
  ad_mem_store : forall p d w, outstanding (snd (ext (mem_store p d) w)) = outstanding w;
  ad_reg_mr : forall pd a n acc w,
    is_Some (fst (ext (ibv_reg_mr pd a n acc) w)) /\
    outstanding (snd (ext (ibv_reg_mr pd a n acc) w)) = outstanding w;
  ad_dereg_mr : forall m w, fst (ext (ibv_dereg_mr m) w) = 0 /\
                            outstanding (snd (ext (ibv_dereg_mr m) w)) = outstanding w;
  ad_post_send : forall wrs w,
    fst (ext (ibv_post_send q wrs) w) = 0 /\
    outstanding (snd (ext (ibv_post_send q wrs) w)) = outstanding w + zlen wrs;
  ad_poll : forall n w, 0 < n ->
    let '((ne, cs), w') := ext (ibv_poll_cq cq n) w in
    zlen cs = ne /\ ne <= n /\ all_success cs = true /\
    outstanding w' = outstanding w - ne /\ 0 <= outstanding w' /\
    (ne = 0 -> 0 < outstanding w -> (delay w' < delay w)%nat) }.

(** ** What the adapter was asked to do *)

(** Address, length, remote address and remote key of a write. *)
Record write := { wr_from : Z; wr_len : Z; wr_to : Z; wr_key : Z }.

Definition write_of (w : ibv_send_wr) : list write :=
  match sw_opcode w, sw_sg_list w with
  | IBV_WR_RDMA_WRITE, [g] =>
      [{| wr_from := sge_addr g; wr_len := sge_length g; wr_to := sw_remote_addr w;
          wr_key := sw_rkey w |}]
  | _, _ => []
  end.

(** The remote writes queue pair [h] has accepted, oldest first. *)
Fixpoint writes (h : Z) (tr : list event) : list write :=
  match tr with
  | [] => []
  | Ev c r :: tr' =>
      writes h tr' ++
      (match c return ret_of c -> list write with
       | ibv_post_send q wrs =>
           fun rc => if (q =? h) && (rc =? 0) then concat (map write_of wrs) else []
       | _ => fun _ => []
       end) r
  end.

(** The chunks a transfer of [size] bytes at [ptr] consists of: [n] of them, the
    [i]th to window [(idx + i) mod k]. *)
Definition chunk (s : session) (ptr size : Z) (i : Z) : option write :=
  w ← windows s !! Z.to_nat ((rdma_index s + i) mod slices s);
  Some {| wr_from := ptr + i * rdma_gap s; wr_len := Z.min (rdma_gap s) (size - i * rdma_gap s);
          wr_to := w_addr w; wr_key := w_rkey w |}.

Definition chunks (s : session) (ptr size : Z) : option (list write) :=
  mapM (fun i => chunk s ptr size (Z.of_nat i)) (seq 0 (Z.to_nat (bulk_num s size))).

(** A session on a connected context, with its remote windows. *)
Definition wf_session (s : session) (c : rdma_context) (q : ibv_qp) : Prop :=
  s_ctx s = Some c /\ qp c = Some q /\
  0 < slices s <= zlen (windows s) /\ 0 <= rdma_index s < slices s /\
  Forall (fun w => 0 < w_addr w) (windows s) /\
  0 < rdma_gap s < 2 ^ 32 /\ 0 < maxCQE s <= zlen (send_wc s).

Section Bulk.
Context {W : Type} {E : Env W} (q cq : Z) {A : Adapter E q cq}.

(** From [a] to [b]: the writes accepted, the resources gained, the change of the
    number of outstanding completions. *)
Definition did (a b : St W) (ws : list write) (gain : rkind * Z -> Z) (n : Z) : Prop :=
  writes q (trace b) = writes q (trace a) ++ ws /\
  (forall x, balance (trace b) x = balance (trace a) x + gain x) /\
  outstanding (world b) = outstanding (world a) + n.

Definition none (x : rkind * Z) : Z := 0.

Definition held_mems (ms : list rdma_mem) (x : rkind * Z) : Z :=
  occurrences x (concat (map mem_resources ms)).

Lemma did_trans a b c w1 w2 g1 g2 n1 n2 :
  did a b w1 g1 n1 -> did b c w2 g2 n2 -> did a c (w1 ++ w2) (fun x => g1 x + g2 x) (n1 + n2).
Proof.
  intros (E1 & B1 & O1) (E2 & B2 & O2). split; [|split].
  - rewrite E2, E1, app_assoc. reflexivity.
  - intros x. rewrite B2, B1. lia.
  - lia.
Qed.

Lemma did_refl a : did a a [] none 0.
Proof. split; [rewrite app_nil_r; reflexivity|]. split; [intros x; unfold none; lia|lia]. Qed.

Lemma did_conv a b w g g' n n' :
  did a b w g n -> (forall x, g x = g' x) -> n = n' -> did a b w g' n'.
Proof. intros (E1 & B1 & O1) Hg ->. split; [exact E1|]. split; [|exact O1]. intros x. rewrite <- Hg. apply B1. Qed.

(** A call that is not a send. *)
Lemma did_call c (s : St W) n :
  (forall wrs, c <> ibv_post_send q wrs) ->
  outstanding (snd (ext c (world s))) = outstanding (world s) + n ->
  let r := fst (ext c (world s)) in
  did s (mkSt (snd (ext c (world s))) (Ev c r :: trace s) (cells s)) []
    (fun x => counts x (acquires (Ev c r)) - counts x (releases (Ev c r))) n.
Proof.
  intros Hc Ho r. split; [|split; [|exact Ho]].
  - cbn [writes trace]. f_equal. subst r. destruct c; try reflexivity.
    destruct (Z.eqb_spec qp q) as [->|]; [exfalso; eapply Hc; reflexivity|reflexivity].
  - intros x. cbn [balance trace]. lia.
Qed.

Lemma occurrences_app x l1 l2 : occurrences x (l1 ++ l2) = occurrences x l1 + occurrences x l2.
Proof. induction l1 as [|y l1 IH]; cbn [occurrences app]; [lia|]. rewrite IH. lia. Qed.

Lemma held_mems_cons m ms x :
  held_mems (m :: ms) x = occurrences x (mem_resources m) + held_mems ms x.
Proof. unfold held_mems. cbn [map concat]. apply occurrences_app. Qed.

(** Registration always succeeds. *)
Lemma reg_buf_run s c p n st :
  s_ctx s = Some c ->
  returns (reg_buf s p n) st (fun r st' => exists m,
    r = Some m /\ buf m = p /\ RdmaContext.size m = n /\ rm_self m <> 0 /\
    did st st' [] (fun x => occurrences x (mem_resources m)) 0).
Proof.
  intros Hc. unfold reg_buf. rewrite Hc. cbn [deref]. unfold returns. rewrite bind_ret.
  unfold rdma_reg_mr. unfold bind. rewrite sys_run. cbn [world trace cells].
  set (call := ibv_reg_mr _ _ _ _). destruct (ad_reg_mr (pd c) p n
    [IBV_ACCESS_LOCAL_WRITE; IBV_ACCESS_REMOTE_WRITE; IBV_ACCESS_REMOTE_READ] (world st)) as [[m Em] Ho].
  pose proof (did_call call st 0 ltac:(discriminate) ltac:(unfold call; rewrite Ho; lia)) as D1.
  cbv zeta in D1. fold call in Em. rewrite Em in *.
  rewrite sys_run. cbn [world trace cells].
  set (st1 := mkSt _ _ _) in D1. 
  destruct (ad_calloc 1 (Sizeof "rdma_mem") (snd (ext call (world st)))) as [Hp Ho2].
  pose proof (did_call (calloc 1 (Sizeof "rdma_mem")) st1 0 ltac:(discriminate)) as D2.
  cbv zeta in D2. subst st1. cbn [world trace cells] in D2. specialize (D2 ltac:(rewrite Ho2; lia)).
  rewrite if_eqb_neq by exact Hp. eexists. split; [reflexivity|]. split; [reflexivity|].
  split; [reflexivity|]. split; [exact Hp|].
  pose proof (did_trans _ _ _ _ _ _ _ _ _ D1 D2) as D.
  eapply did_conv; [exact D| |reflexivity].
  intros x. subst call. cbn [acquires releases mem_resources occurrences mr mr_handle rm_self mbind option_bind].
  rewrite nonnull_Some by exact Hp. autorewrite with held. unfold resource. lia.
Qed.

(** ** The chunks *)

Lemma bulk_num_spec s size :
  0 < rdma_gap s -> 0 <= size ->
  0 <= bulk_num s size /\ forall k, k * rdma_gap s < size <-> k < bulk_num s size.
Proof.
  intros Hg Hs. unfold bulk_num. pose proof (Z.div_mod size (rdma_gap s)) as Hdm.
  pose proof (Z.mod_pos_bound size (rdma_gap s) Hg). pose proof (Z.div_pos size (rdma_gap s) Hs Hg).
  set (d := size / rdma_gap s) in *. set (r := size mod rdma_gap s) in *.
  destruct (Z.eqb_spec r 0); (split; [lia|]); intros k; split; intros; nia.
Qed.

Definition layout (s : session) (ptr size : Z) (k n : nat) : list (Z * Z) :=
  map (fun i => (ptr + Z.of_nat i * rdma_gap s,
                 Z.min (rdma_gap s) (size - Z.of_nat i * rdma_gap s))) (seq k n).

Definition region (m : rdma_mem) : Z * Z := (buf m, RdmaContext.size m).

Lemma bulk_reg_run s c ptr size :
  s_ctx s = Some c -> 0 < rdma_gap s -> 0 <= size ->
  forall n k st, (k + n)%nat = Z.to_nat (bulk_num s size) ->
  returns (bulk_reg (S n) s ptr (Z.min size (Z.of_nat k * rdma_gap s)) size) st (fun r st' =>
    exists ms, r = Some ms /\ map region ms = layout s ptr size k n /\
               Forall (fun m => rm_self m <> 0) ms /\
               did st st' [] (held_mems ms) 0).
Proof.
  intros Hc Hg Hs. destruct (bulk_num_spec s size Hg Hs) as [Hnum Hlt].
  induction n as [|n IH]; intros k st Hk; cbn [bulk_reg];
    pose proof (Hlt (Z.of_nat k)) as Hlk.
  - destruct (Z.ltb_spec (Z.min size (Z.of_nat k * rdma_gap s)) size); [lia|].
    apply returns_ret. exists []. split; [reflexivity|]. split; [reflexivity|].
    split; [constructor|].
    eapply did_conv; [apply did_refl|reflexivity|reflexivity].
  - destruct (Z.ltb_spec (Z.min size (Z.of_nat k * rdma_gap s)) size); [|lia].
    rewrite (Z.min_r size) by lia.
    replace (if rdma_gap s <=? _ then _ else _)
      with (Z.min (rdma_gap s) (size - Z.of_nat k * rdma_gap s))
      by (destruct (Z.leb_spec (rdma_gap s) (size - Z.of_nat k * rdma_gap s)); lia).
    apply returns_bind. eapply returns_conseq; [apply (reg_buf_run s c), Hc|].
    intros r st1 (m & -> & Hb & Hz & Hself & D1). apply returns_bind.
    replace (Z.of_nat k * rdma_gap s + _) with (Z.min size (Z.of_nat (S k) * rdma_gap s)) by lia.
    eapply returns_conseq; [apply IH; lia|]. intros r st2 (ms & -> & Hl & Hms & D2).
    apply returns_ret. exists (m :: ms). split; [reflexivity|]. split.
    + unfold layout in *. cbn [map seq]. rewrite Hl. unfold region at 1. rewrite Hb, Hz. reflexivity.
    + split; [constructor; assumption|].
      eapply did_conv; [exact (did_trans _ _ _ _ _ _ _ _ _ D1 D2)| |reflexivity].
      intros x. rewrite held_mems_cons. reflexivity.
Qed.

(** ** One write *)

Lemma rdma_step_run s c qp0 m w st :
  s_ctx s = Some c -> qp c = Some qp0 -> qp_handle qp0 = q ->
  windows s !! Z.to_nat (rdma_index s) = Some w -> 0 <= rdma_index s -> 0 < slices s ->
  0 < w_addr w ->
  returns (rdma_step s (Some m)) st (fun r st' =>
    r = (0, s{{rdma_index := Z.rem (rdma_index s + 1) (slices s)}}) /\
    did st st' [{| wr_from := buf m; wr_len := u32 (RdmaContext.size m); wr_to := w_addr w;
                   wr_key := w_rkey w |}] none 1).
Proof.
  intros Hc Hq Hh Hw Hi Hsl Ha. unfold rdma_step. cbn [deref]. unfold returns. rewrite !bind_ret.
  destruct (Z.ltb_spec (rdma_index s) 0); [lia|]. rewrite Hw. cbn [deref]. rewrite bind_ret.
  destruct (Z.eqb_spec (slices s) 0); [lia|].
  unfold send_task. change (s_ctx (s{{rdma_index := _}})) with (s_ctx s). rewrite Hc. cbn [deref].
  rewrite bind_bind, bind_ret. unfold rdma_post_send, send_wr.
  cbn [mem mbind option_bind opcode trkey remote_addr tid tsize].
  rewrite bool_decide_eq_false_2 by discriminate.
  replace (w_addr w =? 0) with false by (symmetry; apply Z.eqb_neq; lia). rewrite andb_false_r.
  cbn [deref]. rewrite bind_bind, bind_ret, Hq. cbn [deref]. rewrite bind_bind, bind_ret, Hh.
  set (wrs := [_]). rewrite bind_bind. unfold bind at 1. rewrite sys_run.
  destruct (ad_post_send wrs (world st)) as [Hr Ho]. rewrite Hr. split; [reflexivity|].
  split; [|split].
  - cbn [writes trace]. rewrite !Z.eqb_refl. reflexivity.
  - intros x. cbn [balance trace acquires releases]. rewrite counts_None. unfold none. lia.
  - cbn [world]. rewrite Ho. reflexivity.
Qed.

(** ** Deregistration *)

Lemma bulk_dereg_run ms st :
  Forall (fun m => rm_self m <> 0) ms ->
  returns (bulk_dereg ms) st (fun r st' =>
    r = true /\ did st st' [] (fun x => - held_mems ms x) 0).
Proof.
  intros Hms. revert st. induction Hms as [|m ms Hm _ IH]; intros st; cbn [bulk_dereg].
  - apply returns_ret. split; [reflexivity|].
    eapply did_conv; [apply did_refl|reflexivity|reflexivity].
  - apply returns_bind. unfold rdma_dereg_mr. cbn [deref]. unfold returns at 1. rewrite bind_ret.
    unfold bind at 1. rewrite sys_run. destruct (ad_dereg_mr (mr_handle (mr m)) (world st)) as [Hr Ho].
    pose proof (did_call (ibv_dereg_mr (mr_handle (mr m))) st 0 ltac:(discriminate) ltac:(lia)) as D1.
    cbv zeta in D1. rewrite Hr in *. cbn [Z.eqb negb].
    unfold bind. rewrite sys_run. cbn [world trace cells].
    set (st1 := mkSt _ _ _) in D1.
    pose proof (did_call (free (rm_self m)) st1 0 ltac:(discriminate)) as D2. cbv zeta in D2.
    subst st1. cbn [world trace cells] in D2. specialize (D2 ltac:(rewrite ad_free; lia)).
    eapply returns_conseq; [apply IH|]. intros r st' [-> D3]. split; [reflexivity|].
    pose proof (did_trans _ _ _ _ _ _ _ _ _ (did_trans _ _ _ _ _ _ _ _ _ D1 D2) D3) as D.
    eapply did_conv; [exact D| |reflexivity]. intros x. rewrite held_mems_cons.
    cbn [acquires releases mem_resources occurrences].
    rewrite nonnull_Some by exact Hm. autorewrite with held. lia.
Qed.

(** ** All the writes *)

(** The session after [k] writes. *)
Definition advanced (s : session) (k : Z) : session :=
  s{{rdma_index := (rdma_index s + k) mod slices s}}.

Lemma bulk_post_run s c qp0 ptr size :
  wf_session s c qp0 -> qp_handle qp0 = q ->
  forall n k ms st, map region ms = layout s ptr size k n -> 0 <= size ->
  (k + n)%nat = Z.to_nat (bulk_num s size) ->
  returns (bulk_post (advanced s (Z.of_nat k)) ms) st (fun r st' => exists ws,
    r = (true, advanced s (Z.of_nat (k + n))) /\
    mapM (fun i => chunk s ptr size (Z.of_nat i)) (seq k n) = Some ws /\
    did st st' ws none (Z.of_nat n)).
Proof.
  intros (Hc & Hq & Hsl & Hi & Hw & Hg & _) Hh. induction n as [|n IH]; intros k ms st Hl Hsz Hn.
  - destruct ms; [|discriminate Hl]. apply returns_ret. exists [].
    rewrite Nat.add_0_r. split; [reflexivity|]. split; [reflexivity|apply did_refl].
  - destruct ms as [|m ms]; [discriminate Hl|]. cbn [map layout seq] in Hl.
    injection Hl as Hb Hm Hl. cbn [bulk_post]. apply returns_bind.
    set (idx := (rdma_index s + Z.of_nat k) mod slices s).
    assert (Hidx : 0 <= idx < slices s) by (apply Z.mod_pos_bound; lia).
    destruct (lookup_lt_is_Some_2 (windows s) (Z.to_nat idx)) as [w Hlw];
      [unfold zlen in Hsl; lia|].
    assert (Hwp : 0 < w_addr w) by (exact (proj1 (Forall_lookup _ _) Hw _ _ Hlw)).
    eapply returns_conseq.
    { apply (rdma_step_run (advanced s (Z.of_nat k)) c qp0 m w);
        [exact Hc|exact Hq|exact Hh|exact Hlw|exact (proj1 Hidx)| |exact Hwp].
      change (slices (advanced s (Z.of_nat k))) with (slices s). lia. }
    intros r st1 [-> D1]. cbn [Z.eqb negb].
    replace ((advanced s (Z.of_nat k)){{rdma_index := _}}) with (advanced s (Z.of_nat (S k))).
    2:{ unfold advanced. change (slices (s{{rdma_index := _}})) with (slices s).
        change (rdma_index (s{{rdma_index := _}})) with idx.
        rewrite Z.rem_mod_nonneg by lia. unfold idx. rewrite Zplus_mod_idemp_l.
        replace (rdma_index s + Z.of_nat k + 1) with (rdma_index s + Z.of_nat (S k)) by lia.
        reflexivity. }
    eapply returns_conseq; [apply (IH (S k) ms st1 Hl Hsz); lia|].
    intros r st2 (ws & -> & Hws & D2). eexists. split; [do 2 f_equal; lia|]. split.
    + assert (Hck : chunk s ptr size (Z.of_nat k) = Some
        {| wr_from := ptr + Z.of_nat k * rdma_gap s;
           wr_len := Z.min (rdma_gap s) (size - Z.of_nat k * rdma_gap s);
           wr_to := w_addr w; wr_key := w_rkey w |})
        by (unfold chunk; fold idx; rewrite Hlw; reflexivity).
      cbn [seq mapM]. rewrite Hck. cbn [mbind option_bind]. rewrite Hws. reflexivity.
    + pose proof (did_trans _ _ _ _ _ _ _ _ _ D1 D2) as D. cbn [app] in D.
      assert (Hks : Z.of_nat k * rdma_gap s < size)
        by (apply (proj2 (bulk_num_spec s size (proj1 Hg) Hsz)); lia).
      rewrite Hb, Hm, u32_small in D by lia.
      eapply did_conv; [exact D|reflexivity|lia].
Qed.

(** ** Waiting for the completions *)

Lemma poll_loop_run n wc :
  0 < n <= zlen wc -> forall fuel st,
  (delay (world st) < fuel)%nat -> 0 < outstanding (world st) ->
  returns (poll_loop fuel false cq n wc) st (fun r st' => exists ne cs,
    r = (Some ne, cs ++ drop (length cs) wc) /\ 0 < ne <= n /\ zlen cs = ne /\
    all_success cs = true /\ 0 <= outstanding (world st') /\ did st st' [] none (- ne)).
Proof.
  intros Hn. induction fuel as [|fuel IH]; intros st Hd Ho; [lia|].
  destruct (ext (ibv_poll_cq cq n) (world st)) as [[ne cs] w'] eqn:Ep.
  unfold returns. rewrite (poll_loop_round _ _ _ _ _ _ _ _ Ep).
  pose proof (ad_poll n (world st) ltac:(lia)) as Hp. cbv zeta in Hp. rewrite Ep in Hp.
  destruct Hp as (Hlen & Hle & Hok & Hout & Hnn & Hdel). pose proof (zlen_nonneg cs) as Hz.
  pose proof (did_call (ibv_poll_cq cq n) st (- ne) ltac:(discriminate)) as D1. cbv zeta in D1.
  rewrite Ep in D1. cbn [fst snd] in D1. specialize (D1 ltac:(lia)).
  assert (D1' : did st (mkSt w' (Ev (ibv_poll_cq cq n) (ne, cs) :: trace st) (cells st)) [] none (- ne)).
  { eapply did_conv; [exact D1| |reflexivity]. intros x. cbn [acquires releases].
    rewrite counts_None. reflexivity. }
  destruct (Z.ltb_spec ne 0); [lia|]. unfold fill_wc.
  destruct (Z.leb_spec (zlen cs) (zlen wc)); [|lia]. cbn [deref]. rewrite bind_ret.
  destruct (Z.ltb_spec ne 1).
  - assert (ne = 0) as -> by lia. specialize (Hdel eq_refl Ho).
    destruct cs; [|rewrite zlen_cons in Hlen; pose proof (zlen_nonneg cs); lia]. cbn [app length]. rewrite drop_0.
    set (st1 := mkSt _ _ _) in *.
    pose proof (IH st1 ltac:(subst st1; cbn [world]; lia) ltac:(subst st1; cbn [world]; lia)) as HI.
    apply returns_inv in HI as (r & st' & -> & ne & cs & -> & Hne & Hl & Hs & Hnn' & D2).
    exists ne, cs. split; [reflexivity|]. split; [exact Hne|]. split; [exact Hl|]. split; [exact Hs|].
    split; [exact Hnn'|]. exact (did_trans _ _ _ _ _ _ _ _ _ D1' D2).
  - exists ne, cs. split; [reflexivity|]. split; [lia|]. split; [exact Hlen|]. split; [exact Hok|].
    split; [cbn [world]; lia|exact D1'].
Qed.

Lemma query_send_run fuel s c st :
  s_ctx s = Some c -> send_cq c = cq -> 0 < maxCQE s <= zlen (send_wc s) ->
  (max_delay < fuel)%nat -> 0 < outstanding (world st) ->
  returns (query_send fuel s) st (fun r st' => exists ne w,
    r = (ne, s{{send_wc := w}}) /\ zlen w = zlen (send_wc s) /\ 0 < ne /\
    0 <= outstanding (world st') /\ did st st' [] none (- ne)).
Proof.
  intros Hc Hcq Hm Hf Ho. unfold query_send. rewrite Hc. apply returns_bind, returns_ret.
  unfold rdma_query_cq. change (Z.eqb 1 1) with true. cbn [orb]. rewrite Hcq.
  apply returns_bind, returns_bind, returns_ret. cbn [negb]. apply returns_bind.
  eapply returns_conseq.
  { apply (poll_loop_run (maxCQE s) (send_wc s) Hm fuel st); [|exact Ho].
    pose proof (delay_bounded (world st)). lia. }
  intros r st1 (ne & cs & -> & Hne & Hl & Hok & Hnn & D).
  rewrite (check_wc_spec cs _ (Z.to_nat ne) 0) by (unfold zlen in Hl; lia).
  rewrite drop_0, Hok. cbn [deref]. apply returns_bind, returns_ret, returns_ret, returns_ret.
  exists ne. eexists. split; [reflexivity|]. split; [|auto with lia].
  unfold zlen in *. rewrite length_app, length_drop. lia.
Qed.

Lemma bulk_ack_run fuel c num :
  send_cq c = cq -> (max_delay < fuel)%nat ->
  forall n s ack st,
  s_ctx s = Some c -> 0 < maxCQE s <= zlen (send_wc s) ->
  outstanding (world st) = num - ack -> 0 <= num - ack < Z.of_nat n ->
  returns (bulk_ack fuel n s ack num) st (fun r st' => exists w,
    r = (true, s{{send_wc := w}}) /\ did st st' [] none (ack - num)).
Proof.
  intros Hcq Hf. induction n as [|n IH]; intros s ack st Hc Hm Ho Hn; [lia|]. cbn [bulk_ack].
  destruct (Z.eqb_spec ack num) as [->|Hne].
  - apply returns_ret. exists (send_wc s). split; [destruct s; reflexivity|].
    eapply did_conv; [apply did_refl|reflexivity|lia].
  - apply returns_bind. eapply returns_conseq; [apply (query_send_run fuel s c); auto; lia|].
    intros r st1 (ne & w & -> & Hw & Hne1 & Hnn & D1).
    destruct (Z.eqb_spec ne (-1)); [lia|]. destruct (D1) as (_ & _ & O1).
    assert (Hm' : 0 < maxCQE (s{{send_wc := w}}) <= zlen (send_wc (s{{send_wc := w}})))
      by (change (0 < maxCQE s <= zlen w); rewrite Hw; exact Hm).
    set (s1 := s{{send_wc := w}}) in *.
    pose proof (IH s1 (ack + ne) st1 Hc Hm' ltac:(lia) ltac:(lia)) as HI. subst s1.
    eapply returns_conseq; [exact HI|].
    intros r st2 (w2 & -> & D2). exists w2. split; [reflexivity|].
    eapply did_conv; [exact (did_trans _ _ _ _ _ _ _ _ _ D1 D2)|reflexivity|lia].
Qed.

(** ** What the chunks are *)

(** [ws] reads [size] bytes from [p] on, in order, in pieces of at most [gap]. *)
Fixpoint covers (gap p size : Z) (ws : list write) : Prop :=
  match ws with
  | [] => size = 0
  | w :: ws' => wr_from w = p /\ 0 < wr_len w <= gap /\ covers gap (p + wr_len w) (size - wr_len w) ws'
  end.

(** The [i]th write goes to the window [i] after the current one, cyclically. *)
Definition round_robin (s : session) (ws : list write) : Prop :=
  forall i w, ws !! i = Some w -> exists win,
    windows s !! Z.to_nat ((rdma_index s + Z.of_nat i) mod slices s) = Some win /\
    wr_to w = w_addr win /\ wr_key w = w_rkey win.

Lemma chunks_cover s ptr size :
  0 < rdma_gap s -> 0 <= size ->
  forall n k ws, (k + n)%nat = Z.to_nat (bulk_num s size) ->
  mapM (fun i => chunk s ptr size (Z.of_nat i)) (seq k n) = Some ws ->
  covers (rdma_gap s) (ptr + Z.min size (Z.of_nat k * rdma_gap s))
    (size - Z.min size (Z.of_nat k * rdma_gap s)) ws.
Proof.
  intros Hg Hs. destruct (bulk_num_spec s size Hg Hs) as [Hnum Hlt].
  induction n as [|n IH]; intros k ws Hk Hws; pose proof (Hlt (Z.of_nat k)) as Hlk.
  - injection Hws as <-. cbn. lia.
  - cbn [seq mapM] in Hws. destruct (chunk s ptr size (Z.of_nat k)) as [w|] eqn:Ew; [|discriminate].
    cbn [mbind option_bind] in Hws.
    destruct (mapM _ (seq (S k) n)) as [ws'|] eqn:Ews; [|discriminate]. injection Hws as <-.
    apply IH in Ews; [|lia]. unfold chunk in Ew.
    destruct (windows s !! _); [|discriminate]. injection Ew as <-. cbn [covers wr_from wr_len].
    split; [lia|]. split; [lia|].
    replace (ptr + Z.min size (Z.of_nat k * rdma_gap s) + _)
      with (ptr + Z.min size (Z.of_nat (S k) * rdma_gap s)) by lia.
    replace (size - Z.min size (Z.of_nat k * rdma_gap s) - _)
      with (size - Z.min size (Z.of_nat (S k) * rdma_gap s)) by lia.
    exact Ews.
Qed.

Lemma chunks_targets s ptr size ws n :
  mapM (fun i => chunk s ptr size (Z.of_nat i)) (seq 0 n) = Some ws -> round_robin s ws.
Proof.
  intros Hws i w Hi. apply mapM_Some_1 in Hws.
  destruct (Forall2_lookup_r _ _ _ _ _ Hws Hi) as (j & Hj & Ew).
  apply lookup_seq in Hj as [-> _]. unfold chunk in Ew. cbn [Nat.add] in Ew.
  destruct (windows s !! _) as [win|]; [|discriminate]. injection Ew as <-. eauto.
Qed.

(** ** Property *)

(** C4 [bulk] delivers the whole buffer: over a working adapter with nothing
    outstanding, a session with remote windows, and enough fuel for the polls,
    [bulk(iptr, size)] terminates and returns 0; the remote writes it made read
    exactly the [size] bytes at [iptr], in order, in pieces of at most
    [rdma_gap] bytes, and go to the peer's windows in turn, starting at
    [rdma_index]; afterwards every completion has been collected, every region
    registered has been released and every allocation freed, and [rdma_index]
    has advanced by the number of pieces. *)
Theorem bulk_transfer fuel s c qp0 iptr size st :
  wf_session s c qp0 -> qp_handle qp0 = q -> send_cq c = cq -> 0 <= size ->
  outstanding (world st) = 0 -> (max_delay < fuel)%nat -> bulk_num s size < Z.of_nat fuel ->
  returns (bulk fuel s iptr size) st (fun r st' => exists ws w,
    r = (0, (advanced s (bulk_num s size)){{send_wc := w}}) /\
    writes q (trace st') = writes q (trace st) ++ ws /\
    covers (rdma_gap s) iptr size ws /\ round_robin s ws /\ zlen ws = bulk_num s size /\
    outstanding (world st') = 0 /\
    (forall x, balance (trace st') x = balance (trace st) x)).
Proof.
  intros Hwf Hh Hcq Hsz Ho Hf Hfuel. destruct (Hwf) as (Hc & Hq & Hsl & Hi & Hw & Hg & Hcqe).
  destruct (bulk_num_spec s size (proj1 Hg) Hsz) as [Hnum _]. unfold bulk.
  apply returns_bind. destruct (ad_malloc (Bytes (8 * bulk_num s size)) (world st)) as [Hp Hom].
  set (call := malloc _) in *.
  pose proof (did_call call st 0 ltac:(discriminate) ltac:(lia)) as D1. cbv zeta in D1.
  unfold returns at 1. rewrite sys_run. set (p := fst (ext call (world st))) in *.
  rewrite (proj2 (Z.eqb_neq p 0) Hp). cbn [andb]. apply returns_bind.
  pose proof (bulk_reg_run s c iptr size Hc (proj1 Hg) Hsz (Z.to_nat (bulk_num s size)) 0
    (mkSt (snd (ext call (world st))) (Ev call p :: trace st) (cells st)) eq_refl) as Hreg.
  cbn [Z.of_nat] in Hreg. rewrite Z.mul_0_l, (Z.min_r size 0) in Hreg by lia.
  eapply returns_conseq; [exact Hreg|]. clear Hreg. intros r st2 (ms & -> & Hl & Hms & D2).
  apply returns_bind. replace s with (advanced s (Z.of_nat 0)) at 1.
  2:{ unfold advanced. rewrite Z.add_0_r, Z.mod_small by lia. destruct s; reflexivity. }
  eapply returns_conseq; [apply (bulk_post_run s c qp0 iptr size Hwf Hh _ _ ms st2 Hl Hsz eq_refl)|].
  intros r st3 (ws & -> & Hws & D3). cbn [negb]. rewrite Nat.add_0_l, Z2Nat.id in * by lia.
  pose proof (did_trans _ _ _ _ _ _ _ _ _ (did_trans _ _ _ _ _ _ _ _ _ D1 D2) D3) as D.
  destruct (D) as (_ & _ & O3). apply returns_bind.
  eapply returns_conseq; [apply (bulk_ack_run fuel c (bulk_num s size)); auto; lia|].
  intros r st4 (w & -> & D4). cbn [negb]. apply returns_bind.
  eapply returns_conseq; [apply bulk_dereg_run, Hms|]. intros r st5 [-> D5]. cbn [negb].
  apply returns_bind. unfold returns. rewrite sys_run.
  pose proof (did_call (free p) st5 0 ltac:(discriminate) ltac:(rewrite ad_free; lia)) as D6.
  cbv zeta in D6. pose proof (did_trans _ _ _ _ _ _ _ _ _ (did_trans _ _ _ _ _ _ _ _ _
    (did_trans _ _ _ _ _ _ _ _ _ D D4) D5) D6) as (Hwr & Hbal & Hout).
  rewrite !app_nil_r in Hwr. cbn [app] in Hwr. exists ws, w. split; [reflexivity|].
  split; [exact Hwr|]. split.
  { pose proof (chunks_cover s iptr size (proj1 Hg) Hsz _ 0 ws eq_refl Hws) as Hcov.
    cbn [Z.of_nat] in Hcov. rewrite Z.mul_0_l, Z.min_r, Z.add_0_r, Z.sub_0_r in Hcov by lia.
    exact Hcov. }
  split; [eapply chunks_targets, Hws|]. split.
  { apply mapM_Some_1, Forall2_length in Hws. rewrite length_seq in Hws. unfold zlen. lia. }
  split; [rewrite Hout; lia|]. intros x. rewrite Hbal.
  subst call. cbn [acquires releases]. rewrite nonnull_Some by exact Hp.
  unfold none. autorewrite with held. lia.
Qed.
End Bulk.

(** ** Witness: an adapter that completes one request on every second poll *)

Definition done_wc : ibv_wc := {| wc_wr_id := 233; wc_status := IBV_WC_SUCCESS; wc_byte_len := 0 |}.

Definition nic : Env (nat * nat) := fun c w =>
  match c return ret_of c * (nat * nat) with
  | ibv_post_send _ wrs => (0, (S (fst w), (snd w + length wrs)%nat))
  | ibv_poll_cq _ _ =>
      if Nat.even (fst w) || (snd w =? 0)%nat then ((0, []), (S (fst w), snd w))
      else ((1, [done_wc]), (S (fst w), pred (snd w)))
  | c => (success c (fst w), (S (fst w), snd w))
  end.

#[export] Instance nic_adapter q cq : Adapter nic q cq.
Proof.
  refine {| outstanding := fun w => Z.of_nat (snd w);
            delay := fun w => if Nat.even (fst w) then 1%nat else 0%nat; max_delay := 1%nat |};
    try (intros; unfold ext, nic, success, Mock.fresh; cbn [ret_of fst snd]; split; [lia|reflexivity]);
    try reflexivity.
  - intros w. destruct (Nat.even (fst w)); lia.
  - intros. split; [eexists; reflexivity|reflexivity].
  - intros. split; [reflexivity|]. cbn [nic ext fst snd]. unfold ext, nic, zlen. cbn [snd]. lia.
  - intros n [k o] Hn. unfold ext, nic. cbn [fst snd].
    destruct (Nat.even k) eqn:Ek; cbn [orb].
    + cbn [fst snd]. rewrite Nat.even_succ, <- Nat.negb_even, Ek. cbn [negb].
      change (zlen (@nil ibv_wc)) with 0. repeat (split; [lia || reflexivity|]). lia.
    + destruct (Nat.eqb_spec o 0) as [->|Ho]; cbn [fst snd].
      * change (zlen (@nil ibv_wc)) with 0. repeat (split; [lia || reflexivity|]). lia.
      * change (zlen [done_wc]) with 1. repeat (split; [lia || reflexivity|]). lia.
Defined.

Definition sample_session : session :=
  {| s_ctx := Some sample_context; recv_mem := None; send_mem := None; rw_mem := None;
     wc := []; send_wc := sample_wc_array; windows := sample_windows; s_rbuf := 0; sbuf := 0;
     qbuf := 0; qmem := []; p_rkeys := 0; p_raddrs := 0; rwbuf := 0; rwbuf_size := 0;
     rdma_index := 1; slices := 2; rdma_gap := 2 * 1024 * 1024; maxCQE := 4; s_recv_index := 0;
     s_recv_nums := 0; posted_recv := 0; s_gap := 32768; rbuf_size := 0; qbuf_size := 0;
     sbuf_size := 0; flag := 1 |}.

Definition nic_start : St (nat * nat) := mkSt (0%nat, 0%nat) [] ∅.

(** Five megabytes: three writes, to the second, the first and the second window. *)
Example bulk_transfer_witness :
  exists st' s' ws, bulk (H := nic) 16 sample_session 8192 5000000 nic_start = (Ret (0, s'), st') /\
    writes (Mock.fresh 7) (trace st') = ws /\ covers (2 * 1024 * 1024) 8192 5000000 ws.
Proof.
  edestruct (returns_inv _ _ _ (bulk_transfer (E := nic) (Mock.fresh 7) (Mock.fresh 6) 16 sample_session
    sample_context {| qp_handle := Mock.fresh 7; qp_num := 71 |} 8192 5000000 nic_start
    ltac:(split; [reflexivity|split; [reflexivity|]]; repeat split; try (vm_compute; congruence);
          try (vm_compute; reflexivity); repeat constructor)
    eq_refl eq_refl ltac:(lia) eq_refl ltac:(cbn; lia) ltac:(reflexivity)))
    as ([r s'] & st' & Hrun & ws & w & Hr & Hw & Hcov & _).
  injection Hr as -> _. exists st', s', ws. split; [exact Hrun|]. split; [exact Hw|exact Hcov].
Defined.
