(* ===== verification/MemoryManager.v ===== *)
(** rdma/Infiniband.h, [Infiniband::MemoryManager]: the registered buffers of
    the transport. A [Chunk] is a piece of registered memory with a cursor; a
    [Cluster] is a pool of free chunks of one size. Chunks are objects shared by
    pointer (the pools, the queues of the adapter and the sockets all hold the
    same chunk), so they live in a heap of objects. *)
From Stdlib Require Import String.
From coqutil Require Import Datatypes.RecordSetters.
From S2P Require Import Prelude Gid Verbs Mock.
From stdpp Require Import gmap.
Open Scope Z_scope.
Import DoubleBraceUpdate.

(** [contents] is the memory at [buffer]. *)
Record Chunk := { buffer : Z; bytes : Z; offset : Z; ck_mr : ibv_mr; contents : list Z }.

(** The objects made by [new Chunk]; locations are numbered in order. *)
Record heap := { next : Z; chunks : gmap Z Chunk }.

Definition new_chunk (h : heap) (c : Chunk) : Z * heap :=
  (next h, {| next := next h + 1; chunks := <[next h := c]> (chunks h) |}).

Definition put_chunk (h : heap) (p : Z) (c : Chunk) : heap :=
  h{{chunks := <[p := c]> (chunks h)}}.

(** ** Chunk *)

Definition set_offset (c : Chunk) (o : Z) : Chunk := c{{offset := o}}.

(** [read]: the bytes copied out ([None]: out of the bounds of the memory). *)
Definition chunk_read (c : Chunk) (len : Z) : option (list Z * Chunk) :=
  let left := u64 (bytes c - offset c) in
  if len <=? left then
    d ← buf_read (offset c) len (contents c); Some (d, set_offset c (u64 (offset c + len)))
  else
    d ← buf_read (offset c) left (contents c); Some (d, set_offset c 0).

(** [write]: the number of bytes taken from [src]. *)
Definition chunk_write (c : Chunk) (src : list Z) : option (Z * Chunk) :=
  let len := zlen src in
  let left := u64 (bytes c - offset c) in
  if len <=? left then
    m ← buf_write (offset c) src (contents c);
    Some (len, set_offset (c{{contents := m}}) (u64 (offset c + len)))
  else
    m ← buf_write (offset c) (take (Z.to_nat left) src) (contents c);
    Some (left, set_offset (c{{contents := m}}) (bytes c)).

Definition full (c : Chunk) : bool := offset c =? bytes c.

(** ** Cluster *)

Record Cluster := { chunk_size : Z; free_chunks : list Z }.

Definition take_back (c : Cluster) (ck : Z) : Cluster :=
  c{{free_chunks := (free_chunks c ++ [ck])}}.

(** [while (ret.size() != num) { ret.push_back(free_chunks.back()); pop_back }]. *)
Fixpoint pop_loop (n : nat) (free ret : list Z) : option (list Z * list Z) :=
  match n with
  | O => Some (ret, free)
  | S n' => p ← last free; pop_loop n' (removelast free) (ret ++ [p])
  end.

Definition chunk_count (c : Cluster) (nbytes : Z) : Z :=
  let num := u32 (nbytes / chunk_size c + 1) in
  if nbytes mod chunk_size c =? 0 then u32 (num - 1) else num.

(** [get_buffers]: with [bytes == 0] a copy of the whole pool. *)
Definition get_buffers (c : Cluster) (nbytes : Z) : option (list Z * Cluster) :=
  if nbytes =? 0 then Some (free_chunks c, c)
  else if chunk_size c =? 0 then None                       (* division by zero *)
  else
    let num := chunk_count c nbytes in
    if zlen (free_chunks c) <? num then Some ([], c)
    else
      '(ret, pool) ← pop_loop (Z.to_nat num) (free_chunks c) [];
      Some (ret, c{{free_chunks := pool}}).

Section MemoryManager.
Context {W : Type} `{Env W}.

(** The loop of [Cluster::add], its arithmetic in 32 bits; [mem] is what the
    fresh memory holds. *)
Fixpoint add_loop (fuel : nat) (pd base nbytes off : Z) (mem : list Z) (h : heap) (c : Cluster)
  : M (St W) (heap * Cluster) :=
  match fuel with
  | O => out_of_fuel
  | S f =>
      if off <? nbytes then
        let* m := sys (ibv_reg_mr pd (base + off) (chunk_size c)
                         [IBV_ACCESS_REMOTE_WRITE; IBV_ACCESS_LOCAL_WRITE]) in
        match m with
        | None => assert_fail
        | Some m =>
            let '(p, h) := new_chunk h
              {| buffer := base + off; bytes := chunk_size c; offset := 0; ck_mr := m;
                 contents := slice off (chunk_size c) mem |} in
            add_loop f pd base nbytes (u32 (off + chunk_size c)) mem h (take_back c p)
        end
      else ret (h, c)
  end.

Definition add (fuel : nat) (pd num : Z) (mem : list Z) (h : heap) (c : Cluster)
  : M (St W) (heap * Cluster) :=
  let nbytes := u32 (chunk_size c * num) in
  let* base := sys (malloc (Bytes nbytes)) in
  c_assert (negb (base =? 0)) ;;;
  add_loop fuel pd base nbytes 0 mem h c.

(** The three pools of [class MemoryManager]; a pool not created yet is [None]. *)
Record MemoryManager := {
  channel : option Cluster; rdma : option Cluster; send : option Cluster; mm_pd : Z }.

(** [register_rx_tx]; it flows off its end, its result is not used. *)
Definition register_rx_tx (fuel : nat) (mm : MemoryManager) (size rx_num tx_num : Z)
    (mem1 mem2 : list Z) (h : heap) : M (St W) (heap * MemoryManager) :=
  let* (h, c) := add fuel (mm_pd mm) rx_num mem1 h {| chunk_size := size; free_chunks := [] |} in
  let* (h, s) := add fuel (mm_pd mm) tx_num mem2 h {| chunk_size := size; free_chunks := [] |} in
  ret (h, mm{{channel := Some c; send := Some s}}).

Definition register_rdma (fuel : nat) (mm : MemoryManager) (size num : Z) (mem : list Z) (h : heap)
  : M (St W) (Z * heap * MemoryManager) :=
  let* (h, c) := add fuel (mm_pd mm) num mem h {| chunk_size := size; free_chunks := [] |} in
  ret (0, h, mm{{rdma := Some c}}).
End MemoryManager.

(** [return_channel] gives back to the [send] pool, [return_rx] to [channel]. *)
Definition return_channel (mm : MemoryManager) (ck : Z) : option MemoryManager :=
  c ← send mm; Some (mm{{send := Some (take_back c ck)}}).
Definition return_rx (mm : MemoryManager) (ck : Z) : option MemoryManager :=
  c ← channel mm; Some (mm{{channel := Some (take_back c ck)}}).
Definition return_rdma (mm : MemoryManager) (ck : Z) : option MemoryManager :=
  c ← rdma mm; Some (mm{{rdma := Some (take_back c ck)}}).

Definition get_channel_buffers (mm : MemoryManager) (nbytes : Z) : option (list Z * MemoryManager) :=
  c ← channel mm;
  '(ret, c) ← get_buffers c nbytes;
  Some (ret, mm{{channel := Some c}}).

(** ** Specification *)

Definition wf_chunk (c : Chunk) : Prop :=
  0 <= offset c <= bytes c /\ bytes c < 2 ^ 32 /\ zlen (contents c) = bytes c.

(** What has been written to a chunk since its cursor was at the start. *)
Definition stored (c : Chunk) : list Z := take (Z.to_nat (offset c)) (contents c).

Lemma chunk_left c : wf_chunk c -> u64 (bytes c - offset c) = bytes c - offset c.
Proof. intros (? & ? & _). apply u64_small. lia. Qed.

Lemma stored_zlen c : wf_chunk c -> zlen (stored c) = offset c.
Proof. intros (? & _ & Hz). apply zlen_take. lia. Qed.

(** The fields of a chunk after a write. *)
Lemma written_fields c m o :
  let c' := set_offset (c{{contents := m}}) o in
  offset c' = o /\ bytes c' = bytes c /\ contents c' = m /\ buffer c' = buffer c /\
  ck_mr c' = ck_mr c.
Proof. repeat split. Qed.

Lemma written_wf c m o n d :
  wf_chunk c -> 0 <= n -> o = offset c + n -> o <= bytes c -> zlen m = bytes c ->
  take (Z.to_nat (offset c + n)) m = stored c ++ d ->
  let c' := set_offset (c{{contents := m}}) o in
  wf_chunk c' /\ bytes c' = bytes c /\ buffer c' = buffer c /\ ck_mr c' = ck_mr c /\
  offset c' = offset c + n /\ stored c' = stored c ++ d.
Proof.
  intros (Ho & Hb & Hz) Hn -> Hle Hm Ht c'.
  destruct (written_fields c m (offset c + n)) as (E1 & E2 & E3 & E4 & E5). fold c' in E1, E2, E3, E4, E5.
  unfold wf_chunk, stored. rewrite E1, E2, E3, E4, E5.
  repeat (split; [lia || reflexivity|]). exact Ht.
Qed.

(** A write takes what fits and appends it to what is stored. *)
Lemma chunk_write_spec c src :
  wf_chunk c ->
  let n := Z.min (zlen src) (bytes c - offset c) in
  exists c', chunk_write c src = Some (n, c') /\ wf_chunk c' /\ bytes c' = bytes c /\
    buffer c' = buffer c /\ ck_mr c' = ck_mr c /\
    offset c' = offset c + n /\ stored c' = stored c ++ take (Z.to_nat n) src.
Proof.
  intros Hwf n. destruct (Hwf) as ([Ho1 Ho2] & Hb & Hz). unfold chunk_write.
  rewrite chunk_left by exact Hwf. pose proof (zlen_nonneg src) as Hs.
  assert (Hw : forall d, zlen d = n ->
    exists m, buf_write (offset c) d (contents c) = Some m /\ zlen m = bytes c /\
      take (Z.to_nat (offset c + n)) m = stored c ++ d).
  { intros d Hd. destruct (buf_write (offset c) d (contents c)) as [m|] eqn:E.
    - exists m. split; [reflexivity|]. split; [rewrite (buf_write_zlen _ _ _ _ E); exact Hz|].
      rewrite <- Hd. exact (buf_write_prefix _ _ _ _ E).
    - exfalso. assert (Hx : exists b, buf_write (offset c) d (contents c) = Some b)
        by (eexists; apply buf_write_Some; split; [lia|reflexivity]).
      destruct Hx; congruence. }
  destruct (Z.leb_spec (zlen src) (bytes c - offset c)) as [Hle|Hlt].
  - assert (Hn : n = zlen src) by lia. destruct (Hw src ltac:(lia)) as (m & -> & Hm & Ht).
    cbn [mbind option_bind]. rewrite u64_small by lia. rewrite <- Hn. eexists. split; [reflexivity|].
    replace (take (Z.to_nat n) src) with src
      by (replace (Z.to_nat n) with (length src) by (unfold zlen in Hn; lia); rewrite firstn_all; reflexivity).
    apply written_wf; auto; lia.
  - assert (Hn : n = bytes c - offset c) by lia.
    destruct (Hw (take (Z.to_nat (bytes c - offset c)) src)) as (m & -> & Hm & Ht);
      [rewrite zlen_take; lia|].
    cbn [mbind option_bind]. rewrite <- Hn in *. eexists. split; [reflexivity|].
    apply written_wf; auto; lia.
Qed.

Lemma set_offset_wf c o : wf_chunk c -> 0 <= o <= bytes c -> wf_chunk (set_offset c o).
Proof. intros (_ & Hb & Hz) Ho. exact (conj Ho (conj Hb Hz)). Qed.

Lemma chunk_read_within c len :
  wf_chunk c -> 0 <= len <= bytes c - offset c ->
  chunk_read c len = Some (slice (offset c) len (contents c), set_offset c (offset c + len)).
Proof.
  intros Hwf Hlen. destruct (Hwf) as ([Ho1 Ho2] & Hb & Hz). unfold chunk_read.
  rewrite chunk_left by exact Hwf. destruct (Z.leb_spec len (bytes c - offset c)); [|lia].
  rewrite buf_read_in by lia.
  cbn [mbind option_bind]. rewrite u64_small by lia. reflexivity.
Qed.

Lemma pop_loop_spec n pool ret :
  (n <= length pool)%nat ->
  exists rest, pop_loop n pool ret = Some (ret ++ rest, take (length pool - n) pool) /\
    take (length pool - n) pool ++ rev rest = pool /\ length rest = n.
Proof.
  revert pool ret. induction n as [|n IH]; intros pool ret Hn; cbn [pop_loop].
  - exists []. rewrite Nat.sub_0_r, firstn_all, !app_nil_r. auto.
  - destruct pool as [|x pool _] using rev_ind; [cbn in Hn; lia|].
    rewrite last_snoc. cbn [mbind option_bind]. rewrite removelast_last.
    rewrite length_app in *. cbn [length] in *.
    destruct (IH pool (ret ++ [x])) as (rest & E & Happ & Hl); [lia|].
    exists (x :: rest). rewrite E, <- app_assoc.
    replace (length pool + 1 - S n)%nat with (length pool - n)%nat by lia.
    rewrite take_app_le by lia. split; [reflexivity|]. split; [|cbn [length]; lia].
    cbn [rev]. rewrite app_assoc, Happ. reflexivity.
Qed.

Lemma chunk_count_spec c n :
  0 < chunk_size c -> 0 < n -> n / chunk_size c + 1 < 2 ^ 32 ->
  let k := chunk_count c n in 0 < k /\ (k - 1) * chunk_size c < n <= k * chunk_size c.
Proof.
  intros Hc Hn Hb. unfold chunk_count.
  pose proof (Z.div_mod n (chunk_size c) ltac:(lia)) as Hdm.
  pose proof (Z.mod_pos_bound n (chunk_size c) Hc). pose proof (Z.div_pos n (chunk_size c) ltac:(lia) Hc).
  set (q := n / chunk_size c) in *. set (r := n mod chunk_size c) in *.
  rewrite (u32_small (q + 1)) by lia. destruct (Z.eqb_spec r 0) as [E|E].
  - replace (q + 1 - 1) with q by lia. rewrite u32_small by lia. cbv zeta. nia.
  - cbv zeta. nia.
Qed.

(** Handing out chunks, when the pool is large enough and when it is not. *)
Lemma get_buffers_run c nbytes :
  0 < chunk_size c -> 0 < nbytes -> nbytes / chunk_size c + 1 < 2 ^ 32 ->
  let n := chunk_count c nbytes in (n - 1) * chunk_size c < nbytes <= n * chunk_size c /\
    (n <= zlen (free_chunks c) -> exists ret pool,
       get_buffers c nbytes = Some (ret, c{{free_chunks := pool}}) /\
       zlen ret = n /\ pool ++ rev ret = free_chunks c) /\
    (zlen (free_chunks c) < n -> get_buffers c nbytes = Some ([], c)).
Proof.
  intros Hc Hn Hb. destruct (chunk_count_spec c nbytes Hc Hn Hb) as [Hpos Hceil].
  cbv zeta. split; [exact Hceil|]. unfold get_buffers.
  destruct (Z.eqb_spec nbytes 0); [lia|]. destruct (Z.eqb_spec (chunk_size c) 0); [lia|].
  split; intros Hl; destruct (Z.ltb_spec (zlen (free_chunks c)) (chunk_count c nbytes)); try lia;
    [|reflexivity].
  destruct (pop_loop_spec (Z.to_nat (chunk_count c nbytes)) (free_chunks c) [])
    as (rest & E & Happ & Hlen); [unfold zlen in Hl; lia|].
  rewrite E. cbn [mbind option_bind app]. do 2 eexists. split; [reflexivity|].
  split; [unfold zlen; lia|exact Happ].
Qed.

(** ** Properties *)

(** C23 What is written to a chunk can be read back: a write never leaves the
    chunk's memory, takes as many bytes as fit behind the cursor, keeps what was
    stored before, and marks the chunk full exactly when nothing more fits; with
    the cursor moved back to where the write began, a read returns the bytes
    written, and a read of more than what is left returns the rest of the
    chunk and rewinds the cursor. *)
Theorem chunk_write_read c src :
  wf_chunk c ->
  let n := Z.min (zlen src) (bytes c - offset c) in
  exists c', chunk_write c src = Some (n, c') /\ wf_chunk c' /\
    stored c' = stored c ++ take (Z.to_nat n) src /\
    (full c' = true <-> bytes c - offset c <= zlen src) /\
    chunk_read (set_offset c' (offset c)) n = Some (take (Z.to_nat n) src, c') /\
    forall len, bytes c' - offset c' < len ->
      chunk_read c' len = Some (drop (Z.to_nat (offset c')) (contents c'), set_offset c' 0).
Proof.
  intros Hwf n. destruct (chunk_write_spec c src Hwf) as (c' & Ew & Hwf' & Hb & _ & _ & Ho & Hst).
  fold n in Ew, Ho, Hst. exists c'. split; [exact Ew|]. split; [exact Hwf'|]. split; [exact Hst|].
  destruct (Hwf) as ([Ho1 Ho2] & Hbb & _). destruct (Hwf') as ([Ho1' Ho2'] & Hbb' & Hz').
  pose proof (zlen_nonneg src) as Hs. split; [|split].
  - unfold full. rewrite Z.eqb_eq. lia.
  - rewrite chunk_read_within;
      [|apply set_offset_wf; [exact Hwf'|lia]
       |change (0 <= n <= bytes c' - offset c); lia].
    change (offset (set_offset c' (offset c))) with (offset c).
    change (contents (set_offset c' (offset c))) with (contents c').
    f_equal. f_equal.
    + assert (E : drop (Z.to_nat (offset c)) (stored c') = take (Z.to_nat n) src).
      { rewrite Hst. rewrite <- (stored_zlen c Hwf). unfold zlen. rewrite Nat2Z.id.
        apply drop_app_length. }
      rewrite <- E. unfold stored, slice. rewrite skipn_firstn_comm. f_equal. lia.
    + rewrite <- Ho. unfold set_offset. destruct c'; reflexivity.
  - intros len Hlen. unfold chunk_read. rewrite chunk_left by exact Hwf'.
    destruct (Z.leb_spec len (bytes c' - offset c')); [lia|].
    rewrite buf_read_in by lia.
    cbn [mbind option_bind]. do 2 f_equal. unfold slice. apply firstn_all2.
    rewrite length_drop. unfold zlen in Hz'. lia.
Qed.

(** C25 [get_buffers] hands out exactly as many chunks as the bytes need: for a
    positive number of bytes, the [n] last chunks of the pool, [n] being the
    number of bytes divided by the chunk size, rounded up - nothing is lost and
    nothing is handed out twice; when the pool is too small nothing is handed
    out and the pool is unchanged. *)
Theorem get_buffers_spec c nbytes :
  0 < chunk_size c -> 0 < nbytes -> nbytes / chunk_size c + 1 < 2 ^ 32 ->
  exists n, (n - 1) * chunk_size c < nbytes <= n * chunk_size c /\
    (n <= zlen (free_chunks c) -> exists ret pool,
       get_buffers c nbytes = Some (ret, c{{free_chunks := pool}}) /\
       zlen ret = n /\ pool ++ rev ret = free_chunks c) /\
    (zlen (free_chunks c) < n -> get_buffers c nbytes = Some ([], c)).
Proof.
  intros Hc Hn Hb. exists (chunk_count c nbytes). exact (get_buffers_run c nbytes Hc Hn Hb).
Qed.

Section AddSpec.
Context {W : Type} `{Env W}.

(** The [i]th chunk cut from the memory [mem] at [base]. *)
Definition is_piece (h : heap) (p : Z) (base sz i : Z) (mem : list Z) : Prop :=
  exists ck, chunks h !! p = Some ck /\ buffer ck = base + i * sz /\ bytes ck = sz /\
    offset ck = 0 /\ contents ck = slice (i * sz) sz mem /\ wf_chunk ck.

(** The registration of chunk [p] is the answer to a call, in the trace, that
    registers exactly the chunk's own [sz] bytes at [base + i * sz]. *)
Definition is_registered (h : heap) (p pd base sz i : Z) (tr : list event) : Prop :=
  exists ck, chunks h !! p = Some ck /\
    Ev (ibv_reg_mr pd (base + i * sz) sz [IBV_ACCESS_REMOTE_WRITE; IBV_ACCESS_LOCAL_WRITE])
       (Some (ck_mr ck)) ∈ tr.

Lemma add_loop_run pd base num sz mem :
  0 < sz -> 0 <= num -> sz * num < 2 ^ 32 -> zlen mem = sz * num ->
  forall k fuel i h c st, Z.of_nat k = num - i -> 0 <= i -> (k < fuel)%nat -> chunk_size c = sz ->
  safe (add_loop fuel pd base (sz * num) (i * sz) mem h c) st (fun r st' =>
    free_chunks (snd r) = free_chunks c ++ seqZ (next h) (num - i) /\ chunk_size (snd r) = sz /\
    next (fst r) = next h + (num - i) /\
    (forall j, i <= j < num -> is_piece (fst r) (next h + (j - i)) base sz j mem) /\
    (forall p, p < next h -> chunks (fst r) !! p = chunks h !! p) /\
    (forall j, i <= j < num -> is_registered (fst r) (next h + (j - i)) pd base sz j (trace st')) /\
    (forall ev, ev ∈ trace st -> ev ∈ trace st')).
Proof.
  intros Hsz Hnum Hmax Hmem. induction k as [|k IH]; intros fuel i h c st Hk Hi Hf Hc;
    (destruct fuel as [|fuel]; [lia|]); cbn [add_loop].
  - destruct (Z.ltb_spec (i * sz) (sz * num)); [nia|]. apply safe_ret. cbn [fst snd].
    replace (num - i) with 0 by lia. rewrite app_nil_r, Z.add_0_r. split; [reflexivity|].
    split; [exact Hc|]. split; [reflexivity|]. split; [|split; [reflexivity|split; [|auto]]];
      intros j Hj; exfalso; lia.
  - destruct (Z.ltb_spec (i * sz) (sz * num)); [|nia]. exec.
    match goal with Hn : new_chunk _ _ = _ |- _ => injection Hn as <- <- end. rewrite Hc.
    replace (u32 (i * sz + sz)) with ((i + 1) * sz) by (rewrite u32_small; nia).
    eapply safe_conseq; [apply IH; try lia; exact Hc|].
    intros [h' c'] st' (Hfree & Hcs & Hnext & Hpieces & Hold & Hreg & Hkeep). cbn [fst snd next chunks trace] in *.
    split.
    { rewrite Hfree. change (free_chunks (take_back c (next h))) with (free_chunks c ++ [next h]).
      rewrite <- app_assoc. f_equal. rewrite (seqZ_cons (next h)) by lia. cbn [app].
      do 2 f_equal; lia. }
    split; [exact Hcs|]. split; [lia|]. split; [|split; [|split]].
    + intros j Hj. destruct (Z.eq_dec j i) as [->|Hne].
      * replace (next h + (i - i)) with (next h) by lia. unfold is_piece.
        rewrite Hold, lookup_insert_eq by lia. eexists. split; [reflexivity|].
        cbn [buffer bytes offset contents]. repeat (split; [reflexivity|]).
        unfold wf_chunk. cbn [buffer bytes offset contents]. split; [lia|]. split; [nia|].
        apply zlen_slice; nia.
      * replace (next h + (j - i)) with (next h + 1 + (j - (i + 1))) by lia.
        apply Hpieces. lia.
    + intros p Hp. rewrite Hold by lia. apply lookup_insert_ne. lia.
    + intros j Hj. destruct (Z.eq_dec j i) as [->|Hne].
      * replace (next h + (i - i)) with (next h) by lia. unfold is_registered.
        rewrite Hold, lookup_insert_eq by lia. eexists. split; [reflexivity|].
        cbn [ck_mr]. apply Hkeep. left.
      * replace (next h + (j - i)) with (next h + 1 + (j - (i + 1))) by lia.
        apply Hreg. lia.
    + intros ev Hev. apply Hkeep. right. exact Hev.
Qed.

(** [n] chunks of [sz] bytes have been cut out of the allocation at [base]. *)
Definition cut (h h' : heap) (n sz base : Z) (mem : list Z) : Prop :=
  next h' = next h + n /\
  (forall i, 0 <= i < n -> is_piece h' (next h + i) base sz i mem) /\
  (forall p, p < next h -> chunks h' !! p = chunks h !! p).

Lemma add_run fuel pd num mem h c s :
  0 < chunk_size c -> 0 <= num -> chunk_size c * num < 2 ^ 32 -> zlen mem = chunk_size c * num ->
  num < Z.of_nat fuel ->
  safe (add fuel pd num mem h c) s (fun r s' => exists base, base <> 0 /\
    free_chunks (snd r) = free_chunks c ++ seqZ (next h) num /\ chunk_size (snd r) = chunk_size c /\
    cut h (fst r) num (chunk_size c) base mem /\
    Ev (malloc (Bytes (chunk_size c * num))) base ∈ trace s' /\
    forall i, 0 <= i < num -> is_registered (fst r) (next h + i) pd base (chunk_size c) i (trace s')).
Proof.
  intros Hsz Hnum Hmax Hmem Hf. unfold add. exec. rewrite (u32_small (chunk_size c * num)) by nia.
  eapply safe_conseq.
  { apply (add_loop_run pd _ num (chunk_size c) mem Hsz Hnum Hmax Hmem (Z.to_nat num) fuel 0);
      auto; lia. }
  intros [h' c'] s' (Hfree & Hcs & Hnext & Hp & Ho & Hreg & Hkeep). cbn [fst snd trace] in *. rewrite Z.sub_0_r in *.
  eexists. split; [eassumption|]. split; [exact Hfree|]. split; [exact Hcs|].
  split; [split; [exact Hnext|]; split; [|exact Ho]|].
  { intros i Hi. specialize (Hp i Hi). rewrite Z.sub_0_r in Hp. exact Hp. }
  split; [apply Hkeep; left|]. intros i Hi. specialize (Hreg i Hi). rewrite Z.sub_0_r in Hreg. exact Hreg.
Qed.

(** C21 [Cluster::add] cuts the memory it allocates into registered chunks: when
    [chunk_size * num] fits in 32 bits, the loop terminates after [num] turns
    and either stops at an assertion (no memory, a registration refused) or adds
    [num] new chunks to the pool; the [i]th owns the [chunk_size] bytes at
    [i * chunk_size] of the allocation, which is one [malloc] of [chunk_size * num]
    bytes, with its cursor at the start; its memory region is the one [ibv_reg_mr]
    answered for exactly these bytes; and no other chunk is touched. *)
Theorem cluster_add fuel pd num mem h c s :
  0 < chunk_size c -> 0 <= num -> chunk_size c * num < 2 ^ 32 -> zlen mem = chunk_size c * num ->
  num < Z.of_nat fuel ->
  safe (add fuel pd num mem h c) s (fun r s' => exists base, base <> 0 /\
    Ev (malloc (Bytes (chunk_size c * num))) base ∈ trace s' /\
    free_chunks (snd r) = free_chunks c ++ seqZ (next h) num /\
    next (fst r) = next h + num /\
    (forall i, 0 <= i < num ->
       is_piece (fst r) (next h + i) base (chunk_size c) i mem /\
       is_registered (fst r) (next h + i) pd base (chunk_size c) i (trace s')) /\
    (forall p, p < next h -> chunks (fst r) !! p = chunks h !! p)).
Proof.
  intros Hsz Hnum Hmax Hmem Hf. eapply safe_conseq; [apply add_run; assumption|].
  intros r s' (base & Hb & Hfree & _ & (Hnext & Hp & Ho) & Hm & Hreg). exists base. auto 10.
Qed.
End AddSpec.

(** ** Witnesses *)

Definition sample_mr : ibv_mr := {| mr_handle := 1; mr_addr := 100; lkey := 2; rkey := 3 |}.

Definition sample_chunk : Chunk :=
  {| buffer := 100; bytes := 4; offset := 1; ck_mr := sample_mr; contents := [9; 9; 9; 9] |}.

Lemma sample_chunk_wf : wf_chunk sample_chunk.
Proof. repeat split; cbn; lia. Qed.

Example chunk_write_read_witness :
  exists c', chunk_write sample_chunk [1; 2; 3; 4; 5] = Some (3, c') /\ stored c' = [9; 1; 2; 3].
Proof.
  destruct (chunk_write_read sample_chunk [1; 2; 3; 4; 5] sample_chunk_wf)
    as (c' & Hw & _ & Hst & _).
  exists c'. split; [exact Hw|exact Hst].
Defined.

Example get_buffers_spec_witness :
  exists n, (n - 1) * 8 < 20 <= n * 8 /\
    (n <= 4 -> exists ret pool,
       get_buffers {| chunk_size := 8; free_chunks := [1; 2; 3; 4] |} 20
       = Some (ret, {| chunk_size := 8; free_chunks := pool |})).
Proof.
  destruct (get_buffers_spec {| chunk_size := 8; free_chunks := [1; 2; 3; 4] |} 20)
    as (n & Hn & Hok & _); [reflexivity..|].
  exists n. split; [exact Hn|]. intros Hle. destruct (Hok Hle) as (ret & pool & E & _).
  exists ret, pool. exact E.
Defined.

Example cluster_add_witness :
  safe (add (H := all_succeed) 9 7 2 (replicate 8 0) {| next := 1; chunks := ∅ |}
          {| chunk_size := 4; free_chunks := [] |}) start (fun r _ => free_chunks (snd r) = [1; 2]).
Proof.
  eapply safe_conseq.
  { apply (cluster_add (H := all_succeed)); try reflexivity. discriminate. }
  intros r _ (base & _ & _ & Hf & _). exact Hf.
Defined.
