(* ===== verification/SynMsg.v ===== *)
(** rdma/Infiniband.h and .cc, the connection message [IBSYNMsg]: its text form,
    its packed layout in memory, and the datagram exchange [send_udp_msg] and
    [recv_udp_msg]. *)
From Stdlib Require Import String.
From S2P Require Import Prelude CText Gid Verbs Mock ExchDest.
Open Scope Z_scope.

Record IBSYNMsg := { m_lid : Z; m_qpn : Z; m_psn : Z; m_gid : list Z }.

(** ** The packed structure: lid at 0, qpn at 2, psn at 6, gid at 10 *)

Definition store16 (e : endian) (v : Z) : list Z :=
  match e with
  | LittleEndian => [byte_at v 0; byte_at v 1]
  | BigEndian => [byte_at v 1; byte_at v 0]
  end.

Definition load16 (e : endian) (b : list Z) : option Z :=
  match b with
  | [b0; b1] => Some (match e with LittleEndian => b1 * 256 + b0 | BigEndian => b0 * 256 + b1 end)
  | _ => None
  end.

Definition layout (e : endian) (m : IBSYNMsg) : list Z :=
  store16 e (m_lid m) ++ store32 e (m_qpn m) ++ store32 e (m_psn m) ++ m_gid m.

Definition unlayout (e : endian) (b : list Z) : option IBSYNMsg :=
  l ← load16 e (slice 0 2 b); q ← load32 e (slice 2 4 b); p ← load32 e (slice 6 4 b);
  Some {| m_lid := l; m_qpn := q; m_psn := p; m_gid := slice 10 16 b |}.

(** ** Text form *)

Definition syn_size : Z :=
  zlen (chars "0000:00000000:00000000:00000000000000000000000000000000") + 1.

(** [Infiniband::gid_to_wire_gid] and [Infiniband::wire_gid_to_gid], the same
    statements as debug/pingpong.c has. *)
Definition ib_gid_to_wire_gid (e : endian) (gid wgid : list Z) : option (list Z) :=
  gid_to_wire_gid e gid wgid.
Definition ib_wire_gid_to_gid (e : endian) (v32 : Z) (wgid gid : list Z) : option (list Z) :=
  wire_gid_to_gid e v32 wgid gid.

(** [gid_to_wire_gid(&im.gid, gid); sprintf(msg, ...)]. *)
Definition print_syn (e : endian) (im : IBSYNMsg) (gid_buf msg : list Z) : option (list Z * list Z) :=
  gid_buf ← ib_gid_to_wire_gid e (m_gid im) gid_buf;
  g ← c_string gid_buf;
  msg ← sprintf msg 0 "%04x:%08x:%08x:%s"
    [AInt (m_lid im); AInt (m_qpn im); AInt (m_psn im); AStr g];
  Some (gid_buf, msg).

(** The store of a [%x]: an [unsigned int], four bytes whatever the type of the
    field it is pointed at. *)
Definition store_x (e : endian) (off : Z) (v : option sval) (b : list Z) : option (list Z) :=
  match v with Some (VNum n) => buf_write off (store32 e n) b | _ => Some b end.

(** [sscanf(msg, "%x:%x:%x:%s", &im.lid, &im.qpn, &im.psn, gid)]. *)
Definition scan_syn (e : endian) (v32 : Z) (msg gid_buf : list Z) (im : IBSYNMsg)
  : option IBSYNMsg :=
  vs ← sscanf msg "%x:%x:%x:%s";
  b ← store_x e 0 (vs !! 0%nat) (layout e im);
  b ← store_x e 2 (vs !! 1%nat) b;
  b ← store_x e 6 (vs !! 2%nat) b;
  gid_buf ← match vs !! 3%nat with
            | Some (VStr t) => buf_write 0 (t ++ [0]) gid_buf
            | _ => Some gid_buf
            end;
  im ← unlayout e b;
  g ← ib_wire_gid_to_gid e v32 gid_buf (m_gid im);
  Some {| m_lid := m_lid im; m_qpn := m_qpn im; m_psn := m_psn im; m_gid := g |}.

(** ** The datagrams *)

Definition EINTR : Z := 4.
Definition EAGAIN : Z := 11.

(** What the uninitialised locals hold, and [ms_inject_socket_failures]. *)
Record udp_env := { u_msg : list Z; u_gid : list Z; u_v32 : Z; u_inject : Z }.

Section Udp.
Context {W : Type} `{Env W} (e : endian) (l : udp_env).

(** The injected failure replaces the result by -1. *)
Definition inject (r : Z) : M (St W) Z :=
  if negb (u_inject l =? 0) then
    let* k := sys sys_rand in
    if Z.rem k (u_inject l) =? 0 then ret (-1) else ret r
  else ret r.

Definition transient (err : Z) : bool := (err =? EINTR) || (err =? EAGAIN).

(** From the label [retry], [retry] counting the retries made. *)
Fixpoint send_retry (fuel : nat) (sd : Z) (im : IBSYNMsg) (peer retry : Z) (gid_buf msg : list Z)
  : M (St W) Z :=
  match fuel with
  | O => out_of_fuel
  | S f =>
      let* (gid_buf, msg) := deref (print_syn e im gid_buf msg) in
      let* r := sys (sys_sendto sd msg peer) in
      let* r := inject r in
      if negb (r =? syn_size) then
        if r <? 0 then
          let* err := sys sys_errno in
          if transient err && (retry <? 3) then send_retry f sd im peer (retry + 1) gid_buf msg
          else ret (-1)
        else ret (-1)
      else ret 0
  end.

Definition send_udp_msg (fuel : nat) (sd : Z) (im : IBSYNMsg) (peer : Z) : M (St W) Z :=
  c_assert (0 <=? sd) ;;;
  send_retry fuel sd im peer 0 (u_gid l) (u_msg l).

(** The message is scanned before the result of [recvfrom] is looked at. The
    result, the message object, and the sender's address when it is stored. *)
Definition recv_udp_msg (sd : Z) (im : IBSYNMsg) : M (St W) (Z * IBSYNMsg * option Z) :=
  c_assert (0 <=? sd) ;;;
  let* (rd, from) := sys (sys_recvfrom sd syn_size) in
  let '(r, d) := rd in
  let* msg := deref (buf_write 0 d (u_msg l)) in
  let* im := deref (scan_syn e (u_v32 l) msg (u_gid l) im) in
  let* r := inject r in
  if r =? -1 then
    let* err := sys sys_errno in
    if transient err then ret (1, im, None) else ret (-1, im, None)
  else if negb (r =? syn_size) then ret (1, im, None)
  else ret (0, im, Some from).
End Udp.

(** ** Well-formed messages and their text *)

Definition wf_syn (m : IBSYNMsg) : Prop :=
  0 <= m_lid m < 2 ^ 16 /\ 0 <= m_qpn m < 2 ^ 32 /\ 0 <= m_psn m < 2 ^ 32 /\ wf_gid (m_gid m).

Definition hex4 (n : Z) : list Z := pad true (Some 4) (print_uint 16 n).

Definition syn_text (m : IBSYNMsg) : list Z :=
  hex4 (m_lid m) ++ colon :: hex8 (m_qpn m) ++ colon :: hex8 (m_psn m) ++ colon :: gid_hex (m_gid m).

Lemma hex4_zlen n : 0 <= n < 2 ^ 16 -> zlen (hex4 n) = 4.
Proof. intros. unfold hex4. rewrite pad_zlen. pose proof (print_uint_zlen 16 n 4). lia. Qed.

Lemma syn_text_nonzero m : wf_syn m -> Forall (fun c => c <> 0) (syn_text m).
Proof.
  intros (? & ? & ? & ? & Hg). unfold syn_text.
  repeat (rewrite Forall_app || rewrite Forall_cons_iff).
  repeat split; try discriminate;
    solve [eapply (all_digits_nonzero 16); [lia|apply hex8_digits; lia]
          |eapply (all_digits_nonzero 16); [lia|apply pad_all_digits, digits_all; lia]
          |eapply (all_digits_nonzero 16); [lia|apply gid_hex_digits, Hg]].
Qed.

Lemma syn_wire_zlen m : wf_syn m -> zlen (syn_text m ++ [0]) = syn_size.
Proof.
  intros (? & ? & ? & Hl & _). unfold syn_text. autorewrite with zlen.
  rewrite hex4_zlen, !hex8_zlen, gid_hex_zlen by assumption. unfold zlen. rewrite Hl. reflexivity.
Qed.

Lemma print_syn_exact e m gid_buf msg :
  wf_syn m -> zlen gid_buf = gid_buf_size -> zlen msg = syn_size ->
  print_syn e m gid_buf msg = Some (gid_hex (m_gid m) ++ [0], syn_text m ++ [0]).
Proof.
  intros Hm Hg Hz. destruct (Hm) as (? & ? & ? & Hwf). unfold print_syn, ib_gid_to_wire_gid.
  rewrite gid_to_wire_gid_hex by assumption. cbn [mbind option_bind].
  rewrite c_string_app by (apply gid_hex_nonzero, Hwf). cbn [mbind option_bind].
  unfold sprintf, sprintf_text.
  change (format _) with
    (Some [DConv true (Some 4) false CvX; DChar colon; DConv true (Some 8) false CvX; DChar colon;
           DConv true (Some 8) false CvX; DChar colon; DConv false None false CvS]).
  cbn -[pad print_uint u32 u64 colon buf_write gid_hex].
  rewrite !u32_small by (assumption || lia).
  fold (hex4 (m_lid m)) (hex8 (m_qpn m)) (hex8 (m_psn m)). rewrite app_nil_r, pad_no_width.
  change (hex4 (m_lid m) ++ _) with (syn_text m).
  rewrite buf_write_full by (rewrite Hz; apply syn_wire_zlen, Hm). reflexivity.
Qed.

Lemma sscanf_syn m rest :
  wf_syn m ->
  sscanf (syn_text m ++ 0 :: rest) "%x:%x:%x:%s"
  = Some [VNum (m_lid m); VNum (m_qpn m); VNum (m_psn m); VStr (gid_hex (m_gid m))].
Proof.
  intros Hm. destruct (Hm) as (? & ? & ? & Hl & Hb). unfold sscanf.
  rewrite c_string_app by (apply syn_text_nonzero, Hm). cbn [mbind option_bind].
  change (format _) with
    (Some [DConv false None false CvX; DChar colon; DConv false None false CvX; DChar colon;
           DConv false None false CvX; DChar colon; DConv false None false CvS]).
  cbn [mbind option_bind]. unfold syn_text.
  assert (E4 : forall ds r, scan_dirs (DConv false None false CvX :: DChar colon :: ds)
                 (hex4 (m_lid m) ++ colon :: r) = VNum (m_lid m) :: scan_dirs ds r).
  { intros ds r. cbn [scan_dirs]. unfold hex4.
    rewrite (scan_print_num 16 (Some 4)) by (try lia; apply (colon_stops 16); lia).
    rewrite Z.eqb_refl, u32_small by lia. reflexivity. }
  rewrite E4, !scan_dirs_hex by assumption.
  cbn [scan_dirs]. rewrite (scan_str_digits 16); [reflexivity|lia|apply gid_hex_digits, Hb|].
  intros E%(f_equal (@length Z)). pose proof (gid_hex_zlen (m_gid m)) as Hz.
  unfold zlen in Hz. rewrite E, Hl in Hz. discriminate Hz.
Qed.

(** ** The stores into the packed structure *)

Lemma load32_store32 e v : 0 <= v < 2 ^ 32 -> load32 e (store32 e v) = Some v.
Proof.
  intros Hv. unfold store32. destruct e; cbn [rev app load32]; f_equal; unfold be32;
    rewrite !byte_at_spec by lia; change (2 ^ (8 * 3)) with 16777216;
    change (2 ^ (8 * 2)) with 65536; change (2 ^ (8 * 1)) with 256; change (2 ^ (8 * 0)) with 1;
    Z.div_mod_to_equations; lia.
Qed.

Lemma store32_length e v : length (store32 e v) = 4%nat.
Proof. destruct e; reflexivity. Qed.

(** The lid a receiver keeps: the first two of the four bytes stored. *)
Definition received_lid (e : endian) (v : Z) : Z :=
  match e with LittleEndian => v | BigEndian => 0 end.

Lemma load16_store32 e v :
  0 <= v < 2 ^ 16 -> load16 e (take 2 (store32 e v)) = Some (received_lid e v).
Proof.
  intros Hv. unfold store32. destruct e; cbn [rev app firstn load16 received_lid]; f_equal;
    rewrite !byte_at_spec by lia; change (2 ^ (8 * 3)) with 16777216;
    change (2 ^ (8 * 2)) with 65536; change (2 ^ (8 * 1)) with 256; change (2 ^ (8 * 0)) with 1;
    Z.div_mod_to_equations; lia.
Qed.

Lemma buf_write_at off pre d old post :
  zlen pre = off -> length d = length old ->
  buf_write off d (pre ++ old ++ post) = Some (pre ++ d ++ post).
Proof. intros <- Hd. apply buf_write_app. unfold zlen. lia. Qed.

Lemma scan_syn_exact e v32 m gid_buf im :
  wf_syn m -> zlen gid_buf = gid_buf_size -> zlen (m_gid im) = 16 ->
  scan_syn e v32 (syn_text m ++ [0]) gid_buf im
  = Some {| m_lid := received_lid e (m_lid m); m_qpn := m_qpn m; m_psn := m_psn m; m_gid := m_gid m |}.
Proof.
  intros Hm Hg Hz. destruct (Hm) as (Hl & Hq & Hp & Hgid). unfold scan_syn.
  rewrite sscanf_syn by exact Hm. cbn [mbind option_bind lookup list_lookup store_x].
  pose proof (load16_store32 e (m_lid m) Hl) as L16.
  pose proof (load32_store32 e (m_qpn m) Hq) as Lq. pose proof (load32_store32 e (m_psn m) Hp) as Lp.
  pose proof (store32_length e (m_lid m)) as N0. pose proof (store32_length e (m_qpn m)) as N1.
  pose proof (store32_length e (m_psn m)) as N2.
  set (sl := store32 e (m_lid m)) in *. set (sq := store32 e (m_qpn m)) in *.
  set (sp := store32 e (m_psn m)) in *.
  destruct sl as [|l0 [|l1 [|l2 [|l3 [|]]]]]; try discriminate N0.
  destruct sq as [|q0 [|q1 [|q2 [|q3 [|]]]]]; try discriminate N1.
  destruct sp as [|p0 [|p1 [|p2 [|p3 [|]]]]]; try discriminate N2.
  assert (Hlay : exists a0 a1 b0 b1 b2 b3 c0 c1 c2 c3,
    layout e im = [a0; a1; b0; b1; b2; b3; c0; c1; c2; c3] ++ m_gid im)
    by (destruct e; do 10 eexists; reflexivity).
  destruct Hlay as (a0 & a1 & b0 & b1 & b2 & b3 & c0 & c1 & c2 & c3 & ->).
  assert (W0 : buf_write 0 [l0; l1; l2; l3] ([a0; a1; b0; b1; b2; b3; c0; c1; c2; c3] ++ m_gid im)
               = Some ([l0; l1; l2; l3; b2; b3; c0; c1; c2; c3] ++ m_gid im))
    by exact (buf_write_at 0 [] [l0; l1; l2; l3] [a0; a1; b0; b1]
                ([b2; b3; c0; c1; c2; c3] ++ m_gid im) eq_refl eq_refl).
  assert (W1 : buf_write 2 [q0; q1; q2; q3] ([l0; l1; l2; l3; b2; b3; c0; c1; c2; c3] ++ m_gid im)
               = Some ([l0; l1; q0; q1; q2; q3; c0; c1; c2; c3] ++ m_gid im))
    by exact (buf_write_at 2 [l0; l1] [q0; q1; q2; q3] [l2; l3; b2; b3]
                ([c0; c1; c2; c3] ++ m_gid im) eq_refl eq_refl).
  assert (W2 : buf_write 6 [p0; p1; p2; p3] ([l0; l1; q0; q1; q2; q3; c0; c1; c2; c3] ++ m_gid im)
               = Some ([l0; l1; q0; q1; q2; q3; p0; p1; p2; p3] ++ m_gid im))
    by exact (buf_write_at 6 [l0; l1; q0; q1; q2; q3] [p0; p1; p2; p3] [c0; c1; c2; c3]
                (m_gid im) eq_refl eq_refl).
  rewrite W0. cbn [mbind option_bind]. rewrite W1. cbn [mbind option_bind]. rewrite W2.
  cbn [mbind option_bind].
  destruct (split_at 33 gid_buf) as (old & tl & -> & Hold); [unfold zlen, gid_buf_size in Hg; lia|].
  rewrite (buf_write_app [] _ old tl).
  2:{ rewrite zlen_app, gid_hex_zlen. unfold zlen. rewrite Hold, (proj1 Hgid). reflexivity. }
  cbn [mbind option_bind app]. unfold unlayout.
  change (slice 0 2 _) with [l0; l1]. change (slice 2 4 _) with [q0; q1; q2; q3].
  change (slice 6 4 _) with [p0; p1; p2; p3]. change (take 2 _) with [l0; l1] in L16.
  rewrite L16, Lq, Lp. cbn [mbind option_bind m_gid m_lid m_qpn m_psn].
  unfold ib_wire_gid_to_gid. rewrite <- app_assoc, wire_gid_to_gid_hex; [reflexivity|exact Hgid|].
  change (slice 10 16 _) with (take 16 (m_gid im)). unfold zlen in *. rewrite length_take. lia.
Qed.

(** ** The exchange *)

Definition wf_udp (l : udp_env) : Prop := zlen (u_gid l) = gid_buf_size /\ zlen (u_msg l) = syn_size.

(** The datagrams sent, oldest first, each with what [sendto] answered. *)
Fixpoint datagrams (tr : list event) : list (Z * list Z * Z * Z) :=
  match tr with
  | [] => []
  | Ev c r :: tr' =>
      datagrams tr' ++
      (match c return ret_of c -> list (Z * list Z * Z * Z) with
       | sys_sendto sd d peer => fun a => [(sd, d, peer, a)]
       | _ => fun _ => []
       end) r
  end.

Lemma wire_gid_zlen m : wf_syn m -> zlen (gid_hex (m_gid m) ++ [0]) = gid_buf_size.
Proof.
  intros (_ & _ & _ & Hl & _). rewrite zlen_app, gid_hex_zlen. unfold zlen. rewrite Hl. reflexivity.
Qed.

Section UdpSpec.
Context {W : Type} `{Env W} (e : endian) (l : udp_env).

(** What [inject] can change. *)
Lemma inject_run r s :
  returns (inject l r) s (fun x s' =>
    datagrams (trace s') = datagrams (trace s) /\ (x = r \/ x = -1) /\ (u_inject l = 0 -> x = r)).
Proof.
  unfold inject. exec; cbn [datagrams trace]; rewrite ?app_nil_r;
    (split; [reflexivity|]); (split; [auto|]); intros; auto; contradiction.
Qed.

(** At most [k + 1] attempts, each a datagram of the text of the message; the
    result is 0 only if the last one was sent whole, and, when no failure is
    injected, exactly then, the earlier ones having failed. *)
Definition attempts (sd : Z) (im : IBSYNMsg) (peer : Z) (k : nat) (tr : list event) (rc : Z)
    (tr' : list event) : Prop :=
  exists rs a,
    datagrams tr' = datagrams tr ++ map (fun x => (sd, syn_text im ++ [0], peer, x)) (rs ++ [a]) /\
    (length rs <= k)%nat /\ (rc = 0 \/ rc = -1) /\ (rc = 0 -> a = syn_size) /\
    (u_inject l = 0 -> Forall (fun x => x < 0) rs /\ (rc = 0 <-> a = syn_size)).

Lemma last_attempt sd im peer k tr a rc tr' :
  datagrams tr' = datagrams tr ++ [(sd, syn_text im ++ [0], peer, a)] ->
  (rc = 0 \/ rc = -1) -> (rc = 0 -> a = syn_size) -> (u_inject l = 0 -> a = syn_size -> rc = 0) ->
  attempts sd im peer k tr rc tr'.
Proof.
  intros Ed Hrc H0 H1. exists [], a. cbn [app map length]. split; [exact Ed|]. split; [lia|].
  split; [exact Hrc|]. split; [exact H0|]. intros Hi. split; [constructor|]. split; auto.
Qed.

Lemma more_attempts sd im peer k tr a tr1 rc tr' :
  datagrams tr1 = datagrams tr ++ [(sd, syn_text im ++ [0], peer, a)] ->
  (u_inject l = 0 -> a < 0) -> attempts sd im peer k tr1 rc tr' ->
  attempts sd im peer (S k) tr rc tr'.
Proof.
  intros Ed Ha (rs & b & Ed' & Hk & Hrc & H0 & H1). exists (a :: rs), b.
  split; [rewrite Ed', Ed, <- app_assoc; reflexivity|]. split; [cbn [length]; lia|].
  split; [exact Hrc|]. split; [exact H0|]. intros Hi. destruct (H1 Hi) as [Hf He].
  split; [constructor; auto|exact He].
Qed.

Lemma send_retry_run sd im peer :
  wf_syn im -> forall fuel retry gid_buf msg s,
  0 <= retry <= 3 -> 3 - retry < Z.of_nat fuel ->
  zlen gid_buf = gid_buf_size -> zlen msg = syn_size ->
  returns (send_retry e l fuel sd im peer retry gid_buf msg) s (fun rc s' =>
    attempts sd im peer (Z.to_nat (3 - retry)) (trace s) rc (trace s')).
Proof.
  intros Him. assert (Hpos : 0 < syn_size) by reflexivity.
  induction fuel as [|fuel IH]; intros retry gid_buf msg s Hk Hf Hg Hm; [lia|]. cbn [send_retry].
  rewrite print_syn_exact by assumption. apply returns_bind, returns_ret, returns_bind, returns_sys.
  intros a w _. cbn [ret_of] in a. apply returns_bind. eapply returns_conseq; [apply inject_run|].
  intros r s1 (Ed & Hr & Hi). cbn [datagrams trace] in Ed.
  assert (Hstop : forall rc (s2 : St W), datagrams (trace s2) = datagrams (trace s1) -> (rc = 0 \/ rc = -1) ->
            (rc = 0 -> a = syn_size) -> (u_inject l = 0 -> a = syn_size -> rc = 0) ->
            attempts sd im peer (Z.to_nat (3 - retry)) (trace s) rc (trace s2))
    by (intros rc s2 E2 ? ? ?; eapply last_attempt; [rewrite E2; exact Ed|assumption..]).
  destruct (Z.eqb_spec r syn_size) as [Er|Er]; cbn [negb]; [apply returns_ret, Hstop; auto; lia|].
  destruct (Z.ltb_spec r 0) as [Hneg|Hge]; [|apply returns_ret, Hstop; auto; lia].
  apply returns_bind, returns_sys. intros err w2 _.
  assert (E2 : datagrams (trace (mkSt w2 (Ev sys_errno err :: trace s1) (cells s1))) =
               datagrams (trace s1)) by (cbn [datagrams trace]; apply app_nil_r).
  destruct (transient err && (retry <? 3)) eqn:Et; [|apply returns_ret, Hstop; auto; lia].
  apply andb_true_iff in Et as [_ Hlt%Z.ltb_lt].
  eapply returns_conseq; [apply (IH (retry + 1)); [lia|lia|apply wire_gid_zlen, Him|apply syn_wire_zlen, Him]|].
  intros rc s3 Hatt. replace (Z.to_nat (3 - retry)) with (S (Z.to_nat (3 - (retry + 1)))) by lia.
  eapply (more_attempts sd im peer _ _ a); [rewrite E2; exact Ed| |exact Hatt].
  intros Hz. rewrite <- (Hi Hz). exact Hneg.
Qed.
End UdpSpec.

(** ** Properties *)

(** C14 The text form of the connection message is exact between machines of any
    byte order, but for the LID: what one side prints the other reads back with
    the same queue pair number, packet sequence number and GID; a little-endian
    receiver also gets the LID, a big-endian one gets 0, because [%x] stores
    four bytes at the two-byte field and [qpn] then overwrites the second half. *)
Theorem syn_roundtrip e e' v32 m gid_buf msg gid_buf' im :
  wf_syn m -> zlen gid_buf = gid_buf_size -> zlen msg = syn_size ->
  zlen gid_buf' = gid_buf_size -> zlen (m_gid im) = 16 ->
  exists gtext text, print_syn e m gid_buf msg = Some (gtext, text) /\ zlen text = syn_size /\
    scan_syn e' v32 text gid_buf' im =
      Some {| m_lid := match e' with LittleEndian => m_lid m | BigEndian => 0 end;
              m_qpn := m_qpn m; m_psn := m_psn m; m_gid := m_gid m |}.
Proof.
  intros Hm Hg Hz Hg' Hi. do 2 eexists. split; [apply print_syn_exact; assumption|].
  split; [apply syn_wire_zlen, Hm|]. apply scan_syn_exact; assumption.
Qed.

(** C27 [send_udp_msg] sends the message at most four times and answers 0 or -1:
    every datagram is the complete text of the message, to the peer given; 0
    means that the last [sendto] took it whole, and when no failures are
    injected the converse holds too, every earlier attempt having failed. *)
Theorem send_udp_msg_spec {W} `{Env W} e l fuel sd im peer s :
  wf_syn im -> wf_udp l -> 0 <= sd -> (3 < fuel)%nat ->
  returns (send_udp_msg e l fuel sd im peer) s (fun rc s' => exists rs a,
    datagrams (trace s') = datagrams (trace s) ++
      map (fun x => (sd, syn_text im ++ [0], peer, x)) (rs ++ [a]) /\
    (length rs <= 3)%nat /\ (rc = 0 \/ rc = -1) /\ (rc = 0 -> a = syn_size) /\
    (u_inject l = 0 -> Forall (fun x => x < 0) rs /\ (rc = 0 <-> a = syn_size))).
Proof.
  intros Him [Hg Hm] Hsd Hf. unfold send_udp_msg, c_assert.
  destruct (Z.leb_spec 0 sd); [|lia]. apply returns_bind, returns_ret.
  eapply returns_conseq; [apply send_retry_run; auto; lia|].
  intros rc s' Hatt. exact Hatt.
Qed.

(** A message received whole. *)
Lemma recv_udp_msg_run {W} `{Env W} e l sd im m from s :
  wf_syn m -> wf_udp l -> u_inject l = 0 -> 0 <= sd -> zlen (m_gid im) = 16 ->
  fst (ext (sys_recvfrom sd syn_size) (world s)) = (syn_size, syn_text m ++ [0], from) ->
  returns (recv_udp_msg e l sd im) s (fun r s' =>
    r = (0, {| m_lid := received_lid e (m_lid m); m_qpn := m_qpn m; m_psn := m_psn m;
               m_gid := m_gid m |}, Some from) /\
    world s' = snd (ext (sys_recvfrom sd syn_size) (world s)) /\
    trace s' = Ev (sys_recvfrom sd syn_size) (syn_size, syn_text m ++ [0], from) :: trace s).
Proof.
  intros Hm [Hg Hb] Hi Hsd Hz Hr. unfold recv_udp_msg, c_assert, inject. rewrite Hi.
  destruct (Z.leb_spec 0 sd); [|lia]. apply returns_bind, returns_ret, returns_bind, returns_sys.
  intros [[r d] f] w E. rewrite E in Hr. cbn [fst] in Hr. injection Hr as -> -> ->.
  rewrite buf_write_full by (rewrite Hb; apply syn_wire_zlen, Hm).
  apply returns_bind, returns_ret. rewrite scan_syn_exact by assumption.
  apply returns_bind, returns_ret, returns_bind. cbn [Z.eqb negb]. apply returns_ret.
  change (syn_size =? -1) with false. rewrite Z.eqb_refl. cbn [negb]. apply returns_ret.
  rewrite E. repeat split.
Qed.

(** ** Witnesses *)

Definition sample_syn : IBSYNMsg :=
  {| m_lid := 4660; m_qpn := 3735928559; m_psn := 66; m_gid := mock_gid |}.

Definition sample_udp : udp_env :=
  {| u_msg := replicate 56 170; u_gid := replicate 33 170; u_v32 := 0; u_inject := 0 |}.

Lemma sample_syn_wf : wf_syn sample_syn.
Proof. repeat split; try (cbn; lia). repeat constructor; cbn; lia. Qed.

Lemma sample_udp_wf : wf_udp sample_udp.
Proof. split; reflexivity. Qed.

Example syn_roundtrip_witness :
  exists gtext text,
    print_syn BigEndian sample_syn (u_gid sample_udp) (u_msg sample_udp) = Some (gtext, text) /\
    scan_syn LittleEndian 0 text (u_gid sample_udp)
      {| m_lid := 0; m_qpn := 0; m_psn := 0; m_gid := zero_gid |} = Some sample_syn.
Proof.
  destruct (syn_roundtrip BigEndian LittleEndian 0 sample_syn (u_gid sample_udp) (u_msg sample_udp)
    (u_gid sample_udp) {| m_lid := 0; m_qpn := 0; m_psn := 0; m_gid := zero_gid |})
    as (g & t & Hp & _ & Hs); [exact sample_syn_wf|reflexivity..|].
  exists g, t. split; [exact Hp|exact Hs].
Defined.

(** Two attempts interrupted, the third taken. *)
Definition interrupted : Env nat := scripted (fun c n =>
  match c return option (ret_of c) with
  | sys_sendto _ _ _ => if (n <? 4)%nat then Some (-1) else None
  | sys_errno => Some EINTR
  | _ => None
  end).

Example send_udp_msg_spec_witness :
  returns (send_udp_msg (H := interrupted) LittleEndian sample_udp 4 3 sample_syn 1) Mock.start
    (fun rc s' => rc = 0 \/ rc = -1).
Proof.
  eapply returns_conseq.
  { apply (send_udp_msg_spec (H := interrupted));
      [exact sample_syn_wf|exact sample_udp_wf|discriminate|lia]. }
  intros rc s' (rs & a & _ & _ & Hrc & _). exact Hrc.
Defined.
