(* ===== verification/Infiniband.v ===== *)
(** rdma/Infiniband.h and .cc: the adapter object [Infiniband], completion
    channels, completion queues and queue pairs, with their constructors,
    [init]s, destructors and factories, and the posting of receive buffers. *)
From Stdlib Require Import String.
From coqutil Require Import Datatypes.RecordSetters.
From S2P Require Import Prelude Gid Verbs Mock QpProtocol ExchDest SynMsg MemoryManager.
From stdpp Require Import gmap.
Open Scope Z_scope.
Import DoubleBraceUpdate.

(** The adapter object; the fields of its [Device] that are used stand for it. *)
Record Infiniband := {
  ib_ctxt : Z; ib_lid : Z; ib_gid : list Z; ib_physical_port : Z; ib_pd : Z; ib_srq : Z;
  ib_max_send_wr : Z; ib_max_recv_wr : Z; ib_max_cqe : Z; ib_max_sge : Z; ib_max_inline_data : Z;
  memory_manager : MemoryManager }.

Definition MAX_ACK_EVENT : Z := 128.

Record CompletionChannel := {
  cc_channel : Z; cc_cq : Z; cq_events_that_need_ack : Z }.

Record CompletionQueue := { cq_cq : Z; queue_depth : Z }.

Record QueuePair := {
  qp_type : ibv_qp_type; qp_port : Z; qp_pd : Z; qp_srq : Z; qp_qp : option ibv_qp;
  qp_txcq : Z; qp_rxcq : option CompletionQueue; initial_psn : Z;
  qp_max_send_wr : Z; qp_max_recv_wr : Z; q_key : Z }.

Section Infiniband.
Context {W : Type} `{Env W}.
(** [fd] of an [ibv_comp_channel] and [async_fd] of an [ibv_context]. *)
Context (chan_fd async_fd : Z -> Z).

Definition set_nonblocking (fd : Z) : M (St W) Z :=
  let* flags := sys (sys_fcntl_getfl fd) in
  if flags =? -1 then ret (-1) else
  let* rc := sys (sys_fcntl_setfl_nonblock fd flags) in
  if negb (rc =? 0) then ret (-1) else ret 0.

Definition create_shared_receive_queue (ib : Infiniband) (max_wr max_sge : Z) : M (St W) Z :=
  sys (ibv_create_srq (ib_pd ib) max_wr max_sge).

(** ** Completion channel *)

Definition new_channel : CompletionChannel :=
  {| cc_channel := 0; cc_cq := 0; cq_events_that_need_ack := 0 |}.

Definition channel_init (ib : Infiniband) (cc : CompletionChannel) : M (St W) (Z * CompletionChannel) :=
  let* ch := sys (ibv_create_comp_channel (ib_ctxt ib)) in
  let cc := cc{{cc_channel := ch}} in
  if ch =? 0 then ret (-1, cc) else
  let* rc := set_nonblocking (chan_fd ch) in
  if rc <? 0 then sys (ibv_destroy_comp_channel ch) ;;; ret (-1, cc)
  else ret (0, cc).

(** [~CompletionChannel]. *)
Definition channel_delete (cc : CompletionChannel) : M (St W) unit :=
  if cc_channel cc =? 0 then ret tt
  else let* rc := sys (ibv_destroy_comp_channel (cc_channel cc)) in c_assert (rc =? 0).

Definition create_comp_channel (ib : Infiniband) : M (St W) (option CompletionChannel) :=
  let* (rc, cc) := channel_init ib new_channel in
  if negb (rc =? 0) then channel_delete cc ;;; ret None else ret (Some cc).

Definition bind_cq (cc : CompletionChannel) (c : Z) : CompletionChannel := cc{{cc_cq := c}}.

Definition ack_events (cc : CompletionChannel) : M (St W) CompletionChannel :=
  sys (ibv_ack_cq_events (cc_cq cc) (cq_events_that_need_ack cc)) ;;;
  ret (cc{{cq_events_that_need_ack := 0}}).

(** [get_cq_event]; the queue acknowledged is the one the event names. *)
Definition get_cq_event (cc : CompletionChannel) : M (St W) (bool * CompletionChannel) :=
  let* (rc, cq) := sys (ibv_get_cq_event (cc_channel cc)) in
  if negb (rc =? 0) then sys sys_errno ;;; ret (false, cc) else
  let n := u32 (cq_events_that_need_ack cc + 1) in
  if n =? MAX_ACK_EVENT then
    sys (ibv_ack_cq_events cq MAX_ACK_EVENT) ;;;
    ret (true, cc{{cq_events_that_need_ack := 0}})
  else ret (true, cc{{cq_events_that_need_ack := n}}).

(** ** Completion queue *)

Definition cq_init (ib : Infiniband) (cq : CompletionQueue) (cc : CompletionChannel)
  : M (St W) (Z * CompletionQueue * CompletionChannel) :=
  let* c := sys (ibv_create_cq (ib_ctxt ib) (i32 (queue_depth cq)) (cc_channel cc)) in
  let cq := cq{{cq_cq := c}} in
  if c =? 0 then ret (-1, cq, cc) else
  let* rc := sys (ibv_req_notify_cq c false) in
  if negb (rc =? 0) then sys (ibv_destroy_cq c) ;;; ret (-1, cq, cc)
  else ret (0, cq, bind_cq cc c).

(** [~CompletionQueue]. *)
Definition cq_delete (cq : CompletionQueue) : M (St W) unit :=
  if cq_cq cq =? 0 then ret tt
  else let* rc := sys (ibv_destroy_cq (cq_cq cq)) in c_assert (rc =? 0).

(** [create_comp_queue(cc)]; a NULL channel is dereferenced. *)
Definition create_comp_queue (ib : Infiniband) (cc : option CompletionChannel)
  : M (St W) (option (CompletionQueue * CompletionChannel)) :=
  let* cc := deref cc in
  let* (rcq, cc) := cq_init ib {| cq_cq := 0; queue_depth := ib_max_cqe ib |} cc in
  let '(rc, cq) := rcq in
  if negb (rc =? 0) then cq_delete cq ;;; ret None else ret (Some (cq, cc)).

Definition rearm_notify (cq : CompletionQueue) : M (St W) Z := sys (ibv_req_notify_cq (cq_cq cq) false).

Definition poll_cq (cq : CompletionQueue) (num_entries : Z) : M (St W) (Z * list ibv_wc) :=
  let* (r, cs) := sys (ibv_poll_cq (cq_cq cq) num_entries) in
  if r <? 0 then ret (-1, []) else ret (r, cs).

(** ** Queue pair *)

Definition type_mask (t : ibv_qp_type) : option (list qp_attr_bit) :=
  match t with
  | IBV_QPT_RC => Some [IBV_QP_ACCESS_FLAGS; IBV_QP_PKEY_INDEX]
  | IBV_QPT_UD => Some [IBV_QP_QKEY; IBV_QP_PKEY_INDEX]
  | IBV_QPT_RAW_PACKET => Some []
  | IBV_QPT_UC => None
  end.

Definition valid_type (t : ibv_qp_type) : bool :=
  match t with IBV_QPT_RC | IBV_QPT_UD | IBV_QPT_RAW_PACKET => true | IBV_QPT_UC => false end.

(** The constructor. *)
Definition new_queue_pair (ib : Infiniband) (t : ibv_qp_type) (tx : Z) (rx : option CompletionQueue)
    (key : Z) : M (St W) QueuePair :=
  let* r := sys sys_lrand48 in
  c_assert (valid_type t) ;;;
  ret {| qp_type := t; qp_port := ib_physical_port ib; qp_pd := ib_pd ib; qp_srq := ib_srq ib;
         qp_qp := None; qp_txcq := tx; qp_rxcq := rx; initial_psn := Z.land r 16777215;
         qp_max_send_wr := ib_max_send_wr ib; qp_max_recv_wr := ib_max_recv_wr ib; q_key := key |}.

Definition qp_init_attr (q : QueuePair) : ibv_qp_attr :=
  {| qp_state := IBV_QPS_INIT; path_mtu := IBV_MTU_1024; dest_qp_num := 0; rq_psn := 0; sq_psn := 0;
     max_rd_atomic := 0; max_dest_rd_atomic := 0; min_rnr_timer := 0; timeout := 0; retry_cnt := 0;
     rnr_retry := 0; pkey_index := 0; port_num := u8 (qp_port q); qkey := q_key q;
     qp_access_flags := [IBV_ACCESS_REMOTE_WRITE; IBV_ACCESS_LOCAL_WRITE]; ah_attr := zero_ah_attr |}.

(** [QueuePair::init]. *)
Definition qp_init (ib : Infiniband) (q : QueuePair) : M (St W) (Z * QueuePair) :=
  let* rx := deref (qp_rxcq q) in
  let* o := sys (ibv_create_qp (qp_pd q)
    {| qi_send_cq := qp_txcq q; qi_recv_cq := cq_cq rx; qi_srq := qp_srq q;
       max_send_wr := qp_max_send_wr q; max_recv_wr := 0; max_send_sge := 1; max_recv_sge := 0;
       max_inline_data := ib_max_inline_data ib; qi_qp_type := qp_type q; sq_sig_all := 0 |}) in
  match o with
  | None => ret (-1, q)
  | Some h =>
      let q := q{{qp_qp := Some h}} in
      match type_mask (qp_type q) with
      | None => assert_fail
      | Some bits =>
          let* rc := sys (ibv_modify_qp (qp_handle h) (qp_init_attr q)
                            ([IBV_QP_STATE; IBV_QP_PORT] ++ bits)) in
          if negb (rc =? 0) then sys (ibv_destroy_qp (qp_handle h)) ;;; ret (-1, q)
          else ret (0, q)
      end
  end.

(** [~QueuePair]. *)
Definition qp_delete (q : QueuePair) : M (St W) unit :=
  match qp_qp q with
  | None => ret tt
  | Some h => let* rc := sys (ibv_destroy_qp (qp_handle h)) in c_assert (rc =? 0)
  end.

(** The queries about the peer and the state: the result, and what is stored
    through the pointer, when there is one ([want]). *)
Definition query_qp (q : QueuePair) : M (St W) (Z * ibv_qp_attr * ibv_qp_state) :=
  let* h := deref (qp_qp q) in sys (ibv_query_qp (qp_handle h)).

Definition get_remote_qp_number (q : QueuePair) (want : bool) : M (St W) (Z * option Z) :=
  let* (rc, _) := query_qp q in let '(r, a) := rc in
  if negb (r =? 0) then ret (-1, None)
  else ret (0, if want then Some (dest_qp_num a) else None).

Definition get_remote_lid (q : QueuePair) (want : bool) : M (St W) (Z * option Z) :=
  let* (rc, _) := query_qp q in let '(r, a) := rc in
  if negb (r =? 0) then ret (-1, None)
  else ret (0, if want then Some (dlid (ah_attr a)) else None).

(** The number of a state in [enum ibv_qp_state]. *)
Definition state_number (st : ibv_qp_state) : Z :=
  match st with
  | IBV_QPS_RESET => 0 | IBV_QPS_INIT => 1 | IBV_QPS_RTR => 2 | IBV_QPS_RTS => 3 | IBV_QPS_ERR => 6
  end.

Definition get_state (q : QueuePair) : M (St W) Z :=
  let* (rc, _) := query_qp q in let '(r, a) := rc in
  if negb (r =? 0) then ret (-1) else ret (state_number (qp_state a)).

Definition is_error (q : QueuePair) : M (St W) bool :=
  let* (rc, cur) := query_qp q in let '(r, _) := rc in
  if negb (r =? 0) then ret true else ret (bool_decide (cur = IBV_QPS_ERR)).

(** [create_queue_pair]: [tx_cq] is the transmit queue of the worker that the
    network stack's [get_worker] answers. The channel of the new receive queue
    is returned with the queue pair. *)
Definition create_queue_pair (ib : Infiniband) (t : ibv_qp_type) (tx_cq : Z)
  : M (St W) (option (QueuePair * CompletionChannel)) :=
  let* cc := create_comp_channel ib in
  match cc with
  | None => ret None
  | Some cc =>
      let* cq := create_comp_queue ib (Some cc) in
      let* (rx, cc) :=
        match cq with
        | None => sys (ibv_destroy_comp_channel (cc_channel cc)) ;;; ret (None, cc)
        | Some (cq, cc) => ret (Some cq, cc)
        end in
      let* q := new_queue_pair ib t tx_cq rx 0 in
      let* (rc, q) := qp_init ib q in
      if negb (rc =? 0) then qp_delete q ;;; ret None else ret (Some (q, cc))
  end.

(** ** Receive buffers *)

(** The request of [post_chunk]; the identifier is the chunk's address. *)
Definition chunk_wr (p : Z) (c : Chunk) : ibv_recv_wr :=
  {| rw_id := p;
     rw_sg_list := [{| sge_addr := buffer c; sge_length := bytes c; sge_lkey := lkey (ck_mr c) |}] |}.

(** [ibv_post_srq_recv] dispatches through the queue it is given; on the NULL that
    [ibv_create_srq] answers when it fails, the call is undefined. *)
Definition post_chunk (ib : Infiniband) (h : heap) (p : Z) : M (St W) Z :=
  let* c := deref (chunks h !! p) in
  if ib_srq ib =? 0 then undef else
  let* rc := sys (ibv_post_srq_recv (ib_srq ib) (chunk_wr p c)) in
  if negb (rc =? 0) then ret (-1) else ret 0.

Fixpoint post_chunks (ib : Infiniband) (h : heap) (ps : list Z) : M (St W) Z :=
  match ps with
  | [] => ret 0
  | p :: ps' =>
      let* r := post_chunk ib h p in
      if negb (r =? 0) then ret r else post_chunks ib h ps'
  end.

(** [post_channel_cluster]: [get_channel_buffers(0)] copies the pool, so the
    chunks posted stay in it. *)
Definition post_channel_cluster (ib : Infiniband) (h : heap) : M (St W) (Z * Infiniband) :=
  let* (ps, mm) := deref (get_channel_buffers (memory_manager ib) 0) in
  let* r := post_chunks ib h ps in
  ret (r, ib{{memory_manager := mm}}).

Definition get_tx_buffers (ib : Infiniband) (nbytes : Z) : option (list Z * Infiniband) :=
  '(ps, mm) ← get_channel_buffers (memory_manager ib) nbytes;
  Some (ps, ib{{memory_manager := mm}}).
End Infiniband.

(** ** Events taken and acknowledged *)

(** Completion events a trace has taken from the channels and not acknowledged. *)
Fixpoint unacked (tr : list event) : Z :=
  match tr with
  | [] => 0
  | Ev c r :: tr' =>
      unacked tr' +
      (match c return ret_of c -> Z with
       | ibv_get_cq_event _ => fun a => if fst a =? 0 then 1 else 0
       | ibv_ack_cq_events _ n => fun _ => - n
       | _ => fun _ => 0
       end) r
  end.

(** The counter of a channel is the number of events owed, and stays below the
    threshold. *)
Definition acks_owed (cc : CompletionChannel) (tr : list event) : Prop :=
  unacked tr = cq_events_that_need_ack cc /\ 0 <= cq_events_that_need_ack cc < MAX_ACK_EVENT.

(** [n] calls of [get_cq_event] in a row. *)
Fixpoint get_cq_events {W} `{Env W} (n : nat) (cc : CompletionChannel) : M (St W) CompletionChannel :=
  match n with
  | O => ret cc
  | S n' => let* (_, cc) := get_cq_event cc in get_cq_events n' cc
  end.

(** The receive requests a shared queue has accepted, oldest first. *)
Fixpoint srq_posted (h : Z) (tr : list event) : list ibv_recv_wr :=
  match tr with
  | [] => []
  | Ev c r :: tr' =>
      srq_posted h tr' ++
      (match c return ret_of c -> list ibv_recv_wr with
       | ibv_post_srq_recv q wr => fun rc => if (q =? h) && (rc =? 0) then [wr] else []
       | _ => fun _ => []
       end) r
  end.

Section InfinibandSpec.
Context {W : Type} `{Env W} (chan_fd : Z -> Z).

Lemma get_cq_event_run cc s :
  acks_owed cc (trace s) ->
  returns (get_cq_event cc) s (fun r s' => acks_owed (snd r) (trace s') /\
    cc_channel (snd r) = cc_channel cc).
Proof.
  unfold acks_owed, get_cq_event, MAX_ACK_EVENT. intros [Hu Hn].
  rewrite (u32_small (cq_events_that_need_ack cc + 1)) by lia.
  exec; cbn [unacked trace snd fst]; (split; [|reflexivity]).
  - subst. cbn [fst]. rewrite (proj2 (Z.eqb_neq _ _)) by assumption. lia.
  - change (cq_events_that_need_ack (cc{{cq_events_that_need_ack := 0}})) with 0.
    subst. cbn [fst Z.eqb]. lia.
  - change (cq_events_that_need_ack (cc{{cq_events_that_need_ack := _}}))
      with (cq_events_that_need_ack cc + 1). subst. cbn [fst Z.eqb]. lia.
Qed.

(** The last call was a post to the shared queue, and it was refused. *)
Definition refused (ib : Infiniband) (tr : list event) : Prop :=
  match tr with
  | Ev c r :: _ =>
      (match c return ret_of c -> Prop with
       | ibv_post_srq_recv q _ => fun rc => q = ib_srq ib /\ rc <> 0
       | _ => fun _ => False
       end) r
  | [] => False
  end.

Lemma post_chunk_run ib h p c s :
  ib_srq ib <> 0 -> chunks h !! p = Some c ->
  returns (post_chunk ib h p) s (fun r s' =>
    (r = 0 /\ srq_posted (ib_srq ib) (trace s') = srq_posted (ib_srq ib) (trace s) ++ [chunk_wr p c]) \/
    (r = -1 /\ srq_posted (ib_srq ib) (trace s') = srq_posted (ib_srq ib) (trace s) /\ refused ib (trace s'))).
Proof.
  intros Hq Hc. unfold post_chunk. rewrite Hc. apply returns_bind, returns_ret. rewrite if_eqb_neq by exact Hq. exec.
  - right. split; [reflexivity|]. split; [|split; [reflexivity|assumption]]. cbn [srq_posted trace]. rewrite Z.eqb_refl.
    rewrite (proj2 (Z.eqb_neq _ _)) by assumption. apply app_nil_r.
  - left. split; [reflexivity|]. cbn [srq_posted trace]. subst. rewrite !Z.eqb_refl. reflexivity.
Qed.

Lemma post_chunks_run ib h ps s :
  ib_srq ib <> 0 -> Forall (fun p => is_Some (chunks h !! p)) ps ->
  returns (post_chunks ib h ps) s (fun r s' => exists k cs,
    mapM (fun p => chunk_wr p <$> chunks h !! p) (take k ps) = Some cs /\
    srq_posted (ib_srq ib) (trace s') = srq_posted (ib_srq ib) (trace s) ++ cs /\
    (r = 0 -> k = length ps) /\
    (r <> 0 -> r = -1 /\ (k < length ps)%nat /\ refused ib (trace s'))).
Proof.
  intros Hq Hps. revert s. induction Hps as [|p ps [c Hc] _ IH]; intros s; cbn [post_chunks].
  - apply returns_ret. exists 0%nat, []. rewrite app_nil_r.
    split; [reflexivity|]. split; [reflexivity|]. split; [reflexivity|congruence].
  - apply returns_bind. eapply returns_conseq; [apply (post_chunk_run ib h p c); assumption|].
    intros r s1 [[-> E1]|[-> [E1 Href]]].
    + cbn [Z.eqb negb]. eapply returns_conseq; [apply IH|]. intros r s2 (k & cs & Em & Ep & H0 & H1).
      exists (S k), (chunk_wr p c :: cs). cbn [firstn mapM]. rewrite Hc, Em.
      split; [reflexivity|]. split; [rewrite Ep, E1, <- app_assoc; reflexivity|].
      cbn [length]. split; [intros E; rewrite (H0 E); reflexivity|].
      intros E. destruct (H1 E) as (-> & Hk & Href). split; [reflexivity|]. split; [lia|exact Href].
    + change (negb (-1 =? 0)) with true. apply returns_ret. exists 0%nat, [].
      rewrite app_nil_r. split; [reflexivity|]. split; [exact E1|]. split; [discriminate|].
      intros _. split; [reflexivity|]. split; [cbn; lia|exact Href].
Qed.

Lemma post_channel_cluster_run ib h c s :
  ib_srq ib <> 0 -> channel (memory_manager ib) = Some c ->
  Forall (fun p => is_Some (chunks h !! p)) (free_chunks c) ->
  returns (post_channel_cluster ib h) s (fun r s' => exists k wrs,
    mapM (fun p => chunk_wr p <$> chunks h !! p) (take k (free_chunks c)) = Some wrs /\
    srq_posted (ib_srq ib) (trace s') = srq_posted (ib_srq ib) (trace s) ++ wrs /\
    (fst r = 0 -> k = length (free_chunks c)) /\
    (fst r <> 0 -> fst r = -1 /\ (k < length (free_chunks c))%nat /\ refused ib (trace s')) /\
    channel (memory_manager (snd r)) = Some c).
Proof.
  intros Hq Hc Hps. unfold post_channel_cluster, get_channel_buffers. rewrite Hc.
  cbn [mbind option_bind get_buffers Z.eqb]. apply returns_bind, returns_ret, returns_bind.
  eapply returns_conseq; [apply post_chunks_run; [exact Hq|exact Hps]|]. intros r s' (k & wrs & Em & Ep & H0 & H1).
  apply returns_ret. exists k, wrs. auto 10.
Qed.

Lemma post_channel_cluster_no_srq ib h c s :
  ib_srq ib = 0 -> channel (memory_manager ib) = Some c -> free_chunks c <> [] ->
  Forall (fun p => is_Some (chunks h !! p)) (free_chunks c) ->
  post_channel_cluster ib h s = (Undef, s).
Proof.
  intros Eq Hc Hne Hps. unfold post_channel_cluster, get_channel_buffers. rewrite Hc.
  cbn [mbind option_bind get_buffers Z.eqb deref]. rewrite bind_ret.
  destruct Hps as [|p ps [ck Hck] _]; [contradiction|].
  cbn [post_chunks]. unfold post_chunk. rewrite Hck, Eq. reflexivity.
Qed.

(** The calls that make a descriptor non-blocking; they hold and release nothing. *)
Definition is_fcntl (ev : event) : Prop :=
  match ev_call ev with sys_fcntl_getfl _ | sys_fcntl_setfl_nonblock _ _ => True | _ => False end.

Lemma twice_destroyed ch ctxt calls tr rc :
  ch <> 0 -> Forall is_fcntl calls ->
  let tr' := Ev (ibv_destroy_comp_channel ch) 0 :: Ev (ibv_destroy_comp_channel ch) rc ::
             calls ++ Ev (ibv_create_comp_channel ctxt) ch :: tr in
  exists ch rc calls, ch <> 0 /\
    tr' = Ev (ibv_destroy_comp_channel ch) 0 :: Ev (ibv_destroy_comp_channel ch) rc ::
          calls ++ Ev (ibv_create_comp_channel ctxt) ch :: tr /\
    Forall is_fcntl calls /\ balance tr' (RChannel, ch) = balance tr (RChannel, ch) - 1.
Proof.
  intros Hch Hcalls. exists ch, rc, calls. do 2 (split; [auto|]). split; [exact Hcalls|].
  assert (E : balance (calls ++ Ev (ibv_create_comp_channel ctxt) ch :: tr) (RChannel, ch) =
              balance tr (RChannel, ch) + 1).
  { induction Hcalls as [|[c r] calls Hc _ IH]; cbn [app balance acquires releases].
    - autorewrite with held. unfold resource. autorewrite with held. lia.
    - rewrite IH. destruct c; try contradiction Hc; cbn [acquires releases]; autorewrite with held; lia. }
  cbn [balance acquires releases]. rewrite E. autorewrite with held. lia.
Qed.

(** The attribute block accepted when a queue pair is created. *)
Definition init_modify (q : QueuePair) : option (ibv_qp_attr * list qp_attr_bit) :=
  bits ← type_mask (qp_type q); Some (qp_init_attr q, [IBV_QP_STATE; IBV_QP_PORT] ++ bits).

Lemma create_comp_channel_ok ib s :
  if_returns (create_comp_channel chan_fd ib) s (fun r s' => forall cc, r = Some cc ->
    cc_channel cc <> 0 /\ leaves_held (trace s) (trace s') [(RChannel, cc_channel cc)] /\
    forall h, accepted h (trace s') = accepted h (trace s)).
Proof.
  unfold create_comp_channel, channel_init, set_nonblocking, channel_delete.
  exec; try (intros ? [=]; fail); try (exfalso; lia); intros cc [= <-]; cbn [cc_channel]; unfold constant.
  all: split; [assumption|]; split; [solve_held|]; intros h; cbn [accepted trace];
    rewrite !app_nil_r; reflexivity.
Qed.

Lemma create_comp_queue_ok ib cc s :
  if_returns (create_comp_queue ib (Some cc)) s (fun r s' => forall c cc', r = Some (c, cc') ->
    cq_cq c <> 0 /\ leaves_held (trace s) (trace s') [(RCq, cq_cq c)] /\ cc' = bind_cq cc (cq_cq c) /\
    forall h, accepted h (trace s') = accepted h (trace s)).
Proof.
  unfold create_comp_queue, cq_init, cq_delete. cbn [deref].
  exec; try (intros ? ? [=]; fail); try (exfalso; lia).
  intros c cc' [= <- <-]. cbn [cq_cq]; unfold constant.
  split; [assumption|]. split; [solve_held|]. split; [reflexivity|].
  intros h. cbn [accepted trace]. rewrite !app_nil_r. reflexivity.
Qed.

(** A queue pair the factory returned. *)
Lemma create_queue_pair_run ib t tx s :
  if_returns (create_queue_pair chan_fd ib t tx) s (fun r s' => forall q cc, r = Some (q, cc) ->
    exists h rx, qp_qp q = Some h /\ qp_rxcq q = Some rx /\ cc_cq cc = cq_cq rx /\
      qp_type q = t /\ qp_port q = ib_physical_port ib /\ 0 <= initial_psn q < 2 ^ 24 /\
      leaves_held (trace s) (trace s')
        [(RChannel, cc_channel cc); (RCq, cq_cq rx); (RQp, qp_handle h)] /\
      forall k, accepted k (trace s') = accepted k (trace s) ++
        (if qp_handle h =? k then match init_modify q with Some m => [m] | None => [] end else [])).
Proof.
  unfold create_queue_pair. apply if_returns_bind.
  eapply if_returns_conseq; [apply create_comp_channel_ok|].
  intros [cc|] s1 H1; [|exec; discriminate]. destruct (H1 cc eq_refl) as (Hcc & Hh1 & Ha1).
  apply if_returns_bind. eapply if_returns_conseq; [apply create_comp_queue_ok|].
  intros [[rx cc2]|] s2 H2.
  2:{ unfold new_queue_pair, qp_init, qp_delete. exec; discriminate. }
  destruct (H2 rx cc2 eq_refl) as (Hcq & Hh2 & -> & Ha2).
  unfold new_queue_pair, qp_init, qp_delete. cbn [qp_rxcq deref]. exec;
    try (intros ? ? [=]; fail); try (exfalso; lia).
  match goal with |- context [Some (?q0, bind_cq cc _) = _] => set (qq := q0) in * end.
  assert (Hf : qp_qp qq = Some i /\ qp_rxcq qq = Some rx /\ qp_type qq = t /\
               qp_port qq = ib_physical_port ib /\ initial_psn qq = Z.land r 16777215)
    by (repeat split). destruct Hf as (F1 & F2 & F3 & F4 & F5). clearbody qq.
  intros q cc' [= <- <-]. exists i, rx. repeat (split; [assumption || reflexivity|]).
  split; [|split].
  - rewrite F5. change 16777215 with (Z.ones 24). rewrite Z.land_ones by lia.
    apply Z.mod_pos_bound. lia.
  - intros x. cbn [trace balance acquires releases occurrences mbind option_bind]. subst.
    rewrite (Hh2 x), (Hh1 x). cbn [occurrences mbind option_bind].
    change (cc_channel (bind_cq cc (cq_cq rx))) with (cc_channel cc).
    autorewrite with held. unfold resource. lia.
  - intros k. cbn [accepted trace]. subst. rewrite !app_nil_r, Ha2, Ha1. unfold init_modify.
    rewrite Z.eqb_refl, andb_true_r, Heqo0. reflexivity.
Qed.

(** ** Properties *)

(** C26 Completion events are accounted for exactly: starting from a channel whose
    counter equals the events taken and not yet acknowledged, any number of
    [get_cq_event] calls (whatever the adapter answers, failed calls included)
    keeps that equality and keeps the counter below 128, and [ack_events] then
    leaves no event unacknowledged. *)
Theorem cq_events_acked n cc s :
  acks_owed cc (trace s) ->
  returns (let* cc := get_cq_events n cc in
           let* cc' := ack_events cc in ret (cc, cc')) s (fun r s' =>
    0 <= cq_events_that_need_ack (fst r) < MAX_ACK_EVENT /\
    cq_events_that_need_ack (snd r) = 0 /\ unacked (trace s') = 0).
Proof.
  intros Hcc. apply returns_bind. apply (returns_conseq _ _ (fun cc s' => acks_owed cc (trace s'))).
  - revert cc s Hcc. induction n as [|n IH]; intros cc s Hcc; cbn [get_cq_events].
    + apply returns_ret, Hcc.
    + apply returns_bind. eapply returns_conseq; [apply get_cq_event_run, Hcc|].
      intros [b cc'] s' [Hcc' _]. apply IH, Hcc'.
  - intros cc' s' [Hu Hn]. unfold ack_events. exec. cbn [fst snd unacked trace].
    split; [exact Hn|]. split; [reflexivity|]. lia.
Qed.

(** C33 [post_channel_cluster] gives the adapter every buffer of the receive pool
    once, in order, with its address, length and key and the chunk itself as the
    identifier; it stops at the first refusal with -1, having posted the buffers
    before it. The pool still lists the posted chunks: the same buffers can be
    handed out again for sending. Without a shared receive queue (its creation is
    not checked) the first post is undefined behaviour. *)
Theorem post_channel_cluster_posts ib h c s :
  channel (memory_manager ib) = Some c ->
  Forall (fun p => is_Some (chunks h !! p)) (free_chunks c) ->
  if (ib_srq ib =? 0) && negb (zlen (free_chunks c) =? 0)
  then fst (post_channel_cluster ib h s) = Undef else
  returns (post_channel_cluster ib h) s (fun r s' => exists k wrs,
    mapM (fun p => chunk_wr p <$> chunks h !! p) (take k (free_chunks c)) = Some wrs /\
    srq_posted (ib_srq ib) (trace s') = srq_posted (ib_srq ib) (trace s) ++ wrs /\
    (fst r = 0 -> k = length (free_chunks c)) /\
    (fst r <> 0 -> fst r = -1 /\ (k < length (free_chunks c))%nat /\ refused ib (trace s')) /\
    channel (memory_manager (snd r)) = Some c).
Proof.
  intros Hc Hps. destruct (Z.eqb_spec (ib_srq ib) 0) as [Eq|Hq]; cbn [andb].
  2: exact (post_channel_cluster_run ib h c s Hq Hc Hps).
  destruct (Z.eqb_spec (zlen (free_chunks c)) 0) as [Ez|Ez]; cbn [negb].
  - assert (Ep : free_chunks c = []) by (apply length_zero_iff_nil; unfold zlen in Ez; lia).
    unfold post_channel_cluster, get_channel_buffers. rewrite Hc.
    cbn [mbind option_bind get_buffers Z.eqb]. rewrite Ep.
    apply returns_bind, returns_ret, returns_bind, returns_ret, returns_ret.
    exists 0%nat, []. rewrite app_nil_r. cbn [fst snd]. do 2 (split; [reflexivity|]).
    split; [reflexivity|]. split; [congruence|reflexivity].
  - rewrite (post_channel_cluster_no_srq ib h c s Eq Hc); [reflexivity| |exact Hps].
    intros Ep. rewrite Ep in Ez. exact (Ez eq_refl).
Qed.

(** C38 The error path of [create_comp_channel] destroys the channel twice. A
    channel returned is held once, with no event to acknowledge. NULL is returned
    in two cases. If [ibv_create_comp_channel] failed, that was the only call. If
    the channel [ch] was created but could not be made non-blocking, [init]
    destroys it and the destructor, which still finds the handle, destroys it
    again: the two calls are the last ones, between them and the creation there
    is only [fcntl], and the trace has released [ch] once more than it acquired
    it. (The destructor asserts that its own call answers 0.) *)
Theorem create_comp_channel_error ib s :
  safe (create_comp_channel chan_fd ib) s (fun r s' =>
    match r with
    | Some cc => leaves_held (trace s) (trace s') [(RChannel, cc_channel cc)] /\
                 cq_events_that_need_ack cc = 0
    | None =>
        trace s' = Ev (ibv_create_comp_channel (ib_ctxt ib)) 0 :: trace s \/
        exists ch rc calls, ch <> 0 /\
          trace s' = Ev (ibv_destroy_comp_channel ch) 0 :: Ev (ibv_destroy_comp_channel ch) rc ::
                     calls ++ Ev (ibv_create_comp_channel (ib_ctxt ib)) ch :: trace s /\
          Forall is_fcntl calls /\
          balance (trace s') (RChannel, ch) = balance (trace s) (RChannel, ch) - 1
    end).
Proof.
  unfold create_comp_channel, channel_init, set_nonblocking, channel_delete. exec.
  all: repeat match goal with
       | Hx : context [cc_channel (new_channel{{cc_channel := ?r}})] |- _ =>
           change (cc_channel (new_channel{{cc_channel := r}})) with r in Hx
       | |- context [cc_channel (new_channel{{cc_channel := ?r}})] =>
           change (cc_channel (new_channel{{cc_channel := r}})) with r
       end.
  all: first
    [ exfalso; lia | left; subst; reflexivity
    | split; [solve_held|reflexivity]
    | right; subst; first [apply (twice_destroyed _ _ [_] _); [assumption|repeat constructor]
                          |apply (twice_destroyed _ _ [_; _] _); [assumption|repeat constructor]] ].
Qed.
End InfinibandSpec.

(** ** Witnesses *)

Example cq_events_acked_witness :
  returns (let* cc := get_cq_events (H := all_succeed) 3 new_channel in
           let* cc' := ack_events (H := all_succeed) cc in ret (cc, cc')) Mock.start
    (fun r s' => cq_events_that_need_ack (snd r) = 0 /\ unacked (trace s') = 0).
Proof.
  eapply returns_conseq.
  { apply (cq_events_acked (H := all_succeed) 3 new_channel Mock.start).
    split; [reflexivity|]. split; [discriminate|reflexivity]. }
  intros r s' (_ & H1 & H2). split; [exact H1|exact H2].
Defined.

Definition rx_adapter : Infiniband :=
  {| ib_ctxt := 5; ib_lid := 7; ib_gid := mock_gid; ib_physical_port := 1; ib_pd := 6; ib_srq := 8;
     ib_max_send_wr := 64; ib_max_recv_wr := 16; ib_max_cqe := 128; ib_max_sge := 1;
     ib_max_inline_data := 128;
     memory_manager := {| channel := Some {| chunk_size := 4; free_chunks := [1] |}; rdma := None;
       send := None; mm_pd := 6 |} |}.

Example post_channel_cluster_posts_witness :
  returns (post_channel_cluster (H := all_succeed) rx_adapter
             {| next := 2; chunks := <[1 := sample_chunk]> ∅ |}) Mock.start
    (fun r _ => channel (memory_manager (snd r)) = Some {| chunk_size := 4; free_chunks := [1] |}).
Proof.
  eapply returns_conseq.
  { apply (post_channel_cluster_posts (H := all_succeed) rx_adapter
             {| next := 2; chunks := <[1 := sample_chunk]> ∅ |}
             {| chunk_size := 4; free_chunks := [1] |} Mock.start eq_refl).
    constructor; [|constructor]. exists sample_chunk. reflexivity. }
  intros r s' (k & wrs & _ & _ & _ & _ & Hc). exact Hc.
Defined.
