(* ===== verification/ConnectedSocket.v ===== *)
(** rdma/RDMAConnectedSocketImpl.cc and its class in rdma/RDMAStack.h: a
    connected socket over a queue pair. [activate] brings the queue pair to RTS,
    [send] copies an application's buffers into registered chunks and posts
    them. The receiving side is in SocketRead. *)
From Stdlib Require Import String.
From coqutil Require Import Datatypes.RecordSetters.
From S2P Require Import Prelude Gid Verbs Mock QpProtocol ExchDest RdmaOps.
From S2P Require Import SynMsg MemoryManager Infiniband.
From stdpp Require Import gmap.
Open Scope Z_scope.
Import DoubleBraceUpdate.

Record RDMAConnectedSocketImpl := {
  cs_qp : QueuePair; peer_msg : IBSYNMsg; my_msg : IBSYNMsg; connected : Z;
  rx_buffers : list Z; cs_cc : CompletionChannel; cs_cq : CompletionQueue }.

Definition MAX_COMPLETIONS : Z := 16.

Section ConnectedSocket.
Context {W : Type} `{Env W} (chan_fd : Z -> Z).

(** The constructor; [unset] is what [connected], not initialised, holds. A NULL
    queue pair is dereferenced. *)
Definition new_socket (ib : Infiniband) (tx_cq : Z) (im : IBSYNMsg) (unset : Z)
  : M (St W) RDMAConnectedSocketImpl :=
  let* o := create_queue_pair chan_fd ib IBV_QPT_RC tx_cq in
  let* (q, cc) := deref o in
  let* cq := deref (qp_rxcq q) in
  let* h := deref (qp_qp q) in
  ret {| cs_qp := q; peer_msg := im;
         my_msg := {| m_lid := ib_lid ib; m_qpn := qp_num h; m_psn := initial_psn q;
                      m_gid := ib_gid ib |};
         connected := unset; rx_buffers := []; cs_cc := cc; cs_cq := cq |}.

Definition rtr_block (port : Z) (peer : IBSYNMsg) : ibv_qp_attr :=
  {| qp_state := IBV_QPS_RTR; path_mtu := IBV_MTU_1024; dest_qp_num := m_qpn peer;
     rq_psn := m_psn peer; sq_psn := 0; max_rd_atomic := 0; max_dest_rd_atomic := 1;
     min_rnr_timer := 12; timeout := 0; retry_cnt := 0; rnr_retry := 0; pkey_index := 0;
     port_num := 0; qkey := 0; qp_access_flags := [];
     ah_attr :=
       {| is_global := 1; dlid := u16 (m_lid peer); sl := 0; src_path_bits := 0;
          ah_port_num := u8 port; hop_limit := 6; dgid := m_gid peer; sgid_index := 0 |} |}.

(** The block updated for the second transition. *)
Definition rts_block (a : ibv_qp_attr) (psn : Z) : ibv_qp_attr :=
  a{{qp_state := IBV_QPS_RTS; timeout := 14; retry_cnt := 7; rnr_retry := 7; sq_psn := psn;
     max_rd_atomic := 1}}.

Definition rtr_bits : list qp_attr_bit :=
  [IBV_QP_STATE; IBV_QP_AV; IBV_QP_PATH_MTU; IBV_QP_DEST_QPN; IBV_QP_RQ_PSN;
   IBV_QP_MIN_RNR_TIMER; IBV_QP_MAX_DEST_RD_ATOMIC].
Definition rts_bits : list qp_attr_bit :=
  [IBV_QP_STATE; IBV_QP_TIMEOUT; IBV_QP_RETRY_CNT; IBV_QP_RNR_RETRY; IBV_QP_SQ_PSN;
   IBV_QP_MAX_QP_RD_ATOMIC].

Definition activate (ib : Infiniband) (s : RDMAConnectedSocketImpl)
  : M (St W) (Z * RDMAConnectedSocketImpl) :=
  let qpa := rtr_block (ib_physical_port ib) (peer_msg s) in
  let* h := deref (qp_qp (cs_qp s)) in
  let* r := sys (ibv_modify_qp (qp_handle h) qpa rtr_bits) in
  if negb (r =? 0) then ret (-1, s) else
  let* r := sys (ibv_modify_qp (qp_handle h) (rts_block qpa (m_psn (my_msg s))) rts_bits) in
  if negb (r =? 0) then ret (-1, s) else ret (0, s{{connected := 1}}).

(** ** send *)

(** [while (copied < it->length())]: [cur] is what [current_buffer] still has
    ahead of it; at its end it is dereferenced all the same. *)
Fixpoint copy_buffer (fuel : nat) (h : heap) (cur : list Z) (src : list Z)
  : option (heap * list Z) :=
  match fuel with
  | O => None
  | S f =>
      match src with
      | [] => Some (h, cur)
      | _ =>
          p ← head cur;
          c ← chunks h !! p;
          '(n, c) ← chunk_write c src;
          let h := put_chunk h p c in
          copy_buffer f h (if full c then tail cur else cur) (drop (Z.to_nat n) src)
      end
  end.

(** The loop over the buffers of the list. A turn that writes nothing leaves a
    full chunk behind, so this fuel is enough for any chunks. *)
Fixpoint copy_buffers (h : heap) (cur : list Z) (bl : list (list Z)) : option (heap * list Z) :=
  match bl with
  | [] => Some (h, cur)
  | b :: bl' => '(h, cur) ← copy_buffer (S (length b + length cur)) h cur b; copy_buffers h cur bl'
  end.

(** One work request of the chain. *)
Definition chunk_send_wr (h : heap) (p : Z) : option ibv_send_wr :=
  c ← chunks h !! p;
  Some {| sw_id := p;
          sw_sg_list := [{| sge_addr := buffer c; sge_length := u32 (offset c);
                            sge_lkey := lkey (ck_mr c) |}];
          sw_opcode := IBV_WR_SEND; sw_signaled := true; sw_remote_addr := 0; sw_rkey := 0 |}.

(** [send]: the result, the heap, the adapter object, and the caller's list,
    cleared on success. An empty chain is read all the same. *)
Definition send (ib : Infiniband) (h : heap) (s : RDMAConnectedSocketImpl) (bl : list (list Z))
  : M (St W) (Z * heap * Infiniband * list (list Z)) :=
  let nbytes := zlen (concat bl) in
  let* (tx, ib) := deref (get_tx_buffers ib nbytes) in
  let* (h, _) := deref (copy_buffers h tx bl) in
  let* wrs := deref (mapM (chunk_send_wr h) tx) in
  let* q := deref (qp_qp (cs_qp s)) in
  if bool_decide (wrs = []) then undef else
  let* rc := sys (ibv_post_send (qp_handle q) wrs) in
  if negb (rc =? 0) then ret (-1, h, ib, bl) else ret (nbytes, h, ib, []).
End ConnectedSocket.

(** ** What is stored in a list of chunks *)

Definition payload (h : heap) (p : Z) : list Z :=
  match chunks h !! p with Some c => stored c | None => [] end.

Definition payloads (h : heap) (ps : list Z) : list Z := concat (map (payload h) ps).

Definition room (h : heap) (ps : list Z) : Z :=
  fold_right Z.add 0
    (map (fun p => match chunks h !! p with Some c => bytes c - offset c | None => 0 end) ps).

Definition present (h : heap) (p : Z) : Prop := exists c, chunks h !! p = Some c /\ wf_chunk c.
Definition fresh_chunk (h : heap) (p : Z) : Prop :=
  exists c, chunks h !! p = Some c /\ wf_chunk c /\ offset c = 0.

(** Chunks ready to be filled in turn. *)
Definition ready (h : heap) (ps : list Z) : Prop :=
  NoDup ps /\ Forall (present h) ps /\ Forall (fresh_chunk h) (tail ps).

(** Only the chunks [ps] differ, and only in their contents and cursor. *)
Definition touches (ps : list Z) (h h' : heap) : Prop :=
  (forall p, p ∉ ps -> chunks h' !! p = chunks h !! p) /\ Forall (present h') ps.

Lemma fresh_present h p : fresh_chunk h p -> present h p.
Proof. intros (c & ? & ? & _). exists c. auto. Qed.

Lemma payload_fresh h p : fresh_chunk h p -> payload h p = [].
Proof. intros (c & Hc & _ & Ho). unfold payload, stored. rewrite Hc, Ho. reflexivity. Qed.

Lemma payloads_fresh h ps : Forall (fresh_chunk h) ps -> payloads h ps = [].
Proof.
  induction 1 as [|p ps Hp _ IH]; [reflexivity|]. unfold payloads in *. cbn [map concat].
  rewrite payload_fresh, IH by exact Hp. reflexivity.
Qed.

Lemma room_nonneg h ps : Forall (present h) ps -> 0 <= room h ps.
Proof.
  induction 1 as [|p ps (c & Hc & Hwf) _ IH]; [reflexivity|]. unfold room in *. cbn [map fold_right].
  rewrite Hc. destruct Hwf. lia.
Qed.

(** Anything that looks at chunks outside the ones touched is unchanged. *)
Lemma touches_same {B} (f : option Chunk -> B) ps qs h h' :
  touches ps h h' -> (forall q, q ∈ qs -> q ∉ ps) ->
  map (fun q => f (chunks h' !! q)) qs = map (fun q => f (chunks h !! q)) qs.
Proof.
  intros [Ht _] Hd. apply map_ext_in. intros q Hq. rewrite Ht; [reflexivity|].
  apply Hd, list_elem_of_In, Hq.
Qed.

Lemma touches_payloads ps qs h h' :
  touches ps h h' -> (forall q, q ∈ qs -> q ∉ ps) -> payloads h' qs = payloads h qs.
Proof.
  intros Ht Hd. unfold payloads, payload. f_equal.
  exact (touches_same (fun o => match o with Some c => stored c | None => [] end) ps qs h h' Ht Hd).
Qed.

Lemma touches_room ps qs h h' :
  touches ps h h' -> (forall q, q ∈ qs -> q ∉ ps) -> room h' qs = room h qs.
Proof.
  intros Ht Hd. unfold room. f_equal.
  exact (touches_same (fun o => match o with Some c => bytes c - offset c | None => 0 end)
           ps qs h h' Ht Hd).
Qed.

Lemma touches_forall (P : Chunk -> Prop) ps qs h h' :
  touches ps h h' -> (forall q, q ∈ qs -> q ∉ ps) ->
  Forall (fun q => exists c, chunks h !! q = Some c /\ P c) qs ->
  Forall (fun q => exists c, chunks h' !! q = Some c /\ P c) qs.
Proof.
  intros [Ht _] Hd. rewrite !Forall_forall. intros Hq q Hin. rewrite Ht by (apply Hd, Hin). auto.
Qed.

Lemma touches_trans ps h1 h2 h3 : touches ps h1 h2 -> touches ps h2 h3 -> touches ps h1 h3.
Proof. intros [T1 _] [T2 P2]. split; [|exact P2]. intros p Hp. rewrite T2, T1 by exact Hp. reflexivity. Qed.

(** Filling one chunk more. *)
Lemma put_chunk_touches h p c c0 :
  chunks h !! p = Some c0 -> wf_chunk c -> touches [p] h (put_chunk h p c).
Proof.
  intros Hp Hc. split.
  - intros q Hq. apply lookup_insert_ne. intros ->. apply Hq. constructor.
  - repeat constructor. exists c. split; [apply lookup_insert_eq|exact Hc].
Qed.

Lemma touches_more ps qs h h' :
  touches ps h h' -> (forall p, p ∈ ps -> p ∈ qs) -> Forall (present h) qs -> touches qs h h'.
Proof.
  intros [Ht Hp] Hsub Hqs. split.
  - intros p Hnp. apply Ht. intros Hin. apply Hnp, Hsub, Hin.
  - rewrite Forall_forall in *. intros q Hq. destruct (decide (q ∈ ps)) as [Hin|Hout]; [auto|].
    destruct (Hqs q Hq) as (c & Hc & Hwf). exists c. rewrite Ht by exact Hout. auto.
Qed.

(** What writing cannot change: the memory a chunk names. *)
Definition region (h : heap) (p : Z) : option (Z * Z * ibv_mr) :=
  (fun c => (buffer c, bytes c, ck_mr c)) <$> chunks h !! p.

Lemma put_chunk_region h p c c0 q :
  chunks h !! p = Some c0 -> buffer c = buffer c0 -> bytes c = bytes c0 -> ck_mr c = ck_mr c0 ->
  region (put_chunk h p c) q = region h q.
Proof.
  intros Hp E1 E2 E3. unfold region.
  change (chunks (put_chunk h p c)) with (<[p := c]> (chunks h)).
  destruct (decide (q = p)) as [->|Hne].
  - rewrite lookup_insert_eq, Hp. cbn. congruence.
  - rewrite lookup_insert_ne by congruence. reflexivity.
Qed.

Lemma payloads_cons h p ps : payloads h (p :: ps) = payload h p ++ payloads h ps.
Proof. reflexivity. Qed.

Lemma payloads_app h ps qs : payloads h (ps ++ qs) = payloads h ps ++ payloads h qs.
Proof. unfold payloads. rewrite map_app, concat_app. reflexivity. Qed.

Lemma room_cons h p ps c :
  chunks h !! p = Some c -> room h (p :: ps) = bytes c - offset c + room h ps.
Proof. intros Hp. unfold room. cbn [map fold_right]. rewrite Hp. reflexivity. Qed.

(** What one buffer does: its bytes are appended to what the chunks ahead hold,
    and the chunks left ahead are ready for the next one. *)
Definition copied_into (h : heap) (cur : list Z) (src : list Z) (h' : heap) (k : nat) : Prop :=
  touches cur h h' /\ payloads h' cur = payloads h cur ++ src /\
  room h' (drop k cur) = room h cur - zlen src /\ ready h' (drop k cur) /\
  forall q, region h' q = region h q.

Lemma ready_tail h p rest h1 :
  ready h (p :: rest) -> touches [p] h h1 -> ready h1 rest.
Proof.
  intros (Hnd & Hpres & Hfresh) Ht. apply NoDup_cons in Hnd as [Hp Hnd].
  assert (Hd : forall q, q ∈ rest -> q ∉ [p]).
  { intros q Hq Hin. apply list_elem_of_singleton in Hin. subst. contradiction. }
  assert (Hf : Forall (fresh_chunk h1) rest)
    by (eapply (touches_forall (fun c => wf_chunk c /\ offset c = 0)); [exact Ht|exact Hd|exact Hfresh]).
  split; [exact Hnd|]. split; [eapply Forall_impl; [exact Hf|intros ? ?; apply fresh_present; assumption]|].
  destruct rest; [constructor|]. cbn [tail]. apply Forall_cons in Hf as [_ Hf]. exact Hf.
Qed.

Lemma copied_step h p rest c c' src n h' k :
  ready h (p :: rest) -> chunks h !! p = Some c -> wf_chunk c' ->
  bytes c' = bytes c -> buffer c' = buffer c -> ck_mr c' = ck_mr c ->
  0 <= n <= zlen src -> n = bytes c - offset c ->
  stored c' = stored c ++ take (Z.to_nat n) src ->
  copied_into (put_chunk h p c') rest (drop (Z.to_nat n) src) h' k ->
  copied_into h (p :: rest) src h' (S k).
Proof.
  intros Hr Hp Hwf Eb Ebuf Emr Hn En Hst (Ht & Hpay & Hroom & Hready & Hreg).
  pose proof (put_chunk_touches h p c' c Hp Hwf) as Ht1.
  destruct (Hr) as (Hnd & Hpres & Hfresh). apply NoDup_cons in Hnd as [Hpn Hnd].
  assert (Hd : forall q, q ∈ rest -> q ∉ [p]).
  { intros q Hq Hin. apply list_elem_of_singleton in Hin. subst. contradiction. }
  assert (Hd' : forall q, q ∈ [p] -> q ∉ rest).
  { intros q Hq Hin. apply list_elem_of_singleton in Hq. subst. contradiction. }
  pose proof (touches_payloads _ _ _ _ Ht Hd') as Ep. pose proof (touches_payloads _ _ _ _ Ht1 Hd) as Er.
  pose proof (touches_room _ _ _ _ Ht1 Hd) as Erm.
  assert (Hlook : chunks (put_chunk h p c') !! p = Some c') by apply lookup_insert_eq.
  assert (Epp : payload h' p = stored c ++ take (Z.to_nat n) src).
  { unfold payloads in Ep. cbn [map concat] in Ep. rewrite !app_nil_r in Ep. rewrite Ep.
    unfold payload. rewrite Hlook. exact Hst. }
  split; [|split; [|split; [|split]]].
  - split.
    + intros q Hq. apply not_elem_of_cons in Hq as [Hq1 Hq2].
      rewrite (proj1 Ht) by exact Hq2. apply lookup_insert_ne. congruence.
    + constructor; [|exact (proj2 Ht)]. exists c'. rewrite (proj1 Ht) by exact Hpn. auto.
  - rewrite !payloads_cons, Epp, Hpay, Er. rewrite (payloads_fresh h rest Hfresh).
    unfold payload. rewrite Hp, <- !app_assoc. f_equal. cbn [app]. apply take_drop.
  - cbn [drop]. rewrite Hroom, Erm, (room_cons h p rest c Hp).
    assert (zlen (drop (Z.to_nat n) src) = zlen src - n) by (unfold zlen in *; rewrite length_drop; lia).
    lia.
  - exact Hready.
  - intros q. rewrite Hreg. eapply put_chunk_region; eassumption.
Qed.

Lemma copied_nothing h cur : ready h cur -> copied_into h cur [] h 0.
Proof.
  intros Hr. split; [split; [reflexivity|apply Hr]|]. rewrite app_nil_r. split; [reflexivity|].
  split; [unfold zlen; cbn [length]; rewrite drop_0; lia|]. split; [exact Hr|reflexivity].
Qed.

(** The last chunk written: the buffer ends before the chunk does. *)
Lemma copied_last h p rest c c' src :
  ready h (p :: rest) -> chunks h !! p = Some c -> wf_chunk c' ->
  bytes c' = bytes c -> buffer c' = buffer c -> ck_mr c' = ck_mr c ->
  offset c' = offset c + zlen src -> stored c' = stored c ++ src ->
  copied_into h (p :: rest) src (put_chunk h p c') 0.
Proof.
  intros Hr Hp Hwf Eb Ebuf Emr Eo Hst.
  pose proof (put_chunk_touches h p c' c Hp Hwf) as Ht1.
  pose proof (ready_tail h p rest _ Hr Ht1) as Hr1.
  destruct (Hr) as (Hnd & Hpres & Hfresh). apply NoDup_cons in Hnd as [Hpn Hnd].
  assert (Hd : forall q, q ∈ rest -> q ∉ [p]).
  { intros q Hq Hin. apply list_elem_of_singleton in Hin. subst. contradiction. }
  assert (Hlook : chunks (put_chunk h p c') !! p = Some c') by apply lookup_insert_eq.
  split; [|split; [|split; [|split]]].
  - apply (touches_more [p]); [exact Ht1|intros q Hq; apply list_elem_of_singleton in Hq; subst; constructor|exact Hpres].
  - rewrite !payloads_cons, (touches_payloads _ _ _ _ Ht1 Hd), (payloads_fresh h rest Hfresh), !app_nil_r.
    unfold payload. rewrite Hlook, Hp. exact Hst.
  - rewrite drop_0, (room_cons _ p rest c' Hlook), (room_cons h p rest c Hp), (touches_room _ _ _ _ Ht1 Hd).
    lia.
  - rewrite drop_0. split; [constructor; assumption|]. split.
    + constructor; [exists c'; auto|]. apply Hr1.
    + cbn [tail]. eapply (touches_forall (fun c => wf_chunk c /\ offset c = 0)); [exact Ht1|exact Hd|exact Hfresh].
  - intros q. eapply put_chunk_region; eassumption.
Qed.

Lemma copy_buffer_run fuel h cur src :
  ready h cur -> zlen src <= room h cur -> (length src + length cur < fuel)%nat ->
  exists h' k, copy_buffer fuel h cur src = Some (h', drop k cur) /\ copied_into h cur src h' k.
Proof.
  revert h cur src. induction fuel as [|fuel IH]; intros h cur src Hr Hroom Hf; [lia|].
  cbn [copy_buffer]. destruct src as [|b src0] eqn:Es.
  { exists h, 0%nat. rewrite drop_0. split; [reflexivity|apply copied_nothing, Hr]. }
  rewrite <- Es in *. assert (Hpos : 0 < zlen src) by (rewrite Es, zlen_cons; pose proof (zlen_nonneg src0); lia).
  clear Es. destruct cur as [|p rest]; [unfold room in Hroom; cbn in Hroom; lia|].
  cbn [head mbind option_bind]. destruct (Hr) as (_ & Hpres & Hfr).
  apply Forall_cons in Hpres as [(c & Hp & Hwf) Hpres]. cbn [tail] in Hfr.
  rewrite Hp. cbn [mbind option_bind].
  destruct (chunk_write_spec c src Hwf) as (c' & -> & Hwf' & Eb & Ebuf & Emr & Eo & Hst).
  cbn [mbind option_bind].
  set (n := Z.min (zlen src) (bytes c - offset c)) in *.
  pose proof (room_cons h p rest c Hp) as Erm. destruct (Hwf) as (Ho & _ & _).
  destruct (full c') eqn:Ef; unfold full in Ef.
  - apply Z.eqb_eq in Ef. assert (En : n = bytes c - offset c) by lia.
    pose proof (put_chunk_touches h p c' c Hp Hwf') as Ht1.
    pose proof (ready_tail h p rest _ Hr Ht1) as Hr1.
    assert (Hd : forall q, q ∈ rest -> q ∉ [p]).
    { destruct Hr as (Hnd & _). apply NoDup_cons in Hnd as [Hpn _].
      intros q Hq Hin. apply list_elem_of_singleton in Hin. subst. contradiction. }
    pose proof (touches_room _ _ _ _ Ht1 Hd) as Erm1.
    assert (Hz : zlen (drop (Z.to_nat n) src) = zlen src - n) by (unfold zlen in *; rewrite length_drop; lia).
    destruct (IH (put_chunk h p c') rest (drop (Z.to_nat n) src)) as (h' & k & E & Hc);
      [exact Hr1|lia|rewrite length_drop; cbn [length] in Hf; lia|].
    exists h', (S k). split; [exact E|]. eapply copied_step; eauto. lia.
  - apply Z.eqb_neq in Ef. assert (En : n = zlen src) by lia.
    replace (drop (Z.to_nat n) src) with (@nil Z)
      by (symmetry; apply skipn_all2; unfold zlen in En; lia).
    replace (take (Z.to_nat n) src) with src in Hst
      by (symmetry; apply firstn_all2; unfold zlen in En; lia).
    exists (put_chunk h p c'), 0%nat. rewrite drop_0. split.
    + destruct fuel; [cbn [length] in Hf; lia|reflexivity].
    + eapply copied_last; eauto. lia.
Qed.

(** The chunks already passed are not touched by what follows. *)
Lemma copied_suffix tx h cur src h' k pre :
  tx = pre ++ cur -> NoDup tx -> Forall (present h) pre -> copied_into h cur src h' k ->
  payloads h' tx = payloads h tx ++ src /\ Forall (present h') tx /\
  tx = (pre ++ take k cur) ++ drop k cur.
Proof.
  intros -> Hnd Hpre (Ht & Hpay & _). apply NoDup_app in Hnd as (_ & Hdisj & _).
  split; [|split].
  - rewrite !payloads_app, Hpay, (touches_payloads cur pre h h' Ht) by exact Hdisj.
    apply app_assoc.
  - apply Forall_app. split; [|exact (proj2 Ht)].
    eapply (touches_forall wf_chunk); [exact Ht|exact Hdisj|exact Hpre].
  - rewrite <- app_assoc, take_drop. reflexivity.
Qed.

Lemma copy_buffers_run tx bl : NoDup tx -> forall h pre cur,
  tx = pre ++ cur -> Forall (present h) tx -> ready h cur -> zlen (concat bl) <= room h cur ->
  exists h' cur', copy_buffers h cur bl = Some (h', cur') /\
    payloads h' tx = payloads h tx ++ concat bl /\ Forall (present h') tx /\
    (forall q, region h' q = region h q) /\ (forall p, p ∉ tx -> chunks h' !! p = chunks h !! p).
Proof.
  intros Hnd. induction bl as [|b bl IH]; intros h pre cur Etx Hpres Hr Hroom; cbn [copy_buffers concat].
  - exists h, cur. rewrite app_nil_r. auto.
  - cbn [concat] in Hroom. rewrite zlen_app in Hroom. pose proof (zlen_nonneg (concat bl)).
    destruct (copy_buffer_run (S (length b + length cur)) h cur b) as (h1 & k & -> & Hc); [exact Hr|lia|lia|].
    cbn [mbind option_bind].
    assert (Hpre : Forall (present h) pre) by (rewrite Etx in Hpres; apply Forall_app in Hpres; tauto).
    destruct (copied_suffix tx h cur b h1 k pre Etx Hnd Hpre Hc) as (Hp1 & Hpres1 & Etx1).
    destruct (Hc) as (Ht & _ & Hroom1 & Hr1 & Hreg).
    destruct (IH h1 (pre ++ take k cur) (drop k cur) Etx1 Hpres1 Hr1) as (h' & cur' & E & Hp & Hpr & Hrg & Hout);
      [lia|].
    exists h', cur'. split; [exact E|]. split; [rewrite Hp, Hp1, <- app_assoc; reflexivity|].
    split; [exact Hpr|]. split; [intros q; rewrite Hrg; apply Hreg|].
    intros p Hnp. rewrite Hout by exact Hnp. apply (proj1 Ht). intros Hin. apply Hnp. rewrite Etx.
    apply elem_of_app. auto.
Qed.

(** ** What is posted *)

(** The bytes the adapter gathers for a work request: the memory of the chunk it
    names, when address, length and key are the chunk's. *)
Definition gathered (h : heap) (wr : ibv_send_wr) : option (list Z) :=
  c ← chunks h !! sw_id wr;
  match sw_sg_list wr with
  | [e] =>
      if (sge_addr e =? buffer c) && (sge_lkey e =? lkey (ck_mr c)) && (sge_length e <=? bytes c)
      then Some (take (Z.to_nat (sge_length e)) (contents c)) else None
  | _ => None
  end.

(** A pool of fresh chunks of the pool's size. *)
Definition fresh_pool (h : heap) (c : Cluster) : Prop :=
  0 < chunk_size c < 2 ^ 32 /\ NoDup (free_chunks c) /\
  Forall (fun p => exists ck, chunks h !! p = Some ck /\ wf_chunk ck /\ offset ck = 0 /\
                     bytes ck = chunk_size c) (free_chunks c).

Lemma chunk_send_wrs h tx :
  Forall (present h) tx ->
  exists wrs parts, mapM (chunk_send_wr h) tx = Some wrs /\ map sw_id wrs = tx /\
    mapM (gathered h) wrs = Some parts /\ concat parts = payloads h tx.
Proof.
  induction 1 as [|p tx (c & Hp & Hwf) _ (wrs & parts & E & Eid & Eg & Ec)]; [exists [], []; auto|].
  destruct (Hwf) as (Ho & Hb & _).
  set (wr := {| sw_id := p;
                sw_sg_list := [{| sge_addr := buffer c; sge_length := u32 (offset c);
                                  sge_lkey := lkey (ck_mr c) |}];
                sw_opcode := IBV_WR_SEND; sw_signaled := true; sw_remote_addr := 0; sw_rkey := 0 |}).
  assert (E1 : chunk_send_wr h p = Some wr) by (unfold chunk_send_wr; rewrite Hp; reflexivity).
  assert (E2 : gathered h wr = Some (stored c)).
  { unfold gathered. cbn [sw_id sw_sg_list sge_addr sge_lkey sge_length wr]. rewrite Hp.
    cbn [mbind option_bind]. rewrite u32_small, !Z.eqb_refl by lia. cbn [andb].
    destruct (Z.leb_spec (offset c) (bytes c)); [reflexivity|lia]. }
  exists (wr :: wrs), (stored c :: parts). cbn [mapM map concat]. rewrite E1, E2, E, Eg, Eid, Ec.
  split; [reflexivity|]. split; [reflexivity|]. split; [reflexivity|].
  rewrite payloads_cons. unfold payload. rewrite Hp. reflexivity.
Qed.

Lemma fresh_pool_room h c ps :
  Forall (fun p => exists ck, chunks h !! p = Some ck /\ wf_chunk ck /\ offset ck = 0 /\
                     bytes ck = chunk_size c) ps ->
  room h ps = zlen ps * chunk_size c /\ Forall (fresh_chunk h) ps.
Proof.
  induction 1 as [|p ps (ck & Hp & Hwf & Ho & Hb) _ [IH1 IH2]]; [split; [reflexivity|constructor]|].
  split; [rewrite (room_cons h p ps ck Hp), IH1, zlen_cons; lia|].
  constructor; [exists ck; auto|exact IH2].
Qed.

Lemma fresh_ready h ps : NoDup ps -> Forall (fresh_chunk h) ps -> ready h ps.
Proof.
  intros Hnd Hf. split; [exact Hnd|].
  split; [eapply Forall_impl; [exact Hf|intros ? ?; apply fresh_present; assumption]|].
  destruct ps; [constructor|]. apply Forall_cons in Hf as [_ Hf]. exact Hf.
Qed.

(** The chunks handed out of a fresh pool. *)
Lemma handed_out h c pool tx :
  fresh_pool h c -> pool ++ rev tx = free_chunks c ->
  ready h tx /\ room h tx = zlen tx * chunk_size c /\ Forall (fresh_chunk h) tx.
Proof.
  intros (Hsz & Hnd & Hf) Happ. rewrite <- Happ in *. apply NoDup_app in Hnd as (_ & _ & Hnd).
  apply Forall_app in Hf as [_ Hf]. apply Forall_rev in Hf. rewrite rev_involutive in Hf.
  destruct (fresh_pool_room h c tx Hf) as [Hr Hff]. split; [|auto].
  apply fresh_ready; [|exact Hff].
  rewrite <- (Permutation_rev tx) in Hnd. exact Hnd.
Qed.

Section Send.
Context {W : Type} `{Env W}.

Lemma get_tx_buffers_run ib c nbytes :
  channel (memory_manager ib) = Some c -> 0 < chunk_size c -> 0 < nbytes < 2 ^ 32 - 1 ->
  (nbytes <= zlen (free_chunks c) * chunk_size c -> exists tx pool ib',
     get_tx_buffers ib nbytes = Some (tx, ib') /\ pool ++ rev tx = free_chunks c /\
     (zlen tx - 1) * chunk_size c < nbytes <= zlen tx * chunk_size c /\
     channel (memory_manager ib') = Some (c{{free_chunks := pool}})) /\
  (zlen (free_chunks c) * chunk_size c < nbytes ->
     exists ib', get_tx_buffers ib nbytes = Some ([], ib')).
Proof.
  intros Hc Hsz Hn. unfold get_tx_buffers, get_channel_buffers. rewrite Hc. cbn [mbind option_bind].
  destruct (get_buffers_run c nbytes) as (Hceil & Hok & Hno); [lia|lia| |].
  { assert (nbytes / chunk_size c <= nbytes) by (apply Z.div_le_upper_bound; nia). lia. }
  split; intros Hl.
  - destruct Hok as (tx & pool & -> & Hz & Happ); [nia|]. cbn [mbind option_bind].
    eexists tx, pool, _. split; [reflexivity|]. split; [exact Happ|]. rewrite Hz.
    split; [exact Hceil|reflexivity].
  - rewrite Hno by nia. cbn [mbind option_bind]. eexists. reflexivity.
Qed.

Lemma send_run ib h s bl st c q :
  let nbytes := zlen (concat bl) in
  channel (memory_manager ib) = Some c -> fresh_pool h c -> qp_qp (cs_qp s) = Some q ->
  0 < nbytes < 2 ^ 32 - 1 -> nbytes <= zlen (free_chunks c) * chunk_size c ->
  returns (send ib h s bl) st (fun r st' => exists h' ib' tx pool wrs parts rc,
    pool ++ rev tx = free_chunks c /\
    (zlen tx - 1) * chunk_size c < nbytes <= zlen tx * chunk_size c /\
    channel (memory_manager ib') = Some (c{{free_chunks := pool}}) /\
    trace st' = Ev (ibv_post_send (qp_handle q) wrs) rc :: trace st /\ map sw_id wrs = tx /\
    mapM (gathered h') wrs = Some parts /\ concat parts = concat bl /\
    (forall p, region h' p = region h p) /\ (forall p, p ∉ tx -> chunks h' !! p = chunks h !! p) /\
    r = if rc =? 0 then (nbytes, h', ib', []) else (-1, h', ib', bl)).
Proof.
  intros nbytes Hc Hpool Hq Hn Hroom. unfold send. fold nbytes.
  destruct (get_tx_buffers_run ib c nbytes Hc) as [Hok _]; [apply Hpool|exact Hn|].
  destruct (Hok Hroom) as (tx & pool & ib' & -> & Happ & Hceil & Hch).
  destruct (handed_out h c pool tx Hpool Happ) as (Hready & Htx & Hfresh).
  apply returns_bind, returns_ret.
  destruct (copy_buffers_run tx bl ltac:(apply Hready) h [] tx eq_refl)
    as (h' & cur' & -> & Hpay & Hpres & Hreg & Hout); [apply Hready|exact Hready|fold nbytes; lia|].
  apply returns_bind, returns_ret.
  destruct (chunk_send_wrs h' tx Hpres) as (wrs & parts & -> & Hid & Hg & Hcat).
  apply returns_bind, returns_ret. rewrite Hq. apply returns_bind, returns_ret.
  rewrite bool_decide_eq_false_2.
  2:{ intros ->. cbn [map] in Hid. subst tx. unfold zlen in Hceil. cbn [length] in Hceil. lia. }
  rewrite (payloads_fresh h tx Hfresh) in Hpay. exec.
  all: exists h', ib', tx, pool, wrs, parts, r;
    refine (conj Happ (conj Hceil (conj Hch (conj eq_refl (conj Hid (conj Hg (conj _ (conj Hreg
      (conj Hout _))))))))); [rewrite Hcat; exact Hpay|].
  - rewrite (proj2 (Z.eqb_neq _ _)) by assumption. reflexivity.
  - subst. reflexivity.
Qed.

Lemma send_exhausted_run ib h s bl st c :
  channel (memory_manager ib) = Some c -> 0 < chunk_size c ->
  0 < zlen (concat bl) < 2 ^ 32 - 1 -> zlen (free_chunks c) * chunk_size c < zlen (concat bl) ->
  fst (send ib h s bl st) = Undef.
Proof.
  intros Hc Hsz Hn Hroom. unfold send.
  destruct (get_tx_buffers_run ib c _ Hc Hsz Hn) as [_ Hno].
  destruct (Hno Hroom) as (ib' & ->). clear -Hn. unfold bind. cbn [deref ret].
  assert (E : copy_buffers h [] bl = None).
  { induction bl as [|b bl IH]; [unfold zlen in Hn; cbn in Hn; lia|].
    cbn [copy_buffers]. destruct b as [|x b]; [|reflexivity]. cbn. apply IH, Hn. }
  rewrite E. reflexivity.
Qed.

(** An empty message: every free chunk is posted, none is taken out. *)
Lemma send_empty_run ib h s bl st c q :
  channel (memory_manager ib) = Some c -> Forall (present h) (free_chunks c) -> free_chunks c <> [] ->
  qp_qp (cs_qp s) = Some q -> concat bl = [] ->
  returns (send ib h s bl) st (fun r st' => exists wrs rc,
    map sw_id wrs = free_chunks c /\
    trace st' = Ev (ibv_post_send (qp_handle q) wrs) rc :: trace st /\
    (exists x, snd (fst r) = ib{{memory_manager := x}} /\ channel x = Some c) /\ snd (fst (fst r)) = h).
Proof.
  intros Hc Hpres Hne Hq Hbl. unfold send, get_tx_buffers, get_channel_buffers. rewrite Hbl, Hc.
  cbn [mbind option_bind]. change (zlen (@nil Z)) with 0. unfold get_buffers. cbn [Z.eqb mbind option_bind].
  apply returns_bind, returns_ret.
  assert (E : copy_buffers h (free_chunks c) bl = Some (h, free_chunks c)).
  { clear -Hbl. induction bl as [|b bl IH]; [reflexivity|]. cbn [concat] in Hbl.
    apply app_nil in Hbl as [-> Hbl]. cbn [copy_buffers]. cbn. apply IH, Hbl. }
  rewrite E. apply returns_bind, returns_ret.
  destruct (chunk_send_wrs h (free_chunks c) Hpres) as (wrs & parts & -> & Hid & _ & _).
  apply returns_bind, returns_ret. rewrite Hq. apply returns_bind, returns_ret.
  rewrite bool_decide_eq_false_2 by (intros ->; cbn [map] in Hid; congruence). exec.
  all: eexists wrs, r; cbn [fst snd trace]; split; [exact Hid|]; split; [reflexivity|];
    split; [eexists; split; reflexivity|reflexivity].
Qed.

(** C6 [send] posts exactly the caller's bytes: when the pool has room for them
    it takes the fewest chunks that hold them out of the pool, posts one chain
    with one signaled request per chunk, in order, and the bytes those requests
    gather are the bytes of the buffers, in order; the result is their number
    and the list is emptied, or -1 with the list kept when the chain is
    refused. No chunk outside the chain changes, and none moves in memory. *)
Theorem send_posts ib h s bl st c q :
  let nbytes := zlen (concat bl) in
  channel (memory_manager ib) = Some c -> fresh_pool h c -> qp_qp (cs_qp s) = Some q ->
  0 < nbytes < 2 ^ 32 - 1 -> nbytes <= zlen (free_chunks c) * chunk_size c ->
  returns (send ib h s bl) st (fun r st' => exists h' ib' tx pool wrs parts rc,
    pool ++ rev tx = free_chunks c /\
    (zlen tx - 1) * chunk_size c < nbytes <= zlen tx * chunk_size c /\
    channel (memory_manager ib') = Some (c{{free_chunks := pool}}) /\
    trace st' = Ev (ibv_post_send (qp_handle q) wrs) rc :: trace st /\ map sw_id wrs = tx /\
    mapM (gathered h') wrs = Some parts /\ concat parts = concat bl /\
    (forall p, region h' p = region h p) /\ (forall p, p ∉ tx -> chunks h' !! p = chunks h !! p) /\
    r = if rc =? 0 then (nbytes, h', ib', []) else (-1, h', ib', bl)).
Proof. intros nbytes Hc Hpool Hq Hn Hroom. exact (send_run ib h s bl st c q Hc Hpool Hq Hn Hroom). Qed.

(** C37 [send] does not check that it was given chunks: asked for more bytes than
    the pool has room for, it reads past the end of an empty vector. *)
Theorem send_exhausted ib h s bl st c :
  channel (memory_manager ib) = Some c -> 0 < chunk_size c ->
  0 < zlen (concat bl) < 2 ^ 32 - 1 -> zlen (free_chunks c) * chunk_size c < zlen (concat bl) ->
  fst (send ib h s bl st) = Undef.
Proof. apply send_exhausted_run. Qed.
End Send.

(** ** Bringing the queue pair up *)

Section Activate.
Context {W : Type} `{Env W} (chan_fd : Z -> Z).

(** The modifications [activate] has made by the time it answers. *)
Lemma activate_run ib s k st :
  if_returns (activate ib s) st (fun r st' => exists h, qp_qp (cs_qp s) = Some h /\
    exists ms,
      accepted k (trace st') = accepted k (trace st) ++ (if qp_handle h =? k then ms else []) /\
      let rtr := (rtr_block (ib_physical_port ib) (peer_msg s), rtr_bits) in
      let rts := (rts_block (fst rtr) (m_psn (my_msg s)), rts_bits) in
      (r = (-1, s) /\ (ms = [] \/ ms = [rtr])) \/ (r = (0, s{{connected := 1}}) /\ ms = [rtr; rts])).
Proof.
  unfold activate. exec; exists a; (split; [assumption|]); cbn [accepted trace].
  - exists []. split; [|left; auto].
    rewrite (proj2 (Z.eqb_neq r 0)) by assumption. rewrite andb_false_r.
    destruct (qp_handle a =? k); reflexivity.
  - eexists. split; [|left; split; [reflexivity|right; reflexivity]].
    subst. rewrite (proj2 (Z.eqb_neq r0 0)) by assumption.
    destruct (qp_handle a =? k); cbn [andb Z.eqb]; rewrite ?app_nil_r; reflexivity.
  - eexists. split; [|right; split; reflexivity].
    subst. destruct (qp_handle a =? k); cbn [andb Z.eqb]; rewrite <- ?app_assoc, ?app_nil_r; reflexivity.
Qed.

(** A socket the constructor made. *)
Lemma new_socket_run ib tx im unset st :
  if_returns (new_socket chan_fd ib tx im unset) st (fun s st' => exists h,
    qp_qp (cs_qp s) = Some h /\ peer_msg s = im /\ 0 <= m_psn (my_msg s) < 2 ^ 24 /\
    m_lid (my_msg s) = ib_lid ib /\ m_qpn (my_msg s) = qp_num h /\ m_gid (my_msg s) = ib_gid ib /\
    leaves_held (trace st) (trace st')
      [(RChannel, cc_channel (cs_cc s)); (RCq, cq_cq (cs_cq s)); (RQp, qp_handle h)] /\
    forall k, accepted k (trace st') = accepted k (trace st) ++
      (if qp_handle h =? k then
         [(qp_init_attr (cs_qp s), [IBV_QP_STATE; IBV_QP_PORT; IBV_QP_ACCESS_FLAGS; IBV_QP_PKEY_INDEX])]
       else []) /\ qp_port (cs_qp s) = ib_physical_port ib).
Proof.
  unfold new_socket. apply if_returns_bind. eapply if_returns_conseq; [apply create_queue_pair_run|].
  intros o st1 Ho. exec. subst.
  destruct (Ho _ _ eq_refl) as (h & rx & Eh & Erx & Ecc & Et & Eport & Hpsn & Hheld & Hacc).
  rewrite Erx in *. rewrite Eh in *.
  repeat match goal with Hx : Some _ = Some _ |- _ => injection Hx as Hx end. subst.
  eexists. cbn [cs_qp peer_msg my_msg cs_cc cs_cq m_psn m_lid m_qpn m_gid].
  split; [exact Eh|]. split; [reflexivity|]. split; [exact Hpsn|]. do 3 (split; [reflexivity|]).
  split; [exact Hheld|]. intros k. rewrite Hacc. unfold init_modify. rewrite Et. split; [reflexivity|].
  exact Eport.
Qed.

(** C11 A connected socket's queue pair follows the reliable-connection protocol:
    the modifications the adapter accepts between the constructor and the end of
    [activate] are a legal run from RESET; on 0 the run ends in RTS towards the
    peer the message named (its queue pair number, packet sequence number, LID
    and GID) with the sequence number the socket announced in its own message,
    and the socket is marked connected; on -1 the queue pair is still in INIT or
    RTR and the socket is unchanged. *)
Theorem activate_reaches_rts ib tx im unset m st s st1 st2 rc s' st3 h :
  new_socket chan_fd ib tx im unset st = (Ret s, st1) ->
  qp_qp (cs_qp s) = Some h -> accepted (qp_handle h) (trace st) = [] ->
  accepted (qp_handle h) (trace st2) = accepted (qp_handle h) (trace st1) ->
  activate ib (s{{peer_msg := m}}) st2 = (Ret (rc, s'), st3) ->
  exists regs, qp_run reset_regs (accepted (qp_handle h) (trace st3)) regs /\
    (rc = 0 \/ rc = -1) /\
    (rc = -1 -> s' = s{{peer_msg := m}} /\ (q_state regs = IBV_QPS_INIT \/ q_state regs = IBV_QPS_RTR)) /\
    (rc = 0 -> connected s' = 1 /\ q_state regs = IBV_QPS_RTS /\ q_dest_qpn regs = m_qpn m /\
      q_rq_psn regs = m_psn m /\ q_sq_psn regs = m_psn (my_msg s) /\
      q_port regs = u8 (ib_physical_port ib) /\ q_mtu regs = IBV_MTU_1024 /\
      dlid (q_av regs) = u16 (m_lid m) /\ is_global (q_av regs) = 1 /\ dgid (q_av regs) = m_gid m /\
      q_rnr_retry regs = 7 /\ q_access regs = [IBV_ACCESS_REMOTE_WRITE; IBV_ACCESS_LOCAL_WRITE]).
Proof.
  intros Hnew Hq H0 H2 Hact.
  pose proof (if_returns_elim _ _ _ _ _ (new_socket_run ib tx im unset st) Hnew)
    as (h' & Hq' & _ & _ & _ & _ & _ & _ & Hacc).
  rewrite Hq in Hq'. injection Hq' as <-. destruct (Hacc (qp_handle h)) as [E Eport].
  rewrite Z.eqb_refl, H0 in E. cbn [app] in E.
  pose proof (if_returns_elim _ _ _ _ _ (activate_run ib (s{{peer_msg := m}}) (qp_handle h) st2) Hact)
    as (h' & Hq' & ms & Ems & Hms).
  change (cs_qp (s{{peer_msg := m}})) with (cs_qp s) in Hq'. rewrite Hq in Hq'. injection Hq' as <-.
  rewrite Z.eqb_refl, H2, E in Ems. cbn [app] in Ems.
  change (my_msg (s{{peer_msg := m}})) with (my_msg s) in Hms.
  change (peer_msg (s{{peer_msg := m}})) with m in Hms.
  destruct Hms as [[[= -> ->] [->| ->]]|[[= -> ->] ->]]; rewrite Ems; eexists;
    (split; [apply run_regs_spec; reflexivity|]); (split; [auto|]); split; intros; try lia;
    try (split; [reflexivity|]); cbn; auto 14.
  rewrite Eport. repeat (split; [reflexivity|]). reflexivity.
Qed.
End Activate.

(** ** Witnesses: two buffers of three bytes sent through chunks of four. *)

Definition fresh4 (a : Z) : Chunk :=
  {| buffer := a; bytes := 4; offset := 0; ck_mr := sample_mr; contents := [0; 0; 0; 0] |}.

Definition sample_heap : heap :=
  {| next := 4; chunks := list_to_map [(1, fresh4 100); (2, fresh4 104); (3, fresh4 108)] |}.

Definition sample_pool : Cluster := {| chunk_size := 4; free_chunks := [1; 2; 3] |}.

Definition sample_ib : Infiniband :=
  {| ib_ctxt := 5; ib_lid := 7; ib_gid := mock_gid; ib_physical_port := 1; ib_pd := 6; ib_srq := 8;
     ib_max_send_wr := 64; ib_max_recv_wr := 16; ib_max_cqe := 128; ib_max_sge := 1;
     ib_max_inline_data := 128;
     memory_manager := {| MemoryManager.channel := Some sample_pool; rdma := None;
       MemoryManager.send := Some {| chunk_size := 4; free_chunks := [] |}; mm_pd := 6 |} |}.

Definition no_message : IBSYNMsg := {| m_lid := 0; m_qpn := 0; m_psn := 0; m_gid := zero_gid |}.

Definition sample_new : outcome RDMAConnectedSocketImpl * St nat :=
  new_socket (H := all_succeed) id sample_ib 9 no_message 0 Mock.start.

Definition sample_socket : RDMAConnectedSocketImpl :=
  match fst sample_new with
  | Ret s => s
  | _ => {| cs_qp := {| qp_type := IBV_QPT_RC; qp_port := 0; qp_pd := 0; qp_srq := 0; qp_qp := None;
                        qp_txcq := 0; qp_rxcq := None; initial_psn := 0; qp_max_send_wr := 0;
                        qp_max_recv_wr := 0; q_key := 0 |};
            peer_msg := no_message; my_msg := no_message; connected := 0; rx_buffers := [];
            cs_cc := new_channel; cs_cq := {| cq_cq := 0; queue_depth := 0 |} |}
  end.

Definition sample_qp : ibv_qp := {| qp_handle := Mock.fresh 6; qp_num := 70 |}.

Lemma sample_pool_fresh : fresh_pool sample_heap sample_pool.
Proof.
  split; [cbn; lia|]. split.
  - apply (bool_decide_unpack (NoDup [1; 2; 3])). reflexivity.
  - change (free_chunks sample_pool) with [1; 2; 3].
    repeat constructor; eexists; (split; [reflexivity|]); repeat split; cbn; lia.
Qed.


Example send_posts_witness :
  returns (ConnectedSocket.send (H := all_succeed) sample_ib sample_heap sample_socket
             [[1; 2; 3]; [4; 5; 6]]) Mock.start
    (fun r _ => exists h' ib' rc, r = if rc =? 0 then (6, h', ib', []) else (-1, h', ib', [[1; 2; 3]; [4; 5; 6]])).
Proof.
  eapply returns_conseq.
  { apply (send_posts (H := all_succeed) sample_ib sample_heap sample_socket [[1; 2; 3]; [4; 5; 6]]
             Mock.start sample_pool sample_qp);
      [reflexivity|exact sample_pool_fresh|vm_compute; reflexivity|split; reflexivity|discriminate]. }
  intros r s' (h' & ib' & tx & pool & wrs & parts & rc & _ & _ & _ & _ & _ & _ & _ & _ & _ & E).
  exists h', ib', rc. exact E.
Defined.

Example send_exhausted_witness :
  fst (ConnectedSocket.send (H := all_succeed) sample_ib sample_heap sample_socket
         [replicate 13 7] Mock.start) = Undef.
Proof.
  apply (send_exhausted (H := all_succeed) sample_ib sample_heap sample_socket _ Mock.start sample_pool);
    repeat split; reflexivity.
Defined.

Example activate_reaches_rts_witness :
  exists regs,
    qp_run reset_regs
      (accepted (Mock.fresh 6)
         (trace (snd (activate (H := all_succeed) sample_ib (sample_socket{{peer_msg := no_message}})
                        (snd sample_new))))) regs /\ q_state regs = IBV_QPS_RTS.
Proof.
  destruct (activate_reaches_rts (H := all_succeed) id sample_ib 9 no_message 0 no_message Mock.start
    sample_socket (snd sample_new) (snd sample_new) 0
    (sample_socket{{peer_msg := no_message}}{{connected := 1}})
    (snd (activate (H := all_succeed) sample_ib (sample_socket{{peer_msg := no_message}})
            (snd sample_new))) sample_qp) as (regs & Hr & _ & _ & H0);
    [vm_compute; reflexivity..|].
  exists regs. split; [exact Hr|]. apply H0. reflexivity.
Defined.
