(* ===== verification/SocketRead.v ===== *)
(** rdma/RDMAConnectedSocketImpl.cc, [read] and [read_buffers]: the chunks named
    by the completions of the receive queue are copied into the caller's buffer;
    those that no longer fit are kept in [rx_buffers] for the next call.
    [CqAdapter] states what the completion queue of an adapter promises. *)
From Stdlib Require Import String.
From coqutil Require Import Datatypes.RecordSetters.
From S2P Require Import Prelude Gid Verbs Mock SynMsg MemoryManager Infiniband ConnectedSocket.
From stdpp Require Import gmap.
Open Scope Z_scope.
Import DoubleBraceUpdate.

(** The locals of [read]: the chunks, the caller's buffer, [read], [rx_buffers]. *)
Record reading := { rd_heap : heap; rd_buf : list Z; rd_n : Z; rd_rx : list Z }.

(** [read += chunk->read(buf + read, len)]. *)
Definition chunk_into (r : reading) (p len : Z) : option reading :=
  c ← chunks (rd_heap r) !! p;
  '(d, c) ← chunk_read c len;
  b ← buf_write (rd_n r) d (rd_buf r);
  Some {| rd_heap := put_chunk (rd_heap r) p c; rd_buf := b; rd_n := rd_n r + zlen d;
          rd_rx := rd_rx r |}.

Definition keep (r : reading) (p : Z) : reading :=
  {| rd_heap := rd_heap r; rd_buf := rd_buf r; rd_n := rd_n r; rd_rx := rd_rx r ++ [p] |}.

(** [read_buffers]: the loop over [rx_buffers], which is not changed. *)
Fixpoint read_buffers (cs : list Z) (len : Z) (r : reading) : option reading :=
  match cs with
  | [] => Some r
  | p :: cs' =>
      r ← chunk_into r p (u64 (len - rd_n r));
      if rd_n r =? len then Some r else read_buffers cs' len r
  end.

(** A successful completion of [n] bytes for chunk [p]; [d] is what the adapter
    has written to the chunk's memory. *)
Definition absorb (len : Z) (r : reading) (p n : Z) (d : list Z) : option reading :=
  c ← chunks (rd_heap r) !! p;
  let r := {| rd_heap := put_chunk (rd_heap r) p (c{{contents := d}}); rd_buf := rd_buf r;
              rd_n := rd_n r; rd_rx := rd_rx r |} in
  if rd_n r =? len then Some (keep r p)
  else if len <=? u64 (rd_n r + n) then
    r ← chunk_into r p (u64 (len - rd_n r)); Some (keep r p)
  else chunk_into r p n.

Section Read.
Context {W : Type} `{Env W}.

Definition take_wc (len : Z) (r : reading) (w : ibv_wc) : M (St W) reading :=
  if negb (bool_decide (wc_status w = IBV_WC_SUCCESS)) then assert_fail else
  let* c := deref (chunks (rd_heap r) !! wc_wr_id w) in
  let* d := sys (mem_load (buffer c) (bytes c)) in
  deref (absorb len r (wc_wr_id w) (wc_byte_len w) d).

(** [for (i = 0; i < n; ++i)] over the entries the poll wrote. *)
Fixpoint take_wcs (n : nat) (cs : list ibv_wc) (len : Z) (r : reading) : M (St W) reading :=
  match n with
  | O => ret r
  | S n' =>
      let* w := deref (head cs) in
      let* r := take_wc len r w in
      take_wcs n' (tail cs) len r
  end.

(** From the label [again]. Any poll that does not answer 0, an error included,
    goes back to it. *)
Fixpoint drain (fuel : nat) (rearmed : bool) (cq : CompletionQueue) (len : Z) (r : reading)
  : M (St W) reading :=
  match fuel with
  | O => out_of_fuel
  | S f =>
      let* (n, cs) := poll_cq cq MAX_COMPLETIONS in
      let* r := take_wcs (Z.to_nat n) cs len r in
      if negb (n =? 0) then drain f rearmed cq len r
      else if negb rearmed then rearm_notify cq ;;; drain f true cq len r
      else ret r
  end.

(** [while (!cc->get_cq_event());]. *)
Fixpoint wait_cq_event (fuel : nat) (cc : CompletionChannel) : M (St W) CompletionChannel :=
  match fuel with
  | O => out_of_fuel
  | S f => let* (ok, cc) := get_cq_event cc in if ok then ret cc else wait_cq_event f cc
  end.

(** [read(buf, len)]: the result, the chunks, the caller's buffer, the socket. *)
Definition read (fuel : nat) (h : heap) (s : RDMAConnectedSocketImpl) (buf : list Z) (len : Z)
  : M (St W) (Z * heap * list Z * RDMAConnectedSocketImpl) :=
  let* cc := wait_cq_event fuel (cs_cc s) in
  let* r := deref (read_buffers (rx_buffers s) len
                     {| rd_heap := h; rd_buf := buf; rd_n := 0; rd_rx := rx_buffers s |}) in
  let* r := drain fuel false (cs_cq s) len r in
  ret (rd_n r, rd_heap r, rd_buf r, s{{rx_buffers := rd_rx r; cs_cc := cc}}).
End Read.

(** ** The adapter's side *)

(** The calls of the receive loop. *)
Definition reads_only (c : call) : bool :=
  match c with
  | ibv_poll_cq _ _ | ibv_req_notify_cq _ _ | mem_load _ _ | ibv_get_cq_event _
  | ibv_ack_cq_events _ _ | sys_errno => true
  | _ => false
  end.

Definition is_poll (c : call) : bool := match c with ibv_poll_cq _ _ => true | _ => false end.

(** [pending w]: the completions of the queue the program has not polled yet. A
    poll takes some of them, oldest first, and at least one if there is one;
    nothing else the loop calls takes any; none arrives while it runs. [mem w]:
    the memory the adapter writes, which none of the calls of the loop change.
    Nothing is said of when [ibv_get_cq_event] succeeds. *)
Class CqAdapter {W} (E : Env W) (cq : Z) (mem : W -> Z -> Z -> list Z) (pending : W -> list ibv_wc) := {
  poll_takes : forall w n, 0 < n -> exists k,
    fst (ext (ibv_poll_cq cq n) w) = (Z.of_nat k, take k (pending w)) /\
    pending (snd (ext (ibv_poll_cq cq n) w)) = drop k (pending w) /\
    (k <= length (pending w))%nat /\ (k = 0%nat -> pending w = []);
  others_keep : forall c w, reads_only c = true -> is_poll c = false ->
    pending (snd (ext c w)) = pending w;
  load_reads : forall a n w, fst (ext (mem_load a n) w) = mem w a n;
  mem_keeps : forall c w, reads_only c = true -> mem (snd (ext c w)) = mem w }.

(** From [w], one of the first [k + 1] attempts to take an event from the
    (non-blocking) channel succeeds. *)
Fixpoint event_within {W} (E : Env W) (ch : Z) (k : nat) (w : W) : Prop :=
  let '((rc, _), w') := ext (ibv_get_cq_event ch) w in
  rc = 0 \/ match k with O => False | S k => event_within E ch k (snd (ext sys_errno w')) end.

(** Between two states the program has only read. *)
Definition same_mem {W} (mem : W -> Z -> Z -> list Z) (s s' : St W) : Prop :=
  mem (world s') = mem (world s).

(** All completions of a list, in order. *)
Fixpoint absorb_all (mem : Z -> Z -> list Z) (len : Z) (r : reading) (ws : list ibv_wc)
  : option reading :=
  match ws with
  | [] => Some r
  | w :: ws' =>
      c ← chunks (rd_heap r) !! wc_wr_id w;
      r ← absorb len r (wc_wr_id w) (wc_byte_len w) (mem (buffer c) (bytes c));
      absorb_all mem len r ws'
  end.

(** The message of a completion: the first bytes of the chunk's memory. *)
Definition message (mem : Z -> Z -> list Z) (h : heap) (w : ibv_wc) : list Z :=
  match chunks h !! wc_wr_id w with
  | Some c => take (Z.to_nat (wc_byte_len w)) (mem (buffer c) (bytes c))
  | None => []
  end.

Definition messages (mem : Z -> Z -> list Z) (h : heap) (ws : list ibv_wc) : list Z :=
  concat (map (message mem h) ws).

(** A completion that delivers into a fresh chunk. *)
Definition delivers (mem : Z -> Z -> list Z) (h : heap) (w : ibv_wc) : Prop :=
  wc_status w = IBV_WC_SUCCESS /\ exists c, chunks h !! wc_wr_id w = Some c /\ wf_chunk c /\
    offset c = 0 /\ 0 <= wc_byte_len w <= bytes c /\ zlen (mem (buffer c) (bytes c)) = bytes c.

(** The chunks [read] keeps: those of the completion that fills the request and
    of all later ones. *)
Fixpoint kept (len n : Z) (ws : list ibv_wc) : list Z :=
  match ws with
  | [] => []
  | w :: ws' =>
      if len <=? n + wc_byte_len w then map wc_wr_id ws else kept len (n + wc_byte_len w) ws'
  end.

(** [out] has been copied to the caller's buffer, which held [b0]. *)
Definition copied (out b0 : list Z) (r : reading) : Prop :=
  rd_n r = zlen out /\ rd_buf r = out ++ drop (length out) b0.

Lemma chunk_into_run out b0 r p c n :
  copied out b0 r -> chunks (rd_heap r) !! p = Some c -> wf_chunk c ->
  0 <= n <= bytes c - offset c -> zlen out + n <= zlen b0 ->
  exists r', chunk_into r p n = Some r' /\
    copied (out ++ slice (offset c) n (contents c)) b0 r' /\ rd_rx r' = rd_rx r /\
    chunks (rd_heap r') !! p = Some (set_offset c (offset c + n)) /\
    forall q, q <> p -> chunks (rd_heap r') !! q = chunks (rd_heap r) !! q.
Proof.
  intros [En Eb] Hp Hwf Hn Hfit. unfold chunk_into. rewrite Hp. cbn [mbind option_bind].
  rewrite chunk_read_within by assumption. cbn [mbind option_bind].
  destruct (Hwf) as (Ho & _ & Hz).
  assert (Hs : zlen (slice (offset c) n (contents c)) = n) by (apply zlen_slice; lia).
  rewrite En, Eb, buf_write_cursor by lia. cbn [mbind option_bind]. eexists. split; [reflexivity|].
  split; [split; cbn [rd_n rd_buf]; [rewrite zlen_app; reflexivity|reflexivity]|].
  split; [reflexivity|]. split; [apply lookup_insert_eq|]. intros q Hq. apply lookup_insert_ne. congruence.
Qed.

(** Asked for more than is left of its memory, a chunk gives that. *)
Lemma chunk_into_rest out b0 r p c n :
  copied out b0 r -> chunks (rd_heap r) !! p = Some c -> wf_chunk c ->
  bytes c - offset c < n -> zlen out + (bytes c - offset c) <= zlen b0 ->
  exists r', chunk_into r p n = Some r' /\
    copied (out ++ slice (offset c) (bytes c - offset c) (contents c)) b0 r' /\ rd_rx r' = rd_rx r.
Proof.
  intros [En Eb] Hp Hwf Hn Hfit. unfold chunk_into, chunk_read. rewrite Hp. cbn [mbind option_bind].
  rewrite chunk_left by assumption. destruct (Hwf) as (Ho & _ & Hz).
  destruct (Z.leb_spec n (bytes c - offset c)); [lia|]. rewrite buf_read_in by lia. cbn [mbind option_bind].
  assert (Hs : zlen (slice (offset c) (bytes c - offset c) (contents c)) = bytes c - offset c)
    by (apply zlen_slice; lia).
  rewrite En, Eb, buf_write_cursor by lia. cbn [mbind option_bind]. eexists. split; [reflexivity|].
  split; [split; cbn [rd_n rd_buf]; [rewrite zlen_app; reflexivity|reflexivity]|reflexivity].
Qed.

Lemma take_zero {A} n (l : list A) : n <= 0 -> take (Z.to_nat n) l = [].
Proof. intros. replace (Z.to_nat n) with 0%nat by lia. reflexivity. Qed.

(** One completion. *)
Lemma absorb_run len out b0 r w c d :
  copied out b0 r -> zlen out <= len <= zlen b0 -> len < 2 ^ 62 ->
  chunks (rd_heap r) !! wc_wr_id w = Some c -> wf_chunk c -> offset c = 0 ->
  0 <= wc_byte_len w <= bytes c -> zlen d = bytes c ->
  exists r', absorb len r (wc_wr_id w) (wc_byte_len w) d = Some r' /\
    copied (out ++ take (Z.to_nat (len - zlen out)) (take (Z.to_nat (wc_byte_len w)) d)) b0 r' /\
    rd_rx r' = rd_rx r ++ (if len <=? zlen out + wc_byte_len w then [wc_wr_id w] else []) /\
    chunks (rd_heap r') !! wc_wr_id w =
      Some (set_offset (c{{contents := d}}) (Z.min (len - zlen out) (wc_byte_len w))) /\
    forall q, q <> wc_wr_id w -> chunks (rd_heap r') !! q = chunks (rd_heap r) !! q.
Proof.
  intros [En Eb] Hout Hlen Hp Hwf Ho Hn Hd. unfold absorb. rewrite Hp. cbn [mbind option_bind rd_n].
  pose proof (zlen_nonneg out). set (p := wc_wr_id w) in *. set (n := wc_byte_len w) in *.
  set (c1 := c{{contents := d}}).
  set (r1 := {| rd_heap := put_chunk (rd_heap r) p c1; rd_buf := rd_buf r; rd_n := rd_n r;
                rd_rx := rd_rx r |}).
  assert (Hc1 : copied out b0 r1) by (split; assumption).
  assert (Hp1 : chunks (rd_heap r1) !! p = Some c1) by apply lookup_insert_eq.
  assert (Hwf1 : wf_chunk c1) by (destruct Hwf as (? & ? & _); exact (conj H0 (conj H1 Hd))).
  assert (Hoth : forall q, q <> p -> chunks (rd_heap r1) !! q = chunks (rd_heap r) !! q)
    by (intros q Hq; apply lookup_insert_ne; congruence).
  assert (Hb : bytes c < 2 ^ 32) by apply Hwf.
  assert (Ho1 : offset c1 = 0) by exact Ho. assert (Hb1 : bytes c1 = bytes c) by reflexivity.
  assert (Es : forall k, slice (offset c1) k (contents c1) = take (Z.to_nat k) d)
    by (intros k; rewrite Ho1; reflexivity).
  rewrite En, u64_small by lia.
  destruct (Z.eqb_spec (zlen out) len) as [E|E].
  - eexists. split; [reflexivity|]. rewrite take_zero, app_nil_r by lia. split; [exact Hc1|].
    destruct (Z.leb_spec len (zlen out + n)); [|lia]. split; [reflexivity|]. split; [|exact Hoth].
    cbn [keep rd_heap]. rewrite Hp1. f_equal. replace (Z.min (len - zlen out) n) with 0 by lia.
    rewrite <- Ho1. destruct c1. reflexivity.
  - destruct (Z.leb_spec len (zlen out + n)) as [Hle|Hlt].
    + rewrite u64_small by lia.
      destruct (chunk_into_run out b0 r1 p c1 (len - zlen out) Hc1 Hp1 Hwf1) as (r2 & -> & Hc2 & Hrx & Hp2 & Hq2);
        [lia..|]. rewrite Ho1, Z.add_0_l in Hp2.
      cbn [mbind option_bind]. eexists. split; [reflexivity|].
      rewrite take_take. rewrite Es in Hc2.
      replace (Z.to_nat (len - zlen out) `min` Z.to_nat n)%nat with (Z.to_nat (len - zlen out)) by lia.
      split; [exact Hc2|]. split; [cbn [keep rd_rx]; rewrite Hrx; reflexivity|].
      split; [rewrite Z.min_l by lia; exact Hp2|].
      intros q Hq. cbn [keep rd_heap]. rewrite Hq2 by exact Hq. apply Hoth, Hq.
    + destruct (chunk_into_run out b0 r1 p c1 n Hc1 Hp1 Hwf1) as (r2 & -> & Hc2 & Hrx & Hp2 & Hq2);
        [lia..|]. rewrite Ho1, Z.add_0_l in Hp2.
      eexists. split; [reflexivity|]. rewrite take_take. rewrite Es in Hc2.
      replace (Z.to_nat (len - zlen out) `min` Z.to_nat n)%nat with (Z.to_nat n) by lia.
      split; [exact Hc2|]. rewrite app_nil_r. split; [exact Hrx|].
      split; [rewrite Z.min_r by lia; exact Hp2|].
      intros q Hq. rewrite Hq2 by exact Hq. apply Hoth, Hq.
Qed.

Lemma delivers_other mem h h' p w :
  wc_wr_id w <> p -> (forall q, q <> p -> chunks h' !! q = chunks h !! q) ->
  (delivers mem h w -> delivers mem h' w) /\ message mem h' w = message mem h w.
Proof.
  intros Hne Hq. unfold delivers, message. rewrite Hq by exact Hne. auto.
Qed.

Lemma kept_full len n ws :
  len <= n -> Forall (fun w => 0 <= wc_byte_len w) ws -> kept len n ws = map wc_wr_id ws.
Proof.
  intros Hn Hws. destruct Hws as [|w ws Hw _]; [reflexivity|]. cbn [kept].
  destruct (Z.leb_spec len (n + wc_byte_len w)); [reflexivity|lia].
Qed.

Lemma take_split {A} (n : Z) (a b : list A) :
  take (Z.to_nat n) (a ++ b) =
  take (Z.to_nat n) a ++ take (Z.to_nat (n - zlen (take (Z.to_nat n) a))) b.
Proof.
  rewrite firstn_app. f_equal. unfold zlen. rewrite length_take. f_equal. lia.
Qed.

(** All of them. *)
Lemma absorb_all_run mem len b0 ws : forall r out,
  copied out b0 r -> zlen out <= len <= zlen b0 -> len < 2 ^ 62 ->
  Forall (delivers mem (rd_heap r)) ws -> NoDup (map wc_wr_id ws) ->
  exists r', absorb_all mem len r ws = Some r' /\
    copied (out ++ take (Z.to_nat (len - zlen out)) (messages mem (rd_heap r) ws)) b0 r' /\
    rd_rx r' = rd_rx r ++ kept len (zlen out) ws /\
    forall q, q ∉ map wc_wr_id ws -> chunks (rd_heap r') !! q = chunks (rd_heap r) !! q.
Proof.
  induction ws as [|w ws IH]; intros r out Hc Hout Hlen Hd Hnd; cbn [absorb_all].
  - exists r. cbn [messages map concat kept]. rewrite firstn_nil, !app_nil_r. auto.
  - apply Forall_cons in Hd as [(_ & c & Hp & Hwf & Ho & Hn & Hz) Hd].
    cbn [map] in Hnd. apply NoDup_cons in Hnd as [Hni Hnd]. rewrite Hp. cbn [mbind option_bind].
    destruct (absorb_run len out b0 r w c _ Hc Hout Hlen Hp Hwf Ho Hn Hz) as (r1 & -> & Hc1 & Hrx1 & _ & Hq).
    cbn [mbind option_bind].
    assert (Hmsg : message mem (rd_heap r) w = take (Z.to_nat (wc_byte_len w)) (mem (buffer c) (bytes c)))
      by (unfold message; rewrite Hp; reflexivity).
    rewrite <- Hmsg in Hc1. set (got := take (Z.to_nat (len - zlen out)) (message mem (rd_heap r) w)) in *.
    assert (Hml : zlen (message mem (rd_heap r) w) = wc_byte_len w) by (rewrite Hmsg; apply zlen_take; lia).
    assert (Hgl : zlen got = Z.min (len - zlen out) (wc_byte_len w))
      by (unfold got; unfold zlen in *; rewrite length_take; lia).
    assert (Hdel : Forall (delivers mem (rd_heap r1)) ws /\
                   messages mem (rd_heap r1) ws = messages mem (rd_heap r) ws).
    { clear IH Hnd Hc1. induction ws as [|w2 ws IH2]; [split; [constructor|reflexivity]|].
      cbn [map] in Hni. apply not_elem_of_cons in Hni as [Hne Hni]. apply Forall_cons in Hd as [Hd2 Hd].
      destruct (IH2 Hd Hni) as [I1 I2].
      destruct (delivers_other mem _ _ _ w2 (not_eq_sym Hne) Hq) as [D1 D2].
      split; [constructor; auto|]. unfold messages in *. cbn [map concat]. rewrite D2, I2. reflexivity. }
    destruct Hdel as [Hdel Hms].
    destruct (IH r1 (out ++ got) Hc1) as (r' & E & Hc' & Hrx' & Hq'); [rewrite zlen_app; lia|exact Hlen|exact Hdel|exact Hnd|].
    exists r'. split; [exact E|]. split; [|split].
    + rewrite Hms, zlen_app in Hc'. unfold messages at 1. cbn [map concat].
      rewrite take_split. fold got. rewrite app_assoc.
      replace (len - zlen out - zlen got) with (len - (zlen out + zlen got)) by lia. exact Hc'.
    + rewrite Hrx', Hrx1, <- app_assoc. f_equal. cbn [kept]. rewrite zlen_app.
      destruct (Z.leb_spec len (zlen out + wc_byte_len w)).
      * cbn [map app]. f_equal. apply kept_full; [lia|].
        eapply Forall_impl; [exact Hd|]. intros w2 (_ & c2 & _ & _ & _ & Hn2 & _). apply Hn2.
      * cbn [app]. f_equal. lia.
    + intros q Hnq. cbn [map] in Hnq. apply not_elem_of_cons in Hnq as [Hq1 Hq2].
      rewrite Hq' by exact Hq2. apply Hq, Hq1.
Qed.

Lemma absorb_all_app mem len r ws1 ws2 :
  absorb_all mem len r (ws1 ++ ws2) = absorb_all mem len r ws1 ≫= fun r => absorb_all mem len r ws2.
Proof.
  revert r. induction ws1 as [|w ws1 IH]; intros r; cbn [app absorb_all]; [reflexivity|].
  destruct (chunks (rd_heap r) !! wc_wr_id w); [|reflexivity]. cbn [mbind option_bind].
  destruct (absorb _ _ _ _ _); [|reflexivity]. cbn [mbind option_bind]. apply IH.
Qed.

Section ReadSpec.
Context {W : Type} (E : Env W) (cq : CompletionQueue) (mem : W -> Z -> Z -> list Z)
  (pending : W -> list ibv_wc) `{!CqAdapter E (cq_cq cq) mem pending}.

Definition successful (ws : list ibv_wc) : Prop := Forall (fun w => wc_status w = IBV_WC_SUCCESS) ws.

Lemma take_wcs_run len cs : forall r r' s,
  absorb_all (mem (world s)) len r cs = Some r' -> successful cs ->
  returns (take_wcs (length cs) cs len r) s (fun x s' =>
    x = r' /\ pending (world s') = pending (world s) /\ same_mem mem s s').
Proof.
  induction cs as [|w cs IH]; intros r r' s Ha Hs.
  - cbn in Ha. injection Ha as ->. apply returns_ret. repeat split.
  - cbn [length take_wcs head tail deref]. apply Forall_cons in Hs as [Hw Hs].
    cbn [absorb_all] in Ha. destruct (chunks (rd_heap r) !! wc_wr_id w) as [c|] eqn:Ec; [|discriminate].
    cbn [mbind option_bind] in Ha.
    destruct (absorb _ _ _ _ _) as [r1|] eqn:Er; [|discriminate]. cbn [mbind option_bind] in Ha.
    apply returns_bind, returns_ret, returns_bind. unfold take_wc.
    rewrite bool_decide_eq_true_2 by exact Hw. cbn [negb]. rewrite Ec.
    apply returns_bind, returns_ret, returns_bind, returns_sys. intros d w1 E1.
    pose proof (load_reads (buffer c) (bytes c) (world s)) as El.
    pose proof (others_keep (mem_load (buffer c) (bytes c)) (world s) eq_refl eq_refl) as Ep. rewrite E1 in El, Ep.
    cbn [fst snd] in El, Ep. rewrite El, Er. apply returns_ret.
    pose proof (mem_keeps (mem_load (buffer c) (bytes c)) (world s) eq_refl) as Em.
    rewrite E1 in Em. cbn [snd] in Em. rewrite <- Em in Ha.
    eapply returns_conseq; [apply (IH r1 r'); assumption|].
    intros x s' (-> & Hp & Hm). split; [reflexivity|]. split; [rewrite Hp; exact Ep|].
    unfold same_mem in *. cbn [world] in Hm. congruence.
Qed.

Lemma drain_run len fuel : forall rearmed r r' s,
  absorb_all (mem (world s)) len r (pending (world s)) = Some r' -> successful (pending (world s)) ->
  (length (pending (world s)) + (if rearmed : bool then 0 else 1) < fuel)%nat ->
  returns (drain fuel rearmed cq len r) s (fun x s' =>
    x = r' /\ pending (world s') = [] /\ same_mem mem s s').
Proof.
  induction fuel as [|fuel IH]; intros rearmed r r' s Ha Hs Hf; [lia|]. cbn [drain]. unfold poll_cq.
  apply returns_bind, returns_bind, returns_sys. intros a w1 E1.
  destruct (poll_takes (world s) MAX_COMPLETIONS ltac:(reflexivity)) as (k & Ea & Ew & Hk & H0).
  pose proof (mem_keeps (ibv_poll_cq (cq_cq cq) MAX_COMPLETIONS) (world s) eq_refl) as Em.
  rewrite E1 in Ea, Ew, Em. cbn [fst snd] in Ea, Ew, Em. subst a. rewrite <- Em in Ha.
  destruct (Z.ltb_spec (Z.of_nat k) 0); [lia|]. apply returns_ret. rewrite Nat2Z.id.
  rewrite <- (take_drop k (pending (world s))) in Ha, Hs. rewrite absorb_all_app in Ha.
  destruct (absorb_all (mem w1) len r (take k (pending (world s)))) as [r1|] eqn:Er; [|discriminate].
  cbn [mbind option_bind] in Ha. apply Forall_app in Hs as [Hs1 Hs2]. apply returns_bind.
  replace k with (length (take k (pending (world s)))) at 1 by (rewrite length_take; lia).
  eapply returns_conseq; [apply (take_wcs_run len _ r r1); assumption|].
  intros x s2 (-> & Hp & Hm). unfold same_mem in *. cbn [world] in Hp, Hm.
  rewrite <- Ew, <- Hp in Ha, Hs2. rewrite <- Hm in Ha, Em.
  assert (Hl : length (pending (world s2)) = (length (pending (world s)) - k)%nat)
    by (rewrite Hp, Ew, length_drop; reflexivity).
  destruct (Z.eqb_spec (Z.of_nat k) 0) as [Ek|Ek]; cbn [negb].
  - assert (Epend : pending (world s) = []) by (apply H0; lia). rewrite Epend in Hl, Hf.
    cbn [length] in Hl, Hf. destruct rearmed; cbn [negb].
    + apply returns_ret. assert (Ep2 : pending (world s2) = []) by (apply length_zero_iff_nil; lia).
      rewrite Ep2 in *. cbn [absorb_all] in Ha. injection Ha as ->. auto.
    + unfold rearm_notify. apply returns_bind.
      refine (returns_sys (ibv_req_notify_cq (cq_cq cq) false) s2 _ _). intros z w3 E3.
      pose proof (others_keep (ibv_req_notify_cq (cq_cq cq) false) (world s2) eq_refl eq_refl) as Hr. rewrite E3 in Hr. cbn [snd] in Hr.
      pose proof (mem_keeps (ibv_req_notify_cq (cq_cq cq) false) (world s2) eq_refl) as Em3.
      rewrite E3 in Em3. cbn [snd] in Em3.
      eapply returns_conseq; [apply (IH true r1 r'); cbn [world]; rewrite Hr, ?Em3; [exact Ha|exact Hs2|lia]|].
      cbn [world]. rewrite Em3, Em. auto.
  - eapply returns_conseq; [apply (IH rearmed r1 r'); [exact Ha|exact Hs2|lia]|].
    rewrite Em. auto.
Qed.

(** Waiting takes no completion and leaves the memory as it is. *)
Definition only_waited (s s' : St W) : Prop :=
  pending (world s') = pending (world s) /\ same_mem mem s s'.

Lemma keeps_sys c s r w :
  reads_only c = true -> is_poll c = false -> ext c (world s) = (r, w) ->
  only_waited s (mkSt w (Ev c r :: trace s) (cells s)).
Proof.
  intros H1 H2 E1. pose proof (others_keep c (world s) H1 H2) as Ep.
  pose proof (mem_keeps c (world s) H1) as Em. rewrite E1 in Ep, Em. exact (conj Ep Em).
Qed.

Lemma only_waited_trans s1 s2 s3 : only_waited s1 s2 -> only_waited s2 s3 -> only_waited s1 s3.
Proof. unfold only_waited, same_mem. intros [-> ->] [-> ->]. auto. Qed.

(** One attempt: it succeeds exactly if the channel has an event. *)
Lemma get_cq_event_keeps cc s :
  returns (get_cq_event cc) s (fun r s' =>
    only_waited s s' /\ cc_channel (snd r) = cc_channel cc /\
    let '((rc, _), w) := ext (ibv_get_cq_event (cc_channel cc)) (world s) in
    fst r = (rc =? 0) /\ (rc <> 0 -> world s' = snd (ext sys_errno w))).
Proof.
  unfold get_cq_event. apply returns_bind, returns_sys. intros [rc q] w1 E1. rewrite E1.
  pose proof (keeps_sys (ibv_get_cq_event _) s (rc, q) _ eq_refl eq_refl E1) as K1.
  destruct (Z.eqb_spec rc 0) as [->|Hrc]; cbn [negb].
  - destruct (_ =? MAX_ACK_EVENT).
    + apply returns_bind, returns_sys. intros u w2 E2.
      pose proof (keeps_sys (ibv_ack_cq_events q MAX_ACK_EVENT) _ _ _ eq_refl eq_refl E2) as K2.
      apply returns_ret. split; [eapply only_waited_trans; eassumption|]. split; [reflexivity|].
      split; [reflexivity|congruence].
    + apply returns_ret. split; [exact K1|]. split; [reflexivity|]. split; [reflexivity|congruence].
  - apply returns_bind. refine (returns_sys sys_errno _ _ _). intros u w2 E2.
    pose proof (keeps_sys sys_errno _ _ _ eq_refl eq_refl E2) as K2.
    apply returns_ret. split; [eapply only_waited_trans; eassumption|]. split; [reflexivity|].
    split; [reflexivity|]. intros _. cbn [world] in *. rewrite E2. reflexivity.
Qed.

Lemma wait_cq_event_run fuel : forall k cc s,
  event_within E (cc_channel cc) k (world s) -> (k < fuel)%nat ->
  returns (wait_cq_event fuel cc) s (fun cc' s' =>
    only_waited s s' /\ cc_channel cc' = cc_channel cc).
Proof.
  induction fuel as [|fuel IH]; intros k cc s Hev Hf; [lia|]. cbn [wait_cq_event]. apply returns_bind.
  eapply returns_conseq; [apply get_cq_event_keeps|]. intros [ok cc'] s' (Hk & Hch & Hres). cbn [fst snd] in *.
  destruct ok; [apply returns_ret; auto|]. destruct k as [|k]; cbn [event_within] in Hev;
    destruct (ext (ibv_get_cq_event (cc_channel cc)) (world s)) as [[rc q] w];
    destruct Hres as [Hrc Hw]; symmetry in Hrc; apply Z.eqb_neq in Hrc; (destruct Hev as [->|Hev]; [congruence|]);
    [contradiction|].
  eapply returns_conseq; [apply (IH k)|]; [rewrite Hch, (Hw Hrc); exact Hev|lia|].
  intros cc2 s2 [Hk2 Hch2]. split; [eapply only_waited_trans; eassumption|congruence].
Qed.

Lemma wait_cq_event_keeps fuel : forall cc s,
  if_returns (wait_cq_event fuel cc) s (fun cc' s' =>
    only_waited s s' /\ cc_channel cc' = cc_channel cc).
Proof.
  induction fuel as [|fuel IH]; intros cc s; [exact I|]. cbn [wait_cq_event].
  apply if_returns_bind, returns_if_returns.
  eapply returns_conseq; [apply get_cq_event_keeps|]. intros [ok cc'] s' (Hk & Hch & _). cbn [fst snd] in *.
  destruct ok; [apply if_returns_ret; auto|].
  eapply if_returns_conseq; [apply IH|].
  intros cc2 s2 [Hk2 Hch2]. split; [eapply only_waited_trans; eassumption|congruence].
Qed.
End ReadSpec.

(** What a whole call does, given what the chunks kept and the completions add up
    to. *)
Section WholeRead.
Context {W : Type} (E : Env W) (mem : W -> Z -> Z -> list Z) (pending : W -> list ibv_wc)
  (fuel : nat) (h : heap) (s : RDMAConnectedSocketImpl) (buf : list Z) (len : Z) (st : St W)
  `{!CqAdapter E (cq_cq (cs_cq s)) mem pending}.

Definition read_ends (r : reading) (x : Z * heap * list Z * RDMAConnectedSocketImpl) (st' : St W) : Prop :=
  let '(n, h', buf', s') := x in
  n = rd_n r /\ h' = rd_heap r /\ buf' = rd_buf r /\ rx_buffers s' = rd_rx r /\
  cs_cq s' = cs_cq s /\ cc_channel (cs_cc s') = cc_channel (cs_cc s) /\
  pending (world st') = [] /\ same_mem mem st st'.

Context (r0 r : reading) (Hf : (length (pending (world st)) + 1 < fuel)%nat)
  (Hr0 : read_buffers (rx_buffers s) len
     {| rd_heap := h; rd_buf := buf; rd_n := 0; rd_rx := rx_buffers s |} = Some r0)
  (Hr : absorb_all (mem (world st)) len r0 (pending (world st)) = Some r)
  (Hok : successful (pending (world st))).

Lemma read_rest : exists K,
  read fuel h s buf len = bind (wait_cq_event fuel (cs_cc s)) K /\
  forall cc s1, only_waited mem pending st s1 -> cc_channel cc = cc_channel (cs_cc s) ->
    returns (K cc) s1 (read_ends r).
Proof.
  eexists. split; [reflexivity|].
  intros cc s1 [Hp Hm] Hch. unfold same_mem in *. rewrite Hr0. apply returns_bind, returns_ret, returns_bind.
  eapply returns_conseq;
    [apply (drain_run E (cs_cq s) mem pending len fuel false r0 r); rewrite ?Hp, ?Hm; [exact Hr|exact Hok|lia]|].
  intros x s2 (-> & Hp2 & Hm2). unfold same_mem in Hm2. apply returns_ret. unfold read_ends, same_mem.
  do 5 (split; [reflexivity|]). split; [exact Hch|]. split; [exact Hp2|congruence].
Qed.

Lemma whole_read_run k :
  event_within E (cc_channel (cs_cc s)) k (world st) -> (k < fuel)%nat ->
  returns (read fuel h s buf len) st (read_ends r).
Proof.
  intros Hev Hk. destruct read_rest as (K & -> & HK). apply returns_bind.
  eapply returns_conseq; [eapply (wait_cq_event_run E (cs_cq s) mem pending); eassumption|].
  intros cc s1 [Hw Hch]. apply HK; assumption.
Qed.

Lemma whole_read_if : if_returns (read fuel h s buf len) st (read_ends r).
Proof.
  destruct read_rest as (K & -> & HK). apply if_returns_bind.
  eapply if_returns_conseq; [apply (wait_cq_event_keeps E (cs_cq s) mem pending)|].
  intros cc s1 [Hw Hch]. apply returns_if_returns, HK; assumption.
Qed.
End WholeRead.

(** On a socket that keeps no chunk, the completions add up to the messages. *)
Definition fresh_reading (h : heap) (buf : list Z) : reading :=
  {| rd_heap := h; rd_buf := buf; rd_n := 0; rd_rx := [] |}.

Lemma absorb_fresh mem h buf len ws :
  let got := take (Z.to_nat len) (messages mem h ws) in
  Forall (delivers mem h) ws -> NoDup (map wc_wr_id ws) -> 0 <= len <= zlen buf -> len < 2 ^ 62 ->
  exists r, absorb_all mem len (fresh_reading h buf) ws = Some r /\
    rd_n r = zlen got /\ rd_buf r = got ++ drop (length got) buf /\ rd_rx r = kept len 0 ws /\
    forall q, q ∉ map wc_wr_id ws -> chunks (rd_heap r) !! q = chunks h !! q.
Proof.
  intros got Hd Hnd Hlen Hmax.
  destruct (absorb_all_run mem len buf ws (fresh_reading h buf) []) as (r & Ha & [En Eb] & Hrx & Hq);
    [split; reflexivity|exact Hlen|exact Hmax|exact Hd|exact Hnd|].
  cbn [app rd_heap rd_rx fresh_reading] in *. change (zlen (@nil Z)) with 0 in *. rewrite Z.sub_0_r in *. eauto 10.
Qed.

Lemma delivers_successful mem h ws : Forall (delivers mem h) ws -> successful ws.
Proof. intros Hd. eapply Forall_impl; [exact Hd|]. intros w Hw. apply Hw. Qed.

(** ** Properties *)

(** C7 [read] delivers the messages that have arrived: on a socket that keeps no
    chunk from an earlier call ([rx_buffers] empty), with the completions [pending]
    each naming its own fresh chunk, and if the channel gives an event at one of
    the first [k + 1] attempts of its busy wait, it returns - the loop ends once
    the queue is empty after re-arming - and the caller's buffer starts with the
    concatenation of the messages cut at [len], the rest of the buffer untouched;
    the result is the number of bytes copied; no completion is left; and the
    socket keeps the chunk of the message that reaches the length asked for, even
    if it ends exactly there, and the chunks of all later messages. *)
Theorem read_delivers {W} (E : Env W) mem pending fuel k h s buf len st
    `{!CqAdapter E (cq_cq (cs_cq s)) mem pending} :
  let ws := pending (world st) in
  let got := take (Z.to_nat len) (messages (mem (world st)) h ws) in
  event_within E (cc_channel (cs_cc s)) k (world st) -> (k < fuel)%nat ->
  rx_buffers s = [] -> Forall (delivers (mem (world st)) h) ws -> NoDup (map wc_wr_id ws) ->
  0 <= len <= zlen buf -> len < 2 ^ 62 -> (length ws + 1 < fuel)%nat ->
  returns (read fuel h s buf len) st (fun r st' =>
    let '(n, _, buf', s') := r in
    n = zlen got /\ buf' = got ++ drop (length got) buf /\ pending (world st') = [] /\
    rx_buffers s' = kept len 0 ws).
Proof.
  intros ws got Hev Hk Hrx Hd Hnd Hlen Hmax Hf.
  destruct (absorb_fresh (mem (world st)) h buf len ws Hd Hnd Hlen Hmax) as (r & Ha & En & Eb & Hr & _).
  eapply returns_conseq.
  { eapply (whole_read_run E mem pending fuel h s buf len st (fresh_reading h buf) r Hf);
      [rewrite Hrx; reflexivity|exact Ha|eapply delivers_successful, Hd|exact Hev|exact Hk]. }
  intros [[[n h'] buf'] s'] st' (-> & _ & -> & -> & _ & _ & Hp & _). auto.
Qed.

(** Without an event [read] spins: it does not return, whatever the number of
    turns of its first loop, and takes no message. *)
Theorem read_spins {W} `{Env W} fuel h s buf len st :
  (forall w, fst (fst (ext (ibv_get_cq_event (cc_channel (cs_cc s))) w)) <> 0) ->
  fst (read fuel h s buf len st) = OutOfFuel.
Proof.
  intros Hno.
  assert (Hw : forall st, fst (wait_cq_event fuel (cs_cc s) st) = OutOfFuel).
  { clear st. induction fuel as [|f IH]; intros st; [reflexivity|]. cbn [wait_cq_event].
    unfold get_cq_event, bind, sys. specialize (Hno (world st)).
    destruct (ext (ibv_get_cq_event (cc_channel (cs_cc s))) (world st)) as [[rc q] w]. cbn [fst] in Hno.
    destruct (Z.eqb_spec rc 0); [contradiction|]. cbn [negb world]. destruct (ext sys_errno w) as [e w2].
    unfold ret. apply IH. }
  unfold read. unfold bind at 1. specialize (Hw st). destruct (wait_cq_event fuel (cs_cc s) st) as [[] ?];
    try discriminate Hw; reflexivity.
Qed.

(** A failed poll is not an error to [read]: it goes back to [again], so as
    long as the adapter answers errors the loop goes on, whatever the number of
    turns, and [read] does not return. *)
Theorem drain_poll_error {W} `{Env W} fuel rearmed cq len r s :
  (forall w, fst (fst (ext (ibv_poll_cq (cq_cq cq) MAX_COMPLETIONS) w)) < 0) ->
  fst (drain fuel rearmed cq len r s) = OutOfFuel.
Proof.
  intros Herr. revert s. induction fuel as [|fuel IH]; intros s; [reflexivity|].
  cbn [drain]. unfold poll_cq. rewrite bind_bind. unfold bind at 1, sys.
  specialize (Herr (world s)).
  destruct (ext (ibv_poll_cq (cq_cq cq) MAX_COMPLETIONS) (world s)) as [[n cs] w].
  cbn [fst] in Herr. destruct (Z.ltb_spec n 0); [|lia].
  rewrite bind_ret. change (take_wcs (Z.to_nat (-1)) [] len r) with (@ret (St W) reading r).
  rewrite bind_ret. apply IH.
Qed.

(** What a read finds of a chunk kept from an earlier one: all of its memory
    behind the cursor. *)
Lemma read_buffers_one h buf p c len :
  chunks h !! p = Some c -> wf_chunk c -> 0 <= len <= zlen buf -> len < 2 ^ 62 ->
  let n := Z.min len (bytes c - offset c) in
  exists r, read_buffers [p] len {| rd_heap := h; rd_buf := buf; rd_n := 0; rd_rx := [p] |} = Some r /\
    rd_n r = n /\ rd_buf r = slice (offset c) n (contents c) ++ drop (Z.to_nat n) buf /\ rd_rx r = [p].
Proof.
  intros Hp Hwf Hlen Hmax n. destruct (Hwf) as (Ho & Hb & Hz). cbn [read_buffers rd_n].
  rewrite Z.sub_0_r, u64_small by lia.
  assert (Hn : zlen (slice (offset c) n (contents c)) = n) by (apply zlen_slice; lia).
  assert (Hdone : forall r, copied ([] ++ slice (offset c) n (contents c)) buf r -> rd_rx r = [p] ->
    exists r', (if rd_n r =? len then Some r else read_buffers [] len r) = Some r' /\ rd_n r' = n /\
      rd_buf r' = slice (offset c) n (contents c) ++ drop (Z.to_nat n) buf /\ rd_rx r' = [p]).
  { intros r [En Eb] Hrx. exists r. split; [case_if; reflexivity|]. cbn [app] in En, Eb.
    rewrite En, Eb, Hn. split; [reflexivity|]. split; [|exact Hrx]. do 2 f_equal. unfold zlen in Hn. lia. }
  set (r0 := {| rd_heap := h; rd_buf := buf; rd_n := 0; rd_rx := [p] |}) in *.
  assert (H0 : copied [] buf r0) by (split; reflexivity).
  destruct (Z.le_gt_cases len (bytes c - offset c)) as [Hle|Hgt]; unfold n in *.
  - rewrite Z.min_l in * by lia.
    destruct (chunk_into_run [] buf r0 p c len H0 Hp Hwf) as (r & -> & Hc & Hrx & _); [lia|rewrite zlen_nil; lia|].
    apply Hdone; [exact Hc|exact Hrx].
  - rewrite Z.min_r in * by lia.
    destruct (chunk_into_rest [] buf r0 p c len H0 Hp Hwf) as (r & -> & Hc & Hrx); [lia|rewrite zlen_nil; lia|].
    apply Hdone; [exact Hc|exact Hrx].
Qed.

(** C39 A message that is not longer than what is asked for is not done with: its
    chunk is read on to the end of its memory, not of the message, and is never
    dropped. After a first [read] of [len] bytes of a message of [wc_byte_len] of
    them, at least [len], a second one, with nothing new arrived (but an event on
    the channel, which it waits for), answers the bytes of the chunk's memory from
    [len] on, as many as are asked for up to the end of the memory: first the rest
    of the message, then whatever an earlier use left behind it. The chunk stays
    kept, also when all of its memory has been read. *)
Theorem read_stale {W} (E : Env W) mem pending fuel fuel2 k h s buf len buf2 len2 st w c h1 n1 buf1 s1 st1 st2
    `{!CqAdapter E (cq_cq (cs_cq s)) mem pending} :
  let memory := mem (world st) (buffer c) (bytes c) in
  let n := Z.min len2 (bytes c - len) in
  rx_buffers s = [] -> pending (world st) = [w] -> delivers (mem (world st)) h w ->
  chunks h !! wc_wr_id w = Some c -> 0 <= len <= wc_byte_len w -> len <= zlen buf -> (2 < fuel)%nat ->
  read fuel h s buf len st = (Ret (n1, h1, buf1, s1), st1) ->
  pending (world st2) = [] -> event_within E (cc_channel (cs_cc s1)) k (world st2) ->
  0 <= len2 <= zlen buf2 -> len2 < 2 ^ 62 -> (1 < fuel2)%nat -> (k < fuel2)%nat ->
  message (mem (world st)) h w = take (Z.to_nat (wc_byte_len w)) memory /\
  n1 = len /\ buf1 = take (Z.to_nat len) memory ++ drop (Z.to_nat len) buf /\
  returns (read fuel2 h1 s1 buf2 len2) st2 (fun r _ =>
    let '(n2, _, buf', s2) := r in
    n2 = n /\ buf' = slice len n memory ++ drop (Z.to_nat n) buf2 /\ rx_buffers s2 = [wc_wr_id w]).
Proof.
  intros memory n Hrx Hpend Hdel Hc Hlen Hfit Hf Hread Hp2 Hev Hlen2 Hmax2 Hf2 Hk.
  split; [unfold message; rewrite Hc; reflexivity|].
  destruct (Hdel) as (Hst & c' & Hc' & Hwf & Ho & Hn & Hz). rewrite Hc in Hc'. injection Hc' as <-.
  fold memory in Hz. assert (Hb : bytes c < 2 ^ 32) by apply Hwf.
  destruct (absorb_run len [] buf (fresh_reading h buf) w c memory) as (r & Ha & [En Eb] & Hr & Hcr & _);
    [split; reflexivity|rewrite zlen_nil; lia|lia|exact Hc|exact Hwf|exact Ho|exact Hn|exact Hz|].
  cbn [app] in En, Eb. change (zlen (@nil Z)) with 0 in *. rewrite Z.sub_0_r in *. rewrite Z.min_l in Hcr by lia.
  rewrite take_take in En, Eb.
  replace (Z.to_nat len `min` Z.to_nat (wc_byte_len w))%nat with (Z.to_nat len) in En, Eb by lia.
  assert (Hl : zlen (take (Z.to_nat len) memory) = len) by (apply zlen_take; lia).
  pose proof (whole_read_if E mem pending fuel h s buf len st (fresh_reading h buf) r) as Hif.
  rewrite Hpend in Hif. specialize (Hif Hf). rewrite Hrx in Hif. specialize (Hif eq_refl).
  cbn [absorb_all rd_heap fresh_reading] in Hif. rewrite Hc in Hif. cbn [mbind option_bind] in Hif.
  fold memory in Hif. change {| rd_heap := h; rd_buf := buf; rd_n := 0; rd_rx := [] |} with (fresh_reading h buf) in Hif.
  rewrite Ha in Hif. specialize (Hif eq_refl ltac:(constructor; [exact Hst|constructor])).
  apply (if_returns_elim _ _ _ _ _ Hif) in Hread as (-> & -> & -> & Hrx1 & Hcq1 & _).
  split; [rewrite En; exact Hl|].
  split; [rewrite Eb; do 2 f_equal; unfold zlen in Hl; lia|].
  cbn [fresh_reading rd_rx app] in Hr. destruct (Z.leb_spec len (0 + wc_byte_len w)); [|lia].
  destruct (read_buffers_one (rd_heap r) buf2 (wc_wr_id w) _ len2 Hcr) as (r2 & Hrb & En2 & Eb2 & Hr2);
    [apply set_offset_wf; [destruct Hwf as (Hw1 & Hw2 & _); exact (conj Hw1 (conj Hw2 Hz))|change (0 <= len <= bytes c); lia]|lia|lia|].
  assert (A1 : CqAdapter E (cq_cq (cs_cq s1)) mem pending) by (rewrite Hcq1; assumption).
  eapply returns_conseq.
  { eapply (whole_read_run E mem pending fuel2 (rd_heap r) s1 buf2 len2 st2 r2 r2);
      [rewrite Hp2; cbn; lia|rewrite Hrx1, Hr; exact Hrb|rewrite Hp2; reflexivity
      |rewrite Hp2; constructor|exact Hev|exact Hk]. }
  intros [[[n2 h2] buf'] s2] st3 (-> & _ & -> & -> & _). split; [exact En2|]. split; [exact Eb2|exact Hr2].
Qed.

(** ** Witnesses: an adapter that is a list of completions. *)

Definition queue_mem (a n : Z) : list Z := map (fun i => a + i) (seqZ 0 n).

(** Polls take up to [n] completions; everything else succeeds. *)
Definition queue_adapter : Env (list ibv_wc) := fun c w =>
  match c return ret_of c * list ibv_wc with
  | ibv_poll_cq _ n =>
      let k := Nat.min (Z.to_nat n) (length w) in ((Z.of_nat k, take k w), drop k w)
  | mem_load a n => (queue_mem a n, w)
  | c => (success c 0, w)
  end.

#[export] Instance queue_adapter_cq cq : CqAdapter queue_adapter cq (fun _ => queue_mem) id.
Proof.
  split; try (intros; reflexivity).
  - intros w n Hn. exists (Nat.min (Z.to_nat n) (length w)).
    split; [reflexivity|]. split; [reflexivity|]. change (id w) with w. split; [lia|].
    intros Hk. apply length_zero_iff_nil. lia.
  - intros c w _ Hc. destruct c; try reflexivity. discriminate Hc.
Qed.

Definition wc (p n : Z) : ibv_wc :=
  {| wc_wr_id := p; wc_status := IBV_WC_SUCCESS; wc_byte_len := n |}.

Definition two_messages : St (list ibv_wc) := mkSt [wc 1 3; wc 3 4] [] ∅.

Lemma fresh4_wf a : wf_chunk (fresh4 a).
Proof. repeat split; cbn; lia. Qed.

Lemma sample_delivers : Forall (delivers queue_mem sample_heap) [wc 1 3; wc 3 4].
Proof.
  repeat constructor; eexists; (split; [reflexivity|]); repeat split; cbn; lia.
Qed.

Example read_delivers_witness :
  returns (read (H := queue_adapter) 9 sample_heap sample_socket (replicate 8 0) 5) two_messages
    (fun r _ => let '(n, _, buf', s') := r in
       n = 5 /\ buf' = [100; 101; 102; 108; 109; 0; 0; 0] /\ rx_buffers s' = [3]).
Proof.
  eapply returns_conseq.
  { apply (read_delivers queue_adapter (fun _ => queue_mem) id 9 0 sample_heap sample_socket (replicate 8 0) 5
             two_messages);
      [left; reflexivity|lia|vm_compute; reflexivity|exact sample_delivers
      |apply (bool_decide_unpack (NoDup [1; 3])); reflexivity
      |split; [discriminate|intros Hx; discriminate Hx]|reflexivity|cbn; lia]. }
  intros [[[n h'] buf'] s'] s2 (En & Eb & _ & Ek). split; [exact En|]. split; [exact Eb|exact Ek].
Defined.

(** A message of three bytes in a chunk of four: two are read, then, asked for
    eight, the third and one that is not of the message. *)
Definition first_read := Eval vm_compute in
  read (H := queue_adapter) 3 sample_heap sample_socket (replicate 8 9) 2 (mkSt [wc 1 3] [] ∅).

Definition first_heap : heap := match fst first_read with Ret (_, h, _, _) => h | _ => sample_heap end.
Definition first_socket : RDMAConnectedSocketImpl :=
  match fst first_read with Ret (_, _, _, s) => s | _ => sample_socket end.

Example read_stale_witness :
  returns (read (H := queue_adapter) 2 first_heap first_socket (replicate 8 9) 8) (mkSt nil [] ∅)
    (fun r _ => let '(n, _, buf', s') := r in
       n = 2 /\ buf' = [102; 103; 9; 9; 9; 9; 9; 9] /\ rx_buffers s' = [1]).
Proof.
  edestruct (read_stale queue_adapter (fun _ => queue_mem) id 3 2 0 sample_heap sample_socket (replicate 8 9) 2
    (replicate 8 9) 8 (mkSt [wc 1 3] [] ∅) (wc 1 3) (fresh4 100) first_heap 2 [100; 101; 9; 9; 9; 9; 9; 9]
    first_socket (snd first_read) (mkSt nil [] ∅)) as (_ & _ & _ & Hr);
    [vm_compute; reflexivity|reflexivity|exact (Forall_inv sample_delivers)|reflexivity|cbn; lia
    |cbv; discriminate|lia|vm_compute; reflexivity|reflexivity|left; reflexivity|split; [lia|cbv; discriminate]
    |lia|lia|lia|].
  eapply returns_conseq; [exact Hr|].
  intros [[[n h'] buf'] s'] s2 (En & Eb & Ek). split; [exact En|]. split; [exact Eb|exact Ek].
Defined.

Definition failing_polls : Env nat := scripted (fun c _ =>
  match c return option (ret_of c) with ibv_poll_cq _ _ => Some (-1, []) | _ => None end).

Example drain_poll_error_witness :
  fst (drain (H := failing_polls) 100 false {| cq_cq := 5; queue_depth := 16 |} 8
         {| rd_heap := sample_heap; rd_buf := []; rd_n := 0; rd_rx := [] |} Mock.start) = OutOfFuel.
Proof. apply (drain_poll_error (H := failing_polls)). intros w. reflexivity. Defined.

Definition no_event : Env nat := scripted (fun c _ =>
  match c return option (ret_of c) with ibv_get_cq_event _ => Some (-1, 0) | _ => None end).

Example read_spins_witness :
  fst (read (H := no_event) 100 sample_heap sample_socket [] 0 Mock.start) = OutOfFuel.
Proof. apply (read_spins (H := no_event)). intros w. discriminate. Defined.
