(* ===== verification/ResourceManager.v ===== *)
(** rdma/ResourceManager.h: the devices of the host. [Port] and [Device] read the
    attributes of the adapter when they are constructed, [DeviceList] constructs
    every device, [get_device] looks one up by name. Failures are only logged,
    so the constructors go on with whatever the calls left behind. *)
From Stdlib Require Import String.
From coqutil Require Import Datatypes.RecordSetters.
From S2P Require Import Prelude Gid Verbs Mock.
Open Scope Z_scope.
Import DoubleBraceUpdate.

(** [class Port]; the attributes are what [ibv_query_port] left in the block. *)
Record Port := {
  p_ctxt : Z; p_port_num : Z; p_port_attr : ibv_port_attr; p_lid : Z; p_gid : list Z }.

(** [class Device]; [active_port], set by no constructor when no port is active,
    is [None] then. *)
Record Device := {
  d_name : list Z; d_ctxt : Z; d_device_attr : ibv_device_attr; d_port_cnt : Z;
  d_ports : list Port; active_port : option Port }.

(** [class DeviceList]; [devices] is set unless the context argument is NULL. *)
Record DeviceList := { device_list : option (Z * list Z); devices : option (list Device) }.

Section ResourceManager.
Context {W : Type} `{Env W}.

Definition query_port (ctxt n : Z) : M (St W) (ret_of (ibv_query_port ctxt n)) :=
  sys (ibv_query_port ctxt n).

Definition query_gid (ctxt n : Z) : M (St W) (list Z) :=
  let* (_, g) := sys (ibv_query_gid ctxt n 0) in ret g.

Definition new_port (ctxt n : Z) : M (St W) Port :=
  let* (_, a) := query_port ctxt n in
  let* g := query_gid ctxt n in
  ret {| p_ctxt := ctxt; p_port_num := n; p_port_attr := a; p_lid := port_lid a; p_gid := g |}.

Definition port_active (p : Port) : bool :=
  match state (p_port_attr p) with IBV_PORT_ACTIVE => true | _ => false end.

(** [for (uint8_t i = 0; i < port_cnt; ++i)]: the last active port wins. *)
Fixpoint make_ports (n : nat) (ctxt i : Z) (ports : list Port) (active : option Port)
  : M (St W) (list Port * option Port) :=
  match n with
  | O => ret (ports, active)
  | S n' =>
      let* p := new_port ctxt (u8 (i + 1)) in
      make_ports n' ctxt (i + 1) (ports ++ [p]) (if port_active p then Some p else active)
  end.

Definition new_device (d : Z) : M (St W) Device :=
  let* name := sys (ibv_get_device_name d) in
  let* ctxt := sys (ibv_open_device d) in
  let* (_, attr) := sys (ibv_query_device ctxt) in
  let cnt := u8 (phys_port_cnt attr) in
  let* (ports, active) := make_ports (Z.to_nat cnt) ctxt 0 [] None in
  ret {| d_name := name; d_ctxt := ctxt; d_device_attr := attr; d_port_cnt := cnt;
         d_ports := ports; active_port := active |}.

Fixpoint new_devices (ds : list Z) : M (St W) (list Device) :=
  match ds with
  | [] => ret []
  | d :: ds' => let* x := new_device d in let* xs := new_devices ds' in ret (x :: xs)
  end.

(** The constructor. When [ibv_get_device_list] fails it has set [num] to 0. *)
Definition new_device_list (cct : Z) : M (St W) DeviceList :=
  let* l := sys ibv_get_device_list in
  if cct =? 0 then ret {| device_list := l; devices := None |} else
  let* ds := new_devices (match l with Some (_, ds) => ds | None => [] end) in
  ret {| device_list := l; devices := Some ds |}.

(** [~DeviceList]. *)
Definition delete_device_list (dl : DeviceList) : M (St W) unit :=
  sys (ibv_free_device_list (match device_list dl with Some (p, _) => p | None => 0 end)).

(** The loop of [get_device], with [r] at [obj + k] of the storage [obj] it started
    in; a pointer into storage is never NULL, and reading past it is undefined. *)
Fixpoint device_loop (fuel : nat) (obj : list Device) (k : nat) (device_name : list Z)
  : M (St W) (option Device) :=
  match fuel with
  | O => out_of_fuel
  | S f =>
      let* r := deref (obj !! k) in
      if bool_decide (device_name = d_name r) then ret (Some r)
      else device_loop f obj (S k) device_name
  end.

(** [get_device]: [for (Device* r = devices[0]; r; ++r)]. [devices[0]] points at
    the one object of a [new Device]; two turns are enough to leave it. *)
Definition get_device (dl : DeviceList) (device_name : list Z) : M (St W) (option Device) :=
  let* ds := deref (devices dl) in
  let* r := deref (head ds) in
  device_loop 2 [r] 0 device_name.

(** [ResourceManager::refresh]. *)
Definition refresh (cct : Z) : M (St W) DeviceList := new_device_list cct.

(** ** Specification *)

(** Ports [1 .. n] of a context, each as the adapter described it. *)
Definition described (tr : list event) (ctxt n : Z) (p : Port) : Prop :=
  p_ctxt p = ctxt /\ p_port_num p = n /\ p_lid p = port_lid (p_port_attr p) /\
  (exists rc, Ev (ibv_query_port ctxt n) (rc, p_port_attr p) ∈ tr) /\
  (exists rc, Ev (ibv_query_gid ctxt n 0) (rc, p_gid p) ∈ tr).

Definition last_active (ps : list Port) (init : option Port) : option Port :=
  fold_left (fun acc p => if port_active p then Some p else acc) ps init.

(** The lookup the loop is written for. *)
Definition device_named (name : list Z) (ds : list Device) : option Device :=
  List.find (fun d => bool_decide (name = d_name d)) ds.

Lemma described_more tr ev ctxt n p : described tr ctxt n p -> described (ev :: tr) ctxt n p.
Proof.
  intros (E1 & E2 & E3 & [rc1 H1] & [rc2 H2]).
  repeat (split; [assumption|]). split; eexists; right; eassumption.
Qed.

Lemma make_ports_run n ctxt : forall i ports active s, 0 <= i -> i + Z.of_nat n < 256 ->
  returns (make_ports n ctxt i ports active) s (fun r s' => exists ps evs,
    trace s' = evs ++ trace s /\ fst r = ports ++ ps /\ length ps = n /\
    snd r = last_active ps active /\
    (forall k p, ps !! k = Some p -> described (trace s') ctxt (i + Z.of_nat k + 1) p)).
Proof.
  induction n as [|n IH]; intros i ports active s Hi Hn; cbn [make_ports].
  - apply returns_ret. exists [], []. rewrite app_nil_r. do 4 (split; [reflexivity|]). discriminate.
  - unfold new_port, query_port, query_gid. rewrite u8_small by lia.
    apply returns_bind. exec. subst.
    match goal with |- returns (make_ports _ _ _ (_ ++ [?p]) _) ?s1 _ => set (p0 := p); set (s1' := s1) end.
    eapply returns_conseq; [apply (IH (i + 1)); lia|].
    intros r2 s2 (ps & evs & Etr & Ep & El & Ea & Hd).
    eexists (p0 :: ps), (evs ++ [_; _]).
    split; [rewrite Etr, <- app_assoc; reflexivity|].
    split; [rewrite Ep, <- app_assoc; reflexivity|]. split; [cbn [length]; lia|].
    split; [rewrite Ea; reflexivity|]. intros [|k] p Hk.
    + injection Hk as <-. replace (i + Z.of_nat 0 + 1) with (i + 1) by lia.
      unfold described, p0. cbn [p_ctxt p_port_num p_lid p_port_attr p_gid].
      do 3 (split; [reflexivity|]). rewrite Etr.
      split; eexists; apply elem_of_app; right; cbn [s1' trace]; [right; left|left].
    + replace (i + Z.of_nat (S k) + 1) with (i + 1 + Z.of_nat k + 1) by lia. apply Hd, Hk.
Qed.

Lemma new_device_run d s :
  returns (new_device d) s (fun dv s' => exists rc,
    Ev (ibv_query_device (d_ctxt dv)) (rc, d_device_attr dv) ∈ trace s' /\
    length (d_ports dv) = Z.to_nat (d_port_cnt dv) /\ d_port_cnt dv = u8 (phys_port_cnt (d_device_attr dv)) /\
    active_port dv = last_active (d_ports dv) None /\
    forall k p, d_ports dv !! k = Some p -> described (trace s') (d_ctxt dv) (Z.of_nat k + 1) p).
Proof.
  unfold new_device. exec. subst. pose proof (u8_range (phys_port_cnt i)).
  eapply returns_conseq; [apply make_ports_run; lia|].
  intros [ports active] s2 (ps & evs & Etr & Ep & El & Ea & Hd). cbn [fst snd app] in *. subst ports.
  apply returns_ret. cbn [d_ctxt d_device_attr d_ports d_port_cnt active_port].
  exists z. split; [rewrite Etr; apply elem_of_app; right; left|]. split; [exact El|]. split; [reflexivity|]. split; [exact Ea|].
  intros k p Hk. replace (Z.of_nat k + 1) with (0 + Z.of_nat k + 1) by lia. apply Hd, Hk.
Qed.

Lemma last_active_spec ps init :
  (last_active ps init = init /\ Forall (fun p => port_active p = false) ps) \/
  exists p, p ∈ ps /\ port_active p = true /\ last_active ps init = Some p.
Proof.
  revert init. induction ps as [|p ps IH]; intros init; [left; auto|].
  unfold last_active in *. cbn [fold_left].
  destruct (IH (if port_active p then Some p else init)) as [[E Hf]|(q & Hq & Ha & E)].
  - destruct (port_active p) eqn:Ep; [|left; auto].
    right. exists p. split; [left|]. auto.
  - right. exists q. split; [right; exact Hq|]. auto.
Qed.

Lemma get_device_eq dl name ds s :
  devices dl = Some ds ->
  get_device dl name s =
    (match ds with
     | d :: _ => if bool_decide (name = d_name d) then Ret (Some d) else Undef
     | [] => Undef
     end, s).
Proof.
  intros Hds. unfold get_device. rewrite Hds. destruct ds as [|d ds]; [reflexivity|].
  unfold bind. cbn. destruct (bool_decide _); reflexivity.
Qed.

(** A lookup calls nothing. *)
Lemma get_device_same dl name s : if_returns (get_device dl name) s (fun _ s' => s' = s).
Proof. unfold get_device, device_loop. exec; reflexivity. Qed.

(** ** Properties *)

(** C35 A device describes its adapter: constructing one returns whatever the
    calls answer, with one [Port] for each of the ports the adapter counts (as a
    byte), numbered from 1, each holding the attributes, LID and GID the queries
    of that port left; [active_port] is one of them that was active, and is not
    set when none was. *)
Theorem device_ports d s :
  returns (new_device d) s (fun dv s' =>
    (exists rc, Ev (ibv_query_device (d_ctxt dv)) (rc, d_device_attr dv) ∈ trace s') /\
    Z.of_nat (length (d_ports dv)) = u8 (phys_port_cnt (d_device_attr dv)) /\
    (forall k p, d_ports dv !! k = Some p -> described (trace s') (d_ctxt dv) (Z.of_nat k + 1) p) /\
    match active_port dv with
    | Some p => p ∈ d_ports dv /\ port_active p = true
    | None => Forall (fun p => port_active p = false) (d_ports dv)
    end).
Proof.
  eapply returns_conseq; [apply new_device_run|].
  intros dv s' (rc & Hq & Hl & Hc & Ha & Hd). pose proof (u8_range (phys_port_cnt (d_device_attr dv))).
  split; [exists rc; exact Hq|]. split; [rewrite Hl; lia|]. split; [exact Hd|].
  destruct (last_active_spec (d_ports dv) None) as [[E Hf]|(p & Hp & Hpa & E)]; rewrite E in Ha; rewrite Ha; auto.
Qed.

(** [get_device] is lookup by name only on the first device: whatever it
    returns is the first device of that name, but it never answers NULL and
    never finds a second device - when the name is not the first device's (or
    there is no device) it reads past the object [devices[0]] points at. *)
Theorem get_device_first_only dl name ds s :
  devices dl = Some ds ->
  (forall r s', get_device dl name s = (Ret r, s') ->
     s' = s /\ r = device_named name ds /\ r = head ds /\ r <> None) /\
  (fst (get_device dl name s) = Undef <-> option_map d_name (head ds) <> Some name).
Proof.
  intros Hds. rewrite (get_device_eq dl name ds s Hds). destruct ds as [|d ds]; cbn [fst].
  - split; [discriminate|]. split; [discriminate|reflexivity].
  - unfold device_named. cbn [List.find].
    change (option_map d_name (head (d :: ds))) with (Some (d_name d)).
    destruct (bool_decide (name = d_name d)) eqn:E;
      [apply bool_decide_eq_true in E|apply bool_decide_eq_false in E].
    + split; [intros r s2 [= <- <-]; repeat split; discriminate|].
      split; [discriminate|intros Hne; exfalso; apply Hne; rewrite E; reflexivity].
    + split; [discriminate|]. split; [intros _ Hs; congruence|reflexivity].
Qed.
End ResourceManager.

(** ** Witness: a host with two devices. *)

Definition named (n : list Z) : Device :=
  {| d_name := n; d_ctxt := 1;
     d_device_attr := {| phys_port_cnt := 0; max_srq_wr := 1; da_max_cqe := 1; max_qp_wr := 1 |};
     d_port_cnt := 0; d_ports := []; active_port := None |}.

Example get_device_first_only_witness :
  fst (get_device {| device_list := None; devices := Some [named [109; 48]; named [109; 49]] |}
         [109; 49] Mock.start) = Undef.
Proof.
  apply (get_device_first_only (W := nat)
           {| device_list := None; devices := Some [named [109; 48]; named [109; 49]] |}
           [109; 49] [named [109; 48]; named [109; 49]] Mock.start eq_refl). discriminate.
Defined.
