(* ===== verification/Adapter.v ===== *)
(** rdma/Infiniband.h, the constructor of [Infiniband] and [create_infiniband]:
    the device is looked up, a protection domain and the two pools of buffers
    are made, and the receive buffers are posted to the shared receive queue. *)
From Stdlib Require Import String.
From coqutil Require Import Datatypes.RecordSetters.
From S2P Require Import Prelude Gid Verbs Mock MemoryManager Infiniband.
From S2P Require Import ConnectedSocket ResourceManager.
From stdpp Require Import gmap.
Open Scope Z_scope.
Import DoubleBraceUpdate.

(** The sizes given to [register_rx_tx]. *)
Definition buffer_size : Z := 8 * 1024.
Definition rx_buffers_num : Z := 256.
Definition tx_buffers_num : Z := 256.

Section Adapter.
Context {W : Type} `{Env W} (async_fd : Z -> Z).

(** [ProtectionDomain]'s constructor. *)
Definition new_pd (ctxt : Z) : M (St W) Z :=
  let* pd := sys (ibv_alloc_pd ctxt) in
  if pd =? 0 then assert_fail else ret pd.

(** The constructor; [mem1] and [mem2] are what the two allocations hold. *)
Definition new_infiniband (dl : DeviceList) (device_name mem1 mem2 : list Z) (h : heap)
  : M (St W) (heap * Infiniband) :=
  let* device := get_device dl device_name in
  match device with
  | None => assert_fail
  | Some device =>
      let* port := deref (active_port device) in
      let* pd := new_pd (d_ctxt device) in
      let* rc := set_nonblocking (async_fd (d_ctxt device)) in
      c_assert (rc =? 0) ;;;
      let attr := d_device_attr device in
      let* (h, mm) := register_rx_tx 257
        {| channel := None; rdma := None; MemoryManager.send := None; mm_pd := pd |}
        buffer_size rx_buffers_num tx_buffers_num mem1 mem2 h in
      let ib := {| ib_ctxt := d_ctxt device; ib_lid := p_lid port; ib_gid := p_gid port;
                   ib_physical_port := p_port_num port; ib_pd := pd; ib_srq := 0;
                   ib_max_send_wr := u32 (max_qp_wr attr); ib_max_recv_wr := u32 (max_srq_wr attr);
                   ib_max_cqe := u32 (da_max_cqe attr); ib_max_sge := 1;
                   ib_max_inline_data := 128; memory_manager := mm |} in
      let* srq := create_shared_receive_queue ib (ib_max_recv_wr ib) (ib_max_sge ib) in
      let* (_, ib) := post_channel_cluster (ib{{ib_srq := srq}}) h in
      ret (h, ib)
  end.

Definition create_infiniband (cct : Z) (device_name mem1 mem2 : list Z) (h : heap)
  : M (St W) (heap * Infiniband) :=
  let* dl := refresh cct in new_infiniband dl device_name mem1 mem2 h.

(** ** Specification *)

(** The pools of a new adapter: 256 receive and 256 send chunks of 8 KiB, cut out
    of two allocations, made after the objects [n0] counts. *)
Definition pools_ready (h0 h : heap) (mm : MemoryManager) (mem1 mem2 : list Z) : Prop :=
  let n := next h0 in
  channel mm = Some {| chunk_size := buffer_size; free_chunks := seqZ n 256 |} /\
  MemoryManager.send mm = Some {| chunk_size := buffer_size; free_chunks := seqZ (n + 256) 256 |} /\
  next h = n + 512 /\
  (forall p, p < n -> chunks h !! p = chunks h0 !! p) /\
  exists base1 base2,
    (forall i, 0 <= i < 256 -> is_piece h (n + i) base1 buffer_size i mem1) /\
    (forall i, 0 <= i < 256 -> is_piece h (n + 256 + i) base2 buffer_size i mem2).

Lemma register_rx_tx_run mm mem1 mem2 h s :
  zlen mem1 = buffer_size * 256 -> zlen mem2 = buffer_size * 256 ->
  safe (register_rx_tx 257 mm buffer_size rx_buffers_num tx_buffers_num mem1 mem2 h) s
    (fun r _ => pools_ready h (fst r) (snd r) mem1 mem2).
Proof.
  intros H1 H2. unfold register_rx_tx, rx_buffers_num, tx_buffers_num.
  apply safe_bind. eapply safe_conseq;
    [apply add_run; cbn [chunk_size]; [reflexivity|discriminate|reflexivity|exact H1|reflexivity]|].
  intros [h1 c1] s1 (b1 & _ & Hf1 & Hs1 & (Hn1 & Hp1 & Ho1) & _). cbn [fst snd free_chunks chunk_size app] in *.
  apply safe_bind. eapply safe_conseq;
    [apply add_run; cbn [chunk_size]; [reflexivity|discriminate|reflexivity|exact H2|reflexivity]|].
  intros [h2 c2] s2 (b2 & _ & Hf2 & Hs2 & (Hn2 & Hp2 & Ho2) & _). cbn [fst snd free_chunks chunk_size app] in *.
  apply safe_ret. unfold pools_ready. cbn [fst snd].
  destruct c1 as [cs1 fc1], c2 as [cs2 fc2]. cbn [chunk_size free_chunks] in *. subst.
  rewrite Hn1. split; [reflexivity|]. split; [reflexivity|]. split; [rewrite Hn2, Hn1; lia|].
  split; [intros p Hp; rewrite Ho2, Ho1 by lia; reflexivity|].
  exists b1, b2. split.
  - intros i Hi. destruct (Hp1 i Hi) as (ck & Hck & Hrest). exists ck.
    rewrite Ho2 by lia. auto.
  - intros i Hi. rewrite <- Hn1. apply Hp2, Hi.
Qed.

(** A pool cut out of one allocation is a fresh pool. *)
Lemma cut_fresh_pool h n base mem :
  (forall i, 0 <= i < 256 -> is_piece h (n + i) base buffer_size i mem) ->
  fresh_pool h {| chunk_size := buffer_size; free_chunks := seqZ n 256 |}.
Proof.
  intros Hp. split; [split; reflexivity|]. split; [apply NoDup_seqZ|].
  apply Forall_forall. intros p Hin. change (p ∈ seqZ n 256) in Hin. apply elem_of_seqZ in Hin.
  destruct (Hp (p - n) ltac:(lia)) as (ck & Hck & _ & Hb & Ho & _ & Hwf).
  replace (n + (p - n)) with p in Hck by lia. exists ck. auto.
Qed.

(** The memory of chunk [p] is posted for receiving. *)
Definition posted (h : heap) (ib : Infiniband) (tr : list event) (p : Z) : Prop :=
  exists c, chunks h !! p = Some c /\ chunk_wr p c ∈ srq_posted (ib_srq ib) tr.

(** All chunks of the list are posted, or those before the one whose post was the
    last call and was refused. *)
Definition posted_until_refused (h : heap) (ib : Infiniband) (tr : list event) (ps : list Z) : Prop :=
  exists k, Forall (posted h ib tr) (take k ps) /\ (k = length ps \/ refused ib tr).

Lemma requests_posted h ib tr ps wrs :
  mapM (fun p => chunk_wr p <$> chunks h !! p) ps = Some wrs ->
  (forall wr, wr ∈ wrs -> wr ∈ srq_posted (ib_srq ib) tr) -> Forall (posted h ib tr) ps.
Proof.
  intros Hm Hin. apply mapM_Some_1 in Hm. induction Hm as [|p wr ps wrs Hp _ IH]; constructor.
  - destruct (chunks h !! p) as [c|] eqn:Hc; [|discriminate Hp]. injection Hp as <-.
    exists c. split; [exact Hc|]. apply Hin. left.
  - apply IH. intros wr' Hwr. apply Hin. right. exact Hwr.
Qed.

Lemma post_channel_cluster_ready ib h c s :
  ib_srq ib <> 0 -> channel (memory_manager ib) = Some c ->
  Forall (fun p => is_Some (chunks h !! p)) (free_chunks c) ->
  returns (post_channel_cluster ib h) s (fun r s' =>
    snd r = ib /\ posted_until_refused h ib (trace s') (free_chunks c)).
Proof.
  intros Hq Hc Hps. unfold post_channel_cluster, get_channel_buffers. rewrite Hc.
  cbn [mbind option_bind get_buffers Z.eqb]. apply returns_bind, returns_ret, returns_bind.
  eapply returns_conseq; [apply post_chunks_run; assumption|]. intros r s' (k & wrs & Em & Ep & H0 & H1).
  apply returns_ret. cbn [snd]. split.
  - destruct ib as [? ? ? ? ? ? ? ? ? ? ? [ch rd sd pd]]. cbn in Hc. subst ch. reflexivity.
  - exists k. split.
    + eapply requests_posted; [exact Em|]. intros wr Hwr. rewrite Ep. apply elem_of_app. right. exact Hwr.
    + destruct (Z.eq_dec r 0) as [E|E]; [left; exact (H0 E)|right; apply H1, E].
Qed.

(** With a queue that takes every request, none is refused. *)
Definition posts_accepted : Prop := forall q wr w, fst (ext (ibv_post_srq_recv q wr) w) = 0.

Lemma post_chunks_accepted ib h ps : posts_accepted -> forall s,
  ~ refused ib (trace s) -> if_returns (post_chunks ib h ps) s (fun _ s' => ~ refused ib (trace s')).
Proof.
  intros Hacc. induction ps as [|p ps IH]; intros s Hs; cbn [post_chunks]; [exact Hs|]. unfold post_chunk.
  apply if_returns_bind, if_returns_bind, if_returns_deref. intros c _. destruct (ib_srq ib =? 0); [exact I|].
  apply if_returns_bind, if_returns_sys. intros rc w E1.
  pose proof (Hacc (ib_srq ib) (chunk_wr p c) (world s)) as H0. rewrite E1 in H0. cbn [fst] in H0. subst rc.
  apply if_returns_ret. cbn [negb Z.eqb]. apply IH. cbn [trace]. intros [_ Hrc].
  exact (Hrc eq_refl).
Qed.

Lemma post_channel_cluster_accepted ib h s : posts_accepted -> ~ refused ib (trace s) ->
  if_returns (post_channel_cluster ib h) s (fun _ s' => ~ refused ib (trace s')).
Proof.
  intros Hacc Hs. unfold post_channel_cluster. apply if_returns_bind, if_returns_deref. intros [ps mm] _.
  apply if_returns_bind. eapply if_returns_conseq; [apply post_chunks_accepted; assumption|].
  intros r s' Hr. exact Hr.
Qed.

(** [m] returns with [Q], stops at an [assert], or is undefined in a state of [B]. *)
Definition safe_unless {S A} (B : S -> Prop) (m : M S A) (s : S) (Q : A -> S -> Prop) : Prop :=
  match m s with
  | (Ret a, s') => Q a s'
  | (AssertFail, _) => True
  | (Undef, s') => B s'
  | (OutOfFuel, _) => False
  end.

Lemma safe_unless_bind {S A1 A2} B (m : M S A1) (k : A1 -> M S A2) s Q :
  safe m s (fun a s' => safe_unless B (k a) s' Q) -> safe_unless B (bind m k) s Q.
Proof. unfold safe, safe_unless, bind. destruct (m s) as [[] ?]; tauto. Qed.

Lemma safe_unless_intro {S A} B (m : M S A) s Q : safe m s Q -> safe_unless B m s Q.
Proof. unfold safe, safe_unless. destruct (m s) as [[] ?]; tauto. Qed.

Lemma safe_unless_conseq {S A} B (m : M S A) s (P Q : A -> S -> Prop) :
  safe_unless B m s P -> (forall a s', P a s' -> Q a s') -> safe_unless B m s Q.
Proof. unfold safe_unless. destruct (m s) as [[] ?]; auto. Qed.

Lemma safe_unless_and {S A} B (m : M S A) s (P Q : A -> S -> Prop) :
  safe_unless B m s P -> safe_unless B m s Q -> safe_unless B m s (fun a s' => P a s' /\ Q a s').
Proof. unfold safe_unless. destruct (m s) as [[] ?]; auto. Qed.

(** The last call was the creation of a shared receive queue, and it failed. *)
Definition no_srq (s : St W) : Prop :=
  exists pd wr sge tr, trace s = Ev (ibv_create_srq pd wr sge) 0 :: tr.

Lemma get_device_run dl name d ds s (Q : option Device -> St W -> Prop) :
  devices dl = Some (d :: ds) -> d_name d = name -> Q (Some d) s -> safe (get_device dl name) s Q.
Proof.
  intros Hds Hn HQ. unfold safe. rewrite (get_device_eq dl name (d :: ds) s Hds).
  rewrite bool_decide_eq_true_2 by congruence. exact HQ.
Qed.

Lemma new_infiniband_run dl name mem1 mem2 h d ds p s :
  devices dl = Some (d :: ds) -> d_name d = name -> active_port d = Some p ->
  zlen mem1 = buffer_size * 256 -> zlen mem2 = buffer_size * 256 ->
  safe_unless no_srq (new_infiniband dl name mem1 mem2 h) s (fun r s' =>
    let '(h', ib) := r in
    pools_ready h h' (memory_manager ib) mem1 mem2 /\ ib_pd ib <> 0 /\ ib_srq ib <> 0 /\
    ib_lid ib = p_lid p /\ ib_gid ib = p_gid p /\ ib_physical_port ib = p_port_num p /\
    posted_until_refused h' ib (trace s') (seqZ (next h) 256) /\
    (posts_accepted -> ~ refused ib (trace s'))).
Proof.
  intros Hds Hn Hp H1 H2. unfold new_infiniband. apply safe_unless_bind.
  apply (get_device_run dl name d ds s); [exact Hds|exact Hn|]. rewrite Hp.
  apply safe_unless_bind, safe_ret, safe_unless_bind. unfold new_pd, set_nonblocking.
  exec; apply safe_unless_bind; exec; apply safe_unless_bind; exec; try (exfalso; lia).
  apply safe_unless_bind. eapply safe_conseq; [apply register_rx_tx_run; assumption|].
  intros [h' mm] s1 Hr. cbn [fst snd] in Hr. destruct (Hr) as (Hch & _ & _ & _ & b1 & b2 & Hp1 & _).
  unfold create_shared_receive_queue. apply safe_unless_bind. exec.
  match goal with |- safe_unless _ (bind (post_channel_cluster ?ib _) _) _ _ => set (ib1 := ib) end.
  assert (Hpool : Forall (fun q => is_Some (chunks h' !! q)) (seqZ (next h) 256)).
  { apply Forall_forall. intros q Hq. apply elem_of_seqZ in Hq.
    destruct (Hp1 (q - next h) ltac:(lia)) as (ck & Hck & _).
    replace (next h + (q - next h)) with q in Hck by lia. eauto. }
  destruct (Z.eq_dec (ib_srq ib1) 0) as [E0|E0].
  - unfold safe_unless, bind at 1. rewrite (post_channel_cluster_no_srq ib1 h' _ _ E0 Hch); [|discriminate|exact Hpool].
    change (ib_srq ib1) with r2 in E0. subst r2. do 4 eexists. reflexivity.
  - apply safe_unless_intro, safe_bind, returns_safe.
    set (s2 := mkSt _ _ _).
    assert (Hs2 : ~ refused ib1 (trace s2)) by (intros Hr2; exact Hr2).
    pose proof (fun Hacc => post_channel_cluster_accepted ib1 h' s2 Hacc Hs2) as Hacc.
    pose proof (post_channel_cluster_ready ib1 h' _ s2 E0 Hch Hpool) as Hpost.
    unfold returns, if_returns in *. destruct (post_channel_cluster ib1 h' s2) as [[[rc2 ib2]| | |] s3]; try contradiction.
    destruct Hpost as [Eib Hpost]. cbn [snd] in *. subst ib2. apply safe_ret.
    split; [exact Hr|]. split; [assumption|]. split; [exact E0|]. do 3 (split; [reflexivity|]). exact (conj Hpost Hacc).
Qed.

(** ** Properties *)


(** C34 The buffers [send] takes are buffers the adapter is receiving into: when the
    constructor has returned and its last post was not refused, whatever number of
    bytes up to the size of the pool [get_tx_buffers] is asked for, the chunks it
    hands out are chunks of the receive pool that are posted to the shared receive
    queue. *)
Theorem tx_buffers_are_posted dl name mem1 mem2 h d ds p s :
  devices dl = Some (d :: ds) -> d_name d = name -> active_port d = Some p ->
  zlen mem1 = buffer_size * 256 -> zlen mem2 = buffer_size * 256 ->
  safe_unless no_srq (new_infiniband dl name mem1 mem2 h) s (fun r s' =>
    let '(h', ib) := r in
    forall nbytes, 0 < nbytes <= 256 * buffer_size -> ~ refused ib (trace s') ->
    exists tx ib', get_tx_buffers ib nbytes = Some (tx, ib') /\ tx <> [] /\
      Forall (posted h' ib (trace s')) tx).
Proof.
  intros Hds Hn Hp H1 H2. eapply safe_unless_conseq; [eapply new_infiniband_run; eassumption|].
  intros [h' ib] s' ((Hrx & _) & _ & _ & _ & _ & _ & (k & Hpost & Hk) & _) nbytes Hb Hok.
  destruct Hk as [->|Hk]; [|contradiction]. rewrite firstn_all in Hpost.
  assert (Hsz : buffer_size = 8192) by reflexivity.
  destruct (get_tx_buffers_run ib _ nbytes Hrx) as [Htx _]; [reflexivity|lia|].
  destruct Htx as (tx & pool & ib' & E & Happ & Hceil & _).
  { cbn [free_chunks chunk_size]. unfold zlen. rewrite length_seqZ. lia. }
  exists tx, ib'. split; [exact E|]. split.
  - intros ->. unfold zlen in Hceil. cbn [length chunk_size] in Hceil. lia.
  - cbn [free_chunks] in Happ. rewrite <- Happ in Hpost. apply Forall_app in Hpost as [_ Hpost].
    apply Forall_rev in Hpost. rewrite rev_involutive in Hpost. exact Hpost.
Qed.
End Adapter.

(** ** Witnesses *)

Definition sample_port : Port :=
  {| p_ctxt := 1; p_port_num := 1; p_port_attr := Mock.active_port; p_lid := 7; p_gid := mock_gid |}.

Definition mlx4_0 : list Z := chars "mlx4_0".

Definition sample_device : Device :=
  {| d_name := mlx4_0; d_ctxt := 1;
     d_device_attr := {| phys_port_cnt := 1; max_srq_wr := 16; da_max_cqe := 128; max_qp_wr := 64 |};
     d_port_cnt := 1; d_ports := [sample_port]; active_port := Some sample_port |}.

Definition one_device : DeviceList := {| device_list := None; devices := Some [sample_device] |}.

Definition pool_memory : list Z := replicate (Z.to_nat (buffer_size * 256)) 0.

Lemma pool_memory_zlen : zlen pool_memory = buffer_size * 256.
Proof.
  unfold pool_memory, zlen. rewrite length_replicate, Z2Nat.id; [reflexivity|discriminate].
Qed.

Definition no_chunks : heap := {| next := 1; chunks := ∅ |}.


Example tx_buffers_are_posted_witness :
  safe_unless no_srq (new_infiniband (H := all_succeed) id one_device mlx4_0 pool_memory pool_memory no_chunks)
    Mock.start (fun r s' => exists tx ib', get_tx_buffers (snd r) 1 = Some (tx, ib') /\ tx <> [] /\
      Forall (posted (fst r) (snd r) (trace s')) tx).
Proof.
  eapply safe_unless_conseq.
  { apply safe_unless_and.
    - apply (new_infiniband_run (H := all_succeed) id one_device mlx4_0 pool_memory pool_memory no_chunks
        sample_device [] sample_port Mock.start);
        [reflexivity..|exact pool_memory_zlen|exact pool_memory_zlen].
    - apply (tx_buffers_are_posted (H := all_succeed) id one_device mlx4_0 pool_memory pool_memory no_chunks
        sample_device [] sample_port Mock.start);
        [reflexivity..|exact pool_memory_zlen|exact pool_memory_zlen]. }
  intros [h' ib] s' [(_ & _ & _ & _ & _ & _ & _ & Hacc) Htx].
  apply (Htx 1); [split; [reflexivity|discriminate]|]. apply Hacc. intros q wr w. reflexivity.
Defined.
