(* ===== verification/RdmaStack.v ===== *)
(** rdma/RDMAStack.h and .cc, rdma/RDMAServerSocketImpl.cc: the workers and the
    listening sockets. A client and a server exchange connection messages in
    datagrams ([connect], [accept]); the worker that owns the transmit queue
    handles its completions ([handle_tx_event]). *)
From Stdlib Require Import String.
From coqutil Require Import Datatypes.RecordSetters.
From S2P Require Import Prelude CText Gid Verbs Mock QpProtocol ExchDest SynMsg MemoryManager.
From S2P Require Import Infiniband ConnectedSocket SocketRead ResourceManager Adapter.
From stdpp Require Import gmap.
Open Scope Z_scope.
Import DoubleBraceUpdate.

Record RDMAServerSocketImpl := { server_setup_socket : Z; sv_sa : Z }.

(** [class RDMAWorker]; [tx_cq] and [tx_cc] are made by [initialize]. *)
Record RDMAWorker := {
  client_setup_socket : Z; tx_cq : option CompletionQueue; tx_cc : option CompletionChannel }.

Section RdmaStack.
Context {W : Type} `{Env W} (chan_fd async_fd : Z -> Z) (e : endian) (l : udp_env).

(** ** The listening socket *)

Definition server_listen (sv : RDMAServerSocketImpl) (sa : Z) : M (St W) (Z * RDMAServerSocketImpl) :=
  let* fd := sys (sys_socket_dgram (Some sa)) in
  if fd =? -1 then ret (-1, sv{{server_setup_socket := fd}}) else
  let err := sys (sys_close fd) ;;; ret (-1, sv{{server_setup_socket := -1}}) in
  let* rc := sys (sys_setsockopt_reuse fd) in
  if rc <? 0 then err else
  let* rc := sys (sys_bind fd sa) in
  if rc <? 0 then err else ret (0, sv{{server_setup_socket := fd}}).

(** [RDMAWorker::listen]; [unset] is what the new object's socket field holds. *)
Definition worker_listen (unset : Z) (sa : Z) : M (St W) (Z * option RDMAServerSocketImpl) :=
  let* (r, p) := server_listen {| server_setup_socket := unset; sv_sa := sa |} sa in
  if r <? 0 then ret (r, None) else ret (0, Some p).

(** What the uninitialised objects of a handshake hold: the [IBSYNMsg] of
    [accept] and the [connected] field of a new socket. *)
Record unset_objects := { un_msg : IBSYNMsg; un_connected : Z }.

(** [accept]: the result, the socket, and the address stored through [out],
    which is the server's own. The result of [activate] is not looked at. *)
Fixpoint accept (fuel : nat) (un : unset_objects) (ib : Infiniband) (tx : Z)
    (sv : RDMAServerSocketImpl) : M (St W) (Z * option RDMAConnectedSocketImpl * option Z) :=
  match fuel with
  | O => out_of_fuel
  | S f =>
      let* (rm, from) := recv_udp_msg e l (server_setup_socket sv) (un_msg un) in
      let '(r, msg) := rm in
      if r <? 0 then ret (-1, None, None)
      else if 0 <? r then accept f un ib tx sv
      else
        let* server := new_socket chan_fd ib tx msg (un_connected un) in
        let* addr := deref from in
        let* r := send_udp_msg e l 4 (server_setup_socket sv) (my_msg server) addr in
        let* (_, server) := activate ib server in
        ret (r, Some server, Some (sv_sa sv))
  end.

(** ** The worker *)

(** [connect(peer_addr)] returns nothing: its failures are only logged. *)
Definition worker_open (w : RDMAWorker) (peer : Z) : M (St W) RDMAWorker :=
  let* fd := sys (sys_socket_dgram None) in
  let w := w{{client_setup_socket := fd}} in
  if fd =? -1 then ret w else
  let* r := sys (sys_connect fd peer) in
  if r <? 0 then ret w else ret w.

Definition zero_syn : IBSYNMsg := {| m_lid := 0; m_qpn := 0; m_psn := 0; m_gid := zero_gid |}.

(** [connect(addr, opts, socket)]. A positive result of [recv_udp_msg] is taken
    for success. *)
Definition worker_connect (un : unset_objects) (ib : Infiniband) (tx : Z) (w : RDMAWorker) (addr : Z)
  : M (St W) (Z * option RDMAConnectedSocketImpl * RDMAWorker) :=
  let* p := new_socket chan_fd ib tx zero_syn (un_connected un) in
  let msg := my_msg p in
  let* w := worker_open w addr in
  let* r := send_udp_msg e l 4 (client_setup_socket w) msg addr in
  if r <? 0 then ret (r, None, w) else
  let* (rm, _) := recv_udp_msg e l (client_setup_socket w) msg in
  let '(r, msg) := rm in
  if r <? 0 then ret (r, None, w) else
  let* (r, p) := activate ib (p{{peer_msg := msg}}) in
  c_assert (r =? 0) ;;;
  ret (0, Some p, w).

(** [initialize]. *)
Definition initialize (ib : Infiniband) (w : RDMAWorker) : M (St W) RDMAWorker :=
  let* cc := create_comp_channel chan_fd ib in
  let* o := create_comp_queue ib cc in
  let* cc0 := deref cc in
  let '(cq, cc) := match o with Some (cq, cc) => (Some cq, cc) | None => (None, cc0) end in
  sys (center_create_file_event (chan_fd (cc_channel cc))) ;;;
  ret (w{{tx_cq := cq; tx_cc := Some cc}}).

(** The body of the loop over the completions of a poll: each chunk goes back to
    the pool [return_channel] gives to. *)
Definition return_wc (mm : MemoryManager) (wc : ibv_wc) : M (St W) MemoryManager :=
  if negb (bool_decide (wc_status wc = IBV_WC_SUCCESS)) then assert_fail
  else deref (return_channel mm (wc_wr_id wc)).

Fixpoint return_wcs (n : nat) (cs : list ibv_wc) (mm : MemoryManager) : M (St W) MemoryManager :=
  match n with
  | O => ret mm
  | S n' =>
      let* w := deref (head cs) in
      let* mm := return_wc mm w in
      return_wcs n' (tail cs) mm
  end.

(** From the label [again]. *)
Fixpoint tx_drain (fuel : nat) (rearmed : bool) (cq : CompletionQueue) (mm : MemoryManager)
  : M (St W) MemoryManager :=
  match fuel with
  | O => out_of_fuel
  | S f =>
      let* (n, cs) := poll_cq cq MAX_COMPLETIONS in
      let* mm := return_wcs (Z.to_nat n) cs mm in
      if negb (n =? 0) then tx_drain f rearmed cq mm
      else if negb rearmed then rearm_notify cq ;;; tx_drain f true cq mm
      else ret mm
  end.

Definition handle_tx_event (fuel : nat) (mm : MemoryManager) (w : RDMAWorker)
  : M (St W) (MemoryManager * RDMAWorker) :=
  let* cc := deref (tx_cc w) in
  let* (ok, cc) := get_cq_event cc in
  let w := w{{tx_cc := Some cc}} in
  if negb ok then ret (mm, w) else
  let* cq := deref (tx_cq w) in
  let* mm := tx_drain fuel false cq mm in
  ret (mm, w).

(** ** The stack *)

(** [get_str_vec] and [strict_strtol] are Ceph's: the fields of a list in a
    configuration string, and a number with an error text. *)
Context (get_str_vec : list Z -> list (list Z)) (strict_strtol : list Z -> Z * list Z).

Definition parse_cores (conf : list Z) : list Z :=
  flat_map (fun s => let '(coreid, err) := strict_strtol s in
                     if bool_decide (err = []) then [coreid] else []) (get_str_vec conf).

(** The adapter is one object, which [set_ib] gives to each worker; [F] is what a
    thread runs, a [std::function<void ()>]. *)
Record RDMAStack (F : Type) := { coreids : list Z; st_ib : Infiniband; threads : list F }.
#[global] Arguments coreids {_} _.
#[global] Arguments st_ib {_} _.
#[global] Arguments threads {_} _.

(** The constructor. *)
Definition new_stack {F} (cct : Z) (affinity_cores mem1 mem2 : list Z) (h : heap)
  : M (St W) (heap * RDMAStack F) :=
  let* (h, ib) := create_infiniband async_fd cct (chars "mlx4_0") mem1 mem2 h in
  ret (h, {| coreids := parse_cores affinity_cores; st_ib := ib; threads := [] |}).

(** [spawn_workers]: a new thread for each function. *)
Definition spawn_workers {F} (st : RDMAStack F) (funcs : list F) : RDMAStack F :=
  {| coreids := coreids st; st_ib := st_ib st; threads := threads st ++ funcs |}.

(** [join_workers], when the threads have ended. *)
Definition join_workers {F} (st : RDMAStack F) : RDMAStack F :=
  {| coreids := coreids st; st_ib := st_ib st; threads := [] |}.

(** [get_cpuid]; the [int] is converted to [size_t] for the remainder. *)
Definition get_cpuid {F} (st : RDMAStack F) (id : Z) : option Z :=
  match coreids st with
  | [] => Some (-1)
  | cs => cs !! Z.to_nat (u64 id mod zlen cs)
  end.
End RdmaStack.

(** ** What the two sides of a handshake say and hear *)

(** The answers of [recvfrom], oldest first: result, data, sender. *)
Fixpoint receptions (tr : list event) : list (Z * list Z * Z) :=
  match tr with
  | [] => []
  | Ev c r :: tr' =>
      receptions tr' ++
      (match c return ret_of c -> list (Z * list Z * Z) with
       | sys_recvfrom _ _ => fun a => [a]
       | _ => fun _ => []
       end) r
  end.

(** The message a receiver of byte order [e] makes of the message [m]. *)
Definition heard (e : endian) (m : IBSYNMsg) : IBSYNMsg :=
  {| m_lid := received_lid e (m_lid m); m_qpn := m_qpn m; m_psn := m_psn m; m_gid := m_gid m |}.

(** The socket's queue pair is in RTS towards [peer]. *)
Definition joined (s : RDMAConnectedSocketImpl) (tr : list event) (peer : IBSYNMsg) : Prop :=
  exists h regs, qp_qp (cs_qp s) = Some h /\ qp_run reset_regs (accepted (qp_handle h) tr) regs /\
    q_state regs = IBV_QPS_RTS /\ q_dest_qpn regs = m_qpn peer /\ q_rq_psn regs = m_psn peer /\
    q_sq_psn regs = m_psn (my_msg s) /\ dlid (q_av regs) = u16 (m_lid peer) /\
    dgid (q_av regs) = m_gid peer.

(** The queue pair has been left before RTS. *)
Definition stuck (s : RDMAConnectedSocketImpl) (tr : list event) : Prop :=
  exists h regs, qp_qp (cs_qp s) = Some h /\ qp_run reset_regs (accepted (qp_handle h) tr) regs /\
    (q_state regs = IBV_QPS_INIT \/ q_state regs = IBV_QPS_RTR).

Definition wf_ib (ib : Infiniband) : Prop := 0 <= ib_lid ib < 2 ^ 16 /\ wf_gid (ib_gid ib).

(** Every datagram of [tr] is the text of [m]. *)
Definition says (tr : list event) (m : IBSYNMsg) : Prop :=
  Forall (fun x => snd (fst (fst x)) = syn_text m ++ [0]) (datagrams tr).

Section Frames.
Context {W : Type} `{Env W} (chan_fd : Z -> Z) (e : endian) (l : udp_env).

(** Nothing said, nothing heard. *)
Definition silent (tr tr' : list event) : Prop :=
  datagrams tr' = datagrams tr /\ receptions tr' = receptions tr.

Ltac silent_tac :=
  unfold silent; cbn [datagrams receptions trace]; rewrite ?app_nil_r; auto.

Lemma silent_trans tr1 tr2 tr3 : silent tr1 tr2 -> silent tr2 tr3 -> silent tr1 tr3.
Proof. intros [D1 R1] [D2 R2]. split; congruence. Qed.

Lemma create_comp_channel_silent ib s :
  if_returns (create_comp_channel chan_fd ib) s (fun _ s' => silent (trace s) (trace s')).
Proof.
  unfold create_comp_channel, channel_init, set_nonblocking, channel_delete. exec; silent_tac.
Qed.

Lemma create_comp_queue_silent ib cc s :
  if_returns (create_comp_queue ib cc) s (fun _ s' => silent (trace s) (trace s')).
Proof. unfold create_comp_queue, cq_init, cq_delete. exec; silent_tac. Qed.

Lemma qp_init_silent ib q s :
  if_returns (qp_init ib q) s (fun _ s' => silent (trace s) (trace s')).
Proof. unfold qp_init. exec; silent_tac. Qed.

Lemma create_queue_pair_silent ib t tx s :
  if_returns (create_queue_pair chan_fd ib t tx) s (fun _ s' => silent (trace s) (trace s')).
Proof.
  unfold create_queue_pair. apply if_returns_bind.
  eapply if_returns_conseq; [apply create_comp_channel_silent|]. intros [cc|] s1 H1; [|exec; exact H1].
  apply if_returns_bind. eapply if_returns_conseq; [apply create_comp_queue_silent|]. intros o s2 H2.
  pose proof (silent_trans _ _ _ H1 H2) as H12. apply if_returns_bind.
  apply (if_returns_conseq _ _ (fun _ s' => silent (trace s) (trace s'))).
  { exec; (eapply silent_trans; [exact H12|]); silent_tac. }
  intros [rx cc'] s3 H3. apply if_returns_bind. unfold new_queue_pair. exec.
  eapply if_returns_conseq; [apply qp_init_silent|]. intros [rc q] s4 H4. cbn [trace] in H4.
  assert (H34 : silent (trace s) (trace s4)).
  { eapply silent_trans; [|exact H4]. eapply silent_trans; [exact H3|]. silent_tac. }
  unfold qp_delete. exec; (eapply silent_trans; [exact H34|]); silent_tac.
Qed.

Lemma new_socket_silent ib tx im unset s :
  if_returns (new_socket chan_fd ib tx im unset) s (fun _ s' => silent (trace s) (trace s')).
Proof.
  unfold new_socket. apply if_returns_bind.
  eapply if_returns_conseq; [apply create_queue_pair_silent|]. intros o s1 Hs. exec. exact Hs.
Qed.

Lemma activate_silent ib p s :
  if_returns (activate ib p) s (fun _ s' => silent (trace s) (trace s')).
Proof. unfold activate. exec; silent_tac. Qed.

Lemma inject_frame r s :
  returns (inject l r) s (fun _ s' => datagrams (trace s') = datagrams (trace s) /\
    receptions (trace s') = receptions (trace s) /\
    forall h, accepted h (trace s') = accepted h (trace s)).
Proof.
  unfold inject. exec; cbn [datagrams receptions accepted trace]; rewrite ?app_nil_r;
    repeat (split; [reflexivity|]); intros h; rewrite ?app_nil_r; reflexivity.
Qed.

(** Sending hears nothing and changes no queue pair. *)
Lemma send_retry_frame fuel sd im peer : forall retry g m s,
  if_returns (send_retry e l fuel sd im peer retry g m) s (fun _ s' =>
    receptions (trace s') = receptions (trace s) /\
    forall h, accepted h (trace s') = accepted h (trace s)).
Proof.
  induction fuel as [|fuel IH]; intros retry g m s; [exact I|]. cbn [send_retry].
  exec. eapply if_returns_conseq; [apply returns_if_returns, inject_frame|].
  intros x s1 (_ & Er & Ea). cbn [receptions trace] in Er. rewrite app_nil_r in Er.
  assert (Ea' : forall h, accepted h (trace s1) = accepted h (trace s))
    by (intros h; rewrite Ea; apply app_nil_r).
  exec; try (cbn [receptions accepted trace]; rewrite ?app_nil_r; split; [exact Er|];
             intros h; rewrite ?app_nil_r; apply Ea').
  eapply if_returns_conseq; [apply IH|]. intros y s2 [Er2 Ea2].
  cbn [receptions trace] in Er2. rewrite app_nil_r in Er2. split; [congruence|].
  intros h. rewrite Ea2. cbn [accepted trace]. rewrite app_nil_r. apply Ea'.
Qed.

(** One reception. *)
Lemma recv_udp_msg_frame sd im s :
  wf_udp l -> zlen (m_gid im) = 16 ->
  if_returns (recv_udp_msg e l sd im) s (fun x s' =>
    let '(rc, im', from) := x in exists r d f,
    receptions (trace s') = receptions (trace s) ++ [(r, d, f)] /\
    datagrams (trace s') = datagrams (trace s) /\
    (forall h, accepted h (trace s') = accepted h (trace s)) /\
    (forall m, wf_syn m -> d = syn_text m ++ [0] -> im' = heard e m) /\
    (rc = 0 -> from = Some f) /\ (from = None \/ from = Some f)).
Proof.
  intros [Hg Hm] Hz. unfold recv_udp_msg. exec. subst.
  match goal with |- if_returns (inject _ ?r0) (mkSt _ (Ev _ (_, ?d0, ?f0) :: _) _) _ =>
    rename r0 into rc, d0 into d, f0 into f end.
  match goal with Hw : buf_write 0 _ _ = Some ?b, Hs : scan_syn _ _ ?b _ _ = Some ?i |- _ =>
    rename i into im', Hw into Hbw, Hs into Hscan end.
  assert (Hheard : forall m, wf_syn m -> d = syn_text m ++ [0] -> im' = heard e m).
  { intros m Hwf ->. rewrite buf_write_full in Hbw by (rewrite Hm; apply syn_wire_zlen, Hwf).
    injection Hbw as <-. rewrite scan_syn_exact in Hscan by assumption. injection Hscan as <-. reflexivity. }
  eapply if_returns_conseq; [apply returns_if_returns, inject_frame|].
  intros x s2 (Ed & Er & Ea). cbn [datagrams receptions trace] in Ed, Er. rewrite app_nil_r in Ed.
  assert (Ea' : forall h, accepted h (trace s2) = accepted h (trace s))
    by (intros h; rewrite Ea; apply app_nil_r).
  exec; cbn [datagrams receptions accepted trace]; rewrite ?app_nil_r; exists rc, d, f;
    (split; [exact Er|]); (split; [exact Ed|]); (split; [intros h; rewrite ?app_nil_r; apply Ea'|]);
    (split; [exact Hheard|]); split; auto; discriminate.
Qed.
End Frames.

Section Handshake.
Context {W : Type} (E : Env W) `{!HostEnv E} (chan_fd : Z -> Z) (e : endian) (l : udp_env).

Lemma if_returns_true {S A} (m : M S A) s : if_returns m s (fun _ _ => True).
Proof. unfold if_returns. destruct (m s) as [[] ?]; exact I. Qed.

Lemma qp_init_qpn ib q s :
  qp_qp q = None ->
  if_returns (qp_init ib q) s (fun x _ => forall h, qp_qp (snd x) = Some h -> 0 <= qp_num h < 2 ^ 32).
Proof.
  intros Hq. unfold qp_init. host_exec; cbn [snd]; intros h Hh;
    first [congruence | change (Some i = Some h) in Hh; injection Hh as <-; assumption].
Qed.

Lemma create_queue_pair_qpn ib t tx s :
  if_returns (create_queue_pair chan_fd ib t tx) s (fun o _ => forall q cc h,
    o = Some (q, cc) -> qp_qp q = Some h -> 0 <= qp_num h < 2 ^ 32).
Proof.
  unfold create_queue_pair. apply if_returns_bind. eapply if_returns_conseq; [apply if_returns_true|].
  intros [cc|] s1 _; [|exec; discriminate].
  apply if_returns_bind. eapply if_returns_conseq; [apply if_returns_true|]. intros o s2 _.
  apply if_returns_bind. eapply if_returns_conseq; [apply if_returns_true|]. intros [rx cc'] s3 _.
  apply if_returns_bind. unfold new_queue_pair. exec.
  eapply if_returns_conseq; [apply qp_init_qpn; reflexivity|]. intros [rc q] s4 Hq. cbn [snd] in Hq.
  unfold qp_delete. exec; intros q' cc2 h [= <- <-] Hh; apply Hq, Hh.
Qed.

(** The socket a handshake starts from. *)
Lemma new_socket_ready ib tx im unset s :
  wf_ib ib ->
  if_returns (new_socket chan_fd ib tx im unset) s (fun p s' =>
    wf_syn (my_msg p) /\ peer_msg p = im /\ silent (trace s) (trace s') /\ exists h,
    qp_qp (cs_qp p) = Some h /\ forall k, accepted k (trace s') = accepted k (trace s) ++
      (if qp_handle h =? k then
         [(qp_init_attr (cs_qp p), [IBV_QP_STATE; IBV_QP_PORT; IBV_QP_ACCESS_FLAGS; IBV_QP_PKEY_INDEX])]
       else [])).
Proof.
  intros [Hlid Hgid].
  pose proof (new_socket_silent chan_fd ib tx im unset s) as Hs.
  pose proof (new_socket_run chan_fd ib tx im unset s) as Hr.
  assert (Hq : if_returns (new_socket chan_fd ib tx im unset) s (fun p _ => forall h,
            qp_qp (cs_qp p) = Some h -> 0 <= qp_num h < 2 ^ 32)).
  { unfold new_socket. apply if_returns_bind. eapply if_returns_conseq; [apply create_queue_pair_qpn|].
    intros o s1 Ho. exec. subst. cbn [cs_qp]. intros h Hh. eapply Ho; [reflexivity|exact Hh]. }
  eapply if_returns_conseq; [apply (if_returns_and _ _ _ _ Hs (if_returns_and _ _ _ _ Hr Hq))|].
  intros p s' (Hsil & (h & Eh & Epeer & Hpsn & El & Eq & Eg & _ & Hacc) & Hqpn).
  specialize (Hqpn h Eh). split; [|split; [exact Epeer|split; [exact Hsil|]]].
  - unfold wf_syn. rewrite El, Eq, Eg. split; [exact Hlid|]. split; [exact Hqpn|].
    split; [lia|exact Hgid].
  - exists h. split; [exact Eh|]. intros k. apply Hacc.
Qed.

(** The end of a handshake. *)
Lemma activate_joins ib p h s :
  qp_qp (cs_qp p) = Some h ->
  accepted (qp_handle h) (trace s) =
    [(qp_init_attr (cs_qp p), [IBV_QP_STATE; IBV_QP_PORT; IBV_QP_ACCESS_FLAGS; IBV_QP_PKEY_INDEX])] ->
  if_returns (activate ib p) s (fun x s' => silent (trace s) (trace s') /\
    my_msg (snd x) = my_msg p /\ peer_msg (snd x) = peer_msg p /\
    (fst x = 0 -> joined (snd x) (trace s') (peer_msg p)) /\
    (fst x <> 0 -> fst x = -1 /\ stuck (snd x) (trace s'))).
Proof.
  intros Hq Hinit. pose proof (activate_silent ib p s) as Hs.
  pose proof (activate_run ib p (qp_handle h) s) as Hr.
  eapply if_returns_conseq; [apply (if_returns_and _ _ _ _ Hs Hr)|].
  intros x s' (Hsil & h' & Hq' & ms & Ems & Hms). rewrite Hq in Hq'. injection Hq' as <-.
  rewrite Z.eqb_refl, Hinit in Ems. cbn [app] in Ems. split; [exact Hsil|].
  destruct Hms as [[-> [->| ->]]|[-> ->]]; cbn [fst snd];
    (split; [reflexivity|]); (split; [reflexivity|]); (split; [intros Hx|intros Hx]); try lia.
  - split; [reflexivity|]. exists h. eexists. split; [exact Hq|]. rewrite Ems.
    split; [apply run_regs_spec; reflexivity|]. cbn. auto.
  - split; [reflexivity|]. exists h. eexists. split; [exact Hq|]. rewrite Ems.
    split; [apply run_regs_spec; reflexivity|]. cbn. auto.
  - exists h. eexists. split; [exact Hq|]. rewrite Ems.
    split; [apply run_regs_spec; reflexivity|]. cbn. auto 10.
Qed.

(** A world in which no datagram was sent and no queue pair exists yet. *)
Definition new_world (tr : list event) : Prop :=
  datagrams tr = [] /\ forall h, accepted h tr = [].

(** One side of a completed handshake: it said its own message, and its peer is
    what it made of the last datagram it received. *)
Definition side (p : RDMAConnectedSocketImpl) (tr : list event) : Prop :=
  wf_syn (my_msg p) /\ says tr (my_msg p) /\
  exists rest r d f, receptions tr = rest ++ [(r, d, f)] /\
    (forall m, wf_syn m -> d = syn_text m ++ [0] -> peer_msg p = heard e m).

Lemma send_side sd im peer s :
  wf_syn im -> wf_udp l -> datagrams (trace s) = [] ->
  if_returns (send_udp_msg e l 4 sd im peer) s (fun _ s' => says (trace s') im /\
    receptions (trace s') = receptions (trace s) /\
    forall h, accepted h (trace s') = accepted h (trace s)).
Proof.
  intros Him [Hg Hm] Hd. unfold send_udp_msg. apply if_returns_bind, if_returns_c_assert. intros _.
  pose proof (send_retry_frame e l 4 sd im peer 0 (u_gid l) (u_msg l) s) as Hf.
  pose proof (send_retry_run e l sd im peer Him 4 0 (u_gid l) (u_msg l) s ltac:(lia) ltac:(lia) Hg Hm) as Ha.
  eapply if_returns_conseq; [apply (if_returns_and _ _ _ _ (returns_if_returns _ _ _ Ha) Hf)|].
  intros rc s' ((rs & a & Ed & _) & Hr & Hacc). split; [|auto]. unfold says. rewrite Ed, Hd. cbn [app].
  apply Forall_map. apply Forall_forall. reflexivity.
Qed.

Definition wf_unset (un : unset_objects) : Prop := zlen (m_gid (un_msg un)) = 16.

Lemma accept_run fuel un ib tx sv s :
  wf_ib ib -> wf_udp l -> wf_unset un -> new_world (trace s) ->
  if_returns (accept chan_fd e l fuel un ib tx sv) s (fun x s' =>
    let '(_, o, out) := x in forall q, o = Some q ->
    side q (trace s') /\ out = Some (sv_sa sv) /\
    (joined q (trace s') (peer_msg q) \/ stuck q (trace s'))).
Proof.
  intros Hib Hl Hun. revert s. induction fuel as [|fuel IH]; intros s [Hd0 Ha0]; [exact I|].
  cbn [accept]. apply if_returns_bind.
  eapply if_returns_conseq; [apply recv_udp_msg_frame; assumption|].
  intros [[rc msg] from] s1 (r & d & f & Er & Ed & Ea & Hheard & Hfrom & Hfrom').
  assert (Hnew1 : new_world (trace s1)) by (split; [congruence|intros h; rewrite Ea; apply Ha0]).
  destruct (rc <? 0); [apply if_returns_ret; discriminate|].
  destruct (0 <? rc); [apply IH, Hnew1|].
  apply if_returns_bind. eapply if_returns_conseq; [apply new_socket_ready, Hib|].
  intros server s2 (Hwf & Epeer & [Ed2 Er2] & h & Eh & Eacc).
  apply if_returns_bind, if_returns_deref. intros addr _.
  apply if_returns_bind. eapply if_returns_conseq; [apply send_side; [exact Hwf|exact Hl|]|].
  { destruct Hnew1 as [Hd1 _]. congruence. }
  intros r3 s3 (Hsays & Er3 & Ea3).
  apply if_returns_bind. eapply if_returns_conseq; [apply (activate_joins ib server h); [exact Eh|]|].
  { rewrite Ea3, Eacc, Z.eqb_refl. destruct Hnew1 as [_ Hn1]. rewrite Hn1. reflexivity. }
  intros [ra p] s4 ([Ed4 Er4] & Em & Ep & Hok & Hko). cbn [fst snd] in *.
  apply if_returns_ret. intros q [= <-]. split; [|split; [reflexivity|]].
  - unfold side, says in *. rewrite Em, Ed4, Ep. split; [exact Hwf|]. split; [exact Hsays|].
    exists (receptions (trace s)), r, d, f. split; [congruence|]. rewrite Epeer. exact Hheard.
  - rewrite Ep. destruct (Z.eq_dec ra 0) as [->|Hra]; [left; auto|right; apply Hko, Hra].
Qed.

Lemma worker_connect_run un ib tx w addr s :
  wf_ib ib -> wf_udp l -> new_world (trace s) -> receptions (trace s) = [] ->
  if_returns (worker_connect chan_fd e l un ib tx w addr) s (fun x s' =>
    let '(rc, o, _) := x in forall p, o = Some p ->
    rc = 0 /\ side p (trace s') /\ length (receptions (trace s')) = 1%nat /\
    joined p (trace s') (peer_msg p)).
Proof.
  intros Hib Hl [Hd0 Ha0] Hr0. unfold worker_connect. apply if_returns_bind.
  eapply if_returns_conseq; [apply new_socket_ready, Hib|].
  intros p s1 (Hwf & _ & [Ed1 Er1] & h & Eh & Eacc). apply if_returns_bind.
  apply (if_returns_conseq _ _ (fun _ s' => silent (trace s1) (trace s') /\
           forall k, accepted k (trace s') = accepted k (trace s1))).
  { unfold worker_open. exec; (split; [split; cbn [datagrams receptions trace]; rewrite ?app_nil_r; reflexivity|]);
      intros k; cbn [accepted trace]; rewrite ?app_nil_r; reflexivity. }
  intros w2 s2 [[Ed2 Er2] Ea2].
  apply if_returns_bind. eapply if_returns_conseq; [apply send_side; [exact Hwf|exact Hl|congruence]|].
  intros rs s3 (Hsays & Er3 & Ea3). destruct (rs <? 0); [apply if_returns_ret; discriminate|].
  apply if_returns_bind. eapply if_returns_conseq.
  { apply recv_udp_msg_frame; [exact Hl|]. destruct Hwf as (_ & _ & _ & Hg). unfold zlen.
    rewrite (proj1 Hg). reflexivity. }
  intros [[rc msg] from] s4 (r & d & f & Er4 & Ed4 & Ea4 & Hheard & _).
  destruct (rc <? 0); [apply if_returns_ret; discriminate|].
  apply if_returns_bind. eapply if_returns_conseq.
  { apply (activate_joins ib (p{{peer_msg := msg}}) h); [exact Eh|].
    rewrite Ea4, Ea3, Ea2, Eacc, Z.eqb_refl, Ha0. reflexivity. }
  intros [ra p'] s5 ([Ed5 Er5] & Em & Ep & Hok & _). cbn [fst snd] in *.
  change (my_msg (p{{peer_msg := msg}})) with (my_msg p) in Em.
  change (peer_msg (p{{peer_msg := msg}})) with msg in Ep, Hok.
  apply if_returns_bind, if_returns_c_assert. intros Hra%Z.eqb_eq. apply if_returns_ret.
  intros q [= <-]. split; [reflexivity|].
  assert (Erec : receptions (trace s5) = [] ++ [(r, d, f)]) by congruence.
  split; [|split; [rewrite Erec; reflexivity|rewrite Ep; apply Hok, Hra]].
  unfold side, says in *. rewrite Em, Ed5, Ed4, Ep. split; [exact Hwf|]. split; [exact Hsays|].
  exists [], r, d, f. split; [exact Erec|exact Hheard].
Qed.
End Handshake.

(** The last datagram received in [tr] is one of those sent in [tr']. *)
Definition heard_from (tr tr' : list event) : Prop :=
  exists rest r d f, receptions tr = rest ++ [(r, d, f)] /\
    d ∈ map (fun x => snd (fst (fst x))) (datagrams tr').

Lemma side_hears e e' p q tr tr' :
  side e p tr -> side e' q tr' -> heard_from tr tr' -> peer_msg p = heard e (my_msg q).
Proof.
  intros (_ & _ & rest & r & d & f & Er & Hp) (Hwf & Hsays & _) (rest' & r' & d' & f' & Er' & Hin).
  rewrite Er in Er'. apply app_inj_tail in Er' as [_ [= <- <- <-]]. apply Hp; [exact Hwf|].
  unfold says in Hsays. rewrite Forall_forall in Hsays. apply list_elem_of_fmap in Hin as (x & -> & Hx).
  apply Hsays, Hx.
Qed.

(** Giving chunks back. *)
Lemma return_wcs_run {W} (s : St W) mm c cs :
  MemoryManager.send mm = Some c -> successful cs ->
  returns (return_wcs (length cs) cs mm) s (fun mm' s' => s' = s /\
    channel mm' = channel mm /\ rdma mm' = rdma mm /\
    MemoryManager.send mm' =
      Some {| chunk_size := chunk_size c; free_chunks := free_chunks c ++ map wc_wr_id cs |}).
Proof.
  revert mm c. induction cs as [|w cs IH]; intros mm c Hc Hs; cbn [length return_wcs].
  - apply returns_ret. rewrite Hc. cbn [map]. rewrite app_nil_r. destruct c. auto.
  - apply Forall_cons in Hs as [Hw Hs]. apply returns_bind, returns_ret, returns_bind.
    unfold return_wc. rewrite bool_decide_eq_true_2 by exact Hw. cbn [negb].
    unfold return_channel. rewrite Hc. cbn [mbind option_bind]. apply returns_ret.
    eapply returns_conseq; [apply (IH _ (take_back c (wc_wr_id w))); [reflexivity|exact Hs]|].
    intros mm' s' (-> & Ech & Erd & Es). split; [reflexivity|]. split; [exact Ech|]. split; [exact Erd|].
    rewrite Es. cbn [map].
    change (free_chunks (take_back c (wc_wr_id w))) with (free_chunks c ++ [wc_wr_id w]).
    rewrite <- app_assoc. reflexivity.
Qed.

Lemma successful_app ws1 ws2 : successful (ws1 ++ ws2) <-> successful ws1 /\ successful ws2.
Proof. apply Forall_app. Qed.

Section TxEvent.
Context {W : Type} (E : Env W) (cq : CompletionQueue) (mem : W -> Z -> Z -> list Z)
  (pending : W -> list ibv_wc) `{!CqAdapter E (cq_cq cq) mem pending}.

Lemma tx_drain_run fuel : forall rearmed mm c s,
  MemoryManager.send mm = Some c -> successful (pending (world s)) ->
  (length (pending (world s)) + (if rearmed : bool then 0 else 1) < fuel)%nat ->
  returns (tx_drain fuel rearmed cq mm) s (fun mm' s' => pending (world s') = [] /\
    channel mm' = channel mm /\ rdma mm' = rdma mm /\
    MemoryManager.send mm' =
      Some {| chunk_size := chunk_size c;
              free_chunks := free_chunks c ++ map wc_wr_id (pending (world s)) |}).
Proof.
  induction fuel as [|fuel IH]; intros rearmed mm c s Hc Hs Hf; [lia|]. cbn [tx_drain]. unfold poll_cq.
  apply returns_bind, returns_bind. refine (returns_sys (ibv_poll_cq (cq_cq cq) MAX_COMPLETIONS) s _ _).
  intros a w1 E1.
  destruct (poll_takes (world s) MAX_COMPLETIONS ltac:(reflexivity)) as (k & Ea & Ew & Hk & H0).
  rewrite E1 in Ea, Ew. cbn [fst snd] in Ea, Ew. subst a.
  destruct (Z.ltb_spec (Z.of_nat k) 0); [lia|]. apply returns_ret. rewrite Nat2Z.id.
  set (ws := pending (world s)) in *. pose proof (take_drop k ws) as Etd.
  rewrite <- Etd in Hs. apply successful_app in Hs as [Hs1 Hs2].
  apply returns_bind. replace k with (length (take k ws)) at 1 by (rewrite length_take; lia).
  eapply returns_conseq; [apply (return_wcs_run _ mm c); [exact Hc|exact Hs1]|].
  intros mm1 s2 (-> & Ech & Erd & Esd). cbn [world] in *.
  assert (Hl : length (pending w1) = (length ws - k)%nat) by (rewrite Ew, length_drop; reflexivity).
  assert (Happ : free_chunks c ++ map wc_wr_id ws =
                 (free_chunks c ++ map wc_wr_id (take k ws)) ++ map wc_wr_id (drop k ws))
    by (rewrite <- app_assoc, <- map_app, Etd; reflexivity).
  destruct (Z.eqb_spec (Z.of_nat k) 0) as [Ek|Ek]; cbn [negb].
  - assert (Hnil : ws = []) by (apply H0; lia). destruct rearmed; cbn [negb].
    + apply returns_ret. cbn [world]. rewrite Ew, Hnil in *. rewrite firstn_nil in Esd. auto using drop_nil.
    + apply returns_bind. refine (returns_sys (ibv_req_notify_cq (cq_cq cq) false) _ _ _). intros z w3 E3.
      cbn [world] in E3. pose proof (others_keep (ibv_req_notify_cq (cq_cq cq) false) w1 eq_refl eq_refl) as Hr. rewrite E3 in Hr. cbn [snd] in Hr.
      eapply returns_conseq; [apply (IH true mm1 _ _ Esd)|];
        [cbn [world]; rewrite Hr, Ew; exact Hs2|cbn [world]; rewrite Hr; lia|].
      intros mm' s' (Hp & E2 & E3' & E4). rewrite E2, E3', E4. cbn [world chunk_size free_chunks] in *.
      rewrite Hr, Ew, <- Happ. auto.
  - eapply returns_conseq; [apply (IH rearmed mm1 _ _ Esd)|];
      [cbn [world]; rewrite Ew; exact Hs2|cbn [world]; lia|].
    intros mm' s' (Hp & E2 & E3' & E4). rewrite E2, E3', E4. cbn [world chunk_size free_chunks] in *.
    rewrite Ew, <- Happ. auto.
Qed.
End TxEvent.

(** ** Properties *)

(** C2 The handshake of [connect] and [accept] joins the two ends: if the client
    returns a socket, the server accepts one, and the last datagram each
    received is one the other sent, then each socket's peer is the other's own
    message - queue pair number, packet sequence number and GID exact, the LID
    as the receiver's byte order reads it - the client's queue pair is in RTS
    towards it with the sequence numbers crossed, and so is the server's, unless
    its [activate] failed, which [accept] does not report; the address [accept]
    stores is the server's own. *)
Theorem rdma_handshake {Wc Ws} (Ec : Env Wc) (Es : Env Ws) `{!HostEnv Ec} `{!HostEnv Es}
    fc fs ec es lc ls unc uns ibc ibs txc txs w addr sv fuel sc ss p q rc w' r out sc' ss' :
  wf_ib ibc -> wf_ib ibs -> wf_udp lc -> wf_udp ls -> wf_unset uns ->
  trace sc = [] -> trace ss = [] ->
  worker_connect (H := Ec) fc ec lc unc ibc txc w addr sc = (Ret (rc, Some p, w'), sc') ->
  accept (H := Es) fs es ls fuel uns ibs txs sv ss = (Ret (r, Some q, out), ss') ->
  heard_from (trace sc') (trace ss') -> heard_from (trace ss') (trace sc') ->
  rc = 0 /\ peer_msg p = heard ec (my_msg q) /\ peer_msg q = heard es (my_msg p) /\
  joined p (trace sc') (heard ec (my_msg q)) /\
  (joined q (trace ss') (heard es (my_msg p)) \/ stuck q (trace ss')) /\ out = Some (sv_sa sv).
Proof.
  intros Hic His Hlc Hls Hun Hc0 Hs0 Hc Hs Hcs Hsc.
  assert (Nc : new_world (trace sc)) by (rewrite Hc0; split; reflexivity).
  assert (Ns : new_world (trace ss)) by (rewrite Hs0; split; reflexivity).
  assert (Rc : receptions (trace sc) = []) by (rewrite Hc0; reflexivity).
  pose proof (if_returns_elim _ _ _ _ _
    (worker_connect_run Ec fc ec lc unc ibc txc w addr sc Hic Hlc Nc Rc) Hc p eq_refl)
    as (Hrc & Sp & _ & Jp).
  pose proof (if_returns_elim _ _ _ _ _
    (accept_run Es fs es ls fuel uns ibs txs sv ss His Hls Hun Ns) Hs q eq_refl) as (Sq & Hout & Jq).
  pose proof (side_hears ec es p q _ _ Sp Sq Hcs) as Ep. pose proof (side_hears es ec q p _ _ Sq Sp Hsc) as Eq.
  rewrite Ep in Jp. rewrite Eq in Jq. auto 10.
Qed.


(** C36 [listen] on a worker holds what it returns and nothing else: 0 and an
    object whose socket is open and was bound to the address, or -1 and no
    object, the socket closed on every failure after its creation. *)
Theorem worker_listen_socket {W} `{Env W} unset sa s :
  (forall w, -1 <= fst (ext (sys_socket_dgram (Some sa)) w)) ->
  returns (worker_listen unset sa) s (fun r s' =>
    match snd r with
    | Some p => fst r = 0 /\ sv_sa p = sa /\
        leaves_held (trace s) (trace s') [(RSocket, server_setup_socket p)] /\
        exists b tr, trace s' = Ev (sys_bind (server_setup_socket p) sa) b :: tr /\ 0 <= b
    | None => fst r = -1 /\ leaves_held (trace s) (trace s') []
    end).
Proof.
  intros Hfd. unfold worker_listen, server_listen. apply returns_bind, returns_bind.
  refine (returns_sys (sys_socket_dgram (Some sa)) s _ _). intros fd w E.
  specialize (Hfd (world s)). rewrite E in Hfd. cbn [fst] in Hfd.
  exec; cbn [snd fst]; try lia.
  all: try (split; [reflexivity|]; solve_held).
  split; [reflexivity|]. split; [reflexivity|]. split.
  - change (server_setup_socket (_ {{server_setup_socket := fd}})) with fd. solve_held.
  - do 2 eexists. split; [reflexivity|assumption].
Qed.

(** [get_cpuid] never leaves the vector: with cores configured it is one of
    them for every [int], and consecutive identifiers take them in turn. *)
Theorem get_cpuid_in_range {F} (st : RDMAStack F) id :
  - 2 ^ 31 <= id < 2 ^ 31 ->
  exists c, get_cpuid st id = Some c /\
    (coreids st = [] -> c = -1) /\ (coreids st <> [] -> c ∈ coreids st) /\
    (0 <= id -> zlen (coreids st) <= 2 ^ 32 -> get_cpuid st (id + zlen (coreids st)) = Some c).
Proof.
  intros Hid. unfold get_cpuid. destruct (coreids st) as [|c0 cs] eqn:Ec.
  - exists (-1). split; [reflexivity|]. split; [reflexivity|]. split; [congruence|reflexivity].
  - rewrite <- Ec. set (l := coreids st) in *.
    assert (Hl : 0 < zlen l) by (rewrite Ec, zlen_cons; pose proof (zlen_nonneg cs); lia).
    pose proof (Z.mod_pos_bound (u64 id) (zlen l) Hl) as Hb.
    destruct (lookup_lt_is_Some_2 l (Z.to_nat (u64 id mod zlen l))) as [c Hc]; [unfold zlen in *; lia|].
    exists c. split; [exact Hc|]. split; [congruence|].
    split; [intros _; eapply list_elem_of_lookup_2, Hc|]. intros H0 Hsz.
    rewrite u64_small in Hc |- * by lia.
    replace (id + zlen l) with (id + 1 * zlen l) by lia. rewrite Z_mod_plus_full. exact Hc.
Qed.

(** The handshake whose client never gets an answer. *)
Definition silent_peer : Env nat := scripted (fun c n =>
  match c return option (ret_of c) with
  | sys_recvfrom _ _ => Some (-1, [], 0)
  | sys_errno => Some EAGAIN
  | _ => None
  end).

Definition zero_udp : udp_env :=
  {| u_msg := replicate 56 0; u_gid := replicate 33 0; u_v32 := 0; u_inject := 0 |}.

Definition no_worker : RDMAWorker := {| client_setup_socket := -1; tx_cq := None; tx_cc := None |}.

Definition zero_unset : unset_objects := {| un_msg := zero_syn; un_connected := 0 |}.

Definition lonely_client : outcome (Z * option RDMAConnectedSocketImpl * RDMAWorker) * St nat :=
  worker_connect (H := silent_peer) id LittleEndian zero_udp zero_unset sample_ib 9 no_worker 1 Mock.start.

(** [connect] can return success without a peer: when no datagram arrives and
    [recvfrom] fails with EAGAIN, [recv_udp_msg] answers 1, which [connect] does
    not take for a failure; with zeros in the uninitialised message buffer the
    socket is then connected to its own queue pair number. *)
Theorem connect_without_reply :
  exists p w s', lonely_client = (Ret (0, Some p, w), s') /\ connected p = 1 /\
    receptions (trace s') = [(-1, [], 0)] /\ m_qpn (peer_msg p) = m_qpn (my_msg p).
Proof.
  do 3 eexists. split; [vm_compute; reflexivity|].
  split; [reflexivity|]. split; vm_compute; reflexivity.
Qed.

(** ** Witnesses *)

(** Two hosts in the scripted environment: each hears the datagram [d]. *)
Definition gets (d : list Z) : Env nat := scripted (fun c n =>
  if (n <? 64)%nat then
    match c return option (ret_of c) with sys_recvfrom _ _ => Some (56, d, 3) | _ => None end
  else match c return option (ret_of c) with
       | memalign _ _ => Some 0 | ibv_create_qp _ _ => Some None | ibv_reg_mr _ _ _ _ => Some None
       | _ => None
       end).

#[export] Instance gets_host d : HostEnv (gets d).
Proof.
  intros c w. unfold gets, ext, scripted. cbn [fst].
  destruct (Nat.ltb_spec w 64); destruct c; cbn; try exact I; unfold Mock.fresh; try lia.
  all: split; [reflexivity|]; repeat (constructor; [unfold is_byte; lia|]); constructor.
Qed.

Definition client_side (d : list Z) :=
  worker_connect (H := gets d) id LittleEndian zero_udp zero_unset sample_ib 9 no_worker 1 Mock.start.

Definition server_side (d : list Z) :=
  accept (H := gets d) id BigEndian zero_udp 3 zero_unset sample_ib 9
    {| server_setup_socket := 5; sv_sa := 2 |} Mock.start.

Definition first_said (tr : list event) : list Z :=
  match datagrams tr with (_, d, _, _) :: _ => d | [] => [] end.

Definition client_syn : list Z := Eval vm_compute in first_said (trace (snd (client_side []))).
Definition server_syn : list Z := Eval vm_compute in first_said (trace (snd (server_side client_syn))).

Definition client_sock : RDMAConnectedSocketImpl :=
  match fst (client_side server_syn) with Ret (_, Some p, _) => p | _ => sample_socket end.
Definition server_sock : RDMAConnectedSocketImpl :=
  match fst (server_side client_syn) with Ret (_, Some p, _) => p | _ => sample_socket end.

Lemma zero_udp_wf : wf_udp zero_udp.
Proof. split; reflexivity. Qed.

Lemma sample_ib_wf : wf_ib sample_ib.
Proof.
  split; [split; [discriminate|reflexivity]|]. split; [reflexivity|].
  repeat (constructor; [unfold is_byte; lia|]); constructor.
Qed.

Lemma client_heard : heard_from (trace (snd (client_side server_syn))) (trace (snd (server_side client_syn))).
Proof.
  exists [], 56, server_syn, 3. split; [vm_compute; reflexivity|].
  apply (bool_decide_unpack (server_syn ∈ _)). vm_compute. exact I.
Qed.

Lemma server_heard : heard_from (trace (snd (server_side client_syn))) (trace (snd (client_side server_syn))).
Proof.
  exists [], 56, client_syn, 3. split; [vm_compute; reflexivity|].
  apply (bool_decide_unpack (client_syn ∈ _)). vm_compute. exact I.
Qed.

Example rdma_handshake_witness :
  peer_msg client_sock = heard LittleEndian (my_msg server_sock) /\
  peer_msg server_sock = heard BigEndian (my_msg client_sock).
Proof.
  destruct (rdma_handshake (gets server_syn) (gets client_syn) id id LittleEndian BigEndian
    zero_udp zero_udp zero_unset zero_unset sample_ib sample_ib 9 9 no_worker 1
    {| server_setup_socket := 5; sv_sa := 2 |} 3 Mock.start Mock.start client_sock server_sock 0
    {| client_setup_socket := 11; tx_cq := None; tx_cc := None |} 0 (Some 2)
    (snd (client_side server_syn)) (snd (server_side client_syn))
    sample_ib_wf sample_ib_wf zero_udp_wf zero_udp_wf eq_refl eq_refl eq_refl)
    as (_ & Hp & Hq & _); [vm_compute; reflexivity..|exact client_heard|exact server_heard|].
  split; [exact Hp|exact Hq].
Defined.


Example worker_listen_socket_witness :
  returns (worker_listen (H := all_succeed) 7 2) Mock.start (fun r _ =>
    match snd r with Some p => sv_sa p = 2 | None => fst r = -1 end).
Proof.
  eapply returns_conseq.
  { apply (worker_listen_socket (H := all_succeed)). intros w. cbn. lia. }
  intros [rc [p|]] s'; [intros (_ & E & _)|intros [E _]]; exact E.
Defined.

Example get_cpuid_in_range_witness :
  exists c, get_cpuid {| coreids := [4; 6]; st_ib := sample_ib; threads := @nil unit |} (-1) = Some c.
Proof.
  destruct (get_cpuid_in_range {| coreids := [4; 6]; st_ib := sample_ib; threads := @nil unit |} (-1)) as (c & Hc & _); [lia|].
  exists c. exact Hc.
Defined.
