(* ===== verification/TxLifetime.v ===== *)
(** The transmit side of the rdma/ stack as a transition system: sockets [send]
    messages and the worker handles the completions, in any order. The invariant
    of the reachable states is proved by induction on the run. *)
From Stdlib Require Import String Relations.
From coqutil Require Import Datatypes.RecordSetters.
From S2P Require Import Prelude Gid Verbs Mock SynMsg MemoryManager Infiniband.
From S2P Require Import ConnectedSocket SocketRead RdmaStack.
From stdpp Require Import gmap.
Open Scope Z_scope.
Import DoubleBraceUpdate.

(** The chunks, the adapter, and the number of non-empty messages accepted. *)
Record tx_state (W : Type) := { tx_st : St W; tx_heap : heap; tx_ib : Infiniband; tx_sent : Z }.
Arguments Build_tx_state {_} _ _ _ _.
Arguments tx_st {_} _.
Arguments tx_heap {_} _.
Arguments tx_ib {_} _.
Arguments tx_sent {_} _.

Section TxLifetime.
Context {W : Type} `{Env W}.

Inductive tx_step : tx_state W -> tx_state W -> Prop :=
  | tx_send st h ib n s bl rc h' ib' bl' st' q :
      qp_qp (cs_qp s) = Some q -> zlen (concat bl) < 2 ^ 32 - 1 ->
      send ib h s bl st = (Ret (rc, h', ib', bl'), st') ->
      tx_step (Build_tx_state st h ib n)
        (Build_tx_state st' h' ib' (if zlen (concat bl) =? 0 then n else n + 1))
  | tx_complete st h ib n fuel w mm w' st' :
      handle_tx_event fuel (memory_manager ib) w st = (Ret (mm, w'), st') ->
      tx_step (Build_tx_state st h ib n) (Build_tx_state st' h (ib{{memory_manager := mm}}) n)
  | tx_other st st' h ib n :  (* anything else the program does *)
      tx_step (Build_tx_state st h ib n) (Build_tx_state st' h ib n).

Definition tx_steps : tx_state W -> tx_state W -> Prop := clos_refl_trans_1n _ tx_step.

(** The receive pool is a pool of fresh chunks, and what has been sent has come
    out of it. *)
Definition pool_inv (total : Z) (s : tx_state W) : Prop :=
  exists c, channel (memory_manager (tx_ib s)) = Some c /\ fresh_pool (tx_heap s) c /\
    tx_sent s + zlen (free_chunks c) <= total.

Lemma fresh_pool_present h c : fresh_pool h c -> Forall (present h) (free_chunks c).
Proof.
  intros (_ & _ & Hf). eapply Forall_impl; [exact Hf|]. intros p (ck & Hck & Hwf & _). exists ck. auto.
Qed.

(** Taking chunks out and writing them leaves a fresh pool. *)
Lemma fresh_pool_shrinks h h' c pool tx :
  fresh_pool h c -> pool ++ rev tx = free_chunks c ->
  (forall p, p ∉ tx -> chunks h' !! p = chunks h !! p) ->
  fresh_pool h' (c{{free_chunks := pool}}).
Proof.
  intros (Hsz & Hnd & Hf) Happ Hsame. rewrite <- Happ in Hnd, Hf.
  apply NoDup_app in Hnd as (Hnd & Hdisj & _). apply Forall_app in Hf as [Hf _].
  split; [exact Hsz|]. split; [exact Hnd|].
  change (free_chunks (c{{free_chunks := pool}})) with pool.
  change (chunk_size (c{{free_chunks := pool}})) with (chunk_size c).
  rewrite Forall_forall in *. intros p Hp. destruct (Hf p Hp) as (ck & Hck & Hrest).
  exists ck. rewrite Hsame; [auto|]. intros Hin. apply (Hdisj p Hp).
  apply list_elem_of_In, in_rev. rewrite rev_involutive. apply list_elem_of_In, Hin.
Qed.

Lemma send_pool ib h s bl st rc h' ib' bl' st' q c :
  channel (memory_manager ib) = Some c -> fresh_pool h c -> qp_qp (cs_qp s) = Some q ->
  zlen (concat bl) < 2 ^ 32 - 1 -> send ib h s bl st = (Ret (rc, h', ib', bl'), st') ->
  exists c', channel (memory_manager ib') = Some c' /\ fresh_pool h' c' /\
    (if zlen (concat bl) =? 0 then 0 else 1) + zlen (free_chunks c') <= zlen (free_chunks c).
Proof.
  intros Hc Hpool Hq Hmax Hs. pose proof (zlen_nonneg (concat bl)) as Hnn.
  destruct (Z.eqb_spec (zlen (concat bl)) 0) as [Ez|Enz].
  - assert (Hbl : concat bl = []) by (apply length_zero_iff_nil; unfold zlen in Ez; lia).
    destruct (free_chunks c) as [|p ps] eqn:Efree.
    + exfalso. unfold send, get_tx_buffers, get_channel_buffers in Hs. rewrite Hc, Hbl in Hs.
      cbn [mbind option_bind] in Hs. change (zlen (@nil Z)) with 0 in Hs. unfold get_buffers in Hs.
      cbn [Z.eqb mbind option_bind] in Hs. rewrite Efree in Hs.
      assert (E : copy_buffers h [] bl = Some (h, [])).
      { clear -Hbl. induction bl as [|b bl IH]; [reflexivity|]. cbn [concat] in Hbl.
        apply app_nil in Hbl as [-> Hbl]. cbn [copy_buffers]. cbn. apply IH, Hbl. }
      unfold bind in Hs. cbn [deref ret] in Hs. rewrite E in Hs. cbn in Hs. rewrite Hq in Hs.
      discriminate Hs.
    + pose proof (send_empty_run ib h s bl st c q Hc (fresh_pool_present h c Hpool)
        ltac:(congruence) Hq Hbl) as Hr.
      unfold returns in Hr. rewrite Hs in Hr. destruct Hr as (wrs & r & _ & _ & (x & Ex & Hx) & Eh).
      cbn [fst snd] in Ex, Eh. subst ib' h'. exists c. split; [exact Hx|]. split; [exact Hpool|].
      rewrite Efree. lia.
  - destruct (Z.le_gt_cases (zlen (concat bl)) (zlen (free_chunks c) * chunk_size c)) as [Hfit|Hbig].
    + pose proof (send_run ib h s bl st c q Hc Hpool Hq ltac:(lia) Hfit) as Hr.
      unfold returns in Hr. rewrite Hs in Hr.
      destruct Hr as (h2 & ib2 & tx & pool & wrs & parts & r & Happ & Hceil & Hch & _ & _ & _ & _ & _ & Hsame & E).
      assert (Eh : h2 = h' /\ ib2 = ib') by (destruct (r =? 0); inversion E; auto).
      destruct Eh as [-> ->]. eexists. split; [exact Hch|].
      split; [eapply fresh_pool_shrinks; eassumption|].
      change (free_chunks (c{{free_chunks := pool}})) with pool. rewrite <- Happ.
      destruct tx as [|p tx].
      * exfalso. change (zlen (@nil Z)) with 0 in Hceil. lia.
      * unfold zlen. rewrite length_app, length_rev. cbn [length]. lia.
    + exfalso. pose proof (send_exhausted_run ib h s bl st c Hc ltac:(apply Hpool) ltac:(lia) Hbig) as Hu.
      rewrite Hs in Hu. discriminate Hu.
Qed.

Lemma return_wcs_channel n cs : forall mm (s : St W),
  if_returns (return_wcs n cs mm) s (fun mm' _ => channel mm' = channel mm).
Proof.
  revert cs. induction n as [|n IH]; intros cs mm s; cbn [return_wcs]; [reflexivity|].
  unfold return_wc, return_channel. exec.
  eapply if_returns_conseq; [apply IH|]. intros mm' s' E. rewrite E.
  match goal with Hx : (_ ≫= _) = Some _ |- _ =>
    destruct (MemoryManager.send mm); [injection Hx as <-; reflexivity|discriminate Hx] end.
Qed.

Lemma tx_drain_channel fuel cq : forall rearmed mm s,
  if_returns (tx_drain fuel rearmed cq mm) s (fun mm' _ => channel mm' = channel mm).
Proof.
  induction fuel as [|fuel IH]; intros rearmed mm s; [exact I|]. cbn [tx_drain]. unfold poll_cq, rearm_notify.
  exec; (eapply if_returns_conseq; [apply return_wcs_channel|]); intros mm1 s1 E1; exec; auto;
    (eapply if_returns_conseq; [apply IH|]); intros mm2 s2 E2; cbn beta in E2; congruence.
Qed.

Lemma handle_tx_event_channel fuel mm w s :
  if_returns (handle_tx_event fuel mm w) s (fun r _ => channel (fst r) = channel mm).
Proof.
  unfold handle_tx_event. apply if_returns_bind, if_returns_deref. intros cc _.
  unfold get_cq_event. exec; try reflexivity;
    (eapply if_returns_conseq; [apply tx_drain_channel|]); intros mm1 s1 E1; apply if_returns_ret; exact E1.
Qed.

Lemma tx_step_inv total s s' : tx_step s s' -> pool_inv total s -> pool_inv total s'.
Proof.
  intros Hstep (c & Hc & Hpool & Hn).
  destruct Hstep as [st h ib n s bl rc h' ib' bl' st' q Hq Hmax Hs
                    |st h ib n fuel w mm w' st' Hev|st st' h ib n]; cbn [tx_ib tx_heap tx_sent] in *.
  - destruct (send_pool ib h s bl st rc h' ib' bl' st' q c Hc Hpool Hq Hmax Hs) as (c' & Hc' & Hp' & Hl).
    exists c'. cbn [tx_ib tx_heap tx_sent]. split; [exact Hc'|]. split; [exact Hp'|].
    destruct (zlen (concat bl) =? 0); lia.
  - pose proof (if_returns_elim _ _ _ _ _ (handle_tx_event_channel fuel (memory_manager ib) w st) Hev) as E.
    cbn [fst] in E. exists c. cbn [tx_ib tx_heap tx_sent]. split; [|auto].
    change (memory_manager (ib{{memory_manager := mm}})) with mm. congruence.
  - exists c. auto.
Qed.

(** ** Properties *)

(** The pool of an adapter stays well formed and is only drained: in every
    state reachable, by sends of any messages and handled completions in any
    order, from one whose receive pool is fresh, that pool is still a pool of
    distinct fresh chunks - so the next [send] that fits finds what it needs -
    but the messages sent and the chunks left never exceed the chunks there were
    at the start: completions do not refill the pool, and no more than that many
    non-empty messages are ever sent. *)
Theorem tx_reachable_pool s0 s c :
  channel (memory_manager (tx_ib s0)) = Some c -> fresh_pool (tx_heap s0) c -> tx_sent s0 = 0 ->
  tx_steps s0 s ->
  exists c', channel (memory_manager (tx_ib s)) = Some c' /\ fresh_pool (tx_heap s) c' /\
    tx_sent s + zlen (free_chunks c') <= zlen (free_chunks c) /\ tx_sent s <= zlen (free_chunks c).
Proof.
  intros Hc Hpool Hn Hrun.
  assert (Hinv : pool_inv (zlen (free_chunks c)) s).
  { assert (H0 : pool_inv (zlen (free_chunks c)) s0) by (exists c; rewrite Hn; split; [exact Hc|]; split; [exact Hpool|lia]).
    clear Hc Hpool Hn. induction Hrun as [|x y z Hxy _ IH]; [exact H0|]. eauto using tx_step_inv. }
  destruct Hinv as (c' & Hc' & Hp' & Hl). exists c'. pose proof (zlen_nonneg (free_chunks c')).
  split; [exact Hc'|]. split; [exact Hp'|]. split; lia.
Qed.
End TxLifetime.

(** ** Witness: one message through the sample adapter. *)

Definition sent_once := Eval vm_compute in
  send (H := all_succeed) sample_ib sample_heap sample_socket [[1; 2; 3]] Mock.start.

Definition after_send : tx_state nat :=
  match sent_once with
  | (Ret (_, h, ib, _), s) => Build_tx_state s h ib 1
  | (_, s) => Build_tx_state s sample_heap sample_ib 0
  end.

Example tx_reachable_pool_witness :
  exists c', channel (memory_manager (tx_ib after_send)) = Some c' /\ 1 + zlen (free_chunks c') <= 3.
Proof.
  destruct (tx_reachable_pool (H := all_succeed) (Build_tx_state Mock.start sample_heap sample_ib 0)
    after_send sample_pool eq_refl sample_pool_fresh eq_refl) as (c' & Hc & _ & Hl & _).
  - eapply Relation_Operators.rt1n_trans; [|apply Relation_Operators.rt1n_refl].
    apply (tx_send Mock.start sample_heap sample_ib 0 sample_socket [[1; 2; 3]] 3 _ _ [] _ sample_qp);
      vm_compute; reflexivity.
  - exists c'. split; [exact Hc|exact Hl].
Defined.
