(* ===== verification/Workers.v ===== *)
(** The threads of the rdma/ stack: [spawn_workers] starts the event loops of the
    workers, which send and handle completions on one adapter without a lock, and
    [join_workers] waits for them. Operations of different threads interleave:
    what the interleaving of whole operations guarantees is the first theorem; that
    the program does not have even that, shown on the statements of [get_buffers],
    the second. *)
From Stdlib Require Import String.
From coqutil Require Import Datatypes.RecordSetters.
From S2P Require Import Prelude Gid Verbs Mock SynMsg MemoryManager Infiniband.
From S2P Require Import ConnectedSocket SocketRead ResourceManager Adapter RdmaStack TxLifetime.
From stdpp Require Import gmap.
Open Scope Z_scope.
Import DoubleBraceUpdate.

(** What a worker's event loop does: the hook [initialize], a [send] on one of
    its sockets, the callback of its transmit queue. *)
Inductive op :=
  | Initialize
  | Send (s : RDMAConnectedSocketImpl) (bl : list (list Z))
  | HandleTx.

(** A thread: its worker object, and the operations its loop has ahead. *)
Record worker_thread := { t_worker : RDMAWorker; t_todo : list op }.

(** The program: the chunks, and the stack with its adapter and its threads. *)
Record system (W : Type) := Sys {
  sys_st : St W; sys_heap : heap; sys_stack : RDMAStack worker_thread }.
Arguments Sys {_}.
Arguments sys_st {_}.
Arguments sys_heap {_}.
Arguments sys_stack {_}.

(** The free list of the pool [send] takes from. *)
Definition free_list (ib : Infiniband) : list Z :=
  match channel (memory_manager ib) with Some c => free_chunks c | None => [] end.

(** An entry of the history of a run; the entry of an operation names its thread. *)
Inductive entry :=
  | Spawned (n : nat)
  | Ran (i : nat) (o : op)
  | Joined.

Section Workers.
Context {W : Type} `{Env W} (chan_fd : Z -> Z) (fuel : nat).

(** C++'s [do_request], [send] and [initialize] on behalf of a worker. *)
Definition exec_op (o : op) (w : RDMAWorker) (h : heap) (ib : Infiniband)
  : M (St W) (RDMAWorker * heap * Infiniband) :=
  match o with
  | Initialize => let* w := initialize chan_fd ib w in ret (w, h, ib)
  | Send s bl =>
      let* (r, _) := send ib h s bl in
      let '(_, h, ib) := r in ret (w, h, ib)
  | HandleTx =>
      let* (mm, w) := handle_tx_event fuel (memory_manager ib) w in
      ret (w, h, ib{{memory_manager := mm}})
  end.

(** Sends are of messages, on sockets with a queue pair. *)
Definition op_ok (o : op) : Prop :=
  match o with
  | Send s bl => is_Some (qp_qp (cs_qp s)) /\ 0 < zlen (concat bl) < 2 ^ 32 - 1
  | _ => True
  end.

Definition set_threads (s : RDMAStack worker_thread) (ib : Infiniband) (ts : list worker_thread)
  : RDMAStack worker_thread :=
  {| coreids := coreids s; st_ib := ib; threads := ts |}.

(** One step: the main thread spawns or joins, or one thread does its next
    operation on the shared adapter. *)
Inductive sys_step : system W -> entry -> system W -> Prop :=
  | sys_spawn st h s funcs :
      sys_step (Sys st h s) (Spawned (length funcs)) (Sys st h (spawn_workers s funcs))
  | sys_run st h s i w o rest w' h' ib' st' :
      threads s !! i = Some {| t_worker := w; t_todo := o :: rest |} -> op_ok o ->
      exec_op o w h (st_ib s) st = (Ret (w', h', ib'), st') ->
      sys_step (Sys st h s) (Ran i o)
        (Sys st' h' (set_threads s ib' (<[i := {| t_worker := w'; t_todo := rest |}]> (threads s))))
  | sys_join st h s :
      Forall (fun t => t_todo t = []) (threads s) ->
      sys_step (Sys st h s) Joined (Sys st h (join_workers s)).

Inductive sys_steps : system W -> list entry -> system W -> Prop :=
  | sys_none a : sys_steps a [] a
  | sys_more a l b ls c : sys_step a l b -> sys_steps b ls c -> sys_steps a (l :: ls) c.

(** ** What is handed to the adapter *)

(** The chunks of all send requests handed to the adapter, whatever it answered,
    oldest first. *)
Fixpoint sent_ids (tr : list event) : list Z :=
  match tr with
  | [] => []
  | Ev (ibv_post_send _ wrs) _ :: tr' => sent_ids tr' ++ map sw_id wrs
  | _ :: tr' => sent_ids tr'
  end.

Definition posts_nothing (st st' : St W) : Prop := sent_ids (trace st') = sent_ids (trace st).

Lemma initialize_posts_nothing ib w st :
  if_returns (initialize chan_fd ib w) st (fun _ st' => posts_nothing st st').
Proof.
  unfold initialize, create_comp_channel, channel_init, set_nonblocking, channel_delete,
    create_comp_queue, cq_init, cq_delete, posts_nothing. exec; reflexivity.
Qed.

Lemma return_wcs_posts_nothing n cs : forall mm st,
  if_returns (return_wcs n cs mm) st (fun _ st' => posts_nothing st st').
Proof.
  revert cs. induction n as [|n IH]; intros cs mm st; cbn [return_wcs]; [reflexivity|].
  unfold return_wc. exec. eapply if_returns_conseq; [apply IH|]. auto.
Qed.

Lemma tx_drain_posts_nothing n cq : forall rearmed mm st,
  if_returns (tx_drain n rearmed cq mm) st (fun _ st' => posts_nothing st st').
Proof.
  induction n as [|n IH]; intros rearmed mm st; [exact I|]. cbn [tx_drain]. unfold poll_cq, rearm_notify.
  exec; (eapply if_returns_conseq; [apply return_wcs_posts_nothing|]); intros mm1 s1 E1; unfold posts_nothing in *; exec; auto;
    (eapply if_returns_conseq; [apply IH|]); intros mm2 s2 E2; unfold posts_nothing in *; cbn in *; congruence.
Qed.

Lemma handle_tx_event_posts_nothing mm w st :
  if_returns (handle_tx_event fuel mm w) st (fun _ st' => posts_nothing st st').
Proof.
  unfold handle_tx_event. apply if_returns_bind, if_returns_deref. intros cc _.
  unfold get_cq_event. exec; try reflexivity;
    (eapply if_returns_conseq; [apply tx_drain_posts_nothing|]); intros mm1 s1 E1; apply if_returns_ret; exact E1.
Qed.

(** ** The invariant: every chunk of the pool is free or has been handed out once *)

Lemma exec_op_inv o w h ib st w' h' ib' st' c :
  exec_op o w h ib st = (Ret (w', h', ib'), st') -> op_ok o ->
  channel (memory_manager ib) = Some c -> fresh_pool h c ->
  exists c', channel (memory_manager ib') = Some c' /\ fresh_pool h' c' /\
    sent_ids (trace st') ++ free_chunks c' ≡ₚ sent_ids (trace st) ++ free_chunks c.
Proof.
  intros Hrun Hok Hc Hpool. destruct o as [|s bl|]; cbn [exec_op op_ok] in *.
  - apply bind_Ret_inv in Hrun as (w2 & st2 & Hini & Hrun). apply ret_Ret_inv in Hrun as [E <-].
    injection E as -> <- <-.
    pose proof (if_returns_elim _ _ _ _ _ (initialize_posts_nothing ib w st) Hini) as E.
    exists c. split; [exact Hc|]. split; [exact Hpool|]. rewrite E. reflexivity.
  - destruct Hok as [[q Hq] Hn]. apply bind_Ret_inv in Hrun as ([[[n h2] ib2] bl2] & st2 & Hs & Hrun).
    apply ret_Ret_inv in Hrun as [E <-]. injection E as -> -> ->.
    destruct (Z.le_gt_cases (zlen (concat bl)) (zlen (free_chunks c) * chunk_size c)) as [Hfit|Hbig].
    + pose proof (send_run ib h s bl st c q Hc Hpool Hq Hn Hfit) as Hr. unfold returns in Hr.
      rewrite Hs in Hr. destruct Hr as (h3 & ib3 & tx & pool & wrs & parts & rc & Happ & Hceil & Hch & Ht
        & Hids & _ & _ & _ & Hsame & E).
      assert (Eh : h' = h3 /\ ib' = ib3) by (destruct (rc =? 0); inversion E; auto). destruct Eh as [-> ->].
      exists (c{{free_chunks := pool}}). split; [exact Hch|].
      split; [eapply fresh_pool_shrinks; eassumption|]. change (free_chunks (c{{free_chunks := pool}})) with pool.
      rewrite <- Happ, Ht. cbn [sent_ids trace]. rewrite Hids.
      rewrite <- app_assoc, <- (Permutation_app_comm (rev tx)), <- Permutation_rev. reflexivity.
    + pose proof (send_exhausted_run ib h s bl st c Hc ltac:(apply Hpool) Hn Hbig) as Hu.
      rewrite Hs in Hu. discriminate Hu.
  - apply bind_Ret_inv in Hrun as ([mm w2] & st2 & Hev & Hrun). apply ret_Ret_inv in Hrun as [E <-].
    assert (Emm : memory_manager ib' = mm) by (injection E as _ _ <-; reflexivity).
    assert (Eh : h' = h) by (injection E as _ <- _; reflexivity). rewrite Emm, Eh.
    pose proof (if_returns_elim _ _ _ _ _ (handle_tx_event_posts_nothing (memory_manager ib) w st) Hev) as Et.
    pose proof (if_returns_elim _ _ _ _ _ (handle_tx_event_channel fuel (memory_manager ib) w st) Hev) as Ec.
    cbn [fst] in Ec. exists c. rewrite Et, Ec. split; [exact Hc|]. split; [exact Hpool|reflexivity].
Qed.

Definition sys_inv (all : list Z) (a : system W) : Prop :=
  exists c, channel (memory_manager (st_ib (sys_stack a))) = Some c /\ fresh_pool (sys_heap a) c /\
    sent_ids (trace (sys_st a)) ++ free_chunks c ≡ₚ all.

Lemma sys_step_inv all a l b : sys_step a l b -> sys_inv all a -> sys_inv all b.
Proof.
  intros Hstep (c & Hc & Hpool & Hall).
  destruct Hstep as [st h s funcs|st h s i w o rest w' h' ib' st' Ht Hok Hrun|st h s Hend];
    cbn [sys_st sys_heap sys_stack] in *; [exists c; auto| |exists c; auto].
  destruct (exec_op_inv o w h (st_ib s) st w' h' ib' st' c Hrun Hok Hc Hpool) as (c' & Hc' & Hp' & Hperm).
  exists c'. split; [exact Hc'|]. split; [exact Hp'|]. rewrite <- Hall. exact Hperm.
Qed.

Lemma sys_steps_inv all a ls b : sys_steps a ls b -> sys_inv all a -> sys_inv all b.
Proof. induction 1; eauto using sys_step_inv. Qed.
End Workers.

(** ** Below whole operations: [get_buffers], statement by statement

    The workers call [get_buffers] on one cluster without a lock. Here its accesses
    to [free_chunks] are steps of their own, each taken to be atomic and seen by all
    threads at once, which is more than C++ promises for a [vector]. *)

(** Where a call is: about to enter, at the condition of the loop with [ret], after
    [ret.push_back(free_chunks.back())], returned. *)
Inductive getting :=
  | Enter (nbytes : Z)
  | Loop (num : Z) (ret : list Z)
  | Pushed (num : Z) (ret : list Z)
  | Got (ret : list Z).

(** One step; [back] and [pop_back] of an empty vector are undefined ([None]). *)
Definition get_step (c : Cluster) (g : getting) : option (Cluster * getting) :=
  match g with
  | Enter nbytes =>
      if nbytes =? 0 then Some (c, Got (free_chunks c))
      else if chunk_size c =? 0 then None
      else if zlen (free_chunks c) <? chunk_count c nbytes then Some (c, Got [])
      else Some (c, Loop (chunk_count c nbytes) [])
  | Loop num ret =>
      if zlen ret =? num then Some (c, Got ret)
      else p ← last (free_chunks c); Some (c, Pushed num (ret ++ [p]))
  | Pushed num ret =>
      match free_chunks c with
      | [] => None
      | _ => Some (c{{free_chunks := removelast (free_chunks c)}}, Loop num ret)
      end
  | Got ret => Some (c, g)
  end.

(** Threads that each run one call, in the order of a schedule. *)
Fixpoint run_getting (sched : list nat) (c : Cluster) (ts : list getting) : option (Cluster * list getting) :=
  match sched with
  | [] => Some (c, ts)
  | i :: sched' =>
      g ← ts !! i;
      '(c, g) ← get_step c g;
      run_getting sched' c (<[i := g]> ts)
  end.

Lemma run_getting_app s1 s2 c ts :
  run_getting (s1 ++ s2) c ts = '(c, ts) ← run_getting s1 c ts; run_getting s2 c ts.
Proof.
  revert c ts. induction s1 as [|i s1 IH]; intros c ts; [reflexivity|]. cbn [app run_getting].
  destruct (ts !! i) as [g|]; [|reflexivity]. cbn [mbind option_bind].
  destruct (get_step c g) as [[c' g']|]; [|reflexivity]. cbn [mbind option_bind]. apply IH.
Qed.

Lemma with_pool_twice (c : Cluster) l1 l2 :
  (c{{free_chunks := l1}}){{free_chunks := l2}} = c{{free_chunks := l2}}.
Proof. destruct c. reflexivity. Qed.

Lemma with_own_pool (c : Cluster) : c{{free_chunks := free_chunks c}} = c.
Proof. destruct c. reflexivity. Qed.

Lemma get_step_back c l x num ret :
  free_chunks c = l ++ [x] -> zlen ret < num ->
  get_step c (Loop num ret) = Some (c, Pushed num (ret ++ [x])).
Proof.
  intros Ec Hn. cbn [get_step]. destruct (Z.eqb_spec (zlen ret) num); [lia|].
  rewrite Ec, last_snoc. reflexivity.
Qed.

Lemma get_step_pop c l x num ret :
  free_chunks c = l ++ [x] ->
  get_step c (Pushed num ret) = Some (c{{free_chunks := l}}, Loop num ret).
Proof.
  intros Ec. cbn [get_step]. rewrite Ec, removelast_last. destruct l; reflexivity.
Qed.

(** One turn of two threads in step: both read the same [back], then both pop. *)
Lemma round_together c l x y num ret :
  free_chunks c = (l ++ [x]) ++ [y] -> zlen ret < num ->
  run_getting [0; 1; 0; 1]%nat c [Loop num ret; Loop num ret] =
    Some (c{{free_chunks := l}}, [Loop num (ret ++ [y]); Loop num (ret ++ [y])]).
Proof.
  intros Ec Hn. cbn [run_getting lookup list_lookup mbind option_bind insert list_insert].
  rewrite (get_step_back c _ y num ret Ec Hn). cbn [mbind option_bind lookup list_lookup insert list_insert].
  rewrite (get_step_back c _ y num ret Ec Hn). cbn [mbind option_bind lookup list_lookup insert list_insert].
  rewrite (get_step_pop c _ y num _ Ec). cbn [mbind option_bind lookup list_lookup insert list_insert].
  rewrite (get_step_pop _ l x) by reflexivity. cbn [mbind option_bind].
  rewrite with_pool_twice. reflexivity.
Qed.

(** [k] turns of thread [i] alone are [k] turns of [get_buffers]'s own loop. *)
Lemma turns_alone i num k : forall ret c ts ret' pool',
  ts !! i = Some (Loop num ret) -> zlen ret + Z.of_nat k <= num ->
  pop_loop k (free_chunks c) ret = Some (ret', pool') ->
  run_getting (replicate (k + k) i) c ts =
    Some (c{{free_chunks := pool'}}, <[i := Loop num ret']> ts) /\ zlen ret' = zlen ret + Z.of_nat k.
Proof.
  induction k as [|k IH]; intros ret c ts ret' pool' Hi Hn Hp; cbn [pop_loop] in Hp.
  - injection Hp as <- <-. rewrite with_own_pool, list_insert_id by exact Hi. split; [reflexivity|lia].
  - destruct (last (free_chunks c)) as [p|] eqn:Ep; [|discriminate Hp]. cbn [mbind option_bind] in Hp.
    replace (S k + S k)%nat with (S (S (k + k))) by lia. cbn [replicate run_getting]. rewrite Hi.
    cbn [mbind option_bind get_step]. destruct (Z.eqb_spec (zlen ret) num); [lia|]. rewrite Ep.
    cbn [mbind option_bind]. assert (Hl : (i < length ts)%nat) by (apply lookup_lt_is_Some; eauto).
    rewrite list_lookup_insert_eq by exact Hl. cbn [mbind option_bind get_step].
    destruct (free_chunks c) as [|x xs] eqn:Ec; [discriminate Ep|]. cbn [mbind option_bind].
    rewrite list_insert_insert_eq.
    destruct (IH (ret ++ [p]) (c{{free_chunks := removelast (x :: xs)}}) (<[i := Loop num (ret ++ [p])]> ts) ret' pool')
      as [E Hz]; [apply list_lookup_insert_eq, Hl|rewrite zlen_app, zlen_cons, zlen_nil; lia|exact Hp|].
    rewrite E, with_pool_twice, list_insert_insert_eq. split; [reflexivity|].
    rewrite Hz, zlen_app, zlen_cons, zlen_nil. lia.
Qed.

(** [k] turns of two threads in step take [2 k] chunks out, and give both of them
    the same [k]. *)
Lemma turns_together num k : forall ret c,
  zlen ret + Z.of_nat k <= num -> (k + k <= length (free_chunks c))%nat ->
  exists ret' pool', run_getting (concat (replicate k [0; 1; 0; 1]%nat)) c [Loop num ret; Loop num ret] =
      Some (c{{free_chunks := pool'}}, [Loop num ret'; Loop num ret']) /\
    zlen ret' = zlen ret + Z.of_nat k /\ zlen pool' + 2 * Z.of_nat k = zlen (free_chunks c).
Proof.
  induction k as [|k IH]; intros ret c Hn Hk.
  - exists ret, (free_chunks c). rewrite with_own_pool. split; [reflexivity|lia].
  - destruct (free_chunks c) as [|y pool _] eqn:Ec using rev_ind; [cbn in Hk; lia|].
    destruct pool as [|x pool _] using rev_ind; [cbn in Hk; lia|].
    rewrite !length_app in Hk. cbn [length] in Hk.
    destruct (IH (ret ++ [y]) (c{{free_chunks := pool}})) as (ret' & pool' & E & Hr & Hp);
      [rewrite zlen_app, zlen_cons, zlen_nil; lia|change (k + k <= length pool)%nat; lia|].
    change (free_chunks (c{{free_chunks := pool}})) with pool in Hp.
    exists ret', pool'. split.
    + cbn [replicate concat]. rewrite run_getting_app.
      rewrite (round_together c pool x y num ret Ec) by lia. cbn [mbind option_bind].
      exact E.
    + autorewrite with zlen in *. lia.
Qed.

(** ** Properties *)

(** A call entered with a large enough pool, and left with enough chunks. *)
Lemma enter_ok c nbytes :
  0 < nbytes -> 0 < chunk_size c -> chunk_count c nbytes <= zlen (free_chunks c) ->
  get_step c (Enter nbytes) = Some (c, Loop (chunk_count c nbytes) []).
Proof.
  intros Hn Hc Hl. cbn [get_step]. destruct (Z.eqb_spec nbytes 0); [lia|].
  destruct (Z.eqb_spec (chunk_size c) 0); [lia|].
  destruct (Z.ltb_spec (zlen (free_chunks c)) (chunk_count c nbytes)); [lia|reflexivity].
Qed.

Lemma leave_ok c num ret : zlen ret = num -> get_step c (Loop num ret) = Some (c, Got ret).
Proof. intros E. cbn [get_step]. rewrite E, Z.eqb_refl. reflexivity. Qed.

Lemma alone_run c nbytes ret c' :
  0 < chunk_size c -> 0 < nbytes -> 0 < chunk_count c nbytes -> get_buffers c nbytes = Some (ret, c') ->
  exists k, run_getting (replicate k 0%nat) c [Enter nbytes] = Some (c', [Got ret]).
Proof.
  intros Hc Hn Hpos Hg. unfold get_buffers in Hg.
  destruct (Z.eqb_spec nbytes 0); [lia|]. destruct (Z.eqb_spec (chunk_size c) 0); [lia|].
  destruct (Z.ltb_spec (zlen (free_chunks c)) (chunk_count c nbytes)) as [Hl|Hl].
  - injection Hg as <- <-. exists 1%nat. cbn [replicate run_getting lookup list_lookup mbind option_bind get_step].
    destruct (Z.eqb_spec nbytes 0); [lia|]. destruct (Z.eqb_spec (chunk_size c) 0); [lia|].
    destruct (Z.ltb_spec (zlen (free_chunks c)) (chunk_count c nbytes)); [reflexivity|lia].
  - destruct (pop_loop _ _ _) as [[r pool]|] eqn:Ep; [|discriminate Hg]. cbn [mbind option_bind] in Hg.
    injection Hg as -> <-. set (k := Z.to_nat (chunk_count c nbytes)) in *.
    destruct (turns_alone 0 (chunk_count c nbytes) k [] c [Loop (chunk_count c nbytes) []] ret pool)
      as [E Hz]; [reflexivity|rewrite zlen_nil; lia|exact Ep|]. rewrite zlen_nil in Hz.
    exists (1 + ((k + k) + 1))%nat. rewrite (replicate_add 1), (replicate_add (k + k)).
    rewrite run_getting_app. cbn [replicate run_getting lookup list_lookup mbind option_bind].
    rewrite enter_ok by lia. cbn [mbind option_bind insert list_insert].
    rewrite run_getting_app, E.
    cbn [replicate run_getting lookup list_lookup mbind option_bind insert list_insert].
    rewrite leave_ok by lia. reflexivity.
Qed.

(** Two calls that both have passed the check of the size. *)
Lemma both_enter c nbytes sched :
  0 < chunk_size c -> 0 < nbytes -> chunk_count c nbytes <= zlen (free_chunks c) ->
  run_getting ([0; 1]%nat ++ sched) c [Enter nbytes; Enter nbytes] =
    run_getting sched c [Loop (chunk_count c nbytes) []; Loop (chunk_count c nbytes) []].
Proof.
  intros Hc Hn Hl. rewrite run_getting_app. cbn [run_getting lookup list_lookup mbind option_bind].
  rewrite enter_ok by lia. cbn [mbind option_bind insert list_insert lookup list_lookup].
  rewrite enter_ok by lia. reflexivity.
Qed.

Lemma together_run c nbytes :
  0 < chunk_size c -> 0 < nbytes -> 0 < chunk_count c nbytes ->
  2 * chunk_count c nbytes <= zlen (free_chunks c) ->
  exists sched c' ret, run_getting sched c [Enter nbytes; Enter nbytes] = Some (c', [Got ret; Got ret]) /\
    zlen ret = chunk_count c nbytes /\
    zlen (free_chunks c') = zlen (free_chunks c) - 2 * chunk_count c nbytes.
Proof.
  intros Hc Hn Hpos Hl. set (n := chunk_count c nbytes) in *. set (k := Z.to_nat n).
  destruct (turns_together n k [] c) as (ret & pool & E & Hr & Hp);
    [rewrite zlen_nil; lia|unfold zlen in Hl; lia|]. rewrite zlen_nil in Hr.
  exists ([0; 1]%nat ++ concat (replicate k [0; 1; 0; 1]%nat) ++ [0; 1]%nat), (c{{free_chunks := pool}}), ret.
  rewrite both_enter by (fold n; lia). fold n. rewrite run_getting_app, E. split.
  - cbn [run_getting lookup list_lookup mbind option_bind].
    rewrite leave_ok by lia. cbn [mbind option_bind insert list_insert lookup list_lookup].
    rewrite leave_ok by lia. reflexivity.
  - change (free_chunks (c{{free_chunks := pool}})) with pool. lia.
Qed.

Lemma exhausted_run c nbytes :
  0 < chunk_size c -> 0 < nbytes -> 0 < chunk_count c nbytes ->
  chunk_count c nbytes <= zlen (free_chunks c) < 2 * chunk_count c nbytes ->
  exists sched, run_getting sched c [Enter nbytes; Enter nbytes] = None.
Proof.
  intros Hc Hn Hpos Hl. set (n := chunk_count c nbytes) in *. set (k := Z.to_nat n).
  destruct (pop_loop_spec k (free_chunks c) []) as (rest & Ep & _ & Hk); [unfold zlen in Hl; lia|].
  set (pool := take (length (free_chunks c) - k) (free_chunks c)) in *. set (m := length pool).
  assert (Hm : Z.of_nat m = zlen (free_chunks c) - n)
    by (unfold m, pool, zlen; rewrite length_take; unfold zlen in Hl; lia).
  destruct (turns_alone 0 n k [] c [Loop n []; Loop n []] _ _ eq_refl ltac:(rewrite zlen_nil; lia) Ep) as [E1 _].
  destruct (pop_loop_spec m pool []) as (rest2 & Ep2 & _ & Hm2); [lia|].
  rewrite Nat.sub_diag in Ep2. cbn [app take] in *.
  destruct (turns_alone 1 n m [] (c{{free_chunks := pool}}) [Loop n rest; Loop n []] rest2 [] eq_refl)
    as [E2 Hz]; [rewrite zlen_nil; lia|exact Ep2|]. rewrite zlen_nil in Hz.
  exists ([0; 1]%nat ++ replicate (k + k) 0%nat ++ replicate (m + m) 1%nat ++ [1]%nat).
  rewrite both_enter by (fold n; lia). fold n. rewrite run_getting_app, E1.
  cbn [mbind option_bind insert list_insert]. rewrite run_getting_app, E2.
  cbn [mbind option_bind run_getting insert list_insert lookup list_lookup get_step].
  destruct (Z.eqb_spec (zlen rest2) n); [lia|]. reflexivity.
Qed.


(** The system of a stack whose pool is fresh, nothing posted yet. *)
Definition at_rest {W} (a : system W) : Prop :=
  exists c, channel (memory_manager (st_ib (sys_stack a))) = Some c /\ fresh_pool (sys_heap a) c /\
    sent_ids (trace (sys_st a)) = [].

Lemma at_rest_inv {W} (a : system W) :
  at_rest a -> sys_inv (free_list (st_ib (sys_stack a))) a.
Proof.
  intros (c & Hc & Hpool & Hs). exists c. unfold free_list. rewrite Hc, Hs. cbn [app].
  split; [reflexivity|]. split; [exact Hpool|reflexivity].
Qed.

(** C8 Workers that take turns share the pool correctly: from a stack at rest, with
    any number of threads spawned and joined, each with any list of
    initialisations, sends of non-empty messages and completions to handle, and
    any interleaving of whole operations that return, every chunk of the pool is at
    any time either free or has been handed to the adapter in the chain of an
    [ibv_post_send], accepted or refused, exactly once - no chunk is ever given to
    two messages - and the free ones are still distinct and fresh. (A send of an
    empty message is not among the operations: it posts the whole pool and leaves
    it free.) *)
Theorem workers_share_pool {W} `{Env W} chan_fd fuel (a b : system W) hist :
  at_rest a -> sys_steps chan_fd fuel a hist b ->
  exists c, channel (memory_manager (st_ib (sys_stack b))) = Some c /\ fresh_pool (sys_heap b) c /\
    NoDup (sent_ids (trace (sys_st b)) ++ free_chunks c) /\
    sent_ids (trace (sys_st b)) ++ free_chunks c ≡ₚ free_list (st_ib (sys_stack a)).
Proof.
  intros Ha Hrun. destruct (sys_steps_inv chan_fd fuel _ _ _ _ Hrun (at_rest_inv a Ha)) as (c & Hc & Hp & Hall).
  exists c. split; [exact Hc|]. split; [exact Hp|]. split; [|exact Hall]. rewrite Hall.
  destruct Ha as (c0 & Hc0 & (_ & Hnd & _) & _). unfold free_list. rewrite Hc0. exact Hnd.
Qed.

(** ** A new adapter is at rest *)

Section NewAdapter.
Context {W : Type} `{Env W} (async_fd : Z -> Z).

Lemma add_loop_posts_nothing fuel pd base nbytes mem : forall off h c st,
  if_returns (add_loop fuel pd base nbytes off mem h c) st (fun _ st' => posts_nothing st st').
Proof.
  induction fuel as [|fuel IH]; intros off h c st; cbn [add_loop]; [exact I|]. exec; try reflexivity.
  eapply if_returns_conseq; [apply IH|]. auto.
Qed.

Lemma add_posts_nothing fuel pd num mem h c st :
  if_returns (add fuel pd num mem h c) st (fun _ st' => posts_nothing st st').
Proof.
  unfold add. apply if_returns_bind, if_returns_sys. intros base w _.
  apply if_returns_bind, if_returns_c_assert. intros _.
  eapply if_returns_conseq; [apply add_loop_posts_nothing|]. auto.
Qed.

Lemma post_chunks_posts_nothing ib h ps : forall st,
  if_returns (post_chunks ib h ps) st (fun _ st' => posts_nothing st st').
Proof.
  induction ps as [|p ps IH]; intros st; cbn [post_chunks]; [reflexivity|]. unfold post_chunk.
  exec; try reflexivity; (eapply if_returns_conseq; [apply IH|]; auto).
Qed.

Lemma new_infiniband_posts_nothing dl name mem1 mem2 h st :
  if_returns (new_infiniband async_fd dl name mem1 mem2 h) st (fun _ st' => posts_nothing st st').
Proof.
  unfold new_infiniband. apply if_returns_bind.
  eapply if_returns_conseq; [apply get_device_same|]. intros device s0 ->.
  unfold new_pd, set_nonblocking, register_rx_tx. exec; try (exfalso; lia).
  eapply if_returns_conseq; [apply add_posts_nothing|]. intros [h1 c1] s1 E1.
  apply if_returns_bind. eapply if_returns_conseq; [apply add_posts_nothing|]. intros [h2 c2] s2 E2.
  unfold create_shared_receive_queue, post_channel_cluster. exec.
  eapply if_returns_conseq; [apply post_chunks_posts_nothing|]. intros rc s3 E3.
  repeat (apply if_returns_bind || apply if_returns_ret). unfold posts_nothing in *. cbn [sent_ids trace] in *. congruence.
Qed.

(** The constructor of the adapter leaves a stack at rest, with all 256 receive
    buffers in the pool the workers will share. *)
Theorem new_adapter_at_rest dl name mem1 mem2 h d ds p st cores :
  devices dl = Some (d :: ds) -> d_name d = name -> active_port d = Some p ->
  zlen mem1 = buffer_size * 256 -> zlen mem2 = buffer_size * 256 -> sent_ids (trace st) = [] ->
  safe_unless no_srq (new_infiniband async_fd dl name mem1 mem2 h) st (fun r st' =>
    let '(h', ib) := r in
    at_rest (Sys st' h' {| coreids := cores; st_ib := ib; threads := [] |}) /\
    zlen (free_list ib) = 256).
Proof.
  intros Hds Hn Hp H1 H2 Hs.
  pose proof (new_infiniband_run async_fd dl name mem1 mem2 h d ds p st Hds Hn Hp H1 H2) as Hrun.
  pose proof (new_infiniband_posts_nothing dl name mem1 mem2 h st) as Hq.
  unfold safe_unless, if_returns in *. destruct (new_infiniband _ _ _ _ _ _ st) as [[[h' ib]| | |] st']; auto.
  destruct Hrun as ((Hrx & _ & _ & _ & b1 & _ & Hp1 & _) & _). split.
  - eexists. cbn [sys_stack st_ib sys_heap sys_st]. split; [exact Hrx|].
    split; [eapply cut_fresh_pool; exact Hp1|]. rewrite Hq. exact Hs.
  - unfold free_list. rewrite Hrx. cbn [free_chunks]. unfold zlen. rewrite length_seqZ. reflexivity.
Qed.
End NewAdapter.

(** ** Witness: two threads, a message of three bytes each, one after the other. *)

Definition one_send : worker_thread :=
  {| t_worker := {| client_setup_socket := 3; tx_cq := None; tx_cc := None |};
     t_todo := [Send sample_socket [[1; 2; 3]]] |}.

Definition idle : worker_thread :=
  {| t_worker := {| client_setup_socket := 3; tx_cq := None; tx_cc := None |}; t_todo := [] |}.

Definition stack_of (ib : Infiniband) (ts : list worker_thread) : RDMAStack worker_thread :=
  {| coreids := []; st_ib := ib; threads := ts |}.

Definition sys0 : system nat := Sys Mock.start sample_heap (stack_of sample_ib []).

(** The system after a send on [a], the threads left being [ts]. *)
Definition after (a : system nat) (ts : list worker_thread) : system nat :=
  match send (H := all_succeed) (st_ib (sys_stack a)) (sys_heap a) sample_socket [[1; 2; 3]] (sys_st a) with
  | (Ret (_, h, ib, _), st) => Sys st h (stack_of ib ts)
  | _ => a
  end.

Definition sys1 : system nat := Sys Mock.start sample_heap (stack_of sample_ib [one_send; one_send]).
Definition sys2 : system nat := Eval vm_compute in after sys1 [idle; one_send].
Definition sys3 : system nat := Eval vm_compute in after sys2 [idle; idle].

Definition two_sends : list entry :=
  [Spawned 2; Ran 0 (Send sample_socket [[1; 2; 3]]);
   Ran 1 (Send sample_socket [[1; 2; 3]])].

Lemma sys0_at_rest : at_rest sys0.
Proof. exists sample_pool. split; [reflexivity|]. split; [exact sample_pool_fresh|reflexivity]. Qed.

(** A step of thread [i], by running its operation. *)
Lemma run_step {W} `{Env W} chan_fd fuel (a b : system W) i w o rest l :
  threads (sys_stack a) !! i = Some {| t_worker := w; t_todo := o :: rest |} -> op_ok o ->
  (let '(r, st') := exec_op chan_fd fuel o w (sys_heap a) (st_ib (sys_stack a)) (sys_st a) in
   match r with
   | Ret (w', h', ib') =>
       l = Ran i o /\
       b = Sys st' h' (set_threads (sys_stack a) ib'
             (<[i := {| t_worker := w'; t_todo := rest |}]> (threads (sys_stack a))))
   | _ => False
   end) -> sys_step chan_fd fuel a l b.
Proof.
  intros Ht Hok Hr. destruct (exec_op _ _ _ _ _ _ _) as [[[[w' h'] ib']| | |] st'] eqn:E; try contradiction.
  destruct Hr as [-> ->]. destruct a as [st h s]. apply (sys_run chan_fd fuel _ _ _ _ w _ rest w'); assumption.
Qed.

Lemma sample_send_ok : op_ok (Send sample_socket [[1; 2; 3]]).
Proof. split; [eexists; vm_compute; reflexivity|split; reflexivity]. Qed.

Lemma two_sends_run : sys_steps (H := all_succeed) id 4 sys0 two_sends sys3.
Proof.
  apply (sys_more id 4 _ _ sys1);
    [exact (sys_spawn id 4 Mock.start sample_heap (stack_of sample_ib []) [one_send; one_send])|].
  apply (sys_more id 4 _ _ sys2).
  { eapply (run_step id 4 _ _ 0); [reflexivity|exact sample_send_ok|]. vm_compute. split; reflexivity. }
  apply (sys_more id 4 _ _ sys3); [|apply sys_none].
  eapply (run_step id 4 _ _ 1); [reflexivity|exact sample_send_ok|]. vm_compute. split; reflexivity.
Qed.

Example workers_share_pool_witness :
  exists c, channel (memory_manager (st_ib (sys_stack sys3))) = Some c /\
    sent_ids (trace (sys_st sys3)) ++ free_chunks c ≡ₚ [1; 2; 3].
Proof.
  destruct (workers_share_pool (H := all_succeed) id 4 sys0 sys3 two_sends sys0_at_rest two_sends_run)
    as (c & Hc & _ & _ & Hall).
  exists c. split; [exact Hc|exact Hall].
Defined.

