(* ===== verification/Accessors.v ===== *)
(** The accessors and destructors of the classes of rdma/, and the portal object
    of debug/rdma_portal.h: the operations of one line, kept apart from the
    components they belong to. *)
From Stdlib Require Import String.
From coqutil Require Import Datatypes.RecordSetters.
From S2P Require Import Prelude Gid Verbs Mock SynMsg MemoryManager Infiniband.
From S2P Require Import ConnectedSocket ResourceManager RdmaStack.
Open Scope Z_scope.
Import DoubleBraceUpdate.

(** ** ResourceManager.h *)

Definition port_get_lid (p : Port) : Z := p_lid p.
Definition port_get_gid (p : Port) : list Z := p_gid p.
Definition get_port_num (p : Port) : Z := p_port_num p.
Definition get_port_attr (p : Port) : ibv_port_attr := p_port_attr p.

Definition get_name (d : Device) : list Z := d_name d.

(** [active_port->get_lid()]: no constructor sets [active_port] of a device
    without an active port. *)
Definition device_get_lid (d : Device) : option Z := port_get_lid <$> active_port d.
Definition device_get_gid (d : Device) : option (list Z) := port_get_gid <$> active_port d.

(** ** Infiniband.h *)

Definition get_initial_psn (q : QueuePair) : Z := initial_psn q.
Definition get_local_qp_number (q : QueuePair) : option Z := qp_num <$> qp_qp q.
Definition get_qp (q : QueuePair) : option ibv_qp := qp_qp q.
Definition qp_get_tx_cq (q : QueuePair) : Z := qp_txcq q.
Definition get_rx_cq (q : QueuePair) : option CompletionQueue := qp_rxcq q.

Definition get_channel (cc : CompletionChannel) : Z := cc_channel cc.
Definition get_fd (chan_fd : Z -> Z) (cc : CompletionChannel) : Z := chan_fd (cc_channel cc).
Definition get_cq (cq : CompletionQueue) : Z := cq_cq cq.

Definition get_ib_physical_port (ib : Infiniband) : Z := u8 (ib_physical_port ib).
Definition ib_get_lid (ib : Infiniband) : Z := ib_lid ib.
Definition ib_get_gid (ib : Infiniband) : list Z := ib_gid ib.
Definition get_memory_manager (ib : Infiniband) : MemoryManager := memory_manager ib.

(** The constructors of the two pool classes. *)
Definition new_memory_manager (pd : Z) : MemoryManager :=
  {| channel := None; rdma := None; MemoryManager.send := None; mm_pd := pd |}.
Definition new_cluster (size : Z) : Cluster := {| chunk_size := size; free_chunks := [] |}.

Section Destructors.
Context {W : Type} `{Env W}.

Definition new_full_cluster (fuel : nat) (pd size num : Z) (mem : list Z) (h : heap)
  : M (St W) (heap * Cluster) := add fuel pd num mem h (new_cluster size).

(** [~ProtectionDomain]: a failure is only logged. *)
Definition delete_pd (pd : Z) : M (St W) unit := sys (ibv_dealloc_pd pd) ;;; ret tt.

(** [~Infiniband]: [assert(0)] first; what follows it is never reached. *)
Definition delete_infiniband (ib : Infiniband) : M (St W) unit :=
  c_assert false ;;; delete_pd (ib_pd ib).
End Destructors.

(** ** RDMAStack.h *)

Definition is_connected (s : RDMAConnectedSocketImpl) : Z := connected s.
Definition get_my_msg (s : RDMAConnectedSocketImpl) : IBSYNMsg := my_msg s.
Definition get_peer_msg (s : RDMAConnectedSocketImpl) : IBSYNMsg := peer_msg s.
Definition set_peer_msg (s : RDMAConnectedSocketImpl) (m : IBSYNMsg) : RDMAConnectedSocketImpl :=
  s{{peer_msg := m}}.
Definition socket_fd (chan_fd : Z -> Z) (s : RDMAConnectedSocketImpl) : Z := get_fd chan_fd (cs_cc s).

(** [shutdown] and [close] do nothing. *)
Definition shutdown (s : RDMAConnectedSocketImpl) : RDMAConnectedSocketImpl := s.
Definition socket_close (s : RDMAConnectedSocketImpl) : RDMAConnectedSocketImpl := s.

(** [zero_copy_read]: the socket and the buffer as they were, 0 bytes. *)
Definition zero_copy_read {B} (s : RDMAConnectedSocketImpl) (data : B)
  : Z * RDMAConnectedSocketImpl * B := (0, s, data).

Definition server_fd (sv : RDMAServerSocketImpl) : Z := server_setup_socket sv.
Definition abort_accept (sv : RDMAServerSocketImpl) : RDMAServerSocketImpl := sv.

Definition worker_get_tx_cq (w : RDMAWorker) : option CompletionQueue := tx_cq w.
Definition destroy (w : RDMAWorker) : RDMAWorker := w.
Definition support_zero_copy_read : bool := true.

(** ** debug/rdma_portal.h *)

Record rdma_portal := { con_num : Z; portal_sockfd : Z }.
Definition new_rdma_portal (cn : Z) : rdma_portal := {| con_num := cn; portal_sockfd := -1 |}.
Definition get_sockfd (p : rdma_portal) : Z := portal_sockfd p.

(** ** Properties *)

Section Accessors.
Context {W : Type} `{Env W} (chan_fd : Z -> Z).

(** Closing a socket releases nothing: after its construction, [shutdown] and
    [close] its channel, its receive queue and its queue pair are still held; and
    it claims to be connected or not according to what its memory held, as long
    as it has not been activated. *)
Theorem closed_socket_holds ib tx im unset st :
  if_returns (new_socket chan_fd ib tx im unset) st (fun s st' => exists h,
    get_qp (cs_qp s) = Some h /\
    let s' := socket_close (shutdown s) in
    is_connected s' = unset /\ m_qpn (get_my_msg s') = qp_num h /\
    m_psn (get_my_msg s') = get_initial_psn (cs_qp s') /\
    leaves_held (trace st) (trace st')
      [(RChannel, get_channel (cs_cc s')); (RCq, get_cq (cs_cq s')); (RQp, qp_handle h)]).
Proof.
  eapply if_returns_conseq.
  { apply if_returns_and; [apply new_socket_run|].
    instantiate (1 := fun s _ => connected s = unset /\ m_psn (my_msg s) = initial_psn (cs_qp s)).
    unfold new_socket. apply if_returns_any. intros o st1. apply if_returns_bind, if_returns_deref.
    intros [q cc] _. do 2 (apply if_returns_bind, if_returns_deref; intros ? _).
    apply if_returns_ret. split; reflexivity. }
  intros s st' ((h & Hq & _ & _ & _ & Hn & _ & Hheld & _) & Hun & Hpsn).
  exists h. split; [exact Hq|]. cbv zeta. split; [exact Hun|]. split; [exact Hn|]. split; [exact Hpsn|exact Hheld].
Qed.

(** The destructor of the adapter never gets past its first line. *)
Theorem delete_infiniband_stops ib st : fst (delete_infiniband ib st) = AssertFail /\ snd (delete_infiniband ib st) = st.
Proof. split; reflexivity. Qed.
End Accessors.
