(* ===== verification/SessionLife.v ===== *)
(** The life of an [rdma_session]: the objects [reg_mem] acquires, what [close]
    gives back of them, and the run of the constructors up to the exchange of the
    windows, where each of them overruns a buffer. *)
From Stdlib Require Import String.
From coqutil Require Import Datatypes.RecordSetters.
From S2P Require Import Prelude CText Gid Verbs Mock HugePage ExchDest RdmaContext RdmaOps.
From S2P Require Import SessionRing RwExchange RdmaConnect Session SessionBulk.
From stdpp Require Import gmap.
Open Scope Z_scope.
Import DoubleBraceUpdate.

(** ** Accounting *)

Section Accounting.
Context {W : Type} `{Env W}.

(** From [s] to [s'] the program gained [g x] of each resource [x]; the cells of
    the huge page allocator are as they were. *)
Definition gained (s s' : St W) (g : rkind * Z -> Z) : Prop :=
  forall x, balance (trace s') x = balance (trace s) x + g x.

Definition span (s s' : St W) (g : rkind * Z -> Z) : Prop := gained s s' g /\ cells s' = cells s.

Definition zero (x : rkind * Z) : Z := 0.
Definition holds (l : list (rkind * Z)) (x : rkind * Z) : Z := occurrences x l.

Lemma span_refl s : span s s zero.
Proof. split; [|reflexivity]. intros x. unfold zero. lia. Qed.

Lemma gained_trans s1 s2 s3 g1 g2 g :
  gained s1 s2 g1 -> gained s2 s3 g2 -> (forall x, g x = g1 x + g2 x) -> gained s1 s3 g.
Proof. intros A B C x. rewrite B, A, C. lia. Qed.

Lemma span_trans s1 s2 s3 g1 g2 g :
  span s1 s2 g1 -> span s2 s3 g2 -> (forall x, g x = g1 x + g2 x) -> span s1 s3 g.
Proof. intros [A A'] [B B'] C. split; [eapply gained_trans; eassumption|congruence]. Qed.

Lemma span_call c r w (s : St W) :
  span s (mkSt w (Ev c r :: trace s) (cells s))
    (fun x => counts x (acquires (Ev c r)) - counts x (releases (Ev c r))).
Proof. split; [|reflexivity]. intros x. cbn [balance trace]. lia. Qed.

Lemma holds_app l1 l2 x : holds (l1 ++ l2) x = holds l1 x + holds l2 x.
Proof. apply occurrences_app. Qed.

End Accounting.

(** ** What the parts of the initialisation acquire *)

(** The block a pointer of the heap names, if it is not NULL. *)
Definition heap_block (p : Z) : list (rkind * Z) := if p =? 0 then [] else [(RHeap, p)].

Definition opt_mem (o : option rdma_mem) : list (rkind * Z) :=
  match o with Some m => mem_resources m | None => [] end.

Definition mems (ms : list rdma_mem) : list (rkind * Z) := concat (map mem_resources ms).

(** The block under a pointer of the huge page allocator whose cell holds [r]. *)
Definition huge_block (r p : Z) : list (rkind * Z) :=
  if r =? 0 then heap_block (p - HUGE_PAGE_SIZE) else [(RMap, p - HUGE_PAGE_SIZE)].

Lemma holds_cons_block p l x : p <> 0 -> holds ((RHeap, p) :: l) x = holds (heap_block p) x + holds l x.
Proof.
  intros Hp. unfold heap_block. rewrite if_eqb_neq by exact Hp. unfold holds. cbn [occurrences]. lia.
Qed.

Section Acquire.
Context {W : Type} `{Env W}.

Lemma malloc_span n (s : St W) (Q : Z -> St W -> Prop) :
  (forall p s', span s s' (holds (heap_block p)) -> Q p s') -> if_returns (sys (malloc n)) s Q.
Proof.
  intros HQ. apply if_returns_sys. intros p w _. apply HQ.
  destruct (span_call (malloc n) p w s) as [G C]. split; [|exact C]. intros x. rewrite G.
  cbn [acquires releases]. unfold heap_block, nonnull, resource, holds.
  destruct (p =? 0); cbn [occurrences]; rewrite !counts_None; lia.
Qed.

Lemma reg_buf_span s p n st :
  if_returns (reg_buf s p n) st (fun r st' =>
    span st st' (holds (opt_mem r)) /\ forall m, r = Some m -> rm_self m <> 0).
Proof.
  unfold reg_buf, rdma_reg_mr. exec.
  - split; [|intros m [= <-]; assumption]. split; [|reflexivity].
    unfold gained, holds, opt_mem, mem_resources. cbn [rm_self mr]. solve_held.
  - split; [|discriminate]. split; [|reflexivity]. unfold gained, holds, opt_mem. solve_held.
Qed.

Lemma malloc_huge_span n st :
  if_returns (malloc_huge_pages n) st (fun p st' => p <> 0 -> exists r,
    huge_block r p <> [] /\ gained st st' (holds (huge_block r p))).
Proof.
  unfold if_returns. destruct (malloc_huge_pages n st) as [[p| | |] st'] eqn:E; auto.
  intros Hp. apply malloc_huge_pages_run in E; [|exact Hp]. cbv zeta in E.
  set (real := ALIGN_TO_PAGE_SIZE (u64 (n + HUGE_PAGE_SIZE))) in *. unfold MAP_FAILED in E.
  destruct E as [(Ht & Hb & _)|(Ht & Hb & _)]; [exists 1|exists 0]; unfold gained, holds, huge_block, heap_block;
    rewrite Ht; cbn [Z.eqb]; [|rewrite if_eqb_neq by exact Hb]; (split; [discriminate|solve_held]).
Qed.

(** The receive buffers, when all registrations succeed. *)
Lemma reg_recv_span s n : forall i acc st,
  if_returns (reg_recv n s i acc) st (fun r st' =>
    match r with
    | inl ms => exists ms0, ms = ms0 ++ [None]
    | inr ms => exists new, ms = acc ++ map Some new /\ length new = n /\
        Forall (fun m => rm_self m <> 0) new /\ span st st' (holds (mems new))
    end).
Proof.
  induction n as [|n IH]; intros i acc st; cbn [reg_recv].
  - apply if_returns_ret. exists []. rewrite app_nil_r. split; [reflexivity|]. split; [reflexivity|].
    split; [constructor|apply span_refl].
  - apply if_returns_bind. eapply if_returns_conseq; [apply reg_buf_span|].
    intros [m|] st1 [S1 Hm]; [|apply if_returns_ret; eauto].
    eapply if_returns_conseq; [apply IH|]. intros [ms|ms] st2 Hr; [exact Hr|].
    destruct Hr as (new & -> & Hl & Hf & S2). exists (m :: new). cbn [map length].
    rewrite <- app_assoc. split; [reflexivity|]. split; [lia|]. split; [constructor; auto|].
    eapply span_trans; [exact S1|exact S2|]. intros x. apply holds_app.
Qed.

Lemma map_Some_inj {A} (l1 l2 : list A) : map Some l1 = map Some l2 -> l1 = l2.
Proof.
  revert l2. induction l1 as [|a l1 IH]; intros [|b l2] E; try discriminate E; [reflexivity|].
  injection E as -> E. f_equal. apply IH, E.
Qed.

Lemma map_Some_last {A} (l1 : list A) l2 : map Some l1 <> l2 ++ [None].
Proof.
  intros E. apply (f_equal (@rev (option A))) in E. rewrite rev_app_distr, <- map_rev in E.
  destruct (rev l1); discriminate E.
Qed.

(** [reg_mem] when every allocation and registration succeeded. *)
Lemma reg_mem_span s size st :
  0 < s_recv_nums s ->
  if_returns (reg_mem s size) st (fun s' st' => forall ms,
    recv_mem s' = Some (map Some ms) -> zlen ms = s_recv_nums s -> sbuf s' <> 0 ->
    exists arr rr rs m,
      s_recv_nums s' = s_recv_nums s /\ send_mem s' = Some m /\
      Forall (fun m => rm_self m <> 0) (m :: ms) /\
      arr <> 0 /\ s_rbuf s' <> 0 /\ huge_block rr (s_rbuf s') <> [] /\ huge_block rs (sbuf s') <> [] /\
      gained st st' (holds (heap_block arr ++ huge_block rr (s_rbuf s') ++ mems ms ++
                            huge_block rs (sbuf s') ++ mem_resources m))).
Proof.
  intros Hn. unfold reg_mem. cbv zeta.
  apply if_returns_bind, malloc_span. intros arr st1 S1. destruct (Z.eqb_spec arr 0).
  { apply if_returns_ret. intros ms [=]. }
  apply if_returns_bind, if_returns_sys. intros size' w2 _. set (st2 := mkSt w2 _ _).
  pose proof (span_call sys_page_size size' w2 st1) as S2. fold st2 in S2.
  apply if_returns_bind. eapply if_returns_conseq; [apply malloc_huge_span|]. intros rb st3 S3.
  destruct (Z.eqb_spec rb 0) as [|Hrb].
  { apply if_returns_ret. intros ms [= E] Hl. symmetry in E. apply map_eq_nil in E as ->. change (zlen _) with 0 in Hl. lia. }
  apply if_returns_bind. eapply if_returns_conseq; [apply reg_recv_span|]. intros [ms0|ms0] st4 Hr.
  { destruct Hr as [ms1 ->]. apply if_returns_bind, if_returns_sys. intros u w _. apply if_returns_ret.
    intros ms [= E] _ _. destruct (map_Some_last ms ms1). symmetry. exact E. }
  destruct Hr as (new & -> & Hl & Hf & S4). cbn [app].
  apply if_returns_bind. eapply if_returns_conseq; [apply malloc_huge_span|]. intros sb st5 S5.
  destruct (Z.eqb_spec sb 0) as [|Hsb]; [apply if_returns_ret; intros ms _ _ Hsb; contradiction|].
  apply if_returns_bind. eapply if_returns_conseq; [apply reg_buf_span|]. intros [m|] st6 [S6 Hm].
  2:{ apply if_returns_bind. exact I. }
  apply if_returns_ret. intros ms [= E] _ _. apply map_Some_inj in E as <-.
  destruct (S3 Hrb) as (rr & Hrr & G3). destruct (S5 Hsb) as (rs & Hrs & G5).
  exists arr, rr, rs, m. repeat split; auto.
  intros x. destruct S1 as [G1 _], S2 as [G2 _], S4 as [G4 _], S6 as [G6 _].
  rewrite G6, G5, G4, G3, G2, G1. rewrite !holds_app. cbn [opt_mem acquires releases].
  change (s_rbuf _) with rb. change (sbuf _) with sb. lia.
Qed.
End Acquire.

(** ** What [close] gives back *)

Definition gave (l : list (rkind * Z)) (x : rkind * Z) : Z := - holds l x.

Section Release.
Context {W : Type} `{Env W}.

Lemma gave_app (s1 s2 s3 : St W) l1 l2 :
  span s1 s2 (gave l1) -> span s2 s3 (gave l2) -> span s1 s3 (gave (l1 ++ l2)).
Proof. intros A B. eapply span_trans; [exact A|exact B|]. intros x. unfold gave. rewrite holds_app. lia. Qed.

Lemma gave_nil (s : St W) : span s s (gave []).
Proof. apply span_refl. Qed.

(** A release, then the rest. *)
Lemma free_span {A} p (k : unit -> M (St W) A) (st st0 : St W) l (Q : A -> St W -> Prop) :
  span st0 st (gave l) ->
  (forall st', span st0 st' (gave (l ++ heap_block p)) -> if_returns (k tt) st' Q) ->
  if_returns (bind (sys (free p)) k) st Q.
Proof.
  intros S0 HQ. apply if_returns_bind, if_returns_sys. intros [] w _. apply HQ.
  eapply gave_app; [exact S0|]. destruct (span_call (free p) tt w st) as [G C]. split; [|exact C].
  intros x. rewrite G. unfold gave, holds, heap_block. cbn [acquires releases]. unfold nonnull, resource.
  destruct (p =? 0); cbn [occurrences]; rewrite !counts_None; lia.
Qed.

Lemma dereg_span m st :
  rm_self m <> 0 ->
  if_returns (rdma_dereg_mr (Some m)) st (fun r st' => r = 0 -> span st st' (gave (mem_resources m))).
Proof.
  intros Hm. unfold rdma_dereg_mr. exec; intros Hr; [discriminate Hr|]. split; [|reflexivity].
  unfold gained, gave, holds, mem_resources. simplify_eq. solve_held.
Qed.

Lemma dereg_all_span ms : Forall (fun m => rm_self m <> 0) ms -> forall st,
  if_returns (dereg_all (map Some ms)) st (fun ok st' => ok = true -> span st st' (gave (mems ms))).
Proof.
  induction 1 as [|m ms Hm _ IH]; intros st; cbn [map dereg_all].
  - apply if_returns_ret. intros _. apply gave_nil.
  - apply if_returns_bind. eapply if_returns_conseq; [apply dereg_span, Hm|]. intros r st1 S1.
    destruct (Z.eqb_spec r 0) as [Hr|]; cbn [negb]; [|apply if_returns_ret; discriminate].
    eapply if_returns_conseq; [apply IH|]. intros ok st2 S2 Hok.
    change (mems (m :: ms)) with (mem_resources m ++ mems ms). eapply gave_app; auto.
Qed.

Lemma dereg_array_span ms n st :
  Forall (fun m => rm_self m <> 0) ms -> zlen ms = n ->
  if_returns (dereg_array (Some (map Some ms)) n) st (fun ok st' =>
    ok = true -> span st st' (gave (mems ms))).
Proof.
  intros Hm Hn. unfold dereg_array. assert (Hl : zlen (map Some ms) = n) by (unfold zlen in *; rewrite length_map; lia).
  destruct (Z.ltb_spec (zlen (map Some ms)) n); [lia|]. rewrite firstn_all2 by (unfold zlen in Hl; lia).
  apply dereg_all_span, Hm.
Qed.

Lemma dereg_opt_span o st :
  (forall m, o = Some m -> rm_self m <> 0) ->
  if_returns (dereg_opt o) st (fun ok st' => ok = true -> span st st' (gave (opt_mem o))).
Proof.
  intros Ho. destruct o as [m|]; cbn [dereg_opt opt_mem].
  - apply if_returns_bind. eapply if_returns_conseq; [apply dereg_span; auto|]. intros r st1 S1.
    apply if_returns_ret. intros Hr. apply S1. lia.
  - apply if_returns_ret. intros _. apply gave_nil.
Qed.

Lemma free_huge_span p r st :
  p <> 0 -> cells st !! (p - HUGE_PAGE_SIZE) = Some r -> r mod HUGE_PAGE_SIZE = 0 ->
  if_returns (free_huge_pages p) st (fun _ st' => span st st' (gave (huge_block r p))).
Proof.
  intros Hp Hc Hm. destruct (free_huge_pages_run p st r Hp Hc Hm) as (ev & w & E & Hev).
  unfold if_returns. rewrite E. split; [|reflexivity]. intros x. cbn [balance trace].
  unfold gave, holds, huge_block, heap_block. destruct (r =? 0); [|destruct Hev as [q Hev]]; rewrite Hev;
    cbn [acquires releases]; unfold nonnull, resource; [case_if|]; cbn [occurrences]; rewrite ?counts_None; lia.
Qed.

(** A session whose arrays hold a registered region in every slot, on a context. *)
Record owns (s : session) (c : rdma_context) (ms ws : list rdma_mem) (m : rdma_mem) : Prop := {
  own_ctx : s_ctx s = Some c;
  own_recv : recv_mem s = Some (map Some ms);
  own_recv_nums : zlen ms = s_recv_nums s;
  own_send : send_mem s = Some m;
  own_rw : rw_mem s = Some (map Some ws);
  own_slices : zlen ws = slices s;
  own_selves : Forall (fun m => rm_self m <> 0) (m :: ms ++ ws);
  own_ctx_rw : forall m, rw c = Some m -> rm_self m <> 0 }.

Lemma close_span s c q ms ws m r st :
  owns s c ms ws m -> wf_context c -> qp c = Some q ->
  rwbuf s <> 0 -> cells st !! (rwbuf s - HUGE_PAGE_SIZE) = Some r -> r mod HUGE_PAGE_SIZE = 0 ->
  if_returns (close s) st (fun rc st' => rc = 0 -> gained st st' (gave (
    mems ms ++ mem_resources m ++ mems ws ++ opt_mem (rw c) ++
    heap_block (s_rbuf s) ++ heap_block (sbuf s) ++ heap_block (qbuf s) ++ heap_block (p_rkeys s) ++
    heap_block (p_raddrs s) ++ huge_block r (rwbuf s) ++ ctx_resources c))).
Proof.
  intros [Hc Hrm Hrn Hsm Hrw Hsl Hself Hcr] Hwf Hq Hp Hcell Hr.
  apply Forall_cons_iff in Hself as [Hm Hself]. apply Forall_app in Hself as [Hms Hws].
  unfold close. rewrite Hrm, Hsm, Hrw.
  apply if_returns_bind. eapply if_returns_conseq; [apply dereg_array_span; assumption|].
  intros [] st1 S1; [|apply if_returns_ret; discriminate]. specialize (S1 eq_refl). cbn [negb].
  apply if_returns_bind. eapply if_returns_conseq; [apply dereg_opt_span; intros ? [= <-]; exact Hm|].
  intros [] st2 S2; [|apply if_returns_ret; discriminate]. specialize (S2 eq_refl). cbn [negb].
  apply if_returns_bind. eapply if_returns_conseq; [apply dereg_array_span; assumption|].
  intros [] st3 S3; [|apply if_returns_ret; discriminate]. specialize (S3 eq_refl). cbn [negb].
  rewrite Hc. cbn [deref]. apply if_returns_bind, if_returns_ret.
  apply if_returns_bind. eapply if_returns_conseq; [apply dereg_opt_span, Hcr|].
  intros [] st4 S4; [|apply if_returns_ret; discriminate]. specialize (S4 eq_refl). cbn [negb].
  pose proof (gave_app _ _ _ _ _ (gave_app _ _ _ _ _ (gave_app _ _ _ _ _ S1 S2) S3) S4) as S5.
  eapply free_span; [exact S5|]. intros st5 T1. eapply free_span; [exact T1|]. intros st6 T2.
  eapply free_span; [exact T2|]. intros st7 T3. eapply free_span; [exact T3|]. intros st8 T4.
  eapply free_span; [exact T4|]. intros st9 T5.
  apply if_returns_bind. eapply if_returns_conseq; [apply (free_huge_span _ r)|];
    [exact Hp|rewrite (proj2 T5); exact Hcell|exact Hr|]. intros [] st10 T6.
  eapply if_returns_conseq; [apply returns_if_returns, (rdma_close_ctx_run c q st10 Hq)|].
  intros rc st11 (done & _ & Hbal & _) -> x. specialize (Hbal x eq_refl Hwf). rewrite Hbal.
  destruct (gave_app _ _ _ _ _ T5 T6) as [G _]. rewrite G. unfold gave. rewrite !holds_app.
  cbn [opt_mem]. fold (holds (ctx_resources c) x). lia.
Qed.
End Release.

(** ** Properties *)

Section Life.
Context {W : Type} `{Env W}.

(** [s2] is a later state of the session [s1]: its buffers are where they were. *)
Definition same_buffers (s1 s2 : session) : Prop :=
  recv_mem s2 = recv_mem s1 /\ send_mem s2 = send_mem s1 /\ s_rbuf s2 = s_rbuf s1 /\
  sbuf s2 = sbuf s1 /\ s_recv_nums s2 = s_recv_nums s1.

(** C16 The buffers of a session, from [reg_mem] to [close]. When [reg_mem] built
    the receive ring and the send buffer, and the session is closed later with
    its windows, its context and the huge block of its windows intact, and
    [close] reports success, then over the two calls together every registered
    region of the ring and of the send buffer is gone, and [close] gave back its
    own share (the windows, the plain buffers, the window block, the context);
    but the array of the regions - a block that [malloc] returned - and the huge
    page blocks of both buffers, each an allocation that succeeded, are still
    held, and the two addresses handed out inside these blocks, not NULL, have
    been passed to [free] although no allocation ever returned them. *)
Theorem session_lifecycle s size st s1 st1 s2 st2 st3 c q ms ws r :
  0 < s_recv_nums s ->
  reg_mem s size st = (Ret s1, st1) ->
  recv_mem s1 = Some (map Some ms) -> zlen ms = s_recv_nums s -> sbuf s1 <> 0 ->
  same_buffers s1 s2 ->
  s_ctx s2 = Some c -> wf_context c -> qp c = Some q -> (forall m, rw c = Some m -> rm_self m <> 0) ->
  rw_mem s2 = Some (map Some ws) -> zlen ws = slices s2 -> Forall (fun m => rm_self m <> 0) ws ->
  rwbuf s2 <> 0 -> cells st2 !! (rwbuf s2 - HUGE_PAGE_SIZE) = Some r -> r mod HUGE_PAGE_SIZE = 0 ->
  close s2 st2 = (Ret 0, st3) ->
  exists arr kr ks, arr <> 0 /\ s_rbuf s1 <> 0 /\
    huge_block kr (s_rbuf s1) <> [] /\ huge_block ks (sbuf s1) <> [] /\ forall x,
    (balance (trace st1) x - balance (trace st) x) + (balance (trace st3) x - balance (trace st2) x) =
    holds ((RHeap, arr) :: huge_block kr (s_rbuf s1) ++ huge_block ks (sbuf s1)) x
    - holds [(RHeap, s_rbuf s1); (RHeap, sbuf s1)] x
    - holds (mems ws ++ opt_mem (rw c) ++ heap_block (qbuf s2) ++ heap_block (p_rkeys s2) ++
             heap_block (p_raddrs s2) ++ huge_block r (rwbuf s2) ++ ctx_resources c) x.
Proof.
  intros Hn Hreg Hms Hl Hsb (B1 & B2 & B3 & B4 & B5) Hc Hwf Hq Hcr Hws Hsl Hself Hp Hcell Hr Hclose.
  destruct (if_returns_elim _ _ _ _ _ (reg_mem_span s size st Hn) Hreg ms Hms Hl Hsb)
    as (arr & kr & ks & m & En & Em & Hm & Harr & Hrb & Hkr & Hks & G1).
  assert (Ho : owns s2 c ms ws m).
  { constructor; try (congruence || assumption). apply Forall_cons_iff in Hm as [Hm Hms'].
    constructor; [exact Hm|]. apply Forall_app. auto. }
  pose proof (if_returns_elim _ _ _ _ _ (close_span s2 c q ms ws m r st2 Ho Hwf Hq Hp Hcell Hr) Hclose eq_refl)
    as G2.
  exists arr, kr, ks. do 4 (split; [assumption|]). intros x. rewrite G1, G2, B3, B4. unfold gave.
  rewrite !holds_cons_block by assumption. rewrite !holds_app. change (holds [] x) with 0. lia.
Qed.

(** ** The constructors *)

(** The computation fails an assertion, has undefined behaviour or goes on for ever. *)
Definition never_returns {A} (m : M (St W) A) (st : St W) : Prop := if_returns m st (fun _ _ => False).

Lemma reg_windows_nonempty s ptr slice n st :
  0 < rwbuf_size s -> if_returns (reg_windows n s ptr 0 slice) st (fun ms _ => ms <> []).
Proof.
  intros Hs. destruct n as [|n]; cbn [reg_windows]; [exact I|].
  destruct (Z.ltb_spec 0 (rwbuf_size s)); [|lia].
  apply if_returns_bind. eapply if_returns_conseq; [apply reg_buf_span|]. intros m st1 _.
  apply if_returns_bind. unfold if_returns. destruct (reg_windows _ _ _ _ _ st1) as [[ms| | |] st2]; auto.
  apply if_returns_ret. discriminate.
Qed.

Lemma start_rw_overflow fuel junk s st : never_returns (start_rw fuel junk s) st.
Proof.
  unfold never_returns, start_rw. cbv zeta. set (s1 := s{{rwbuf_size := _; slices := _}}).
  apply if_returns_bind. eapply if_returns_conseq; [apply malloc_huge_span|]. intros p st1 _.
  apply if_returns_bind, if_returns_sys. intros arr w _. destruct (arr =? 0); [exact I|].
  apply if_returns_bind. eapply if_returns_conseq; [apply reg_windows_nonempty; reflexivity|].
  intros ms st2 Hms. apply if_returns_bind, if_returns_deref. intros ws Hws.
  rewrite rw_data_None; [apply if_returns_bind; exact I|]. intros ->. apply Hms.
  apply mapM_Some, Forall2_length in Hws. destruct ms; [reflexivity|discriminate Hws].
Qed.

Lemma door_overflow fuel junk tmp fresh s st :
  never_returns (door fuel junk tmp fresh s) st.
Proof.
  unfold never_returns, door. destruct (flag s =? 1).
  - apply if_returns_bind. eapply if_returns_conseq; [apply start_rw_overflow|contradiction].
  - apply if_returns_any. intros [_ s1] st1. do 2 (apply if_returns_any; intros). apply start_rw_overflow.
Qed.

(** C31 No session is ever built: in every environment each run of [init] that
    gets as far as exchanging its windows overflows the stack buffer [start_rw]
    prints them to, before anything is sent (the array has 25 bytes per window,
    and the [sprintf] of the last one stores at least 26); so neither the
    constructor of the server nor the one of the client returns normally. *)
Theorem init_never_completes fuel e l junk tmp fresh junk_wc uninit ictx hostname params st :
  never_returns (new_server_session fuel junk tmp fresh junk_wc uninit ictx) st /\
  never_returns (new_client_session fuel e l junk tmp fresh junk_wc uninit hostname params) st.
Proof.
  assert (Hinit : forall s st, never_returns (init fuel junk tmp fresh junk_wc s) st).
  { intros s st0. unfold never_returns, init. cbv zeta. apply if_returns_any. intros s1 st1. apply if_returns_any. intros [_ s2] st2.
    do 3 (apply if_returns_any; intros). apply door_overflow. }
  split; [apply Hinit|]. unfold never_returns, new_client_session. apply if_returns_any. intros [c x] st1. apply Hinit.
Qed.
End Life.

(** ** Witness: a ring of two buffers, built and closed. *)

Definition bare_session : session := ring_session{{s_recv_nums := 2; s_gap := 32}}.

Definition built : session := match reg_mem (H := all_succeed) bare_session 32 Mock.start with
                              | (Ret s, _) => s | _ => bare_session end.

Definition built_state : St nat := snd (reg_mem (H := all_succeed) bare_session 32 Mock.start).

(** The window block, allocated on the way. *)
Definition window_block : Z := match malloc_huge_pages (H := all_succeed) 64 built_state with
                               | (Ret p, _) => p | _ => 0 end.

Definition later_session : session :=
  built{{s_ctx := Some sample_context; rw_mem := Some [slot 7]; slices := 1; rwbuf := window_block}}.

Definition later_state : St nat := snd (malloc_huge_pages (H := all_succeed) 64 built_state).

Definition regions_of (s : session) : list rdma_mem := omap (fun o => o) (default [] (recv_mem s)).

Definition window_regions : list rdma_mem := omap (fun o => o) [slot 7].

Example session_lifecycle_witness :
  exists st3 arr kr ks, close (H := all_succeed) later_session later_state = (Ret 0, st3) /\ arr <> 0 /\
    forall x, (balance (trace built_state) x - balance (trace Mock.start) x)
            + (balance (trace st3) x - balance (trace later_state) x) =
      holds ((RHeap, arr) :: huge_block kr (s_rbuf built) ++ huge_block ks (sbuf built)) x
      - holds [(RHeap, s_rbuf built); (RHeap, sbuf built)] x
      - holds (mems window_regions ++ opt_mem (rw sample_context) ++
               heap_block (qbuf later_session) ++ heap_block (p_rkeys later_session) ++
               heap_block (p_raddrs later_session) ++ huge_block 4194304 (rwbuf later_session) ++
               ctx_resources sample_context) x.
Proof.
  eexists.
  edestruct (session_lifecycle (H := all_succeed) bare_session 32 Mock.start built built_state later_session
    later_state (snd (close (H := all_succeed) later_session later_state)) sample_context
    {| qp_handle := Mock.fresh 7; qp_num := 71 |} (regions_of built) window_regions 4194304)
    as (arr & kr & ks & Harr & _ & _ & _ & Hx); cycle -1.
  { exists arr, kr, ks. split; [vm_compute; reflexivity|]. split; [exact Harr|exact Hx]. }
  all: try solve [vm_compute; first [reflexivity|discriminate|intros [=]|solve [repeat constructor; discriminate]|
    repeat split; discriminate || eauto]].
Defined.
