(* ===== verification/Stream.v ===== *)
(** The two directions of the rdma/ stack joined: what one socket [send]s and the
    other [read]s, with the fabric between them, refines a first-in first-out
    byte stream. *)
From Stdlib Require Import String Relations.
From coqutil Require Import Datatypes.RecordSetters.
From S2P Require Import Prelude Gid Verbs Mock SynMsg MemoryManager Infiniband.
From S2P Require Import ConnectedSocket SocketRead RdmaStack TxLifetime.
From stdpp Require Import gmap.
Open Scope Z_scope.
Import DoubleBraceUpdate.

(** ** The abstract specification *)

(** The bytes accepted so far and the bytes handed out so far. *)
Record stream := { accepted_bytes : list Z; read_bytes : list Z }.

Inductive stream_step : stream -> stream -> Prop :=
  | stream_push d a r :
      stream_step {| accepted_bytes := a; read_bytes := r |}
                  {| accepted_bytes := a ++ d; read_bytes := r |}
  | stream_pop d rest r :
      stream_step {| accepted_bytes := r ++ d ++ rest; read_bytes := r |}
                  {| accepted_bytes := r ++ d ++ rest; read_bytes := r ++ d |}.

Definition stream_steps : stream -> stream -> Prop := clos_refl_trans_1n _ stream_step.

(** What is read of a stream is always a prefix of what it accepted. *)
Lemma stream_prefix s s' :
  stream_steps s s' -> (exists rest, accepted_bytes s = read_bytes s ++ rest) ->
  exists rest, accepted_bytes s' = read_bytes s' ++ rest.
Proof.
  induction 1 as [|x y z Hxy _ IH]; intros [rest Hr]; [eauto|]. apply IH.
  destruct Hxy; cbn [accepted_bytes read_bytes] in *.
  - exists (rest ++ d). rewrite Hr, <- app_assoc. reflexivity.
  - exists rest0. apply app_assoc.
Qed.

(** ** The connection *)

(** The sending side (its state, chunks and adapter object), the messages on the
    wire, the receiving side (its state, chunks and socket) with the chunks
    posted to its receive queue, and the bytes accepted and read. *)
Record conn (Ws Wr : Type) := Conn {
  tx_side : St Ws; tx_chunks : heap; tx_adapter : Infiniband; wire : list (list Z);
  rx_side : St Wr; rx_chunks : heap; rx_socket : RDMAConnectedSocketImpl; posted : list Z;
  conn_stream : stream }.
Arguments Conn {_ _}.
Arguments tx_side {_ _}.
Arguments tx_chunks {_ _}.
Arguments tx_adapter {_ _}.
Arguments wire {_ _}.
Arguments rx_side {_ _}.
Arguments rx_chunks {_ _}.
Arguments rx_socket {_ _}.
Arguments posted {_ _}.
Arguments conn_stream {_ _}.

Definition pushed (s : stream) (d : list Z) : stream :=
  {| accepted_bytes := accepted_bytes s ++ d; read_bytes := read_bytes s |}.
Definition popped (s : stream) (d : list Z) : stream :=
  {| accepted_bytes := accepted_bytes s; read_bytes := read_bytes s ++ d |}.

(** The reliable fabric brings the message [d] to the receiver: the posted chunk
    [p] is filled and its completion queued; no other chunk's memory changes. *)
Definition arrives {Wr} (mem : Wr -> Z -> Z -> list Z) (pending : Wr -> list ibv_wc)
    (h : heap) (p : Z) (d : list Z) (w w' : Wr) : Prop :=
  (exists c, chunks h !! p = Some c /\ zlen d <= bytes c /\
     zlen (mem w' (buffer c) (bytes c)) = bytes c /\
     take (length d) (mem w' (buffer c) (bytes c)) = d) /\
  (forall q c, q <> p -> chunks h !! q = Some c ->
     mem w' (buffer c) (bytes c) = mem w (buffer c) (bytes c)) /\
  pending w' = pending w ++
    [{| wc_wr_id := p; wc_status := IBV_WC_SUCCESS; wc_byte_len := zlen d |}].

(** The chain the last call posted, and the answer to it. *)
Definition last_post (tr : list event) : option (Z * list ibv_send_wr * Z) :=
  match tr with
  | Ev c r :: _ =>
      (match c return ret_of c -> option (Z * list ibv_send_wr * Z) with
       | ibv_post_send h wrs => fun rc => Some (h, wrs, rc)
       | _ => fun _ => None
       end) r
  | [] => None
  end.

Section Connection.
Context {Ws Wr : Type} (Es : Env Ws) (Er : Env Wr) (s : RDMAConnectedSocketImpl) (q : ibv_qp)
  (mem : Wr -> Z -> Z -> list Z) (pending : Wr -> list ibv_wc) (cq : CompletionQueue).

(** The bytes that have arrived and have not been read. *)
Definition arrived (c : conn Ws Wr) : list Z :=
  messages (mem (world (rx_side c))) (rx_chunks c) (pending (world (rx_side c))).

(** The steps: a non-empty message is sent (refused by the adapter or not); the
    sender handles its completions; a message arrives; a read of the receiver
    returns, whose request was for more than what has arrived. *)
Inductive conn_step : conn Ws Wr -> conn Ws Wr -> Prop :=
  | conn_send st h ib w rs rh rk ps str bl n h' ib' bl' st' wrs rc parts :
      0 < zlen (concat bl) < 2 ^ 32 - 1 ->
      send ib h s bl st = (Ret (n, h', ib', bl'), st') ->
      last_post (trace st') = Some (qp_handle q, wrs, rc) ->
      mapM (gathered h') wrs = Some parts ->
      conn_step (Conn st h ib w rs rh rk ps str)
        (Conn st' h' ib' (if rc =? 0 then w ++ parts else w) rs rh rk ps
              (if n =? -1 then str else pushed str (concat bl)))
  | conn_complete st h ib w rs rh rk ps str fuel wk mm wk' st' :
      handle_tx_event fuel (memory_manager ib) wk st = (Ret (mm, wk'), st') ->
      conn_step (Conn st h ib w rs rh rk ps str)
        (Conn st' h (ib{{memory_manager := mm}}) w rs rh rk ps str)
  | conn_arrive st h ib d w rs rh rk ps1 p ps2 str w' :
      arrives mem pending rh p d (world rs) w' ->
      conn_step (Conn st h ib (d :: w) rs rh rk (ps1 ++ p :: ps2) str)
        (Conn st h ib w (mkSt w' (trace rs) (cells rs)) rh rk (ps1 ++ ps2) str)
  | conn_read st h ib w rs rh rk ps str fuel buf len n rh' buf' rk' rs' :
      zlen (messages (mem (world rs)) rh (pending (world rs))) < len <= zlen buf -> len < 2 ^ 62 ->
      (length (pending (world rs)) + 1 < fuel)%nat ->
      read fuel rh rk buf len rs = (Ret (n, rh', buf', rk'), rs') ->
      conn_step (Conn st h ib w rs rh rk ps str)
        (Conn st h ib w rs' rh' rk' ps (popped str (take (Z.to_nat n) buf'))).

Definition conn_steps : conn Ws Wr -> conn Ws Wr -> Prop := clos_refl_trans_1n _ conn_step.

(** ** The invariant *)

Definition conn_inv (c : conn Ws Wr) : Prop :=
  (exists pool, channel (memory_manager (tx_adapter c)) = Some pool /\ fresh_pool (tx_chunks c) pool) /\
  rx_buffers (rx_socket c) = [] /\ cs_cq (rx_socket c) = cq /\
  Forall (delivers (mem (world (rx_side c))) (rx_chunks c)) (pending (world (rx_side c))) /\
  NoDup (map wc_wr_id (pending (world (rx_side c))) ++ posted c) /\
  Forall (fresh_chunk (rx_chunks c)) (posted c) /\
  accepted_bytes (conn_stream c) = read_bytes (conn_stream c) ++ arrived c ++ concat (wire c).

Context (Hq : qp_qp (cs_qp s) = Some q) `{!CqAdapter Er (cq_cq cq) mem pending}.

(** What a [send] that returned did. *)
Lemma send_inv pool h ib bl (st : St Ws) n h' ib' bl' st' :
  channel (memory_manager ib) = Some pool -> fresh_pool h pool ->
  0 < zlen (concat bl) < 2 ^ 32 - 1 -> send ib h s bl st = (Ret (n, h', ib', bl'), st') ->
  (exists pool', channel (memory_manager ib') = Some pool' /\ fresh_pool h' pool') /\
  exists wrs rc parts, last_post (trace st') = Some (qp_handle q, wrs, rc) /\
    mapM (gathered h') wrs = Some parts /\ concat parts = concat bl /\
    n = if rc =? 0 then zlen (concat bl) else -1.
Proof.
  intros Hc Hpool Hn Hs.
  destruct (Z.le_gt_cases (zlen (concat bl)) (zlen (free_chunks pool) * chunk_size pool)) as [Hfit|Hbig].
  - pose proof (send_run ib h s bl st pool q Hc Hpool Hq Hn Hfit) as Hr.
    unfold returns in Hr. rewrite Hs in Hr.
    destruct Hr as (h2 & ib2 & tx & rest & wrs & parts & rc & Happ & _ & Hch & Ht & _ & Hg & Hcat & _ & Hsame & E).
    assert (Eh : h' = h2 /\ ib' = ib2 /\ n = if rc =? 0 then zlen (concat bl) else -1)
      by (destruct (rc =? 0); inversion E; auto).
    destruct Eh as (-> & -> & En). split.
    + eexists. split; [exact Hch|]. eapply fresh_pool_shrinks; eassumption.
    + exists wrs, rc, parts. rewrite Ht. auto.
  - pose proof (send_exhausted_run ib h s bl st pool Hc ltac:(apply Hpool) Hn Hbig) as Hu.
    rewrite Hs in Hu. discriminate Hu.
Qed.

Lemma message_zlen m h w : delivers m h w -> zlen (message m h w) = wc_byte_len w.
Proof.
  intros (_ & c & Hp & _ & _ & Hn & Hz). unfold message. rewrite Hp. apply zlen_take. lia.
Qed.

(** A request for more than what has arrived keeps no chunk. *)
Lemma kept_none m h ws len : forall n,
  Forall (delivers m h) ws -> n + zlen (messages m h ws) < len -> kept len n ws = [].
Proof.
  induction ws as [|w ws IH]; intros n Hd Hl; [reflexivity|]. apply Forall_cons in Hd as [Hw Hd].
  unfold messages in *. cbn [map concat kept] in *. rewrite zlen_app, message_zlen in Hl by exact Hw.
  pose proof (zlen_nonneg (concat (map (message m h) ws))).
  destruct (Z.leb_spec len (n + wc_byte_len w)); [lia|]. apply IH; [exact Hd|lia].
Qed.

(** Completions of other chunks are not affected by an arrival. *)
Lemma arrives_other h p d w w' ws :
  arrives mem pending h p d w w' -> p ∉ map wc_wr_id ws -> Forall (delivers (mem w) h) ws ->
  Forall (delivers (mem w') h) ws /\ messages (mem w') h ws = messages (mem w) h ws.
Proof.
  intros (_ & Hother & _) Hp Hd. induction Hd as [|x ws Hx Hd IH]; [split; [constructor|reflexivity]|].
  cbn [map] in Hp. apply not_elem_of_cons in Hp as [Hne Hp]. destruct (IH Hp) as [IH1 IH2].
  destruct Hx as (Hst & c & Hc & Hwf & Ho & Hn & Hz).
  pose proof (Hother _ _ (not_eq_sym Hne) Hc) as Em. split.
  - constructor; [|exact IH1]. split; [exact Hst|]. exists c. rewrite Em. auto.
  - unfold messages in *. cbn [map concat]. rewrite IH2. f_equal. unfold message. rewrite Hc, Em. reflexivity.
Qed.

Lemma arrives_delivers h p d w w' :
  arrives mem pending h p d w w' -> fresh_chunk h p ->
  let x := {| wc_wr_id := p; wc_status := IBV_WC_SUCCESS; wc_byte_len := zlen d |} in
  delivers (mem w') h x /\ message (mem w') h x = d.
Proof.
  intros ((c & Hc & Hd & Hz & Ht) & _) (c' & Hc' & Hwf & Ho) x. rewrite Hc in Hc'. injection Hc' as <-.
  split.
  - split; [reflexivity|]. exists c. pose proof (zlen_nonneg d).
    split; [exact Hc|]. split; [exact Hwf|]. split; [exact Ho|]. cbn [wc_byte_len x]. auto.
  - unfold message. cbn [wc_wr_id wc_byte_len x]. rewrite Hc. unfold zlen. rewrite Nat2Z.id. exact Ht.
Qed.

Lemma fresh_chunk_frame h h' ps ids :
  (forall p, p ∉ ids -> chunks h' !! p = chunks h !! p) -> NoDup (ids ++ ps) ->
  Forall (fresh_chunk h) ps -> Forall (fresh_chunk h') ps.
Proof.
  intros Hsame Hnd. rewrite !Forall_forall. intros Hf p Hp.
  apply NoDup_app in Hnd as (_ & Hdisj & _). destruct (Hf p Hp) as (c & Hc & Hrest).
  exists c. rewrite Hsame; [auto|]. intros Hin. exact (Hdisj p Hin Hp).
Qed.

(** A read that asks for more than has arrived returns it all. *)
Lemma read_all_step rs rh rk ps fuel buf len n rh' buf' rk' rs' :
  let ws := pending (world rs) in
  rx_buffers rk = [] -> cs_cq rk = cq -> Forall (delivers (mem (world rs)) rh) ws ->
  NoDup (map wc_wr_id ws ++ ps) -> Forall (fresh_chunk rh) ps ->
  zlen (messages (mem (world rs)) rh ws) < len <= zlen buf -> len < 2 ^ 62 ->
  (length ws + 1 < fuel)%nat -> read fuel rh rk buf len rs = (Ret (n, rh', buf', rk'), rs') ->
  take (Z.to_nat n) buf' = messages (mem (world rs)) rh ws /\ pending (world rs') = [] /\
  rx_buffers rk' = [] /\ cs_cq rk' = cq /\ Forall (fresh_chunk rh') ps.
Proof.
  intros ws Hrx Hcq Hd Hnd Hps Hlen Hmax Hf Hread.
  assert (A : CqAdapter Er (cq_cq (cs_cq rk)) mem pending) by (rewrite Hcq; assumption).
  pose proof (zlen_nonneg (messages (mem (world rs)) rh ws)) as Hnn.
  destruct (absorb_fresh (mem (world rs)) rh buf len ws Hd (proj1 (proj1 (NoDup_app _ _) Hnd)))
    as (r & Ha & En & Eb & Hk & Hsame); [lia|exact Hmax|].
  pose proof (whole_read_if Er mem pending fuel rh rk buf len rs (fresh_reading rh buf) r Hf) as Hr.
  rewrite Hrx in Hr. specialize (Hr eq_refl Ha ltac:(eapply delivers_successful, Hd)).
  apply (if_returns_elim _ _ _ _ _ Hr) in Hread as (-> & -> & -> & -> & Hcq' & _ & Hp & _).
  replace (take (Z.to_nat len) (messages (mem (world rs)) rh ws))
    with (messages (mem (world rs)) rh ws) in En, Eb
    by (symmetry; apply firstn_all2; unfold zlen in *; lia).
  rewrite En, Eb.
  split; [unfold zlen; rewrite Nat2Z.id; apply take_app_length|]. split; [exact Hp|].
  split; [rewrite Hk; apply (kept_none (mem (world rs)) rh); [exact Hd|lia]|].
  split; [congruence|]. eapply fresh_chunk_frame; [exact Hsame|exact Hnd|exact Hps].
Qed.

Lemma conn_step_inv a b :
  conn_step a b -> conn_inv a ->
  conn_inv b /\
  (conn_stream b = conn_stream a \/ stream_step (conn_stream a) (conn_stream b)).
Proof.
  intros Hstep ((pool & Hpool & Hfp) & Hrx & Hcq & Hd & Hnd & Hps & Hacc).
  destruct Hstep as [st h ib w rs rh rk ps str bl n h' ib' bl' st' wrs rc parts Hn Hs Hpost Hg
    |st h ib w rs rh rk ps str fuel wk mm wk' st' Hev
    |st h ib d w rs rh rk ps1 p ps2 str w' Harr
    |st h ib w rs rh rk ps str fuel buf len n rh' buf' rk' rs' Hlen Hmax Hf Hread];
    unfold conn_inv, arrived in *;
    cbn [tx_side tx_chunks tx_adapter wire rx_side rx_chunks rx_socket posted conn_stream] in *.
  - destruct (send_inv pool h ib bl st n h' ib' bl' st' Hpool Hfp Hn Hs)
      as (Hp' & wrs' & rc' & parts' & Hpost' & Hg' & Hcat & ->).
    rewrite Hpost in Hpost'. injection Hpost' as <- <-. rewrite Hg in Hg'. injection Hg' as <-.
    destruct (Z.eqb_spec rc 0); [|rewrite Z.eqb_refl; auto 10].
    destruct (Z.eqb_spec (zlen (concat bl)) (-1)); [lia|]. split.
    + do 6 (split; [assumption|]). cbn [pushed accepted_bytes read_bytes].
      rewrite Hacc, concat_app, Hcat, <- !app_assoc. reflexivity.
    + right. destruct str. apply stream_push.
  - split; [|auto]. split; [|auto 10]. exists pool. split; [|exact Hfp].
    pose proof (if_returns_elim _ _ _ _ _ (handle_tx_event_channel fuel (memory_manager ib) wk st) Hev) as E.
    cbn [fst] in E. change (memory_manager (ib{{memory_manager := mm}})) with mm. congruence.
  - split; [|auto]. cbn [world].
    assert (Hmove : map wc_wr_id (pending (world rs)) ++ ps1 ++ p :: ps2 ≡ₚ
                    (map wc_wr_id (pending (world rs)) ++ [p]) ++ ps1 ++ ps2)
      by (rewrite <- Permutation_middle, <- app_assoc; reflexivity).
    rewrite Hmove in Hnd. apply Forall_app in Hps as [Hps1 Hps2]. apply Forall_cons in Hps2 as [Hp Hps2].
    pose proof Hnd as Hnd'. apply NoDup_app in Hnd' as (Hnd1 & _). apply NoDup_app in Hnd1 as (_ & Hdisj & _).
    destruct (arrives_other rh p d (world rs) w' (pending (world rs)) Harr) as [Hd' Hmsg];
      [intros Hin; exact (Hdisj p Hin (list_elem_of_here _ _))|exact Hd|].
    destruct (arrives_delivers rh p d (world rs) w' Harr Hp) as [Hdx Hmx].
    destruct Harr as (_ & _ & Hpend). rewrite Hpend, map_app. cbn [map wc_wr_id].
    split; [eauto|]. split; [exact Hrx|]. split; [exact Hcq|].
    split; [apply Forall_app; auto|]. split; [exact Hnd|]. split; [apply Forall_app; auto|].
    rewrite Hacc. unfold messages. rewrite map_app, concat_app. fold (messages (mem w') rh (pending (world rs))).
    cbn [map concat]. rewrite Hmsg, Hmx, app_nil_r, <- !app_assoc. reflexivity.
  - destruct (read_all_step rs rh rk ps fuel buf len n rh' buf' rk' rs' Hrx Hcq Hd Hnd Hps Hlen Hmax Hf Hread)
      as (-> & Hp' & Hrx' & Hcq' & Hps').
    rewrite Hp'. cbn [popped accepted_bytes read_bytes map]. split.
    + split; [eauto|]. split; [exact Hrx'|]. split; [exact Hcq'|]. split; [constructor|].
      split; [apply NoDup_app in Hnd; apply Hnd|]. split; [exact Hps'|].
      rewrite Hacc, <- app_assoc. reflexivity.
    + right. destruct str as [ac rd]. cbn [accepted_bytes read_bytes popped] in *. rewrite Hacc. apply stream_pop.
Qed.

(** A connection at rest: nothing sent, nothing read, nothing under way, distinct
    fresh chunks on both sides. *)
Definition conn_start (c : conn Ws Wr) : Prop :=
  (exists pool, channel (memory_manager (tx_adapter c)) = Some pool /\ fresh_pool (tx_chunks c) pool) /\
  rx_buffers (rx_socket c) = [] /\ cs_cq (rx_socket c) = cq /\
  pending (world (rx_side c)) = [] /\ wire c = [] /\
  NoDup (posted c) /\ Forall (fresh_chunk (rx_chunks c)) (posted c) /\
  conn_stream c = {| accepted_bytes := []; read_bytes := [] |}.

Lemma conn_start_inv c : conn_start c -> conn_inv c.
Proof.
  intros (Hpool & Hrx & Hcq & Hp & Hw & Hnd & Hf & Hs). unfold conn_inv, arrived.
  rewrite Hp, Hw, Hs. cbn. auto 10.
Qed.

Lemma conn_steps_inv a b :
  conn_steps a b -> conn_inv a ->
  conn_inv b /\ stream_steps (conn_stream a) (conn_stream b).
Proof.
  induction 1 as [|x y z Hxy _ IH]; intros Hinv; [split; [exact Hinv|constructor]|].
  destruct (conn_step_inv x y Hxy Hinv) as [Hy Hstep]. destruct (IH Hy) as [Hz Hsteps].
  split; [exact Hz|]. destruct Hstep as [E|Hstep]; [rewrite <- E; exact Hsteps|].
  econstructor; eassumption.
Qed.
End Connection.

(** ** Properties *)

(** C3 A connection of the rdma/ stack whose reads always ask for more than has
    arrived is a first-in first-out byte stream: over any interleaving of sends of
    non-empty messages, accepted or refused by the adapter, of completions handled,
    of messages the reliable fabric brings into posted chunks, and of reads that
    return and ask for strictly more bytes than have arrived, starting from a
    connection at rest, the run is a run of the abstract stream - every send
    appends its bytes or nothing, every read returns the next bytes - and the bytes
    accepted are at any time the bytes read, then those that have arrived, then
    those on the wire: nothing is lost, repeated or reordered, across the cutting
    of messages into chunks. Nothing is assumed of when the channel has events. A
    read that asks for no more than has arrived is not a step: it keeps its last
    chunk, and later reads repeat bytes ([SocketRead.read_stale]), so that the
    connection is no stream any more. *)
Theorem connection_is_stream {Ws Wr} (Es : Env Ws) (Er : Env Wr) s q mem pending cq
    `{!CqAdapter Er (cq_cq cq) mem pending} (a b : conn Ws Wr) :
  qp_qp (cs_qp s) = Some q -> conn_start pending cq a ->
  conn_steps Es Er s q mem pending a b ->
  stream_steps (conn_stream a) (conn_stream b) /\
  accepted_bytes (conn_stream b) =
    read_bytes (conn_stream b) ++ arrived mem pending b ++ concat (wire b).
Proof.
  intros Hq Ha Hrun.
  destruct (conn_steps_inv Es Er s q mem pending cq Hq a b Hrun) as [Hinv Hsteps];
    [apply conn_start_inv, Ha|].
  split; [exact Hsteps|]. apply Hinv.
Qed.

(** ** Witness: six bytes in two messages, the first of which arrives and is read. *)

(** The world of a receiver: completions, and the blocks of memory written. *)
Record mailbox := { mb_pending : list ibv_wc; mb_blocks : list (Z * list Z) }.

Fixpoint block_at (bs : list (Z * list Z)) (a n : Z) : list Z :=
  match bs with
  | [] => replicate (Z.to_nat n) 0
  | (a', d) :: bs' => if a =? a' then d else block_at bs' a n
  end.

Definition mb_mem (w : mailbox) : Z -> Z -> list Z := block_at (mb_blocks w).

Definition mailbox_adapter : Env mailbox := fun c w =>
  match c return ret_of c * mailbox with
  | ibv_poll_cq _ n =>
      let k := Nat.min (Z.to_nat n) (length (mb_pending w)) in
      ((Z.of_nat k, take k (mb_pending w)),
       {| mb_pending := drop k (mb_pending w); mb_blocks := mb_blocks w |})
  | mem_load a n => (mb_mem w a n, w)
  | c => (success c 0, w)
  end.

#[export] Instance mailbox_adapter_cq cq : CqAdapter mailbox_adapter cq mb_mem mb_pending.
Proof.
  split; try (intros; reflexivity).
  - intros w n Hn. exists (Nat.min (Z.to_nat n) (length (mb_pending w))).
    split; [reflexivity|]. split; [reflexivity|]. split; [lia|].
    intros Hk. apply length_zero_iff_nil. lia.
  - intros c w _ Hc. destruct c; try reflexivity. discriminate Hc.
  - intros c w. destruct c; intros E; try discriminate E; reflexivity.
Qed.

Definition mb_start : St mailbox := mkSt {| mb_pending := []; mb_blocks := [] |} [] ∅.
Definition mb_full : mailbox :=
  {| mb_pending := [{| wc_wr_id := 2; wc_status := IBV_WC_SUCCESS; wc_byte_len := 4 |}];
     mb_blocks := [(104, [1; 2; 3; 4])] |}.

Definition no_stream : stream := {| accepted_bytes := []; read_bytes := [] |}.

Definition conn0 : conn nat mailbox :=
  Conn Mock.start sample_heap sample_ib [] mb_start sample_heap sample_socket [1; 2; 3] no_stream.

Definition sent_six := Eval vm_compute in
  send (H := all_succeed) sample_ib sample_heap sample_socket [[1; 2; 3]; [4; 5; 6]] Mock.start.

Definition read_four := Eval vm_compute in
  read (H := mailbox_adapter) 5 sample_heap sample_socket (replicate 8 0) 8
    (mkSt mb_full [] ∅).

Definition conn1 : conn nat mailbox :=
  match sent_six, read_four with
  | (Ret (_, h, ib, _), st), (Ret (_, rh, _, rk), rs) =>
      Conn st h ib [[5; 6]] rs rh rk [1; 3]
        {| accepted_bytes := [1; 2; 3; 4; 5; 6]; read_bytes := [1; 2; 3; 4] |}
  | _, _ => conn0
  end.

Lemma sample_fresh_chunks : Forall (fresh_chunk sample_heap) [1; 2; 3].
Proof.
  repeat constructor; eexists; (split; [reflexivity|]); (split; [|reflexivity]); repeat split; cbn; lia.
Qed.

Lemma conn0_start : conn_start mb_pending (cs_cq sample_socket) conn0.
Proof.
  split; [exists sample_pool; split; [reflexivity|exact sample_pool_fresh]|].
  split; [vm_compute; reflexivity|]. do 3 (split; [reflexivity|]).
  split; [apply (bool_decide_unpack (NoDup [1; 2; 3])); reflexivity|].
  split; [exact sample_fresh_chunks|reflexivity].
Qed.

Lemma two_arrives : arrives mb_mem mb_pending sample_heap 2 [1; 2; 3; 4] (world mb_start) mb_full.
Proof.
  split; [eexists; split; [reflexivity|]; repeat split; vm_compute; congruence|]. split; [|reflexivity].
  intros p c Hp Hc. unfold mb_mem. cbn [mb_blocks mb_full block_at].
  destruct (Z.eqb_spec (buffer c) 104) as [E|]; [exfalso|reflexivity].
  change (chunks sample_heap) with
    (list_to_map [(1, fresh4 100); (2, fresh4 104); (3, fresh4 108)] : gmap Z Chunk) in Hc.
  apply elem_of_list_to_map_2 in Hc. rewrite !elem_of_cons in Hc.
  destruct Hc as [Hc|[Hc|[Hc|Hc]]]; [injection Hc as -> ->; discriminate E| |
    injection Hc as -> ->; discriminate E|inversion Hc].
  injection Hc as -> ->. exact (Hp eq_refl).
Qed.

Lemma conn_run : conn_steps all_succeed mailbox_adapter sample_socket sample_qp mb_mem mb_pending conn0 conn1.
Proof.
  eapply Relation_Operators.rt1n_trans.
  { eapply (conn_send _ _ _ _ _ _ Mock.start sample_heap sample_ib [] mb_start sample_heap sample_socket
              [1; 2; 3] no_stream [[1; 2; 3]; [4; 5; 6]] 6 _ _ [] _ _ 0 [[1; 2; 3; 4]; [5; 6]]);
      [split; reflexivity|vm_compute; reflexivity..]. }
  eapply Relation_Operators.rt1n_trans.
  { eapply (conn_arrive _ _ _ _ _ _ _ _ _ [1; 2; 3; 4] [[5; 6]] mb_start sample_heap sample_socket
              [1] 2 [3] _ mb_full), two_arrives. }
  eapply Relation_Operators.rt1n_trans; [|apply Relation_Operators.rt1n_refl].
  let c := eval vm_compute in conn1 in change conn1 with c.
  apply (conn_read all_succeed mailbox_adapter sample_socket sample_qp mb_mem mb_pending
           _ _ _ [[5; 6]] (mkSt mb_full [] ∅) sample_heap sample_socket [1; 3]
           (pushed no_stream [1; 2; 3; 4; 5; 6]) 5 (replicate 8 0) 8 4
           _ [1; 2; 3; 4; 0; 0; 0; 0] _ _); [vm_compute; split; congruence|reflexivity|cbn; lia|].
  vm_compute. reflexivity.
Qed.

Example connection_is_stream_witness :
  stream_steps no_stream (conn_stream conn1) /\
  accepted_bytes (conn_stream conn1) = [1; 2; 3; 4] ++ [] ++ [5; 6].
Proof.
  destruct (connection_is_stream all_succeed mailbox_adapter sample_socket sample_qp mb_mem mb_pending
    (cs_cq sample_socket) conn0 conn1) as [Hs Ha];
    [vm_compute; reflexivity|exact conn0_start|exact conn_run|].
  split; [exact Hs|exact Ha].
Defined.
