(* ===== verification/Drivers.v ===== *)
(** The programs of debug/ that drive a session: xx.cpp (the client's test
    pattern, the server's receive loop and its check of the pattern), the memory
    of cpyread.cpp and regread.cpp ([init_mem], [move]), and [collect] of
    migration.cpp. *)
From S2P Require Import Prelude Verbs Mock Session.
Open Scope Z_scope.

(** [size_t bytes = size*iter]: an [int] product, undefined when it overflows. *)
Definition transfer_bytes (size iter : Z) : option Z :=
  let p := size * iter in
  if (- 2 ^ 31 <=? p) && (p <? 2 ^ 31) then Some (u64 p) else None.

(** [++ch; if(ch == 'Z'+1) ch = 'A';] *)
Definition next_upper (ch : Z) : Z := if ch + 1 =? 91 then 65 else ch + 1.

(** [if(ch == 'z') ch = 'a'; else ++ch;] *)
Definition next_lower (ch : Z) : Z := if ch =? 122 then 97 else ch + 1.

(** [while(index < bytes) { memset(ts+index,ch,width); index += width; ... }] *)
Fixpoint fill_loop (width : Z) (next : Z -> Z) (fuel : nat) (bytes index ch : Z) (ts : list Z)
  : outcome (list Z) :=
  if index <? bytes then
    match fuel with
    | O => OutOfFuel
    | S fuel =>
        match buf_write index (replicate (Z.to_nat width) ch) ts with
        | Some ts => fill_loop width next fuel bytes (index + width) (next ch) ts
        | None => Undef
        end
    end
  else Ret ts.

(** xx.cpp, [client]: the buffer [ts] ([None]: the [malloc] failed) and its filling. *)
Definition client_pattern (fuel : nat) (ts : option (list Z)) (size iter : Z) : outcome (list Z) :=
  match transfer_bytes size iter, ts with
  | Some bytes, Some ts => fill_loop 4 next_upper fuel bytes 0 65 ts
  | Some bytes, None => if 0 <? bytes then Undef else Ret []
  | None, _ => Undef
  end.

(** [s[0] == ch && s[0] == s[1] && s[0] == s[2] && s[0] == s[3]] with [s] at
    [cur]: each byte is read only when the ones before it were equal. *)
Definition same_group (ts : list Z) (cur : nat) (ch : Z) : option bool :=
  a ← ts !! cur;
  if negb (a =? ch) then Some false else
  b ← ts !! (cur + 1)%nat;
  if negb (a =? b) then Some false else
  c ← ts !! (cur + 2)%nat;
  if negb (a =? c) then Some false else
  d ← ts !! (cur + 3)%nat;
  Some (a =? d).

(** xx.cpp, [server]: the check of what was received. [Ret None]: the loop went
    through; [Ret (Some _)]: the report, at [cur], of fifteen bytes and the
    letter expected ([return 0]). *)
Fixpoint verify_loop (fuel : nat) (bytes cur ch : Z) (ts : list Z)
  : outcome (option (Z * list Z * Z)) :=
  if cur <? bytes then
    match fuel with
    | O => OutOfFuel
    | S fuel =>
        match same_group ts (Z.to_nat cur) ch with
        | Some true => verify_loop fuel bytes (cur + 4) (next_upper ch) ts
        | Some false =>
            match buf_read cur 15 ts with
            | Some chs => Ret (Some (cur, chs, ch))
            | None => Undef
            end
        | None => Undef
        end
    end
  else Ret None.

(** cpyread.cpp and regread.cpp: [init_mem] of [tg] bytes ([None]: the
    allocation failed, which is only logged). *)
Definition init_mem (fuel : nat) (mem : option (list Z)) (tg : Z) : outcome (list Z) :=
  match mem with
  | Some mem => fill_loop 128 next_lower fuel tg 0 97 mem
  | None => if 0 <? tg then Undef else Ret []
  end.

(** [move]: [memcpy(dest, src + cur % tg, size)]. *)
Definition move (tg : Z) (dest src : list Z) (cur size : Z) : option (list Z) :=
  d ← buf_read (u64 cur mod tg) size src; buf_write 0 d dest.

(** migration.cpp. *)
Definition RW_SIZE : Z := 1073741824.

Section Drivers.
Context {W : Type} `{Env W}.

(** xx.cpp, [server]: [while(cur<bytes) { rcnt=rs->read(ts+cur); cur+=rcnt; ... }];
    each [read] spins at most [spin] times over its completion queue. *)
Fixpoint server_recv_loop (fuel spin : nat) (s : session) (bytes cur : Z) (ts : list Z)
  : M (St W) (Z * list Z * session) :=
  if cur <? bytes then
    match fuel with
    | O => out_of_fuel
    | S fuel =>
        let* (rcnt, d, s) := Session.read spin s (drop (Z.to_nat cur) ts) in
        server_recv_loop fuel spin s bytes (cur + rcnt) (take (Z.to_nat cur) ts ++ d)
    end
  else ret (cur, ts, s).

(** [collect], from [ret = got]: standard input is read into the pool until its
    end, an error, or the pool is full. *)
Fixpoint collect_loop (fuel : nat) (limit got : Z) (pool : list Z) : M (St W) (Z * list Z) :=
  match fuel with
  | O => out_of_fuel
  | S fuel =>
      let* (tmp, bytes) := sys (sys_read 0 (limit - got)) in
      if 0 <? tmp then
        let* pool := deref (buf_write got (take (Z.to_nat tmp) bytes) pool) in
        collect_loop fuel limit (got + tmp) pool
      else ret (if tmp =? 0 then got else -1, pool)
  end.

Definition collect (fuel : nat) (pool : list Z) : M (St W) (Z * list Z) :=
  collect_loop fuel RW_SIZE 0 pool.
End Drivers.

(** ** The pattern *)

(** [k] groups of [width] equal letters, from the letter [ch] on. *)
Fixpoint groups (width : nat) (next : Z -> Z) (k : nat) (ch : Z) : list Z :=
  match k with
  | O => []
  | S k => replicate width ch ++ groups width next k (next ch)
  end.

Lemma groups_zlen width next k ch :
  zlen (groups width next k ch) = Z.of_nat width * Z.of_nat k.
Proof.
  revert ch. induction k as [|k IH]; intros ch; cbn [groups]; [unfold zlen; cbn; lia|].
  rewrite zlen_app, IH. unfold zlen. rewrite length_replicate. lia.
Qed.

(** The filling of a buffer of [k] groups: [k] turns, all in bounds. *)
Lemma fill_loop_run width next k :
  (0 < width)%nat -> forall done tl ch,
  zlen tl = Z.of_nat width * Z.of_nat k ->
  fill_loop (Z.of_nat width) next k (zlen done + zlen tl) (zlen done) ch (done ++ tl)
  = Ret (done ++ groups width next k ch).
Proof.
  intros Hw. induction k as [|k IH]; intros done tl ch Hz.
  - rewrite Z.mul_0_r in Hz. destruct tl; [|discriminate Hz]. cbn [fill_loop groups].
    rewrite zlen_nil, Z.add_0_r, Z.ltb_irrefl. reflexivity.
  - destruct (split_at width tl) as (old & post & -> & Hold); [unfold zlen in Hz; lia|].
    rewrite zlen_app in *. assert (zlen old = Z.of_nat width) by (unfold zlen; lia).
    cbn [fill_loop groups]. pose proof (zlen_nonneg post).
    destruct (Z.ltb_spec (zlen done) (zlen done + (zlen old + zlen post))); [|lia].
    rewrite Nat2Z.id, buf_write_app by (unfold zlen; rewrite length_replicate, Hold; reflexivity).
    specialize (IH (done ++ replicate width ch) post (next ch)).
    rewrite zlen_app in IH. replace (zlen (replicate width ch)) with (Z.of_nat width) in IH
      by (unfold zlen; rewrite length_replicate; reflexivity).
    rewrite <- !app_assoc in IH. rewrite <- IH by lia. f_equal; rewrite ?zlen_app; lia.
Qed.

(** A buffer that is not a whole number of groups is overrun by the last one. *)
Lemma fill_loop_overrun width next fuel :
  0 < width -> forall bytes index ch ts,
  zlen ts = bytes -> 0 <= index <= bytes -> (bytes - index) mod width <> 0 ->
  (Z.to_nat (bytes - index) <= fuel)%nat ->
  fill_loop width next fuel bytes index ch ts = Undef.
Proof.
  intros Hw. induction fuel as [|fuel IH]; intros bytes index ch ts Hts Hi Hm Hf;
    (assert (index < bytes)
      by (destruct (Z.eq_dec index bytes) as [Heq|]; [rewrite Heq, Z.sub_diag, Z.mod_0_l in Hm by lia; congruence|lia])); [lia|].
  cbn [fill_loop]. destruct (Z.ltb_spec index bytes); [|lia].
  destruct (buf_write _ _ ts) as [ts'|] eqn:E; [|reflexivity].
  pose proof (buf_write_zlen _ _ _ _ E) as Hz. apply buf_write_Some in E as [[_ Hb] _].
  assert (Hr : zlen (replicate (Z.to_nat width) ch) = width)
    by (unfold zlen; rewrite length_replicate; lia).
  rewrite Hr in Hb. apply IH; [lia|lia| |lia].
  replace (bytes - (index + width)) with (bytes - index + -1 * width) by lia.
  rewrite Z.mod_add by lia. exact Hm.
Qed.

Lemma same_group_spec pre g post ch :
  length g = 4%nat ->
  same_group (pre ++ g ++ post) (length pre) ch = Some true <-> g = replicate 4 ch.
Proof.
  destruct g as [|a [|b [|c [|d [|]]]]]; try discriminate. intros _. unfold same_group.
  rewrite !(lookup_app_r pre) by lia. rewrite Nat.sub_diag.
  replace (length pre + 1 - length pre)%nat with 1%nat by lia.
  replace (length pre + 2 - length pre)%nat with 2%nat by lia.
  replace (length pre + 3 - length pre)%nat with 3%nat by lia. cbn.
  destruct (Z.eqb_spec a ch), (Z.eqb_spec a b), (Z.eqb_spec a c), (Z.eqb_spec a d);
    cbn; (split; [intros [=]; congruence|intros [=]; congruence]).
Qed.

(** The check goes through on exactly the pattern. *)
Lemma verify_loop_run k : forall done tl ch,
  zlen tl = 4 * Z.of_nat k ->
  verify_loop k (zlen done + zlen tl) (zlen done) ch (done ++ tl) = Ret None
  <-> tl = groups 4 next_upper k ch.
Proof.
  induction k as [|k IH]; intros done tl ch Hz.
  - rewrite Z.mul_0_r in Hz. destruct tl; [|discriminate Hz]. cbn [verify_loop groups].
    rewrite zlen_nil, Z.add_0_r, Z.ltb_irrefl. tauto.
  - destruct (split_at 4 tl) as (g & post & -> & Hg); [unfold zlen in Hz; lia|].
    rewrite zlen_app in *. assert (Hg4 : zlen g = 4) by (unfold zlen; lia).
    cbn [verify_loop groups]. pose proof (zlen_nonneg post).
    destruct (Z.ltb_spec (zlen done) (zlen done + (zlen g + zlen post))); [|lia].
    replace (Z.to_nat (zlen done)) with (length done) by (unfold zlen; lia).
    pose proof (same_group_spec done g post ch Hg) as Hsame.
    destruct (same_group _ _ ch) as [[|]|].
    + destruct Hsame as [Hsame _]. rewrite (Hsame eq_refl) in *. clear Hsame g Hg.
      specialize (IH (done ++ replicate 4 ch) post (next_upper ch)).
      rewrite zlen_app, Hg4, <- app_assoc in IH.
      rewrite Hg4, Z.add_assoc, IH by lia. split; [congruence|apply app_inv_head].
    + split; [destruct (buf_read _ _ _); discriminate|]. intros E.
      apply app_inj_1 in E as [E _]; [|exact Hg]. apply Hsame in E. discriminate.
    + split; [discriminate|]. intros E.
      apply app_inj_1 in E as [E _]; [|exact Hg]. apply Hsame in E. discriminate.
Qed.

Lemma transfer_bytes_small size iter :
  0 <= size * iter < 2 ^ 31 -> transfer_bytes size iter = Some (size * iter).
Proof.
  intros Hb. unfold transfer_bytes.
  destruct (Z.leb_spec (- 2 ^ 31) (size * iter)); [|lia].
  destruct (Z.ltb_spec (size * iter) (2 ^ 31)); [|lia]. cbn. rewrite u64_small by lia. reflexivity.
Qed.

(** The filling terminates in bounds, and the check accepts its result alone. *)
Lemma pattern_run size iter junk :
  0 <= size * iter < 2 ^ 31 -> (size * iter) mod 4 = 0 -> zlen junk = size * iter ->
  let turns := Z.to_nat (size * iter / 4) in
  exists filled, client_pattern turns (Some junk) size iter = Ret filled /\
    zlen filled = size * iter /\
    forall received, zlen received = size * iter ->
      verify_loop turns (size * iter) 0 65 received = Ret None <-> received = filled.
Proof.
  intros Hb Hm Hj turns.
  assert (Ht : size * iter = 4 * Z.of_nat turns).
  { unfold turns. rewrite Z2Nat.id by (apply Z.div_pos; lia). Z.div_mod_to_equations. lia. }
  exists (groups 4 next_upper turns 65). split; [|split].
  - unfold client_pattern. rewrite transfer_bytes_small by exact Hb.
    pose proof (fill_loop_run 4 next_upper turns ltac:(lia) [] junk 65) as E.
    rewrite zlen_nil, Z.add_0_l, Hj in E. apply E. lia.
  - rewrite groups_zlen. lia.
  - intros received Hr. pose proof (verify_loop_run turns [] received 65) as E.
    rewrite zlen_nil, Z.add_0_l, Hr in E. apply E. lia.
Qed.

(** C24 The test of xx.cpp is a test of equality: for a transfer of a whole number
    of four byte groups the client's filling loop terminates within its buffer,
    and the server's check of the bytes received terminates without a report
    exactly when they are the bytes the client filled in. *)
Theorem pattern_verified size iter junk received :
  0 <= size * iter < 2 ^ 31 -> (size * iter) mod 4 = 0 ->
  zlen junk = size * iter -> zlen received = size * iter ->
  let turns := Z.to_nat (size * iter / 4) in
  exists sent, client_pattern turns (Some junk) size iter = Ret sent /\
    zlen sent = size * iter /\
    (verify_loop turns (size * iter) 0 65 received = Ret None <-> received = sent).
Proof.
  intros Hb Hm Hj Hr turns. destruct (pattern_run size iter junk Hb Hm Hj) as (sent & Hs & Hz & Hv).
  exists sent. split; [exact Hs|]. split; [exact Hz|]. apply Hv, Hr.
Qed.

(** Otherwise the client's last [memset] runs off the end of its buffer. *)
Theorem client_pattern_overrun size iter junk fuel :
  0 <= size * iter < 2 ^ 31 -> (size * iter) mod 4 <> 0 ->
  zlen junk = size * iter -> (Z.to_nat (size * iter) <= fuel)%nat ->
  client_pattern fuel (Some junk) size iter = Undef.
Proof.
  intros Hb Hm Hj Hf. unfold client_pattern. rewrite transfer_bytes_small by exact Hb.
  apply fill_loop_overrun; rewrite ?Z.sub_0_r; lia.
Qed.

(** [init_mem] fills the memory with 128 byte groups of the letters. *)
Theorem init_mem_fills k mem :
  zlen mem = 128 * Z.of_nat k ->
  init_mem k (Some mem) (128 * Z.of_nat k) = Ret (groups 128 next_lower k 97).
Proof.
  intros Hm. pose proof (fill_loop_run 128 next_lower k ltac:(lia) [] mem 97 Hm) as E.
  rewrite zlen_nil, Z.add_0_l, Hm in E. exact E.
Qed.

(** [move] copies the next block of the memory, cyclically, when the block size
    divides the size of the memory. *)
Theorem move_block tg dest src cur size :
  0 < size -> zlen src = tg -> 0 < tg < 2 ^ 63 -> tg mod size = 0 ->
  0 <= cur < 2 ^ 63 -> cur mod size = 0 -> size = zlen dest ->
  move tg dest src cur size = Some (slice (cur mod tg) size src).
Proof.
  intros Hs Hsrc Htg Hd Hc Hcm Hdest. unfold move. rewrite u64_small by lia.
  pose proof (Z.mod_pos_bound cur tg ltac:(lia)) as Hb.
  assert (Hm : (cur mod tg) mod size = 0).
  { apply Z.mod_divide in Hd as [q ->]; [|lia]. rewrite (Z.mul_comm q), Z.rem_mul_r by nia.
    rewrite Hcm, Z.add_0_l, (Z.mul_comm size). apply Z.mod_mul. lia. }
  assert (cur mod tg + size <= tg).
  { apply Z.mod_divide in Hd as [q ->]; [|lia]. apply Z.mod_divide in Hm as [r Hr]; [|lia].
    assert (r < q) by nia. nia. }
  rewrite buf_read_in by lia. cbn [mbind option_bind].
  rewrite buf_write_full; [reflexivity|]. rewrite zlen_slice by lia. exact Hdest.
Qed.

Section DriverSpec.
Context {W : Type} `{Env W}.

(** The server of xx.cpp never leaves its receive loop: [read] delivers nothing. *)
Theorem server_never_receives fuel spin s c slots bytes ts st :
  s_ctx s = Some c -> recv_mem s = Some slots ->
  0 <= s_recv_index s < s_recv_nums s -> s_recv_nums s <= zlen (slot_addrs slots) ->
  0 < bytes -> fst (server_recv_loop fuel spin s bytes 0 ts st) = OutOfFuel.
Proof.
  intros Hc Hm Hi Hn Hb. revert st. induction fuel as [|fuel IH]; intros st; cbn [server_recv_loop];
    (destruct (Z.ltb_spec 0 bytes); [|lia]); [reflexivity|].
  destruct (returns_inv _ _ _ (read_run spin s c slots (drop (Z.to_nat 0) ts) st Hc Hm Hi Hn))
    as (r & st' & E & -> & _).
  unfold bind. rewrite E. apply IH.
Qed.

(** [read(2)] answers at most what it was asked for, with as many bytes. *)
Class ReadEnv : Prop := read_answers : forall fd len w,
  let r := fst (ext (sys_read fd len) w) in
  fst r <= Z.max 0 len /\ (0 < fst r -> zlen (snd r) = fst r).

(** [collect] terminates, at the latest when the pool is full, without leaving
    it; its answer is -1 or the number of bytes collected, and the pool is
    untouched behind them. *)
Theorem collect_terminates `{!ReadEnv} limit pool st : forall fuel got,
  0 <= got <= limit -> zlen pool = limit -> limit - got < Z.of_nat fuel ->
  returns (collect_loop fuel limit got pool) st (fun r _ =>
    zlen (snd r) = limit /\
    (fst r = -1 \/ got <= fst r <= limit /\
       take (Z.to_nat got) (snd r) = take (Z.to_nat got) pool /\
       drop (Z.to_nat (fst r)) (snd r) = drop (Z.to_nat (fst r)) pool)).
Proof.
  intros fuel. revert pool st. induction fuel as [|fuel IH]; intros pool st got Hg Hp Hf; [lia|].
  cbn [collect_loop]. apply returns_bind, returns_sys. intros [tmp bytes] w E.
  pose proof (read_answers 0 (limit - got) (world st)) as Ha. rewrite E in Ha. cbn [fst snd] in Ha.
  destruct Ha as [Hle Hlen]. destruct (Z.ltb_spec 0 tmp) as [Ht|Ht].
  - rewrite firstn_all2 by (specialize (Hlen Ht); unfold zlen in Hlen; lia).
    specialize (Hlen Ht). destruct (buf_write got bytes pool) as [pool'|] eqn:Ew.
    2:{ unfold buf_write in Ew. destruct (in_bounds got (zlen bytes) pool) eqn:Eb; [discriminate|].
        enough (in_bounds got (zlen bytes) pool = true) by congruence.
        apply in_bounds_spec. lia. }
    pose proof (buf_write_zlen _ _ _ _ Ew) as Hz. cbn [deref]. apply returns_bind, returns_ret.
    eapply returns_conseq; [apply IH; lia|]. intros [n p] s'. cbn [fst snd].
    intros [Hp' [->|(Hn & Htk & Hdr)]]; (split; [exact Hp'|]); [left; reflexivity|right].
    split; [lia|]. apply buf_write_Some in Ew as [_ Ew]. split.
    + apply (f_equal (take (Z.to_nat got))) in Htk. rewrite !take_take in Htk.
      rewrite !Nat.min_l in Htk by lia. rewrite Htk, Ew.
      rewrite take_app_le by (rewrite length_take; unfold zlen in *; lia).
      rewrite take_take, Nat.min_id. reflexivity.
    + rewrite Hdr, Ew. rewrite drop_app_ge by (rewrite length_take; lia).
      rewrite drop_app_ge by (rewrite length_take; unfold zlen in *; lia).
      rewrite drop_drop. f_equal. rewrite length_take. unfold zlen in *. lia.
  - apply returns_ret. cbn [fst snd]. split; [exact Hp|].
    destruct (Z.eqb_spec tmp 0); [right|left]; auto. split; [lia|]. auto.
Qed.
End DriverSpec.

Example pattern_verified_witness :
  exists sent, client_pattern 27 (Some (replicate 108 7)) 12 9 = Ret sent /\ zlen sent = 108 /\
    (verify_loop 27 108 0 65 (groups 4 next_upper 27 65) = Ret None <->
     groups 4 next_upper 27 65 = sent).
Proof.
  apply (pattern_verified 12 9 (replicate 108 7) (groups 4 next_upper 27 65)); [lia|reflexivity..].
Defined.
