(* ===== verification/Transfer.v ===== *)
(** debug/xx.cpp as a whole: the client that sends its pattern through a session
    one block at a time, the server that receives and checks it. *)
From Stdlib Require Import String.
From coqutil Require Import Datatypes.RecordSetters.
From S2P Require Import Prelude CText Gid Verbs Mock ExchDest RdmaContext RdmaOps RwExchange.
From S2P Require Import RdmaConnect Session SessionBulk Drivers.
From stdpp Require Import gmap.
Open Scope Z_scope.
Import DoubleBraceUpdate.

(** The parameters both ends pass. *)
Definition xx_params (dev : list Z) (size iter : Z) : init_params :=
  zero_params{{p_gidx := 0; p_ib_devname := Some dev; p_sr := 1; p_rx_depth := iter;
               p_mem_size := size}}.

Section Xx.
Context {W : Type} `{Env W} (fuel : nat).

(** [memcpy(dest, ts + cur, size)] with [dest] the registered send buffer. *)
Definition load_block (m : rdma_mem) (ts : list Z) (cur size : Z) : M (St W) unit :=
  let* d := deref (buf_read cur size ts) in
  if RdmaContext.size m <? size then undef else sys (mem_store (buf m) d).

(** [while (cur < bytes)]: the completion of the block before is awaited, the next
    one is copied and sent; the result of this [send] is not looked at. *)
Fixpoint client_loop (n : nat) (rs : session) (m : rdma_mem) (task : rdma_task)
    (size bytes cur : Z) (ts : list Z) : M (St W) (Z * session) :=
  if cur <? bytes then
    match n with
    | O => out_of_fuel
    | S n =>
        let* c := deref (s_ctx rs) in
        let* (r, w) := rdma_query_cq fuel c (send_wc rs) 1 1 in
        let rs := rs{{send_wc := w}} in
        if r =? -1 then ret (1, rs) else
        load_block m ts cur size ;;;
        send_task rs task ;;;
        client_loop n rs m task size bytes (u64 (cur + size)) ts
    end
  else ret (0, rs).

(** [client] from [struct rdma_task task] to the end of the loop, the filled
    buffer given: 1 is an early [return 1]. *)
Definition client_transfer (n : nat) (rs : session) (size bytes : Z) (ts : list Z)
  : M (St W) (Z * session) :=
  let* m := deref (send_mem rs) in
  let task := {| mem := Some m; opcode := IBV_WR_SEND; tsize := size; trkey := 0;
                 remote_addr := 0; tid := 0 |} in
  load_block m ts 0 size ;;;
  let* r := send_task rs task in
  if negb (r =? 0) then ret (1, rs) else
  client_loop n rs m task size bytes (u64 size) ts.

(** A computation without effects. *)
Definition lift {A} (o : outcome A) : M (St W) A := fun s => (o, s).

(** [client]: [None] is the end of the function, which has no [return]. [ts_mem] is
    what the allocated buffer holds at first. *)
Definition client (e : endian) (l : locals) (junk tmp : list Z) (fresh : window) (junk_wc : ibv_wc)
    (uninit : session) (servername : list Z) (size iter : Z) (ts_mem : list Z)
  : M (St W) (option Z) :=
  let* dev := get_device (chars "Ethernet") in
  let* rs := new_client_session fuel e l junk tmp fresh junk_wc uninit servername
               (xx_params dev size iter) in
  let* bytes := deref (transfer_bytes size iter) in
  let* p := sys (malloc (Bytes bytes)) in
  let* ts := lift (client_pattern fuel
                     (if p =? 0 then None else Some (take (Z.to_nat bytes) ts_mem)) size iter) in
  let* (r, rs) := client_transfer fuel rs size bytes ts in
  if negb (r =? 0) then ret (Some r) else
  close rs ;;; ret None.

(** [server]: [Some 0] when the check failed, [None] at its end. *)
Definition server (e : endian) (l : locals) (junk tmp : list Z) (fresh : window) (junk_wc : ibv_wc)
    (uninit : session) (size iter : Z) : M (St W) (option Z) :=
  let* dev := get_device (chars "Ethernet") in
  let* (rs, _) := Session.accept fuel e l junk tmp fresh junk_wc uninit 18185
                    (Some (xx_params dev size iter)) in
  let* bytes := deref (transfer_bytes size iter) in
  let* p := sys (malloc (Bytes bytes)) in
  if (p =? 0) && (0 <? bytes) then undef else
  let* (_, ts, rs) := server_recv_loop fuel fuel rs bytes 0 (replicate (Z.to_nat bytes) 97) in
  let* wrong := lift (verify_loop fuel bytes 0 65 ts) in
  match wrong with
  | Some _ => ret (Some 0)
  | None => close rs ;;; ret None
  end.
End Xx.

(** ** What was sent, from the trace *)

(** The last data the program stored at an address. *)
Fixpoint stored_at (a : Z) (tr : list event) : list Z :=
  match tr with
  | [] => []
  | Ev (mem_store a' d) _ :: tr' => if a' =? a then d else stored_at a tr'
  | _ :: tr' => stored_at a tr'
  end.

(** The bytes of a one piece send request posted after [tr]. *)
Definition sent_bytes (tr : list event) (w : ibv_send_wr) : list Z :=
  match sw_opcode w, sw_sg_list w with
  | IBV_WR_SEND, [g] => take (Z.to_nat (sge_length g)) (stored_at (sge_addr g) tr)
  | _, _ => []
  end.

(** The messages queue pair [h] has accepted, oldest first. *)
Fixpoint sent (h : Z) (tr : list event) : list (list Z) :=
  match tr with
  | [] => []
  | Ev c r :: tr' =>
      sent h tr' ++
      (match c return ret_of c -> list (list Z) with
       | ibv_post_send q wrs =>
           fun rc => if (q =? h) && (rc =? 0) then map (sent_bytes tr') wrs else []
       | _ => fun _ => []
       end) r
  end.

(** Requests accepted by queue pair [h] whose completion has not been polled
    from the queue [cq]. *)
Fixpoint in_flight (h cq : Z) (tr : list event) : Z :=
  match tr with
  | [] => 0
  | Ev c r :: tr' =>
      in_flight h cq tr' +
      (match c return ret_of c -> Z with
       | ibv_post_send q wrs => fun rc => if (q =? h) && (rc =? 0) then zlen wrs else 0
       | ibv_poll_cq q _ => fun r => if q =? cq then - zlen (snd r) else 0
       | _ => fun _ => 0
       end) r
  end.

(** No store to the memory at [a] was made while a request was in flight: the
    adapter never reads a buffer that is being written. *)
Fixpoint quiet (h cq a : Z) (tr : list event) : Prop :=
  match tr with
  | [] => True
  | Ev c r :: tr' =>
      quiet h cq a tr' /\
      (match c with mem_store a' _ => a' = a -> in_flight h cq tr' = 0 | _ => True end)
  end.

Section Xfer.
Context {W : Type} {E : Env W} (q cq : Z) {A : Adapter E q cq}.

(** Between two states: the messages sent, the balance between the adapter's and
    the trace's count of outstanding requests, and the stores to [a]. *)
Definition moved (a : Z) (s s' : St W) (ms : list (list Z)) : Prop :=
  sent q (trace s') = sent q (trace s) ++ ms /\
  outstanding (world s') - in_flight q cq (trace s') = outstanding (world s) - in_flight q cq (trace s) /\
  (quiet q cq a (trace s) -> quiet q cq a (trace s')).

Lemma moved_refl a s : moved a s s [].
Proof. split; [rewrite app_nil_r; reflexivity|auto]. Qed.

Lemma moved_trans a s1 s2 s3 m1 m2 : moved a s1 s2 m1 -> moved a s2 s3 m2 -> moved a s1 s3 (m1 ++ m2).
Proof.
  intros (A1 & A2 & A3) (B1 & B2 & B3). split; [rewrite B1, A1, app_assoc; reflexivity|].
  split; [lia|auto].
Qed.

(** Polling moves completions only, and leaves what is stored. *)
Lemma poll_loop_moved a n wc fuel : 0 < n -> forall st,
  if_returns (poll_loop fuel false cq n wc) st (fun _ st' =>
    moved a st st' [] /\ stored_at a (trace st') = stored_at a (trace st)).
Proof.
  intros Hn. revert wc. induction fuel as [|fuel IH]; intros wc st; [exact I|]. cbn [poll_loop].
  apply if_returns_bind, if_returns_sys. intros [ne cs] w Ew.
  pose proof (ad_poll n (world st) Hn) as Hp. cbv zeta in Hp. rewrite Ew in Hp.
  destruct Hp as (Hlen & _ & _ & Hout & _).
  set (st1 := mkSt _ _ _).
  assert (M1 : moved a st st1 [] /\ stored_at a (trace st1) = stored_at a (trace st)).
  { subst st1. split; [|reflexivity]. split; [reflexivity|]. cbn [trace world sent in_flight quiet snd].
    rewrite Z.eqb_refl. split; [lia|auto]. }
  destruct (ne <? 0); [apply if_returns_ret; exact M1|].
  apply if_returns_bind, if_returns_deref. intros wc' _.
  destruct (negb false && (ne <? 1)); [|apply if_returns_ret; exact M1].
  eapply if_returns_conseq; [apply IH|]. intros x st' [M2 S2]. destruct M1 as [M1 S1].
  split; [exact (moved_trans _ _ _ _ _ _ M1 M2)|congruence].
Qed.

Lemma query_moved a fuel c w st :
  send_cq c = cq ->
  if_returns (rdma_query_cq fuel c w 1 1) st (fun _ st' =>
    moved a st st' [] /\ stored_at a (trace st') = stored_at a (trace st)).
Proof.
  intros Hcq. unfold rdma_query_cq. change ((1 =? 1) || (1 =? 2)) with true. cbn iota.
  rewrite Hcq. change (1 =? 1) with true. cbn iota.
  apply if_returns_bind, if_returns_ret. cbn [negb]. apply if_returns_bind.
  eapply if_returns_conseq; [apply (poll_loop_moved a 1 w fuel); lia|].
  intros [[ne|] w'] st' Hm; [|apply if_returns_ret; exact Hm].
  apply if_returns_bind, if_returns_deref. intros ok _. destruct ok; apply if_returns_ret; exact Hm.
Qed.

(** One completion is awaited. *)
Lemma query_one_run a fuel c w st :
  send_cq c = cq -> 0 < zlen w -> (max_delay < fuel)%nat -> outstanding (world st) = 1 ->
  returns (rdma_query_cq fuel c w 1 1) st (fun r st' => exists w',
    r = (1, w') /\ zlen w' = zlen w /\ outstanding (world st') = 0 /\
    moved a st st' [] /\ stored_at a (trace st') = stored_at a (trace st)).
Proof.
  intros Hcq Hw Hf Ho.
  assert (R : returns (rdma_query_cq fuel c w 1 1) st (fun r st' => exists w',
    r = (1, w') /\ zlen w' = zlen w /\ outstanding (world st') = 0)).
  { unfold rdma_query_cq. change ((1 =? 1) || (1 =? 2)) with true. cbn iota.
    rewrite Hcq. change (1 =? 1) with true. cbn iota.
    apply returns_bind, returns_ret. cbn [negb]. apply returns_bind.
    eapply returns_conseq.
    { apply (poll_loop_run q cq 1 w); [lia| |lia]. pose proof (delay_bounded (world st)). lia. }
    intros r st1 (ne & cs & -> & Hne & Hl & Hok & _ & (_ & _ & Hout)).
    rewrite (check_wc_spec cs _ (Z.to_nat ne) 0) by (unfold zlen in Hl; lia).
    rewrite drop_0, Hok. apply returns_bind, returns_ret, returns_ret.
    eexists. split; [f_equal; lia|]. split; [unfold zlen in *; rewrite length_app, length_drop; lia|lia]. }
  apply returns_inv in R as (r & st' & Erun & w' & -> & Hw' & Ho').
  eapply returns_intro; [exact Erun|]. exists w'.
  pose proof (if_returns_elim _ _ _ _ _ (query_moved a fuel c w st Hcq) Erun) as [M S]. auto.
Qed.

(** One block is stored, with nothing in flight. *)
Lemma load_block_run m ts cur size st :
  0 <= cur -> 0 <= size -> cur + size <= zlen ts -> size <= RdmaContext.size m ->
  in_flight q cq (trace st) = 0 ->
  returns (load_block m ts cur size) st (fun _ st' =>
    stored_at (buf m) (trace st') = slice cur size ts /\ moved (buf m) st st' [] /\
    outstanding (world st') = outstanding (world st)).
Proof.
  intros Hc Hs Hfit Hm Hin. unfold load_block. rewrite buf_read_in by lia.
  apply returns_bind, returns_ret. destruct (Z.ltb_spec (RdmaContext.size m) size); [lia|].
  refine (returns_sys (mem_store (buf m) (slice cur size ts)) st _ _). intros u w E1.
  pose proof (ad_mem_store (buf m) (slice cur size ts) (world st)) as Ho.
  rewrite E1 in Ho. cbn [snd] in Ho. cbn [trace world]. split; [cbn; rewrite Z.eqb_refl; reflexivity|].
  split; [|exact Ho]. split; [reflexivity|]. cbn [trace world in_flight quiet]. split; [lia|auto].
Qed.

(** One message is posted. *)
Lemma send_block_run rs c qp0 m size d st :
  s_ctx rs = Some c -> qp c = Some qp0 -> qp_handle qp0 = q -> 0 <= size < 2 ^ 32 ->
  stored_at (buf m) (trace st) = d -> zlen d = size ->
  returns (send_task rs {| mem := Some m; opcode := IBV_WR_SEND; tsize := size; trkey := 0;
                           remote_addr := 0; tid := 0 |}) st (fun r st' =>
    r = 0 /\ moved (buf m) st st' [d] /\ outstanding (world st') = outstanding (world st) + 1).
Proof.
  intros Hc Hq Hh Hs Hd Hz. unfold send_task. rewrite Hc. apply returns_bind, returns_ret.
  unfold rdma_post_send, send_wr. cbn [mem mbind option_bind opcode tid tsize].
  rewrite bool_decide_eq_true_2 by reflexivity. apply returns_bind, returns_ret. rewrite Hq.
  apply returns_bind, returns_ret. rewrite Hh. set (wrs := [_]). apply returns_bind, returns_sys.
  intros rc w E1. destruct (ad_post_send wrs (world st)) as [Hr Ho]. rewrite E1 in Hr, Ho.
  cbn [fst snd] in Hr, Ho. subst rc. apply returns_ret. split; [reflexivity|]. split; [|exact Ho].
  split; [|cbn [trace world in_flight quiet]; rewrite !Z.eqb_refl; cbn [andb]; split; [lia|auto]].
  cbn [trace sent]. rewrite !Z.eqb_refl. cbn [andb map wrs]. f_equal. f_equal.
  unfold sent_bytes. cbn [sw_opcode sw_sg_list sge_length sge_addr]. rewrite u32_small, Hd by lia.
  apply firstn_all2. unfold zlen in Hz. lia.
Qed.

(** The blocks of [size] bytes from [cur] on. *)
Definition blocks (ts : list Z) (cur size : Z) (k : nat) : list (list Z) :=
  map (fun i => slice (cur + Z.of_nat i * size) size ts) (seq 0 k).

Lemma blocks_S ts cur size k :
  blocks ts cur size (S k) = slice cur size ts :: blocks ts (cur + size) size k.
Proof.
  unfold blocks. cbn [seq map]. rewrite Z.mul_0_l, Z.add_0_r. f_equal.
  rewrite <- seq_shift, map_map. apply map_ext. intros i. f_equal. lia.
Qed.

Lemma blocks_concat ts size k : forall cur,
  0 <= cur -> 0 <= size -> cur + Z.of_nat k * size <= zlen ts ->
  concat (blocks ts cur size k) = slice cur (Z.of_nat k * size) ts.
Proof.
  induction k as [|k IH]; intros cur Hc Hs Hfit; [cbn; rewrite slice_0; reflexivity|].
  rewrite blocks_S. cbn [concat]. rewrite IH by lia. rewrite slice_app by nia. f_equal. lia.
Qed.

Lemma client_loop_run fuel c qp0 m size ts : 0 < size < 2 ^ 32 -> size <= RdmaContext.size m ->
  qp c = Some qp0 -> qp_handle qp0 = q -> send_cq c = cq -> (max_delay < fuel)%nat ->
  forall k rs cur st, s_ctx rs = Some c -> 0 < zlen (send_wc rs) ->
  0 <= cur -> cur + Z.of_nat k * size = zlen ts -> zlen ts < 2 ^ 31 ->
  outstanding (world st) = 1 -> in_flight q cq (trace st) = 1 ->
  returns (client_loop fuel k rs m {| mem := Some m; opcode := IBV_WR_SEND; tsize := size; trkey := 0;
                                      remote_addr := 0; tid := 0 |} size (zlen ts) cur ts) st
    (fun r st' => fst r = 0 /\ moved (buf m) st st' (blocks ts cur size k) /\
                  outstanding (world st') = 1).
Proof.
  intros Hs Hm Hq Hh Hcq Hf. induction k as [|k IH]; intros rs cur st Hc Hw Hcur Hts Hmax Ho Hin;
    cbn [client_loop]; destruct (Z.ltb_spec cur (zlen ts)); try lia.
  - apply returns_ret. split; [reflexivity|]. split; [apply moved_refl|exact Ho].
  - rewrite Hc. apply returns_bind, returns_ret, returns_bind.
    eapply returns_conseq; [apply (query_one_run (buf m) fuel c (send_wc rs) st Hcq Hw Hf Ho)|].
    intros r st1 (w & -> & Hw' & Ho1 & M1 & _). change (1 =? -1) with false. cbn iota.
    destruct (M1) as (_ & B1 & _).
    assert (Hc1 : s_ctx (rs{{send_wc := w}}) = Some c) by exact Hc.
    assert (Hw1 : 0 < zlen (send_wc (rs{{send_wc := w}}))) by (change (0 < zlen w); lia).
    set (rs1 := rs{{send_wc := w}}) in *. apply returns_bind.
    eapply returns_conseq; [apply (load_block_run m ts cur size st1); lia|].
    intros [] st2 (S2 & M2 & Ho2). apply returns_bind.
    eapply returns_conseq.
    { apply (send_block_run rs1 c qp0 m size _ st2 Hc1 Hq Hh ltac:(lia) S2).
      apply zlen_slice; lia. }
    intros r st3 (-> & M3 & Ho3). destruct M2 as (A2 & B2 & C2). destruct (M3) as (_ & B3 & _).
    rewrite u64_small by lia.
    eapply returns_conseq.
    { apply (IH rs1 (cur + size) st3 Hc1 Hw1); lia. }
    intros r st4 (Er & M4 & Ho4). split; [exact Er|]. split; [|exact Ho4]. rewrite blocks_S.
    exact (moved_trans _ _ _ _ _ _ (moved_trans _ _ _ _ _ _ (moved_trans _ _ _ _ _ _ M1
             (conj A2 (conj B2 C2))) M3) M4).
Qed.

(** The whole transfer, of at least one block. *)
Lemma client_transfer_run fuel c qp0 m size ts k rs st :
  0 < size < 2 ^ 32 -> size <= RdmaContext.size m -> send_mem rs = Some m ->
  s_ctx rs = Some c -> qp c = Some qp0 -> qp_handle qp0 = q -> send_cq c = cq ->
  0 < zlen (send_wc rs) -> (max_delay < fuel)%nat ->
  Z.of_nat (S k) * size = zlen ts -> zlen ts < 2 ^ 31 ->
  outstanding (world st) = 0 -> in_flight q cq (trace st) = 0 ->
  returns (client_transfer fuel k rs size (zlen ts) ts) st
    (fun r st' => fst r = 0 /\ moved (buf m) st st' (blocks ts 0 size (S k)) /\
                  outstanding (world st') = 1).
Proof.
  intros Hs Hm Hsm Hc Hq Hh Hcq Hw Hf Hts Hmax Ho Hin. unfold client_transfer. rewrite Hsm.
  apply returns_bind, returns_ret, returns_bind.
  eapply returns_conseq; [apply (load_block_run m ts 0 size st); lia|].
  intros [] st1 (S1 & M1 & Ho1). apply returns_bind.
  eapply returns_conseq.
  { apply (send_block_run rs c qp0 m size _ st1 Hc Hq Hh ltac:(lia) S1). apply zlen_slice; lia. }
  intros r st2 (-> & M2 & Ho2). cbn [Z.eqb negb]. destruct (M1) as (_ & B1 & _). destruct (M2) as (_ & B2 & _).
  rewrite u64_small by lia. eapply returns_conseq.
  { apply (client_loop_run fuel c qp0 m size ts Hs Hm Hq Hh Hcq Hf k rs size st2 Hc Hw); lia. }
  intros r st3 (Er & M3 & Ho3). split; [exact Er|]. split; [|exact Ho3]. rewrite blocks_S.
  exact (moved_trans _ _ _ _ _ _ (moved_trans _ _ _ _ _ _ M1 M2) M3).
Qed.
End Xfer.

(** ** Property *)

(** C5 The transfer loop of xx.cpp sends its pattern. This is the part of [client]
    after its session has been made ([client_transfer], lines 22 to 68), started
    with a session that is given as ready - connected, with a send buffer; the
    program's own constructor never gets there ([SessionLife.init_never_completes]).
    Over a working adapter with nothing outstanding, for [iter] blocks of [size] bytes that fit the send
    buffer and make whole groups, the client's pattern is filled in, the
    transfer terminates with success, and the messages its queue pair accepted are the
    [iter] blocks of the buffer, in order; the send buffer is never stored to
    while the adapter may still be reading it; and the server's check accepts
    these bytes. The completion of the last message has not been awaited. *)
Theorem xx_transfer {W} (E : Env W) q cq `{!Adapter E q cq} fuel c qp0 m rs size iter junk st :
  s_ctx rs = Some c -> qp c = Some qp0 -> qp_handle qp0 = q -> send_cq c = cq ->
  send_mem rs = Some m -> 0 < zlen (send_wc rs) -> (max_delay < fuel)%nat ->
  0 < size <= RdmaContext.size m -> 0 < iter -> size * iter < 2 ^ 31 -> (size * iter) mod 4 = 0 ->
  zlen junk = size * iter ->
  outstanding (world st) = 0 -> in_flight q cq (trace st) = 0 ->
  let turns := Z.to_nat (size * iter / 4) in
  exists ts, client_pattern turns (Some junk) size iter = Ret ts /\
    returns (client_transfer fuel (Z.to_nat (iter - 1)) rs size (size * iter) ts) st (fun r st' =>
      fst r = 0 /\ outstanding (world st') = 1 /\
      (quiet q cq (buf m) (trace st) -> quiet q cq (buf m) (trace st')) /\
      exists ms, sent q (trace st') = sent q (trace st) ++ ms /\ zlen ms = iter /\
        Forall (fun b => zlen b = size) ms /\
        verify_loop turns (size * iter) 0 65 (concat ms) = Ret None).
Proof.
  intros Hc Hq Hh Hcq Hm Hw Hf Hs Hi Hb H4 Hj Ho Hin turns.
  destruct (pattern_run size iter junk ltac:(nia) H4 Hj) as (ts & Hts & Hz & Hver).
  exists ts. split; [exact Hts|]. rewrite <- Hz.
  eapply returns_conseq.
  { apply (client_transfer_run q cq fuel c qp0 m size ts (Z.to_nat (iter - 1)) rs st); auto; try nia. }
  intros [r rs'] st' (Er & (M1 & _ & M3) & Ho'). split; [exact Er|]. split; [exact Ho'|]. split; [exact M3|].
  replace (S (Z.to_nat (iter - 1))) with (Z.to_nat iter) in M1 by lia.
  eexists. split; [exact M1|]. split; [unfold blocks, zlen; rewrite length_map, length_seq; lia|]. split.
  - unfold blocks. rewrite Forall_map. apply Forall_forall. intros i Hin'. apply elem_of_seq in Hin'.
    apply zlen_slice; nia.
  - rewrite blocks_concat by nia. rewrite Hz. apply Hver.
    + rewrite zlen_slice; lia.
    + rewrite slice_full; [reflexivity|lia].
Qed.

(** ** Witness: three blocks of eight bytes over the adapter of SessionBulk. *)

Definition send_region : rdma_mem :=
  {| rm_self := 5; mr := {| mr_handle := 6; mr_addr := 8192; lkey := 7; Verbs.rkey := 8 |};
     buf := 8192; RdmaContext.size := 32768 |}.

Definition xx_session : session := sample_session{{send_mem := Some send_region}}.

Example xx_transfer_witness :
  exists ts rs' st' ms,
    client_pattern 6 (Some (replicate 24 0)) 8 3 = Ret ts /\
    client_transfer (H := nic) 2 2 xx_session 8 24 ts nic_start = (Ret (0, rs'), st') /\
    sent (Mock.fresh 7) (trace st') = ms /\ zlen ms = 3 /\ verify_loop 6 24 0 65 (concat ms) = Ret None.
Proof.
  destruct (xx_transfer nic (Mock.fresh 7) (Mock.fresh 6) 2 sample_context
    {| qp_handle := Mock.fresh 7; qp_num := 71 |} send_region xx_session 8 3 (replicate 24 0) nic_start
    eq_refl eq_refl eq_refl eq_refl eq_refl ltac:(reflexivity) ltac:(cbn; lia)
    ltac:(cbn; lia) ltac:(lia) ltac:(reflexivity) eq_refl eq_refl eq_refl eq_refl) as (ts & Hts & Hr).
  destruct (returns_inv _ _ _ Hr) as ([r rs'] & st' & Hrun & Er & _ & _ & ms & Hms & Hl & _ & Hv).
  cbn [fst] in Er. subst r. exists ts, rs', st', ms. auto.
Defined.
