(* ===== verification/Copiers.v ===== *)
(** The programs of debug/ that copy a memory image through a session:
    cpyread.cpp, regread.cpp and migration.cpp. They call two functions that no
    file defines, [rdma_session::send_blocking] and [rdma_session::roce_name]:
    both are parameters. *)
From Stdlib Require Import String.
From coqutil Require Import Datatypes.RecordSetters.
From S2P Require Import Prelude CText Gid Verbs Mock HugePage ExchDest RdmaContext RdmaOps.
From S2P Require Import RwExchange RdmaConnect Session SessionLife Drivers Transfer.
Open Scope Z_scope.
Import DoubleBraceUpdate.

(** debug/rdma_session.h, the accessors. *)
Definition set_maxCQE (s : session) (cqe : Z) : session := s{{maxCQE := cqe}}.
Definition get_send_mem (s : session) : option rdma_mem := send_mem s.
Definition get_wc (s : session) : list ibv_wc := wc s.
Definition get_rw_buf (s : session) : option rdma_mem := c ← s_ctx s; rw c.
Definition get_posted_recv (s : session) : Z := posted_recv s.
Definition get_peer_host (s : session) : option (list Z) := c ← s_ctx s; peer_host c.

(** The C string at the front of a buffer with its NUL: what
    [send_blocking(data, strlen(data)+1)] is given. *)
Definition message (data : list Z) : option (list Z) := t ← c_string data; Some (t ++ [0]).

(** [tg] of both programs, and [all]. *)
Definition image_size : Z := 2 * (1024 * 1024 * 1024).

(** The parameters of [connect]. *)
Definition copy_params (dev : list Z) (size : Z) : init_params :=
  zero_params{{p_mem_size := size; p_ib_devname := Some dev; p_gidx := 0}}.

Section Copiers.
Context {W : Type} `{Env W}.
Variable send_blocking : session -> list Z -> M (St W) session.
Variable roce_name : M (St W) (list Z).
Variables (fuel : nat) (e : endian) (l : locals) (junk tmp : list Z) (fresh : window)
  (junk_wc : ibv_wc) (uninit : session).

(** [connect(url, size)] of cpyread.cpp ([dev] "Ethernet") and regread.cpp ("IB"). *)
Definition connect (dev url : list Z) (size : Z) : M (St W) session :=
  let* d := get_device dev in
  new_client_session fuel e l junk tmp fresh junk_wc uninit url (copy_params d size).

(** [connect(url)] of migration.cpp. *)
Definition migration_connect (url : list Z) : M (St W) session :=
  let* d := roce_name in
  new_client_session fuel e l junk tmp fresh junk_wc uninit url (copy_params d RW_SIZE).

(** The image: [ptr], and what the memory holds after [init_mem]. *)
Definition image (alloc : M (St W) Z) (mem : list Z) : M (St W) (Z * list Z) :=
  let* p := alloc in
  let* img := lift (init_mem fuel (if p =? 0 then None else Some mem) image_size) in
  ret (p, img).

(** [connect] and [init_mem] of regread.cpp. *)
Definition regread_connect (size : Z) : M (St W) session :=
  connect (chars "IB") (chars "192.168.1.88") size.

Definition regread_image (mem : list Z) : M (St W) (Z * list Z) :=
  image (malloc_huge_pages image_size) mem.

(** ** cpyread.cpp *)

(** [move(session->get_rw_buf(), ptr, cur, ss)]. *)
Definition move_to_window (s : session) (img : list Z) (cur ss : Z) : M (St W) unit :=
  let* m := deref (get_rw_buf s) in
  let* d := deref (buf_read (u64 cur mod image_size) ss img) in
  if RdmaContext.size m <? ss then undef else sys (mem_store (buf m) d).

(** [while(cur < all)]. *)
Fixpoint copy_loop (n : nat) (s : session) (data img : list Z) (cur ss : Z)
  : M (St W) (session * list Z) :=
  if cur <? image_size then
    match n with
    | O => out_of_fuel
    | S n =>
        move_to_window s img cur ss ;;;
        let* data := deref (sprintf data 0 "%d" [AInt ss]) in
        let* msg := deref (message data) in
        let* s := send_blocking s msg in
        let* (_, data, s) := Session.read fuel s data in
        let* answer := deref (c_string data) in
        if negb (bool_decide (answer = chars "done")) then ret (s, data) else
        let* s := if get_posted_recv s <? 1000
                  then let* (_, s) := post_recv s 15000 in ret s else ret s in
        copy_loop n s data img (cur + ss) ss
    end
  else ret (s, data).

(** [main] of cpyread.cpp; [data] is the stack array, [mem] the allocated image. *)
Definition cpyread (n : nat) (ss : Z) (data mem : list Z) : M (St W) Z :=
  sys (malloc (Bytes (u64 ss))) ;;;
  let* (_, img) := image (sys (malloc (Bytes image_size))) mem in
  let* s := connect (chars "Ethernet") (chars "192.168.1.3") ss in
  deref (s_ctx s) ;;;
  let* (s, _) := copy_loop n s data img 0 ss in
  let* s := send_blocking s (chars "0" ++ [0]) in
  close s ;;; ret 0.

(** ** regread.cpp *)

(** [reg_memory]: [for(i=0,j=0; cur<tg; cur+=bs,++j)]; [data] is the buffer
    printed to, [cap] the number of slots of [mems]. [None] is [exit(1)]. *)
Fixpoint reg_memory (n : nat) (s : session) (ptr cur bs cap i : Z) (data : list Z)
    (mems : list rdma_mem) : M (St W) (option (list rdma_mem * list Z)) :=
  if cur <? image_size then
    match n with
    | O => out_of_fuel
    | S n =>
        let* m := reg_buf s (ptr + cur) (u64 bs) in
        if cap <=? zlen mems then undef else
        match m with
        | None => ret None
        | Some m =>
            let* data := deref (sprintf data i "%016lu:%08x"
                                  [AInt (mr_addr (mr m)); AInt (Verbs.rkey (mr m))]) in
            if 2 ^ 31 <=? i + 25 then undef else
            reg_memory n s ptr (u64 (cur + bs)) bs cap (i + 25) data (mems ++ [m])
        end
    end
  else ret (Some (mems, data)).

(** [dereg_memory(mems, num)]: the results are not looked at. *)
Fixpoint dereg_memory (num : nat) (mems : list rdma_mem) : M (St W) unit :=
  match num, mems with
  | O, _ => ret tt
  | S num, m :: mems => rdma_dereg_mr (Some m) ;;; dereg_memory num mems
  | S _, [] => undef
  end.

(** [main] of regread.cpp. [None]: [exit(1)]. *)
Definition regread (n : nat) (ss : Z) (data head mem : list Z) : M (St W) (option Z) :=
  sys (malloc (Bytes (u64 ss))) ;;;
  let* (ptr, _) := regread_image mem in
  if ss =? 0 then undef else
  let num := i32 (Z.quot image_size ss) in
  let len := num * 25 in
  if negb ((- 2 ^ 31 <=? len) && (len <? 2 ^ 31)) then undef else
  let* s := regread_connect len in
  deref (s_ctx s) ;;;
  let* p := sys (malloc (Bytes (u64 (8 * num)))) in
  let* m := deref (get_rw_buf s) in
  let* window := sys (mem_load (buf m) (RdmaContext.size m)) in
  let* r := reg_memory n s ptr 0 ss (if p =? 0 then 0 else num) 0 window [] in
  match r with
  | None => ret None
  | Some (mems, window) =>
      sys (mem_store (buf m) window) ;;;
      let* head := deref (sprintf head 0 "%d" [AInt len]) in
      let* msg := deref (message head) in
      let* s := send_blocking s msg in
      let* (_, data, s) := Session.read fuel s data in
      deref (c_string data) ;;;
      dereg_memory (Z.to_nat num) mems ;;;
      close s ;;;
      free_huge_pages ptr ;;;
      ret (Some 0)
  end.

(** ** migration.cpp *)

(** [while(true)]: [pool] is the memory of the window, [data] the stack array. *)
Fixpoint migrate_loop (n : nat) (fd : Z) (pool data : list Z) : M (St W) unit :=
  match n with
  | O => out_of_fuel
  | S n =>
      let* (size, pool) := collect fuel pool in
      if (size =? 0) || (size =? -1) then ret tt else
      let* data := deref (sprintf data 0 "%d" [AInt size]) in
      let* msg := deref (message data) in
      sys (sys_write fd msg) ;;;
      let* (k, bytes) := sys (sys_read fd 10) in
      let* data := deref (if 0 <? k then buf_write 0 (take (Z.to_nat k) bytes) data else Some data) in
      let* answer := deref (c_string data) in
      if negb (bool_decide (answer = chars "done")) then ret tt else migrate_loop n fd pool data
  end.

Definition migration (n : nat) (data : list Z) : M (St W) Z :=
  let* s := migration_connect (chars "192.168.1.3") in
  let* c := deref (s_ctx s) in
  let* m := deref (get_rw_buf s) in
  let* pool := sys (mem_load (buf m) (RdmaContext.size m)) in
  migrate_loop n (fd c) pool data ;;;
  sys (sys_write (fd c) (chars "0" ++ [0])) ;;;
  close s ;;; ret 0.
End Copiers.

(** ** Specifications *)

(** The decimal text of a count. *)
Definition decimal (n : Z) : list Z := print_uint 10 n.

Lemma sprintf_d q v : 0 <= v < 2 ^ 31 -> sprintf q 0 "%d" [AInt v] = buf_write 0 (decimal v ++ [0]) q.
Proof.
  intros Hv. unfold sprintf, sprintf_text.
  change (format _) with (Some [DConv false None false CvD]). cbn -[print_uint i32 buf_write].
  rewrite i32_small by lia. destruct (Z.ltb_spec v 0); [lia|]. rewrite app_nil_r, pad_no_width.
  reflexivity.
Qed.

Lemma decimal_digits v : 0 <= v -> all_digits 10 (decimal v).
Proof. intros. apply digits_all; lia. Qed.

(** The text sits at the front of the array; it is never the answer ["done"]. *)
Lemma announce q v :
  0 <= v < 2 ^ 31 -> 11 <= zlen q ->
  exists q', sprintf q 0 "%d" [AInt v] = Some q' /\ zlen q' = zlen q /\
             message q' = Some (decimal v ++ [0]) /\ c_string q' = Some (decimal v) /\
             decimal v <> chars "done".
Proof.
  intros Hv Hq. rewrite sprintf_d by exact Hv.
  assert (Hl : zlen (decimal v) <= 10) by (apply print_uint_zlen; lia).
  destruct (buf_write 0 (decimal v ++ [0]) q) as [q'|] eqn:E.
  2:{ exfalso. assert (Hb : exists b, buf_write 0 (decimal v ++ [0]) q = Some b)
        by (eexists; apply buf_write_Some; split; [rewrite zlen_app; change (zlen [0]) with 1; lia|reflexivity]).
      destruct Hb; congruence. }
  exists q'. split; [reflexivity|]. split; [eapply buf_write_zlen, E|].
  apply buf_write_Some in E as [_ ->].
  assert (Hs : forall r, c_string ((decimal v ++ [0]) ++ r) = Some (decimal v)).
  { intros r. rewrite <- app_assoc. apply c_string_app, (all_digits_nonzero 10); [lia|].
    apply decimal_digits. lia. }
  change (Z.to_nat 0) with O. rewrite firstn_O, app_nil_l. unfold message. rewrite Hs. split; [reflexivity|]. split; [reflexivity|].
  intros Hd. pose proof (decimal_digits v ltac:(lia)) as Ha. rewrite Hd in Ha. inversion Ha as [|? ? Hc _].
  discriminate Hc.
Qed.

Section CopierSpec.
Context {W : Type} `{Env W}.

(** ** cpyread.cpp stops after its first block *)

Lemma stored_at_calls a tr1 tr2 :
  map ev_call tr1 = map ev_call tr2 -> stored_at a tr1 = stored_at a tr2.
Proof.
  revert tr2. induction tr1 as [|[c1 r1] tr1 IH]; intros [|[c2 r2] tr2] E; try discriminate E; [reflexivity|].
  cbn [map ev_call] in E. injection E as <- E. cbn [stored_at]. rewrite (IH _ E). reflexivity.
Qed.

(** What the loop needs of a session: the window, and a ring to read from. *)
Definition ready (s : session) (m : rdma_mem) : Prop :=
  get_rw_buf s = Some m /\
  exists c slots, s_ctx s = Some c /\ recv_mem s = Some slots /\
    0 <= s_recv_index s < s_recv_nums s /\ s_recv_nums s <= zlen (slot_addrs slots).

(** The copy loop of cpyread.cpp ends in its first round: whatever the peer
    answers, [read] delivers nothing, so the text compared with ["done"] is the
    block size just printed into the same array; one block of the image was
    copied, although it has [2 GiB / ss]. *)
Theorem copy_loop_one_block send_blocking fuel n s m ss data img st :
  (forall s d st, ready s m -> returns (send_blocking s d) st (fun s' st' =>
     ready s' m /\ stored_at (buf m) (trace st') = stored_at (buf m) (trace st))) ->
  ready s m -> 0 < ss <= RdmaContext.size m -> ss < 2 ^ 31 -> zlen img = image_size -> 11 <= zlen data ->
  returns (copy_loop send_blocking fuel (S n) s data img 0 ss) st (fun r st' =>
    c_string (snd r) = Some (decimal ss) /\
    stored_at (buf m) (trace st') = take (Z.to_nat ss) img).
Proof.
  intros Hsend Hs Hss Hmax Himg Hd. cbn [copy_loop].
  change (0 <? image_size) with true. cbn iota.
  apply returns_bind. unfold move_to_window. rewrite (proj1 Hs). apply returns_bind, returns_ret.
  change (u64 0 mod image_size) with 0. rewrite buf_read_in by (unfold image_size in *; lia).
  apply returns_bind, returns_ret. destruct (Z.ltb_spec (RdmaContext.size m) ss); [lia|].
  refine (returns_sys (mem_store _ _) st _ _). intros [] w _. unfold slice. cbn [drop Z.to_nat].
  destruct (announce data ss ltac:(lia) Hd) as (d' & -> & Hz & Hm & Hstr & Hne).
  apply returns_bind, returns_ret. rewrite Hm. apply returns_bind, returns_ret, returns_bind.
  eapply returns_conseq; [apply Hsend, Hs|]. intros s' st' [(_ & c & slots & Hc & Hrm & Hi & Hn) Hst].
  apply returns_bind. eapply returns_conseq; [apply (Session.read_run fuel s' c slots d' st' Hc Hrm Hi Hn)|].
  intros r st2 [-> Htr]. apply returns_bind. rewrite Hstr. apply returns_ret.
  rewrite bool_decide_eq_false_2 by exact Hne. apply returns_ret. cbn [snd]. split; [exact Hstr|].
  rewrite (stored_at_calls (buf m) _ (Ev (mem_load (s_rbuf s') (s_recv_nums s' * s_gap s')) [] :: trace st'))
    by exact Htr.
  cbn [stored_at]. rewrite Hst. cbn [stored_at trace]. rewrite Z.eqb_refl. reflexivity.
Qed.

(** ** regread.cpp prints past the end of its window *)

Lemma reg_memory_overrun s ptr bs cap n : 0 < bs -> forall cur i data mems st,
  0 <= cur < image_size -> 0 <= i -> zlen data <= i + 25 * ((image_size - cur) / bs) ->
  if_returns (reg_memory n s ptr cur bs cap i data mems) st (fun r _ => r = None).
Proof.
  intros Hbs. induction n as [|n IH]; intros cur i data mems st Hcur Hi Hd; cbn [reg_memory];
    (destruct (Z.ltb_spec cur image_size); [|lia]); [exact I|].
  apply if_returns_any. intros m st1. destruct (cap <=? zlen mems); [exact I|].
  destruct m as [m|]; [|apply if_returns_ret; reflexivity].
  apply if_returns_bind, if_returns_deref. intros data' Ed. unfold sprintf in Ed.
  destruct (record_text {| w_addr := mr_addr (mr m); w_rkey := Verbs.rkey (mr m) |}) as (t & Et & Ht).
  cbn [w_addr w_rkey] in Et. rewrite Et in Ed. cbn [mbind option_bind] in Ed.
  pose proof (buf_write_zlen _ _ _ _ Ed) as Hz. apply buf_write_Some in Ed as [[_ Hb] _].
  rewrite zlen_app in Hb. change (zlen [0]) with 1 in Hb. destruct (2 ^ 31 <=? i + 25); [exact I|].
  assert (Hq : 1 < (image_size - cur) / bs) by lia.
  assert (Hr : image_size - cur = bs * ((image_size - cur) / bs) + (image_size - cur) mod bs)
    by (apply Z.div_mod; lia).
  pose proof (Z.mod_pos_bound (image_size - cur) bs Hbs) as Hm.
  assert (Hlt : cur + bs < image_size) by nia.
  rewrite u64_small by (unfold image_size in *; lia). apply IH; [lia|lia|]. rewrite Hz.
  replace (image_size - (cur + bs)) with (image_size - cur + -1 * bs) by lia. rewrite Z.div_add by lia. lia.
Qed.

(** regread.cpp never registers its image: the window it prints its regions to
    was allocated with 25 bytes per region, and the last [sprintf] stores a NUL
    behind it, if the loop gets that far. *)
Theorem regread_overruns n s ptr bs cap window st :
  0 < bs -> zlen window = Z.quot image_size bs * 25 ->
  if_returns (reg_memory n s ptr 0 bs cap 0 window []) st (fun r _ => r = None).
Proof.
  intros Hb Hw. apply reg_memory_overrun; [exact Hb|unfold image_size; lia|lia|].
  rewrite Hw, Z.quot_div_nonneg, Z.sub_0_r by (unfold image_size; lia). lia.
Qed.

(** ** migration.cpp announces what it collected *)

(** The messages written to [f], oldest first. *)
Fixpoint written (f : Z) (tr : list event) : list (list Z) :=
  match tr with
  | [] => []
  | Ev (sys_write g d) _ :: tr' => written f tr' ++ (if g =? f then [d] else [])
  | _ :: tr' => written f tr'
  end.

Lemma collect_loop_quiet f limit fuel : forall got pool st,
  if_returns (collect_loop fuel limit got pool) st (fun _ st' =>
    written f (trace st') = written f (trace st)).
Proof.
  induction fuel as [|fuel IH]; intros got pool st; cbn [collect_loop]; [exact I|].
  apply if_returns_bind, if_returns_sys. intros [tmp bytes] w _. destruct (0 <? tmp).
  - apply if_returns_bind, if_returns_deref. intros pool' _.
    eapply if_returns_conseq; [apply IH|]. intros r st' ->. reflexivity.
  - apply if_returns_ret. reflexivity.
Qed.

(** Every message of a run of migration.cpp's loop is the decimal text of a
    number of bytes between one and the size of the window. *)
Theorem migrate_announces `{!ReadEnv} fuel n f : RW_SIZE < Z.of_nat fuel -> forall pool data st,
  zlen pool = RW_SIZE -> 11 <= zlen data ->
  if_returns (migrate_loop fuel n f pool data) st (fun _ st' => exists sizes,
    written f (trace st') = written f (trace st) ++ map (fun k => decimal k ++ [0]) sizes /\
    Forall (fun k => 1 <= k <= RW_SIZE) sizes).
Proof.
  intros Hf. induction n as [|n IH]; intros pool data st Hp Hd; cbn [migrate_loop]; [exact I|].
  apply if_returns_bind. eapply if_returns_conseq.
  { apply if_returns_and; [apply (collect_loop_quiet f)|].
    apply returns_if_returns, (collect_terminates RW_SIZE); [unfold RW_SIZE; lia|exact Hp|lia]. }
  intros [size pool'] st1 (Hw & Hp' & Hsize). cbn [fst snd] in *.
  destruct (Z.eqb_spec size 0); cbn [orb]; [apply if_returns_ret; exists []; rewrite app_nil_r; auto|].
  destruct (Z.eqb_spec size (-1)); [apply if_returns_ret; exists []; rewrite app_nil_r; auto|].
  assert (Hs : 1 <= size <= RW_SIZE) by lia.
  destruct (announce data size ltac:(unfold RW_SIZE in *; lia) Hd) as (d' & -> & Hz & Hm & _).
  cbn [deref]. apply if_returns_bind, if_returns_ret. rewrite Hm. cbn [deref].
  apply if_returns_bind, if_returns_ret, if_returns_bind, if_returns_sys. intros k w _. cbn [world trace].
  apply if_returns_bind, if_returns_sys. intros [k' bytes] w' _.
  apply if_returns_bind, if_returns_deref. intros data' Ed.
  assert (Hd' : zlen data' = zlen d').
  { destruct (0 <? k'); [eapply buf_write_zlen, Ed|congruence]. }
  assert (Hst : forall tr, tr = Ev (sys_read f 10) (k', bytes) :: Ev (sys_write f (decimal size ++ [0])) k :: trace st1 ->
            written f tr = written f (trace st) ++ [decimal size ++ [0]]).
  { intros tr ->. cbn [written]. rewrite Z.eqb_refl, Hw. reflexivity. }
  apply if_returns_bind, if_returns_deref. intros answer _.
  destruct (bool_decide _); cbn [negb].
  - eapply if_returns_conseq; [apply IH; [exact Hp'|lia]|]. intros _ st' (sizes & E & HF).
    exists (size :: sizes). split; [|constructor; assumption]. rewrite E. cbn [trace map].
    rewrite (Hst _ eq_refl), <- app_assoc. reflexivity.
  - apply if_returns_ret. exists [size]. split; [apply (Hst _ eq_refl)|constructor; [exact Hs|constructor]].
Qed.
End CopierSpec.
